(* ===== verification/_CoqProject ===== *)
-Q . S2P
Prelude.v
Containers.v
Text.v
Redis.v
Packet.v
Frames.v
AckWindow.v
RudpPacket.v
RetransmissionQueue.v
RudpEngine.v
Topology.v
TopologyStatus.v
WorldDocuments.v
WorldHandover.v
Kubernetes.v
Aws.v
Runtime.v
Transport.v
Resilience.v
InstanceRegistry.v
SessionDirectory.v
Opcodes.v
GatewayConfig.v
Gateway.v
GatewayUdp.v
GatewayBridge.v
BackendConnection.v
Concurrency.v
Scheduler.v
MemoryPool.v
Dispatch.v
Connection.v
Session.v
ChatState.v
ChatHandlers.v
ChatAdmin.v
ChatFrames.v
ChatWorld.v
ChatRaces.v
ChatJobs.v
ChatPolicy.v
ChatDelivery.v
ChatContinuity.v
ChatBans.v
WriteBehind.v
WriteBehindRuns.v
AdminCommands.v
