(* ===== verification/Prelude.v ===== *)
(** * Dynaxis: a verification library

    Dynaxis is a C++20 realtime server framework: a core library (networking,
    the reliable-UDP protocol, the realtime world runtime, the control-plane
    documents and planners), a gateway, a chat and FPS server, and operator
    tools.  This library models its decision-making code as Rocq functions and
    proves what each part promises.

    ** Method

    Every definition is a translation of the function named in its comment:
    stateful code takes and returns a record with the class's members, fallible
    code returns an option or a result record, loops are recursions on the data
    they walk.  Integers are [Z] with the reduction of their width written out
    (below); signed arithmetic is exact, since its overflow is undefined in the
    source.  Each class guards its state with one mutex, so operations are
    atomic and a concurrent run is a sequence of operations; the theorems
    quantify over all sequences.  Where a handler takes its lock more than once
    ([GatewayUdp]) the model lets other threads act in between, and where
    processes share Redis ([SessionDirectory], [InstanceRegistry]) their commands
    interleave.  Metrics, log lines and observer calls are
    lists of events.  What the sources only call (clocks, sockets, Redis, SQL,
    OpenSSL) enters as an argument.  The visiting order of an unordered map is
    the class [MapIteration]: results hold for every order.

    ** Files

    - [Prelude]: machine integers, tactics, list lemmas.  [Containers]: maps,
      sets and their visiting order.  [Text]: key=value documents.
    - [Packet] (core/protocol/packet.hpp): frame header, big-endian fields,
      length-prefixed UTF-8 strings; the validator accepts exactly UTF-8.
    - [AckWindow], [RudpPacket], [RetransmissionQueue], [RudpEngine]
      (core/net/rudp): the ACK window refines the set of accepted numbers, the
      packet codec round-trips, the queue keeps exactly the unacknowledged
      packets; on top of them the engine delivers a packet at most once over any
      run, keeps its flow-control limits, completes the handshake and delivers a
      queued payload exactly.
    - [Topology], [TopologyStatus] (core/worlds/topology.hpp,
      server/app/topology_runtime_assignment.hpp): reconciliation of desired and
      observed pools, the action plan, and the request, execution, realization
      and adapter-lease views; a plan is empty exactly when the topology is
      aligned, and an action is shown realized only when it is.
    - [WorldDocuments], [WorldHandover] (core/state/world_lifecycle_policy.hpp,
      core/worlds/migration.hpp, world_transfer.hpp, world_drain.hpp): document
      codecs with round trips, transfer, migration and drain evaluation; a drain
      may be cleared exactly when the hand-over is complete.
    - [Kubernetes], [Aws] (core/worlds/kubernetes.hpp, aws.hpp): pool bindings
      and orchestration phases; retirement waits for the hand-over.
    - [Runtime] (core/realtime/runtime.hpp, runtime.cpp): fixed-step driver and
      authoritative world; client replicas converge to the authoritative state,
      rewinds are exact, inputs apply once, the driver does not drift.
    - [Transport] (core/realtime/direct_bind.hpp, transport_policy.hpp,
      direct_delivery.hpp, transport_quality.hpp): bind payloads, rollout,
      routes and loss accounting of the direct path.
    - [Redis] (core/storage/redis/client.hpp): the commands the code calls, as an
      interface with the documented behaviour as laws.  [Resilience]
      (core/net/resilience_controls.hpp, gateway/udp_bind_abuse_guard.hpp,
      core/storage_execution/retry_backoff.hpp): retry budget, circuit breaker
      (refines a two-state specification), bind abuse guard, backoff.
    - [InstanceRegistry] (core/state/instance_registry.cpp,
      redis_instance_registry.cpp): records, selectors, both backends; the Redis
      one implements a shared map.  [SessionDirectory]
      (gateway/session_directory.cpp): sticky bindings as programs of Redis
      commands; gateways agree under every interleaving.
    - [Opcodes] (tools/gen_opcodes.py, both opcode specifications,
      core/protocol/opcode_policy.hpp): the generator's checks and the tables the
      gateway consults.
    - [GatewayConfig], [Gateway], [GatewayUdp], [GatewayBridge],
      [BackendConnection] (gateway/src): configuration, admission and routing, UDP
      ingress, the client's handshake and bridge, and the connection to the
      backend.  They compose the files above: routing runs on the registry, the
      directory and the breaker; UDP ingress runs [RudpEngine], the bind codec,
      the sequence tracker, the rollout policy and the opcode tables.  Shown: only
      an authenticated endpoint is bound, nothing is forwarded past the guards,
      sequenced traffic is not replayed, the chosen backend is usable and, if chosen
      by load, least loaded, draining worlds are respected, the bridge and the frame inspector
      lose no byte, the backend queue is FIFO within its budget.
    - [Concurrency] (core/concurrent/job_queue.cpp, locked_queue.hpp,
      thread_manager.cpp, core/storage/db_worker_pool.cpp): the blocking queues
      with the condition variable as sets of waiting and notified threads; FIFO
      and bounded under every schedule, no lost wake-up while producers cannot
      block, a lost one when they can.
    - [Scheduler] (core/concurrent/task_scheduler.cpp): every call and the poll
      loop, cut where it runs a callback; no task is lost, run early, run twice
      or run after a successful cancel.
    - [MemoryPool], [Dispatch], [Connection], [Session] (core/memory, core/net):
      the buffer pool, the dispatcher and transport router, the stream connection
      and the TCP session with its strand; every frame is dispatched once and in
      order, packets are written as queued within the budget, handlers run only
      when the policy allowed the message, no two buffers share a block.
      [Frames] holds the framing and queue-budget functions they share with the
      gateway.
    - [ChatState], [ChatHandlers], [ChatWorld], [ChatRaces], [ChatJobs],
      [ChatPolicy], [ChatDelivery], [ChatAdmin], [ChatFrames], [ChatBans],
      [ChatContinuity] (server/chat, server/app/router.cpp): the chat
      service.  [ChatState] has the tables behind the service's mutex and the
      functions on them, [ChatHandlers] every handler as a program of locked
      sections and outputs, [ChatWorld] all interleavings of the sections with
      sessions coming and going and addresses reused.  Shown: as long as logins
      come in time the tables describe the sessions exactly ([ChatRaces], with
      runs that break them otherwise); each handler is a run of that machine and
      the route table lets in only what it should ([ChatJobs]); rooms are entered
      and left on authority and senders are rate limited ([ChatPolicy]); a
      message reaches exactly its room ([ChatDelivery]).  [ChatAdmin] has the
      administrator's commands, the settings and the functions for scripts;
      [ChatFrames] which tables each section leaves alone; [ChatBans] shows that
      bans hold until they expire, with the login that slips past one, and that
      settings stay in range; [ChatContinuity]
      models resume tokens and shows that a token resumes its session.
    - [WriteBehind], [WriteBehindRuns] (tools/wb_worker, tools/wb_dlq_replayer):
      the write-behind worker and the dead-letter replayer as programs over the
      commands of Redis streams and PostgreSQL, run command by command in any
      interleaving with failures and restarts; no event is lost unless the stream
      is trimmed, its dead letter is refused or a worker is told to drop it.
    - [AdminCommands] (tools/admin_app, core/security/admin_command_auth.cpp,
      server/app/admin_fanout_subscription.cpp): signed administrator commands
      from the HTTP query to the call on the chat service; commands that survive
      the line format are executed as meant by the servers they address, once, and
      only if signed.

    ** Bounds

    Recursion is structural throughout; where a source loop is bounded by the
    length of its input the model recurses on that input, and where it needs a
    turn counter ([utf8_loop], [consume_loop], [inspect_loop],
    [try_finish_handshake], [parse_login_res_from]) the counter is the bound of the
    source's own loop and the theorems show it is enough ([login_res_parser_can_loop]
    shows an input on which the source's loop has no bound).  Counters that the
    source wraps are wrapped; theorems about runs carry the bound under which
    identifiers do not repeat ([is_u32] of the number of operations).

    ** Not modelled

    Socket and process plumbing (asio, signals, threads), code whose substance
    is a call into a service or library (SQL, Redis, Lua, OpenSSL, dynamic
    loading), text output of metrics, the GUI client and the load generator.
    [TokenBucket] computes in floating point; whether it grants a token is an
    input of the admission model.  SHA-256, HMAC, [std::hash], random numbers,
    clocks and the authenticator are parameters.  Redis, as
    the class [RedisLaws] states it, answers every command and expires no key: the
    lifetimes the sources pass are ignored, and theorems that use it speak of the
    time before a key runs out.  Of the admin application only the four commands are
    modelled: its authentication and routing, the endpoints that write worlds and
    topologies and the pages that only read are not.  The plugin chains and the
    message handlers of the FPS service are not reached.
*)
From Stdlib Require Import ZArith Lia Ascii String.
From stdpp Require Import base numbers list gmap strings sorting.

#[global] Set Default Goal Selector "!".

(** ** Machine integers

    An unsigned w-bit integer is a [Z]; every operation whose C++ counterpart
    can wrap is written with the reduction below, so wrap-around is visible
    in the definitions.  Conversions to [std::int32_t] are two's complement
    (C++20). *)
Open Scope Z_scope.

Definition wrap (w x : Z) : Z := x mod 2 ^ w.
Definition u8 (x : Z) : Z := wrap 8 x.
Definition u16 (x : Z) : Z := wrap 16 x.
Definition u32 (x : Z) : Z := wrap 32 x.
Definition u64 (x : Z) : Z := wrap 64 x.
Definition i32 (x : Z) : Z := (x + 2 ^ 31) mod 2 ^ 32 - 2 ^ 31.

(** Membership of the ranges the types denote. *)
Definition in_u (w x : Z) : Prop := 0 <= x < 2 ^ w.
Abbreviation is_u8 := (in_u 8).
Abbreviation is_u16 := (in_u 16).
Abbreviation is_u32 := (in_u 32).
Abbreviation is_u64 := (in_u 64).
Definition is_i32 (x : Z) : Prop := - 2 ^ 31 <= x < 2 ^ 31.

Declare Scope mach_scope.
Notation "x +₃₂ y" := (u32 (x + y)) (at level 50, left associativity) : mach_scope.
Notation "x -₃₂ y" := (u32 (x - y)) (at level 50, left associativity) : mach_scope.
Notation "x *₃₂ y" := (u32 (x * y)) (at level 40, left associativity) : mach_scope.
Notation "x +₆₄ y" := (u64 (x + y)) (at level 50, left associativity) : mach_scope.
Notation "x -₆₄ y" := (u64 (x - y)) (at level 50, left associativity) : mach_scope.
Notation "x *₆₄ y" := (u64 (x * y)) (at level 40, left associativity) : mach_scope.
Notation "x <<₆₄ n" := (u64 (Z.shiftl x n)) (at level 55, right associativity) : mach_scope.
Open Scope mach_scope.

(** Closes goals about ranges and wrap-around after unfolding the widths. *)
Ltac mach_unfold :=
  unfold u8, u16, u32, u64, i32, wrap, in_u, is_i32 in *;
  change (2 ^ 8) with 256 in *; change (2 ^ 16) with 65536 in *;
  change (2 ^ 31) with 2147483648 in *; change (2 ^ 32) with 4294967296 in *;
  change (2 ^ 64) with 18446744073709551616 in *.
Ltac mach := mach_unfold; Z.div_mod_to_equations; lia.

Lemma wrap_small w x : in_u w x -> wrap w x = x.
Proof. apply Z.mod_small. Qed.
Lemma wrap_range w x : 0 <= w -> in_u w (wrap w x).
Proof. intros. apply Z.mod_pos_bound. lia. Qed.
Lemma u8_small x : is_u8 x -> u8 x = x.  Proof. apply wrap_small. Qed.
Lemma u16_small x : is_u16 x -> u16 x = x.  Proof. apply wrap_small. Qed.
Lemma u32_small x : is_u32 x -> u32 x = x.  Proof. apply wrap_small. Qed.
Lemma u64_small x : is_u64 x -> u64 x = x.  Proof. apply wrap_small. Qed.
Lemma i32_small x : is_i32 x -> i32 x = x.  Proof. intros. mach. Qed.
Lemma u8_range x : is_u8 (u8 x).  Proof. by apply wrap_range. Qed.
Lemma u16_range x : is_u16 (u16 x).  Proof. by apply wrap_range. Qed.
Lemma u32_range x : is_u32 (u32 x).  Proof. by apply wrap_range. Qed.
Lemma u64_range x : is_u64 (u64 x).  Proof. by apply wrap_range. Qed.

Create HintDb mach.
Create Rewrite HintDb mach.
#[export] Hint Resolve u8_range u16_range u32_range u64_range : mach.
#[export] Hint Rewrite u8_small u16_small u32_small u64_small i32_small
  using solve [auto with mach | mach] : mach.

(** [++c] on a 32-bit counter, iterated: the counter holds the number of
    increments modulo 2^32. *)
Lemma u32_add_l x y : u32 (u32 x + y) = u32 (x + y).
Proof. unfold u32, wrap. by rewrite Zplus_mod_idemp_l. Qed.
Lemma u32_add_r x y : u32 (x + u32 y) = u32 (x + y).
Proof. unfold u32, wrap. by rewrite Zplus_mod_idemp_r. Qed.
Lemma u64_add_l x y : u64 (u64 x + y) = u64 (x + y).
Proof. unfold u64, wrap. by rewrite Zplus_mod_idemp_l. Qed.

(** ** Bit masks of 64-bit words *)
Lemma testbit_u64 x i :
  0 <= i -> Z.testbit (u64 x) i = (i <? 64) && Z.testbit x i.
Proof.
  intros Hi. unfold u64, wrap.
  destruct (Z.ltb_spec i 64).
  - by rewrite Z.mod_pow2_bits_low by lia.
  - by rewrite Z.mod_pow2_bits_high by lia.
Qed.
Lemma testbit_bit d i : 0 <= d -> Z.testbit (Z.shiftl 1 d) i = (i =? d).
Proof.
  intros Hd. rewrite Z.shiftl_1_l, Z.pow2_bits_eqb by lia. apply Z.eqb_sym.
Qed.
(** The C idiom [(mask & (1 << d)) != 0] reads one bit. *)
Lemma land_bit_nonzero m d :
  0 <= d -> negb (Z.land m (Z.shiftl 1 d) =? 0) = Z.testbit m d.
Proof.
  intros Hd.
  destruct (Z.testbit m d) eqn:Hb.
  - apply negb_true_iff, Z.eqb_neq. intros H0.
    assert (Ht : Z.testbit (Z.land m (Z.shiftl 1 d)) d = true)
      by (rewrite Z.land_spec, Hb, testbit_bit by lia; lia).
    by rewrite H0, Z.bits_0 in Ht.
  - apply negb_false_iff, Z.eqb_eq, Z.bits_inj'. intros i Hi.
    rewrite Z.land_spec, testbit_bit, Z.bits_0 by lia.
    destruct (Z.eqb_spec i d) as [->|]; [by rewrite Hb | by rewrite andb_false_r].
Qed.
Lemma lor_u64_range x y : is_u64 x -> is_u64 y -> is_u64 (Z.lor x y).
Proof.
  intros Hx Hy.
  assert (Hm : u64 (Z.lor x y) = Z.lor x y); [|rewrite <- Hm; apply u64_range].
  apply Z.bits_inj'. intros i Hi. rewrite testbit_u64 by lia.
  destruct (Z.ltb_spec i 64); [done|].
  rewrite <- (u64_small x), <- (u64_small y) by done.
  rewrite Z.lor_spec, !testbit_u64 by lia.
  by destruct (Z.ltb_spec i 64); [lia|].
Qed.
Lemma bit64_range d : 0 <= d < 64 -> is_u64 (Z.shiftl 1 d).
Proof. intros. rewrite Z.shiftl_1_l. split; [lia|]. apply Z.pow_lt_mono_r; lia. Qed.

(** ** Bytes, and big-endian fields as positional notation *)
Abbreviation bytes_ok := (Forall (in_u 8)).

Lemma land_ones_mod a n : 0 <= n -> Z.land a (Z.ones n) = a mod 2 ^ n.
Proof. apply Z.land_ones. Qed.
Lemma land_255 a : Z.land a 255 = a mod 256.
Proof. by apply (land_ones_mod a 8). Qed.
Lemma land_u32max a : Z.land a 4294967295 = u32 a.
Proof. by apply (land_ones_mod a 32). Qed.
Lemma shiftr_div a n : 0 <= n -> Z.shiftr a n = a / 2 ^ n.
Proof. apply Z.shiftr_div_pow2. Qed.
(** Or-ing a shifted value with one that fits below the shift adds them. *)
Lemma lor_shiftl_add a b n : 0 <= n -> 0 <= b < 2 ^ n ->
  Z.lor (Z.shiftl a n) b = a * 2 ^ n + b.
Proof.
  intros Hn Hb.
  assert (Hd : Z.land (Z.shiftl a n) b = 0).
  { apply Z.bits_inj'. intros i Hi. rewrite Z.land_spec, Z.bits_0.
    destruct (Z.ltb_spec i n).
    - by rewrite Z.shiftl_spec_low by lia.
    - rewrite <- (Z.mod_small b (2 ^ n)), (Z.mod_pow2_bits_high b) by lia.
      apply andb_false_r. }
  rewrite <- Z.lxor_lor, <- Z.add_nocarry_lxor, Z.shiftl_mul_pow2 by done. lia.
Qed.

(** Splits an equation between explicit lists into its elements. *)
Ltac cons_eq := repeat match goal with |- _ :: _ = _ :: _ => apply (f_equal2 cons) end.

(** [buf[off ..] = bs], the effect of a sequence of indexed byte stores. *)
Definition store (off : nat) (bs buf : list Z) : list Z :=
  take off buf ++ bs ++ drop (off + length bs) buf.
(** [p[i]] on a buffer; the code only reads indices its guards admit. *)
Definition byte_at (buf : list Z) (i : nat) : Z := default 0 (buf !! i).

(** ** Lists *)

(** A filter that drops nothing is the identity. *)
Lemma filter_full_length {A} (P : A → Prop) `{∀ x, Decision (P x)} (l : list A) :
  length (filter P l) = length l → filter P l = l.
Proof.
  induction l as [|x l IH]; [done|]. rewrite filter_cons. intros Hl.
  case_decide; simpl in Hl.
  - f_equal. apply IH. lia.
  - pose proof (length_filter P l). lia.
Qed.

(** ** Record update

    [r <| field ::= f |>] applies [f] to one field and [r <| field := v |>]
    replaces it; the setter is derived from the record's eta expansion. *)
Class Eta (R : Type) := eta : R → R.
Class Setter {R T : Type} (proj : R → T) := set : (T → T) → R → R.
Arguments set {R T} proj {_} f r.
Ltac solve_setter :=
  lazymatch goal with
  | |- @Setter ?R ?T ?proj =>
      let e := constr:(λ (f : T → T) (r : R),
        ltac:(let b := eval hnf in (eta r) in
              lazymatch b with context C [proj r] => let b' := context C [f (proj r)] in exact b' end)) in
      exact e
  end.
#[export] Hint Extern 0 (Setter _) => solve_setter : typeclass_instances.
Declare Scope record_scope.
Notation "x <| proj ::= f |>" := (set proj f x)
  (at level 1, f at level 200, left associativity, format "x  <|  proj  ::=  f  |>") : record_scope.
Notation "x <| proj := v |>" := (set proj (λ _, v) x)
  (at level 1, v at level 200, left associativity, format "x  <|  proj  :=  v  |>") : record_scope.
