(* ===== verification/Containers.v ===== *)
(** * Standard containers as the sources use them

    A [std::unordered_map] is a [gmap] with [emplace] (which keeps an existing
    entry) and an unspecified iteration order, stated as the class
    [MapIteration]; a [std::set] of integers is a [gset Z] visited in
    [ascending] order.  [emit_loop] is the shape shared by the
    status evaluators: a loop that appends one report per input and counts it
    in a summary of 32-bit counters. *)
From S2P Require Import Prelude.
From stdpp Require Import list gmap strings sorting.
Open Scope Z_scope.

(** [m.emplace(k, v)] *)
Definition emplace {A} (k : string) (v : A) (m : gmap string A) : gmap string A :=
  match m !! k with Some _ => m | None => <[k := v]> m end.

(** [for (const auto& x : l) index.emplace(key(x), x);] *)
Definition index_by {A} (key : A → string) (l : list A) : gmap string A :=
  foldl (λ m x, emplace (key x) x m) ∅ l.

(** The order in which a range-[for] visits an [unordered_map]. *)
Class MapIteration (K : Type) `{Countable K} := {
  iterate : ∀ {A}, gmap K A → list (K * A);
  iterate_perm : ∀ A (m : gmap K A), iterate m ≡ₚ map_to_list m;
}.
#[global] Instance map_to_list_iteration K `{Countable K} : MapIteration K :=
  {| iterate := λ A m, map_to_list m; iterate_perm := λ A m, reflexivity (map_to_list m) |}.

(** The ascending order of a [std::set<std::uint32_t>]. *)
Definition ascending (s : gset Z) : list Z := merge_sort Z.le (elements s).

(** [++counter] on a [std::uint32_t], executed when [b]. *)
Definition bump_if (b : bool) (n : Z) : Z := if b then n +₃₂ 1 else n.

(** A loop that reports one [B] per element and counts it in a summary. *)
Definition emit_loop {A B S} (count : S → B → S) (mk : A → B) (s : S) (l : list A) : S * list B :=
  foldl (λ '(s, acc) x, let y := mk x in (count s y, acc ++ [y])) (s, []) l.

(** ** Lemmas *)
Lemma emit_loop_eq {A B S} (count : S → B → S) (mk : A → B) s l :
  emit_loop count mk s l = (foldl count s (mk <$> l), mk <$> l).
Proof.
  unfold emit_loop.
  enough (H : ∀ s acc, foldl (λ '(s, acc) x, let y := mk x in (count s y, acc ++ [y])) (s, acc) l
    = (foldl count s (mk <$> l), acc ++ (mk <$> l))) by apply (H s []).
  induction l as [|x l IH]; intros s' acc; simpl; [by rewrite app_nil_r|].
  rewrite IH. by rewrite <- app_assoc.
Qed.

Lemma foldl_counter {S A} (f : S → Z) (upd : S → A → S) (P : A → Prop) `{∀ a, Decision (P a)} l :
  (∀ s a, f (upd s a) = bump_if (bool_decide (P a)) (f s)) →
  ∀ s, is_u32 (f s) → f (foldl upd s l) = u32 (f s + Z.of_nat (length (filter P l))).
Proof.
  intros Hf. induction l as [|a l IH]; intros s Hs; simpl.
  { rewrite Z.add_0_r. by rewrite u32_small. }
  rewrite IH, Hf by (rewrite Hf; unfold bump_if; case_match; [apply u32_range|done]).
  rewrite filter_cons. unfold bump_if. case_bool_decide; destruct (decide (P a)); try done.
  cbn [length]. unfold u32, wrap. rewrite Zplus_mod_idemp_l. f_equal. lia.
Qed.

Lemma emplace_lookup_same {A} k (v : A) m : emplace k v m !! k = Some (default v (m !! k)).
Proof.
  unfold emplace. destruct (m !! k) eqn:Hk; [by rewrite Hk|]. by rewrite lookup_insert_eq.
Qed.
Lemma emplace_lookup_other {A} k k' (v : A) m : k ≠ k' → emplace k v m !! k' = m !! k'.
Proof. intros. unfold emplace. destruct (m !! k); [done|]. by rewrite lookup_insert_ne. Qed.

(** The first element with a key is the one found in the index. *)
Definition first_with {A} (key : A → string) (k : string) (l : list A) : option A :=
  head (filter (λ x, key x = k) l).

Lemma foldl_emplace_lookup {A} (key : A → string) l : ∀ (m : gmap string A) k,
  foldl (λ m x, emplace (key x) x m) m l !! k
  = match m !! k with Some v => Some v | None => first_with key k l end.
Proof.
  unfold first_with. induction l as [|x l IH]; intros m k; simpl; [by destruct (m !! k)|].
  rewrite IH, filter_cons. destruct (decide (key x = k)) as [<-|Hne].
  - rewrite emplace_lookup_same. by destruct (m !! key x).
  - by rewrite emplace_lookup_other.
Qed.
Lemma index_by_lookup {A} (key : A → string) l k : index_by key l !! k = first_with key k l.
Proof. unfold index_by. by rewrite foldl_emplace_lookup, lookup_empty. Qed.

Lemma first_with_some {A} (key : A → string) k l x :
  first_with key k l = Some x → key x = k ∧ x ∈ l.
Proof.
  unfold first_with. intros H. apply head_Some_elem_of in H.
  by apply list_elem_of_filter in H.
Qed.
Lemma first_with_none {A} (key : A → string) k l :
  first_with key k l = None ↔ ∀ x, x ∈ l → key x ≠ k.
Proof.
  unfold first_with. rewrite head_None. split.
  - intros H x Hx Hk. apply (filter_nil_not_elem_of _ _ x H); done.
  - intros H. destruct (filter _ l) as [|y ys] eqn:Hf; [done|].
    assert (Hy : y ∈ filter (λ x, key x = k) l) by (rewrite Hf; left).
    apply list_elem_of_filter in Hy as [? ?]. by destruct (H y).
Qed.
(** With distinct keys the index returns the element itself. *)
Lemma first_with_unique {A} (key : A → string) l x :
  NoDup (key <$> l) → x ∈ l → first_with key (key x) l = Some x.
Proof.
  unfold first_with. induction l as [|y l IH]; intros Hnd Hx; [by apply not_elem_of_nil in Hx|].
  rewrite fmap_cons in Hnd. apply NoDup_cons in Hnd as [Hny Hnd]. rewrite filter_cons.
  apply elem_of_cons in Hx as [->|Hx].
  { by rewrite decide_True. }
  rewrite decide_False; [by apply IH|]. intros Heq. apply Hny. rewrite Heq.
  by apply list_elem_of_fmap_2.
Qed.

Lemma ascending_perm s : ascending s ≡ₚ elements s.
Proof. apply merge_sort_Permutation. Qed.
Lemma elem_of_ascending s x : x ∈ ascending s ↔ x ∈ s.
Proof. rewrite ascending_perm. apply elem_of_elements. Qed.
Lemma ascending_nodup s : NoDup (ascending s).
Proof. rewrite ascending_perm. apply NoDup_elements. Qed.
Lemma ascending_sorted s : Sorted Z.le (ascending s).
Proof. apply Sorted_merge_sort. intros x y. lia. Qed.
Lemma elem_of_iterate `{Countable K} `{!MapIteration K} {A} (m : gmap K A) k v :
  (k, v) ∈ iterate m ↔ m !! k = Some v.
Proof. rewrite (iterate_perm _ m). apply elem_of_map_to_list. Qed.
Lemma iterate_keys_nodup `{Countable K} `{!MapIteration K} {A} (m : gmap K A) :
  NoDup (iterate m).*1.
Proof. rewrite (iterate_perm _ m). apply NoDup_fst_map_to_list. Qed.
