(* ===== verification/Text.v ===== *)
(** * Text documents

    The character-level routines the key=value documents share
    ([trim_ascii_copy], [parse_*_bool], the line loop, [strtoull], decimal
    output), in the "C" locale. *)
From S2P Require Import Prelude.
From stdpp Require Import list strings.
Open Scope Z_scope.

Abbreviation char := Ascii.ascii.
Definition code (c : char) : Z := Z.of_N (Ascii.N_of_ascii c).
Definition of_code (n : Z) : char := Ascii.ascii_of_N (Z.to_N n).
(** A [std::string] as bytes. *)
Fixpoint bytes (s : string) : list Z :=
  match s with EmptyString => [] | String c s => code c :: bytes s end.
Fixpoint text_of (bs : list Z) : string :=
  match bs with [] => EmptyString | b :: bs => String (of_code b) (text_of bs) end.
Definition newline : char := of_code 10.
Definition equals_sign : char := of_code 61.

(** [std::isspace] and [std::tolower]. *)
Definition is_space (c : char) : bool :=
  (code c =? 32) || ((9 <=? code c) && (code c <=? 13)).
Definition to_lower (c : char) : char :=
  if (65 <=? code c) && (code c <=? 90) then of_code (code c + 32) else c.

Fixpoint ltrim (s : string) : string :=
  match s with
  | String c s' => if is_space c then ltrim s' else s
  | EmptyString => s
  end.
Fixpoint rtrim (s : string) : string :=
  match s with
  | String c s' =>
      let r := rtrim s' in
      if bool_decide (r = EmptyString) && is_space c then EmptyString else String c r
  | EmptyString => EmptyString
  end.
(** [trim_ascii_copy] / [trim_migration_ascii_copy] *)
Definition trim (s : string) : string := rtrim (ltrim s).

Fixpoint map_string (f : char → char) (s : string) : string :=
  match s with EmptyString => EmptyString | String c s => String (f c) (map_string f s) end.
Definition lower (s : string) : string := map_string to_lower s.
(** [parse_world_lifecycle_bool] / [parse_migration_bool] *)
Definition parse_bool (raw : string) : bool :=
  let normalized := lower raw in
  bool_decide (normalized = "1") || bool_decide (normalized = "true")
  || bool_decide (normalized = "yes") || bool_decide (normalized = "on").
Definition print_bool (b : bool) : string := if b then "1" else "0".

(** [tag.starts_with(prefix)] and then [tag.substr(prefix.size())]. *)
Fixpoint after_prefix (prefix tag : string) : option string :=
  match prefix, tag with
  | EmptyString, _ => Some tag
  | String p prefix, String c tag => if bool_decide (c = p) then after_prefix prefix tag else None
  | String _ _, EmptyString => None
  end.
(** [stream >> word]: the next word and the rest of the line. *)
Fixpoint split_word (s : string) : string * string :=
  match s with
  | EmptyString => (EmptyString, EmptyString)
  | String c s' => if is_space c then (EmptyString, s) else let '(w, rest) := split_word s' in (String c w, rest)
  end.
Definition next_word (s : string) : string * string := split_word (ltrim s).

(** [find(c)] with the two [substr] around the hit. *)
Fixpoint cut (c : char) (s : string) : option (string * string) :=
  match s with
  | EmptyString => None
  | String c' s' =>
      if bool_decide (c' = c) then Some (EmptyString, s')
      else match cut c s' with
           | Some (a, b) => Some (String c' a, b)
           | None => None
           end
  end.
(** The lines visited by the [while (offset <= payload.size())] loop. *)
Fixpoint lines (s : string) : list string :=
  match s with
  | EmptyString => [EmptyString]
  | String c s' =>
      if bool_decide (c = newline) then EmptyString :: lines s'
      else match lines s' with
           | l :: ls => String c l :: ls
           | [] => []
           end
  end.
(** The key and value of one line; [None] for lines the parsers skip. *)
Definition key_value (line : string) : option (string * string) :=
  match cut equals_sign line with
  | Some (k, v) => Some (trim k, trim v)
  | None => None
  end.

(** [std::strtoull(s, nullptr, 10)]: leading spaces, an optional sign, digits;
    out of range gives [ULLONG_MAX], a minus sign negates modulo 2^64. *)
Definition is_digit (c : char) : bool := (48 <=? code c) && (code c <=? 57).
Fixpoint digits_value (s : string) (acc : Z) : Z :=
  match s with
  | String c s' => if is_digit c then digits_value s' (acc * 10 + (code c - 48)) else acc
  | EmptyString => acc
  end.
Definition saturate_u64 (n : Z) : Z := if n <? 2 ^ 64 then n else 2 ^ 64 - 1.
Definition strtoull (s : string) : Z :=
  match ltrim s with
  | String c s' =>
      if code c =? 45 then
        let n := digits_value s' 0 in
        if n <? 2 ^ 64 then u64 (- n) else 2 ^ 64 - 1
      else if code c =? 43 then saturate_u64 (digits_value s' 0)
      else saturate_u64 (digits_value (String c s') 0)
  | EmptyString => 0
  end.

(** [std::stoul] in base 10 on text without leading blanks; [None] is an exception. *)
Fixpoint digit_prefix (s : string) : string :=
  match s with String c s => if is_digit c then String c (digit_prefix s) else EmptyString | EmptyString => EmptyString end.
Definition stoul (raw : string) : option Z :=
  let value s := let d := digit_prefix s in
    if bool_decide (d = EmptyString) then None
    else let n := digits_value d 0 in if n <? 2 ^ 64 then Some n else None in
  match raw with
  | String c rest => if code c =? 45 then (λ n, u64 (- n)) <$> value rest else if code c =? 43 then value rest else value raw
  | EmptyString => None
  end.
(** [out << n] for an unsigned 64-bit integer; 20 digits are enough. *)
Fixpoint print_digits (fuel : nat) (n : Z) (acc : string) : string :=
  match fuel with
  | O => acc
  | S fuel =>
      let acc := String (of_code (48 + n mod 10)) acc in
      if n <? 10 then acc else print_digits fuel (n / 10) acc
  end.
Definition print_u64 (n : Z) : string := print_digits 20 n EmptyString.

(** ** Lemmas *)
Fixpoint has_char (c : char) (s : string) : bool :=
  match s with
  | EmptyString => false
  | String c' s => bool_decide (c' = c) || has_char c s
  end.
(** A value a document can carry: one line, no outer spaces. *)
Definition plain (s : string) : Prop := has_char newline s = false ∧ trim s = s.

Lemma has_char_app c s1 s2 : has_char c (s1 +:+ s2) = has_char c s1 || has_char c s2.
Proof. induction s1 as [|c' s1 IH]; simpl; [done|]. by rewrite IH, orb_assoc. Qed.

Lemma cut_app c s1 s2 : has_char c s1 = false → cut c (s1 +:+ String c s2) = Some (s1, s2).
Proof.
  induction s1 as [|c' s1 IH]; simpl; intros H.
  - by rewrite bool_decide_eq_true_2.
  - apply orb_false_iff in H as [Hc H]. rewrite Hc, IH by done. done.
Qed.
Lemma cut_none c s : cut c s = None ↔ has_char c s = false.
Proof.
  induction s as [|c' s IH]; simpl; [done|]. destruct (bool_decide (c' = c)); [done|]. simpl.
  rewrite <- IH. by destruct (cut c s) as [[]|].
Qed.

(** The structural [lines] is the loop over [find('\n')]. *)
Lemma lines_cut s :
  lines s = match cut newline s with None => [s] | Some (l, rest) => l :: lines rest end.
Proof.
  induction s as [|c s IH]; simpl; [done|]. destruct (bool_decide (c = newline)); [done|].
  rewrite IH. destruct (cut newline s) as [[l rest]|]; done.
Qed.
Lemma lines_app l s : has_char newline l = false → lines (l +:+ String newline s) = l :: lines s.
Proof. intros H. by rewrite lines_cut, cut_app. Qed.

Lemma of_code_code c : of_code (code c) = c.
Proof. unfold of_code, code. by rewrite N2Z.id, Ascii.ascii_N_embedding. Qed.
Lemma code_of_code n : 0 ≤ n < 256 → code (of_code n) = n.
Proof. intros H. unfold of_code, code. rewrite Ascii.N_ascii_embedding by lia. lia. Qed.
Lemma code_range c : 0 ≤ code c < 256.
Proof. unfold code. pose proof (Ascii.N_ascii_bounded c). lia. Qed.

Fixpoint all_chars (P : char → bool) (s : string) : bool :=
  match s with EmptyString => true | String c s => P c && all_chars P s end.

Lemma digit_of_code n : 0 ≤ n < 10 → is_digit (of_code (48 + n)) = true.
Proof. intros H. unfold is_digit. rewrite code_of_code by lia. lia. Qed.

Lemma digits_value_print fuel : ∀ n acc, 0 ≤ n < 10 ^ Z.of_nat fuel →
  digits_value (print_digits fuel n acc) 0 = digits_value acc n ∨ fuel = 0%nat.
Proof.
  induction fuel as [|fuel IH]; intros n acc Hn; [by right|]. left. cbn [print_digits].
  rewrite Nat2Z.inj_succ, Z.pow_succ_r in Hn by lia.
  pose proof (Z.mod_pos_bound n 10 ltac:(lia)) as Hm.
  destruct (Z.ltb_spec n 10) as [Hlt|Hge].
  - cbn [digits_value]. rewrite digit_of_code, code_of_code by lia. f_equal. rewrite Z.mod_small; lia.
  - destruct (IH (n / 10) (String (of_code (48 + n mod 10)) acc)) as [->| ->].
    + split; [apply Z.div_pos; lia|]. apply Z.div_lt_upper_bound; lia.
    + cbn [digits_value]. rewrite digit_of_code, code_of_code by lia. f_equal.
      pose proof (Z.div_mod n 10 ltac:(lia)). lia.
    + simpl in Hn. lia.
Qed.
Lemma print_digits_all fuel : ∀ n acc, 0 ≤ n → all_chars is_digit acc = true →
  all_chars is_digit (print_digits fuel n acc) = true.
Proof.
  induction fuel as [|fuel IH]; intros n acc Hn Ha; [done|]. cbn [print_digits].
  assert (Ha' : all_chars is_digit (String (of_code (48 + n mod 10)) acc) = true).
  { cbn [all_chars]. rewrite Ha, digit_of_code; [done|]. apply Z.mod_pos_bound. lia. }
  destruct (n <? 10); [done|]. apply IH; [apply Z.div_pos; lia|done].
Qed.
Lemma print_digits_nonempty fuel : ∀ n acc, acc ≠ EmptyString → print_digits fuel n acc ≠ EmptyString.
Proof.
  induction fuel as [|fuel IH]; intros n acc Ha; [done|]. cbn [print_digits]. by destruct (n <? 10); [|apply IH].
Qed.
Lemma print_u64_nonempty n : print_u64 n ≠ EmptyString.
Proof.
  unfold print_u64. change 20%nat with (S 19). generalize 19%nat as fuel. intros fuel. cbn [print_digits].
  destruct (n <? 10); [done|]. by apply print_digits_nonempty.
Qed.

(** Digits contain neither spaces nor newlines. *)
Lemma is_digit_code c : is_digit c = true → 48 ≤ code c ≤ 57.
Proof. unfold is_digit. lia. Qed.
Lemma digit_not_space c : is_digit c = true → is_space c = false.
Proof. intros H%is_digit_code. unfold is_space. lia. Qed.
Lemma rtrim_no_space s : all_chars (λ c, negb (is_space c)) s = true → rtrim s = s.
Proof.
  induction s as [|c s IH]; simpl; [done|]. intros [Hc Hs]%andb_true_iff. rewrite IH by done.
  apply negb_true_iff in Hc. by rewrite Hc, andb_false_r.
Qed.
Lemma all_chars_impl (P Q : char → bool) s :
  (∀ c, P c = true → Q c = true) → all_chars P s = true → all_chars Q s = true.
Proof.
  intros HPQ. induction s as [|c s IH]; simpl; [done|]. intros [Hc Hs]%andb_true_iff.
  by rewrite HPQ, IH.
Qed.
Lemma plain_no_space s : all_chars (λ c, negb (is_space c)) s = true → plain s.
Proof.
  intros H. split.
  - induction s as [|c s IH]; simpl in *; [done|]. apply andb_true_iff in H as [Hc Hs].
    rewrite IH, orb_false_r by done. apply bool_decide_eq_false. intros ->. done.
  - unfold trim. destruct s as [|c s]; [done|]. simpl. assert (H' := H).
    simpl in H. apply andb_true_iff in H as [Hc _]. apply negb_true_iff in Hc. rewrite Hc.
    by apply rtrim_no_space.
Qed.
Lemma plain_print_u64 n : 0 ≤ n → plain (print_u64 n).
Proof.
  intros Hn. apply plain_no_space. eapply all_chars_impl, print_digits_all; [|done|done].
  intros c Hc. by rewrite digit_not_space.
Qed.
Lemma plain_print_bool b : plain (print_bool b).
Proof. by destruct b. Qed.
Lemma parse_print_bool b : parse_bool (print_bool b) = b.
Proof. by destruct b. Qed.

Lemma digits_value_print_u64 n : is_u64 n → digits_value (print_u64 n) 0 = n.
Proof.
  intros Hn. destruct (digits_value_print 20 n EmptyString) as [Hv|Hv]; [|done|done].
  unfold in_u in Hn. simpl. lia.
Qed.
Lemma strtoull_print n : is_u64 n → strtoull (print_u64 n) = n.
Proof.
  intros Hn. pose proof (digits_value_print_u64 n Hn) as Hv. unfold strtoull, print_u64 in *.
  set (s := print_digits 20 n EmptyString) in *.
  assert (Hd : all_chars is_digit s = true) by (apply print_digits_all; [apply Hn|done]).
  destruct s as [|c s]; [exact Hv|]. simpl in Hd. apply andb_true_iff in Hd as [Hc _].
  cbn [ltrim]. rewrite (digit_not_space _ Hc). apply is_digit_code in Hc.
  destruct (Z.eqb_spec (code c) 45); [lia|]. destruct (Z.eqb_spec (code c) 43); [lia|].
  rewrite Hv. unfold saturate_u64. destruct (Z.ltb_spec n (2 ^ 64)); [done|]. unfold in_u in Hn. lia.
Qed.

(** A line built as key, [=], value. *)
Lemma key_value_line k v : has_char equals_sign k = false → trim k = k → trim v = v →
  key_value (k +:+ String equals_sign v) = Some (k, v).
Proof. intros Hk Htk Htv. unfold key_value. by rewrite cut_app, Htk, Htv. Qed.

Lemma after_prefix_spec p t v : after_prefix p t = Some v ↔ t = p +:+ v.
Proof.
  revert t. induction p as [|c p IH]; intros t; simpl; [split; [by intros [= ->]|by intros ->]|].
  destruct t as [|c' t]; [done|]. case_bool_decide as Hc.
  - subst c'. rewrite IH. split; [by intros ->|by intros [= ->]].
  - split; [done|]. by intros [= -> _].
Qed.

(** ** Trimming *)
Lemma ltrim_app a b : ltrim a ≠ EmptyString → ltrim (a +:+ b) = ltrim a +:+ b.
Proof.
  induction a as [|c a IH]; [done|]. change (String c a +:+ b) with (String c (a +:+ b)). cbn [ltrim]. destruct (is_space c); [apply IH|done].
Qed.
Lemma rtrim_app a b : rtrim b ≠ EmptyString → rtrim (a +:+ b) = a +:+ rtrim b.
Proof.
  intros Hb. induction a as [|c a IH]; [done|]. change (String c a +:+ b) with (String c (a +:+ b)). cbn [rtrim]. rewrite IH.
  rewrite bool_decide_eq_false_2; [done|]. destruct a; [exact Hb|done].
Qed.
Lemma ltrim_length s : (String.length (ltrim s) ≤ String.length s)%nat.
Proof. induction s as [|c s IH]; cbn; [lia|]. destruct (is_space c); cbn; lia. Qed.
Lemma rtrim_length s : (String.length (rtrim s) ≤ String.length s)%nat.
Proof. induction s as [|c s IH]; cbn; [lia|]. destruct (_ && _); cbn; lia. Qed.
Lemma trimmed_left s : trim s = s → ltrim s = s.
Proof.
  unfold trim. destruct s as [|c s]; [done|]. cbn. destruct (is_space c); [|done]. intros E. exfalso.
  pose proof (rtrim_length (ltrim s)). pose proof (ltrim_length s). rewrite E in *. cbn in *. lia.
Qed.
Lemma trimmed_right s : trim s = s → rtrim s = s.
Proof. intros E. rewrite <- E at 2. unfold trim. by rewrite (trimmed_left s E). Qed.
Lemma trimmed_both s : ltrim s = s → rtrim s = s → trim s = s.
Proof. intros Hl Hr. unfold trim. by rewrite Hl. Qed.
Lemma rtrim_rtrim s : rtrim (rtrim s) = rtrim s.
Proof.
  induction s as [|c s IH]; [done|]. cbn. destruct (bool_decide (rtrim s = EmptyString) && is_space c) eqn:E; [done|]. cbn. by rewrite IH, E.
Qed.
Lemma ltrim_head s : ltrim s = EmptyString ∨ ∃ c t, ltrim s = String c t ∧ is_space c = false.
Proof. induction s as [|c s IH]; [by left|]. cbn. destruct (is_space c) eqn:E; [done|]. right. eauto. Qed.
Lemma ltrim_rtrim_head c t : is_space c = false → ltrim (rtrim (String c t)) = rtrim (String c t).
Proof. intros Hc. cbn. rewrite Hc, andb_false_r. cbn. by rewrite Hc. Qed.
Lemma trim_trim s : trim (trim s) = trim s.
Proof.
  unfold trim. destruct (ltrim_head s) as [->|(c & t & -> & Hc)]; [done|]. by rewrite (ltrim_rtrim_head c t Hc), rtrim_rtrim.
Qed.
Lemma has_char_ltrim c s : has_char c s = false → has_char c (ltrim s) = false.
Proof. induction s as [|c' s IH]; [done|]. cbn. intros [H1 H2]%orb_false_iff. destruct (is_space c'); [by apply IH|]. cbn. by rewrite H1, H2. Qed.
Lemma has_char_rtrim c s : has_char c s = false → has_char c (rtrim s) = false.
Proof.
  induction s as [|c' s IH]; [done|]. cbn. intros [H1 H2]%orb_false_iff. destruct (_ && _); [done|]. cbn. rewrite H1. by apply IH.
Qed.
Lemma has_char_trim c s : has_char c s = false → has_char c (trim s) = false.
Proof. intros H. by apply has_char_rtrim, has_char_ltrim. Qed.
