(* ===== verification/Redis.v ===== *)
(** * Redis, as the sources see it

    The operations of [core/storage/redis/client.hpp] that the modelled code
    calls.  [RedisClient R] is the interface over an abstract server state [R]:
    every theorem about a caller holds for any implementation, failing ones
    included.  [RedisLaws] states the documented behaviour of the commands on a
    server that answers and keeps its keys; the finite map below satisfies it. *)
From S2P Require Import Prelude.
From stdpp Require Import list gmap strings.

Class RedisClient (R : Type) := {
  redis_get : R → string → option string;
  redis_mget : R → list string → option (list (option string));
  redis_scan_keys : R → string → option (list string);
  redis_setex : R → string → string → Z → R * bool;
  redis_del : R → string → R * bool;
  redis_set_if_not_exists : R → string → string → Z → R * bool;
  redis_set_if_equals : R → string → string → string → Z → R * bool;
  redis_del_if_equals : R → string → string → R * bool;
}.

(** Keys matched by the pattern [prefix*], for a prefix without pattern characters. *)
Definition literal_char (c : Ascii.ascii) : bool :=
  negb (existsb (Ascii.eqb c) [Ascii.ascii_of_nat 42; Ascii.ascii_of_nat 63; Ascii.ascii_of_nat 91;
                               Ascii.ascii_of_nat 92]).
Fixpoint literal (s : string) : bool :=
  match s with EmptyString => true | String c s => literal_char c && literal s end.

Class RedisLaws (R : Type) `{!RedisClient R} := {
  contents : R → gmap string string;
  get_contents r k : redis_get r k = contents r !! k;
  mget_contents r ks : redis_mget r ks = Some ((λ k, contents r !! k) <$> ks);
  scan_contents r prefix : literal prefix = true →
    ∃ ks, redis_scan_keys r (prefix +:+ "*") = Some ks
      ∧ ∀ k, k ∈ ks ↔ is_Some (contents r !! k) ∧ String.prefix prefix k = true;
  setex_contents r k v ttl :
    contents (redis_setex r k v ttl).1 = <[k := v]> (contents r) ∧ (redis_setex r k v ttl).2 = true;
  del_contents r k : contents (redis_del r k).1 = delete k (contents r);
  set_if_not_exists_contents r k v ttl :
    let '(r', ok) := redis_set_if_not_exists r k v ttl in
    match contents r !! k with
    | None => contents r' = <[k := v]> (contents r) ∧ ok = true
    | Some _ => contents r' = contents r ∧ ok = false
    end;
  set_if_equals_contents r k e v ttl :
    let '(r', ok) := redis_set_if_equals r k e v ttl in
    if bool_decide (contents r !! k = Some e) then contents r' = <[k := v]> (contents r) ∧ ok = true
    else contents r' = contents r ∧ ok = false;
  del_if_equals_contents r k e :
    let '(r', ok) := redis_del_if_equals r k e in
    if bool_decide (contents r !! k = Some e) then contents r' = delete k (contents r) ∧ ok = true
    else contents r' = contents r ∧ ok = false;
}.

(** A server that never fails and never expires a key. *)
Definition memory_set_if_not_exists (r : gmap string string) (k v : string) (_ : Z) : gmap string string * bool :=
  match r !! k with None => (<[k := v]> r, true) | Some _ => (r, false) end.
Definition memory_set_if_equals (r : gmap string string) (k e v : string) (_ : Z) : gmap string string * bool :=
  if bool_decide (r !! k = Some e) then (<[k := v]> r, true) else (r, false).
Definition memory_del_if_equals (r : gmap string string) (k e : string) : gmap string string * bool :=
  if bool_decide (r !! k = Some e) then (delete k r, true) else (r, false).
(** A pattern [prefix*]. *)
Definition memory_scan (r : gmap string string) (pattern : string) : option (list string) :=
  let prefix := String.substring 0 (String.length pattern - 1) pattern in
  Some (filter (λ k, String.prefix prefix k = true) (map_to_list r).*1).
#[global] Instance memory_redis : RedisClient (gmap string string) := {
  redis_get r k := r !! k;
  redis_mget r ks := Some ((λ k, r !! k) <$> ks);
  redis_scan_keys := memory_scan;
  redis_setex r k v _ := (<[k := v]> r, true);
  redis_del r k := (delete k r, true);
  redis_set_if_not_exists := memory_set_if_not_exists;
  redis_set_if_equals := memory_set_if_equals;
  redis_del_if_equals := memory_del_if_equals;
}.
Lemma substring_prefix (p : string) : ∀ s, String.substring 0 (String.length p) (p +:+ s) = p.
Proof. induction p as [|c p IH]; intros s; simpl; [by destruct s|]. by rewrite IH. Qed.
Lemma length_string_app (p s : string) : (String.length (p +:+ s) = String.length p + String.length s)%nat.
Proof. induction p as [|c p IH]; [done|]. simpl. by rewrite IH. Qed.
Lemma length_star (p : string) : (String.length (p +:+ "*") - 1 = String.length p)%nat.
Proof. rewrite length_string_app. simpl. lia. Qed.
Lemma memory_scan_spec r p : ∃ ks, memory_scan r (p +:+ "*") = Some ks
  ∧ ∀ k, k ∈ ks ↔ is_Some (r !! k) ∧ String.prefix p k = true.
Proof.
  unfold memory_scan. rewrite length_star, substring_prefix. eexists. split; [done|]. intros k.
  rewrite list_elem_of_filter, list_elem_of_fmap. split.
  - intros [Hp ([k' v] & -> & Hk)]. apply elem_of_map_to_list in Hk. simpl. eauto.
  - intros [[v Hv] Hp]. split; [done|]. exists (k, v). by rewrite elem_of_map_to_list.
Qed.
#[global] Program Instance memory_redis_laws : RedisLaws (gmap string string) := { contents r := r }.
Next Obligation. done. Qed.
Next Obligation. done. Qed.
Next Obligation. intros r p _. apply memory_scan_spec. Qed.
Next Obligation. done. Qed.
Next Obligation. done. Qed.
Next Obligation. intros r k v ttl. simpl. unfold memory_set_if_not_exists. by destruct (r !! k). Qed.
Next Obligation. intros r k e v ttl. simpl. unfold memory_set_if_equals. by case_bool_decide. Qed.
Next Obligation. intros r k e. simpl. unfold memory_del_if_equals. by case_bool_decide. Qed.
