(* ===== verification/Packet.v ===== *)
(** * Wire primitives and the frame header

    Model of [core/include/server/core/protocol/packet.hpp]: big-endian field
    access, the 14-byte frame header, strict UTF-8 validation and
    length-prefixed strings.  Byte vectors are lists of [Z]; a pointer into a
    buffer is the suffix it points at. *)
From S2P Require Import Prelude.
From stdpp Require Import list.
Open Scope Z_scope.

Definition k_header_bytes : nat := 14.

Inductive SegmentType := SegUnknown | SegSystemControl | SegApplicationPayload.

Definition is_system_msg_id (msg_id : Z) : bool := (1 <=? msg_id) && (msg_id <=? 15).
Definition classify_segment_type (msg_id : Z) : SegmentType :=
  if is_system_msg_id msg_id then SegSystemControl else SegApplicationPayload.

(** ** Error codes ([protocol_errors.hpp]) *)
Definition INTERNAL_ERROR : Z := 0x0001.
Definition LENGTH_LIMIT_EXCEEDED : Z := 0x0002.
Definition UNKNOWN_MSG_ID : Z := 0x0003.
Definition INVALID_PAYLOAD : Z := 0x0007.
Definition SERVER_BUSY : Z := 0x0008.
Definition UNSUPPORTED_VERSION : Z := 0x0009.
Definition NAME_TAKEN : Z := 0x0100.
Definition UNAUTHORIZED : Z := 0x0101.
Definition FORBIDDEN : Z := 0x0102.
Definition NO_ROOM : Z := 0x0104.
Definition NOT_MEMBER : Z := 0x0105.
Definition ROOM_MISMATCH : Z := 0x0106.

(** ** Big-endian fields *)
Definition read_be16 (p : list Z) : Z :=
  u16 (Z.lor (Z.shiftl (byte_at p 0) 8) (byte_at p 1)).
Definition read_be32 (p : list Z) : Z :=
  Z.lor (Z.lor (Z.lor (u32 (Z.shiftl (byte_at p 0) 24)) (u32 (Z.shiftl (byte_at p 1) 16)))
               (u32 (Z.shiftl (byte_at p 2) 8)))
        (byte_at p 3).

(** The bytes the writers store; [write_be16]/[write_be32] place them at an
    offset of the destination. *)
Definition be16 (v : Z) : list Z := [Z.land (Z.shiftr v 8) 255; Z.land v 255].
Definition be32 (v : Z) : list Z :=
  [Z.land (Z.shiftr v 24) 255; Z.land (Z.shiftr v 16) 255;
   Z.land (Z.shiftr v 8) 255; Z.land v 255].
Definition write_be16 (v : Z) (off : nat) (out : list Z) : list Z := store off (be16 v) out.
Definition write_be32 (v : Z) (off : nat) (out : list Z) : list Z := store off (be32 v) out.

(** ** Frame header *)
Record PacketHeader := {
  length_ : Z;
  msg_id : Z;
  hdr_flags : Z;
  seq_ : Z;
  utc_ts_ms32 : Z;
}.

Definition encode_header (h : PacketHeader) (out14 : list Z) : list Z :=
  let out14 := write_be16 (length_ h) 0 out14 in
  let out14 := write_be16 (msg_id h) 2 out14 in
  let out14 := write_be16 (hdr_flags h) 4 out14 in
  let out14 := write_be32 (seq_ h) 6 out14 in
  write_be32 (utc_ts_ms32 h) 10 out14.

Definition decode_header (in14 : list Z) : PacketHeader :=
  {| length_ := read_be16 (drop 0 in14);
     msg_id := read_be16 (drop 2 in14);
     hdr_flags := read_be16 (drop 4 in14);
     seq_ := read_be32 (drop 6 in14);
     utc_ts_ms32 := read_be32 (drop 10 in14) |}.

Definition packet_header_ok (h : PacketHeader) : Prop :=
  is_u16 (length_ h) ∧ is_u16 (msg_id h) ∧ is_u16 (hdr_flags h)
  ∧ is_u32 (seq_ h) ∧ is_u32 (utc_ts_ms32 h).

(** ** Strict UTF-8 validation *)

(** The inner [for] loop: [follow] continuation bytes folded into the
    codepoint; [None] is the early [return false]. *)
Fixpoint utf8_continue (follow : nat) (codepoint : Z) (s : list Z) : option (Z * list Z) :=
  match follow with
  | O => Some (codepoint, s)
  | S k =>
      match s with
      | [] => None
      | cont :: s' =>
          if negb (Z.land cont 0xC0 =? 0x80) then None
          else utf8_continue k (Z.lor (u32 (Z.shiftl codepoint 6)) (Z.land cont 0x3F)) s'
      end
  end.

(** The class of a lead byte: [(follow, initial codepoint, min_codepoint)]. *)
Definition utf8_lead (byte0 : Z) : option (nat * Z * Z) :=
  if Z.land byte0 0xE0 =? 0xC0 then Some (1%nat, Z.land byte0 0x1F, 0x80)
  else if Z.land byte0 0xF0 =? 0xE0 then Some (2%nat, Z.land byte0 0x0F, 0x800)
  else if Z.land byte0 0xF8 =? 0xF0 then Some (3%nat, Z.land byte0 0x07, 0x10000)
  else None.

(** One turn of the outer [while] on the suffix at [i]: the codepoint read and
    the suffix at the next [i], or the early [return false]. *)
Definition utf8_next (byte0 : Z) (rest : list Z) : option (Z * list Z) :=
  if byte0 <? 0x80 then Some (byte0, rest)
  else
    match utf8_lead byte0 with
    | None => None
    | Some (follow, cp0, min_codepoint) =>
        if (length rest <? follow)%nat then None
        else
          match utf8_continue follow cp0 rest with
          | None => None
          | Some (codepoint, rest') =>
              if codepoint <? min_codepoint then None
              else if 0x10FFFF <? codepoint then None
              else if (0xD800 <=? codepoint) && (codepoint <=? 0xDFFF) then None
              else Some (codepoint, rest')
          end
    end.

(** Each turn consumes at least one byte, so the length of the input bounds
    the number of turns. *)
Fixpoint utf8_loop (fuel : nat) (s : list Z) : bool :=
  match s with
  | [] => true
  | byte0 :: rest =>
      match fuel with
      | O => false
      | S fuel =>
          match utf8_next byte0 rest with
          | None => false
          | Some (_, rest') => utf8_loop fuel rest'
          end
      end
  end.
Definition is_valid_utf8 (s : list Z) : bool := utf8_loop (length s) s.

(** ** Length-prefixed strings *)
Definition write_lp_utf8 (out str : list Z) : list Z :=
  let str := if (0xFFFF <? Z.of_nat (length str)) then take (Z.to_nat 0xFFFF) str else str in
  out ++ be16 (Z.of_nat (length str)) ++ str.

(** [None] is [false]; [Some (out, in')] is [true] with the string read and
    the advanced input span. *)
Definition read_lp_utf8 (inp : list Z) : option (list Z * list Z) :=
  if (length inp <? 2)%nat then None
  else
    let len := read_be16 inp in
    if Z.of_nat (length inp) <? 2 + len then None
    else
      let payload := take (Z.to_nat len) (drop 2 inp) in
      if negb (is_valid_utf8 payload) then None
      else Some (payload, drop (2 + Z.to_nat len) inp).

(** ** Specification of UTF-8: the encoding of Unicode scalar values *)
Definition scalar (cp : Z) : Prop := 0 ≤ cp < 0xD800 ∨ 0xE000 ≤ cp ≤ 0x10FFFF.
Definition utf8_encode (cp : Z) : list Z :=
  if cp <? 0x80 then [cp]
  else if cp <? 0x800 then [0xC0 + cp / 64; 0x80 + cp mod 64]
  else if cp <? 0x10000 then
    [0xE0 + cp / 4096; 0x80 + (cp / 64) mod 64; 0x80 + cp mod 64]
  else [0xF0 + cp / 262144; 0x80 + (cp / 4096) mod 64;
        0x80 + (cp / 64) mod 64; 0x80 + cp mod 64].

(** ** Field lemmas *)
Lemma byte_at_0 a l : byte_at (a :: l) 0 = a.  Proof. done. Qed.
Lemma byte_at_S a l i : byte_at (a :: l) (S i) = byte_at l i.  Proof. done. Qed.
#[export] Hint Rewrite byte_at_0 byte_at_S land_255 land_u32max : mach.

Lemma read_be16_cons a b l : is_u8 a → is_u8 b → read_be16 (a :: b :: l) = a * 256 + b.
Proof.
  intros. unfold read_be16. rewrite !byte_at_S, !byte_at_0, lor_shiftl_add by mach.
  apply u16_small. mach.
Qed.
Lemma read_be32_cons a b c e l :
  is_u8 a → is_u8 b → is_u8 c → is_u8 e →
  read_be32 (a :: b :: c :: e :: l) = ((a * 256 + b) * 256 + c) * 256 + e.
Proof.
  intros. unfold read_be32. rewrite !byte_at_S, !byte_at_0.
  rewrite !u32_small by (rewrite Z.shiftl_mul_pow2 by lia; mach).
  rewrite (Z.shiftl_mul_pow2 b), (Z.shiftl_mul_pow2 c) by lia.
  rewrite lor_shiftl_add by mach.
  replace (a * 2 ^ 24 + b * 2 ^ 16) with (Z.shiftl (a * 256 + b) 16)
    by (rewrite Z.shiftl_mul_pow2; lia).
  rewrite lor_shiftl_add by mach.
  replace ((a * 256 + b) * 2 ^ 16 + c * 2 ^ 8) with (Z.shiftl ((a * 256 + b) * 256 + c) 8)
    by (rewrite Z.shiftl_mul_pow2; lia).
  rewrite lor_shiftl_add by mach. lia.
Qed.

Lemma be16_alt v : be16 v = [v / 256 mod 256; v mod 256].
Proof. unfold be16. by rewrite !land_255, shiftr_div. Qed.
Lemma be32_alt v :
  be32 v = [v / 16777216 mod 256; v / 65536 mod 256; v / 256 mod 256; v mod 256].
Proof. unfold be32. by rewrite !land_255, !shiftr_div. Qed.
Lemma be16_ok v : bytes_ok (be16 v).
Proof. rewrite be16_alt. repeat constructor; mach. Qed.
Lemma be32_ok v : bytes_ok (be32 v).
Proof. rewrite be32_alt. repeat constructor; mach. Qed.
#[export] Hint Resolve be16_ok be32_ok : mach.

(** Reading what was written, and writing what was read. *)
Lemma read_be16_be16 v l : is_u16 v → read_be16 (be16 v ++ l) = v.
Proof. intros. rewrite be16_alt. simpl. rewrite read_be16_cons by mach. mach. Qed.
Lemma read_be32_be32 v l : is_u32 v → read_be32 (be32 v ++ l) = v.
Proof. intros. rewrite be32_alt. simpl. rewrite read_be32_cons by mach. mach. Qed.
Lemma be16_read a b l : is_u8 a → is_u8 b → be16 (read_be16 (a :: b :: l)) = [a; b].
Proof. intros. rewrite read_be16_cons, be16_alt by done. repeat f_equal; mach. Qed.
Lemma be32_read a b c e l : is_u8 a → is_u8 b → is_u8 c → is_u8 e →
  be32 (read_be32 (a :: b :: c :: e :: l)) = [a; b; c; e].
Proof. intros. rewrite read_be32_cons, be32_alt by done. repeat f_equal; mach. Qed.
(** Cutting a field off the front of a suffix: the field's value re-encodes to
    the bytes read. *)
Lemma byte_cut d n : (n < length d)%nat → drop n d = byte_at d n :: drop (S n) d.
Proof.
  intros H. destruct (lookup_lt_is_Some_2 d n H) as [b Hb].
  unfold byte_at. rewrite Hb. simpl. by rewrite (drop_S d b n).
Qed.
Lemma byte_at_ok d n : bytes_ok d → is_u8 (byte_at d n).
Proof.
  intros Hd. unfold byte_at. destruct (d !! n) eqn:E; simpl; [|mach].
  by apply (Forall_lookup_1 _ _ _ _ Hd E).
Qed.
Lemma be16_cut d n : bytes_ok d → (n + 2 ≤ length d)%nat →
  drop n d = be16 (read_be16 (drop n d)) ++ drop (2 + n) d.
Proof.
  intros Hd Hn. rewrite (byte_cut d n), (byte_cut d (S n)) by lia.
  by rewrite be16_read by (by apply byte_at_ok).
Qed.
Lemma be32_cut d n : bytes_ok d → (n + 4 ≤ length d)%nat →
  drop n d = be32 (read_be32 (drop n d)) ++ drop (4 + n) d.
Proof.
  intros Hd Hn. rewrite (byte_cut d n), (byte_cut d (S n)), (byte_cut d (S (S n))),
    (byte_cut d (S (S (S n)))) by lia.
  by rewrite be32_read by (by apply byte_at_ok).
Qed.
Lemma read_be32_range d : bytes_ok d → is_u32 (read_be32 d).
Proof.
  intros Hd.
  assert (Hr : ∀ a b c e, is_u8 a → is_u8 b → is_u8 c → is_u8 e → is_u32 (read_be32 [a; b; c; e])).
  { intros. rewrite read_be32_cons by done. mach. }
  specialize (Hr (byte_at d 0) (byte_at d 1) (byte_at d 2) (byte_at d 3)).
  by apply Hr; apply byte_at_ok.
Qed.
Lemma read_be16_range p : is_u16 (read_be16 p).
Proof. apply u16_range. Qed.

(** The header encoder fills exactly the first 14 bytes of its buffer. *)
Lemma encode_header_bytes h buf :
  (14 ≤ length buf)%nat →
  encode_header h buf =
    be16 (length_ h) ++ be16 (msg_id h) ++ be16 (hdr_flags h)
    ++ be32 (seq_ h) ++ be32 (utc_ts_ms32 h) ++ drop 14 buf.
Proof. intros Hlen. do 14 (destruct buf as [|? buf]; [simpl in Hlen; lia|]). done. Qed.

(** ** UTF-8 lemmas *)

(** A decidable fact about a byte holds when it holds for all 256 of them. *)
Lemma byte_forall (P : Z → bool) :
  forallb P (seqZ 0 256) = true → ∀ b, is_u8 b → P b = true.
Proof.
  intros H b Hb. rewrite forallb_forall in H. apply H.
  apply list_elem_of_In, elem_of_seqZ. mach.
Qed.
Ltac byte_cases b :=
  match goal with |- ?l = ?r =>
    let P := eval pattern b in (Bool.eqb l r) in
    match P with ?f _ => apply Bool.eqb_prop; apply (byte_forall f); [by vm_compute | assumption] end
  end.

Lemma lead2_range b : is_u8 b → (Z.land b 0xE0 =? 0xC0) = (0xC0 <=? b) && (b <? 0xE0).
Proof. intros. byte_cases b. Qed.
Lemma lead3_range b : is_u8 b → (Z.land b 0xF0 =? 0xE0) = (0xE0 <=? b) && (b <? 0xF0).
Proof. intros. byte_cases b. Qed.
Lemma lead4_range b : is_u8 b → (Z.land b 0xF8 =? 0xF0) = (0xF0 <=? b) && (b <? 0xF8).
Proof. intros. byte_cases b. Qed.
Lemma cont_range b : is_u8 b → (Z.land b 0xC0 =? 0x80) = (0x80 <=? b) && (b <? 0xC0).
Proof. intros. byte_cases b. Qed.

(** Folding one continuation byte. *)
Lemma utf8_continue_S k cp c s :
  is_u8 c → 0 ≤ cp < 2 ^ 24 →
  utf8_continue (S k) cp (c :: s) =
    if (0x80 <=? c) && (c <? 0xC0) then utf8_continue k (cp * 64 + (c - 0x80)) s else None.
Proof.
  intros Hc Hcp. cbn [utf8_continue]. rewrite cont_range by done.
  destruct ((0x80 <=? c) && (c <? 0xC0)) eqn:Hr; [cbn [negb]|done].
  change 0x3F with (Z.ones 6). rewrite (land_ones_mod c 6), u32_small by (rewrite ?Z.shiftl_mul_pow2 by lia; mach).
  rewrite lor_shiftl_add by mach. do 2 f_equal. mach.
Qed.

Lemma utf8_lead_spec b : is_u8 b →
  utf8_lead b =
    if (0xC0 <=? b) && (b <? 0xE0) then Some (1%nat, b - 0xC0, 0x80)
    else if (0xE0 <=? b) && (b <? 0xF0) then Some (2%nat, b - 0xE0, 0x800)
    else if (0xF0 <=? b) && (b <? 0xF8) then Some (3%nat, b - 0xF0, 0x10000)
    else None.
Proof.
  intros Hb. unfold utf8_lead. rewrite lead2_range, lead3_range, lead4_range by done.
  change 0x1F with (Z.ones 5). change 0x0F with (Z.ones 4). change 0x07 with (Z.ones 3).
  rewrite !land_ones_mod by lia.
  repeat match goal with |- context [if ?c then _ else _] => destruct c eqn:? end;
    repeat f_equal; mach.
Qed.

Ltac if_mach :=
  repeat match goal with
  | |- context [if ?c then _ else _] =>
      let E := fresh "E" in destruct c eqn:E; try discriminate; try (exfalso; mach)
  | H : context [if ?c then _ else _] |- _ =>
      let E := fresh "E" in destruct c eqn:E; try discriminate; try (exfalso; mach)
  end.

(** The decoder reads back an encoded scalar value ... *)
Lemma utf8_next_encode cp s : scalar cp →
  ∃ b tl, utf8_encode cp = b :: tl ∧ utf8_next b (tl ++ s) = Some (cp, s).
Proof.
  intros Hcp. unfold scalar in Hcp. unfold utf8_encode.
  destruct (Z.ltb_spec cp 0x80); [|destruct (Z.ltb_spec cp 0x800); [|destruct (Z.ltb_spec cp 0x10000)]];
    eexists _, _; (split; [reflexivity|]); unfold utf8_next; simpl app;
    try (rewrite utf8_lead_spec by mach); if_mach; cbn [length Nat.ltb Nat.leb];
    rewrite ?utf8_continue_S by mach; if_mach;
    rewrite ?utf8_continue_S by mach; if_mach;
    rewrite ?utf8_continue_S by mach; if_mach; cbn [utf8_continue];
    if_mach; repeat f_equal; mach.
Qed.

(** ... and accepts nothing else. *)
Lemma utf8_next_sound b s cp s' :
  bytes_ok (b :: s) → utf8_next b s = Some (cp, s') →
  scalar cp ∧ b :: s = utf8_encode cp ++ s'.
Proof.
  intros [Hb Hs]%Forall_cons. unfold utf8_next. intros H.
  destruct (Z.ltb_spec b 0x80).
  { simplify_eq. unfold scalar, utf8_encode. if_mach. split; [mach|done]. }
  rewrite utf8_lead_spec in H by done.
  destruct ((0xC0 <=? b) && (b <? 0xE0)) eqn:?;
    [|destruct ((0xE0 <=? b) && (b <? 0xF0)) eqn:?;
      [|destruct ((0xF0 <=? b) && (b <? 0xF8)) eqn:?; [|done]]];
    (destruct s as [|c1 s]; [done|]); apply Forall_cons in Hs as [? Hs];
    try ((destruct s as [|c2 s]; [done|]); apply Forall_cons in Hs as [? Hs]);
    try ((destruct s as [|c3 s]; [done|]); apply Forall_cons in Hs as [? Hs]);
    cbn [length Nat.ltb Nat.leb] in H;
    rewrite ?utf8_continue_S in H by mach; if_mach;
    rewrite ?utf8_continue_S in H by mach; if_mach;
    rewrite ?utf8_continue_S in H by mach; if_mach; cbn [utf8_continue] in H;
    if_mach; simplify_eq; unfold scalar, utf8_encode; (split; [mach|]);
    if_mach; simpl; repeat f_equal; mach.
Qed.

Lemma utf8_encode_ok cp : scalar cp → bytes_ok (utf8_encode cp).
Proof. unfold scalar, utf8_encode. intros. repeat case_match; repeat constructor; mach. Qed.

Lemma utf8_loop_encode cps : Forall scalar cps →
  ∀ fuel, (length (cps ≫= utf8_encode) ≤ fuel)%nat →
  utf8_loop fuel (cps ≫= utf8_encode) = true.
Proof.
  induction 1 as [|cp cps Hcp _ IH]; intros fuel Hf; [by destruct fuel|].
  rewrite bind_cons in *. destruct (utf8_next_encode cp (cps ≫= utf8_encode) Hcp) as (b & tl & Heq & Hn).
  rewrite Heq in *. cbn [app length] in *. destruct fuel as [|fuel]; [lia|].
  rewrite length_app in Hf. cbn [utf8_loop]. rewrite Hn. apply IH. lia.
Qed.

Lemma utf8_loop_sound fuel : ∀ s, bytes_ok s → utf8_loop fuel s = true →
  ∃ cps, Forall scalar cps ∧ s = cps ≫= utf8_encode.
Proof.
  induction fuel as [|fuel IH]; intros [|b s] Hs H; try done; try (by exists []).
  simpl in H. destruct (utf8_next b s) as [[cp s']|] eqn:Hn; [|done].
  apply utf8_next_sound in Hn as [Hcp Heq]; [|done]. rewrite Heq in Hs |- *.
  apply Forall_app in Hs as [_ Hs]. destruct (IH s' Hs H) as (cps & Hcps & ->).
  exists (cp :: cps). rewrite bind_cons. split; [by constructor|done].
Qed.

Lemma is_valid_utf8_iff s : bytes_ok s →
  is_valid_utf8 s = true ↔ ∃ cps, Forall scalar cps ∧ s = cps ≫= utf8_encode.
Proof.
  intros Hs. split; [by apply utf8_loop_sound|].
  intros (cps & Hcps & ->). by apply utf8_loop_encode.
Qed.

(** ** Length-prefixed strings: framing lemmas shared by the payload codecs *)
Definition lp_ok (s : list Z) : Prop :=
  Z.of_nat (length s) ≤ 0xFFFF ∧ is_valid_utf8 s = true.

Lemma write_lp_utf8_app out s :
  Z.of_nat (length s) ≤ 0xFFFF →
  write_lp_utf8 out s = out ++ be16 (Z.of_nat (length s)) ++ s.
Proof.
  intros H. unfold write_lp_utf8. by destruct (Z.ltb_spec 0xFFFF (Z.of_nat (length s))); [lia|].
Qed.

Lemma read_lp_utf8_app s l : lp_ok s →
  read_lp_utf8 (be16 (Z.of_nat (length s)) ++ s ++ l) = Some (s, l).
Proof.
  intros [Hlen Hv]. unfold read_lp_utf8. rewrite read_be16_be16 by mach.
  set (n := Z.of_nat (length s)) in *.
  replace (drop 2 (be16 n ++ s ++ l)) with (s ++ l) by done.
  replace (drop (2 + Z.to_nat n) (be16 n ++ s ++ l)) with (drop (Z.to_nat n) (s ++ l)) by done.
  rewrite !length_app. change (length (be16 n)) with 2%nat.
  destruct (Nat.ltb_spec (2 + (length s + length l)) 2); [lia|].
  destruct (Z.ltb_spec (Z.of_nat (2 + (length s + length l))) (2 + n)); [lia|].
  unfold n. rewrite Nat2Z.id, take_app_length, drop_app_length, Hv. done.
Qed.

Lemma read_lp_utf8_sound inp s l : bytes_ok inp → read_lp_utf8 inp = Some (s, l) →
  lp_ok s ∧ inp = be16 (Z.of_nat (length s)) ++ s ++ l.
Proof.
  unfold read_lp_utf8. intros Hok H.
  destruct inp as [|a [|b inp]]; [done..|]. pose proof (read_be16_range (a :: b :: inp)) as Hr.
  set (len := read_be16 _) in *. cbn [length Nat.ltb Nat.leb skipn Nat.add] in H. rewrite drop_0 in H.
  destruct (Z.ltb_spec (Z.of_nat (S (S (length inp)))) (2 + len)) as [|Hge]; [done|].
  destruct (is_valid_utf8 _) eqn:Hv; [|done]. cbn [negb] in H. injection H as <- <-.
  assert (Hl : Z.of_nat (length (take (Z.to_nat len) inp)) = len)
    by (rewrite length_take; mach).
  unfold lp_ok. rewrite Hl. split; [split; [mach|done]|].
  inversion_clear Hok as [|? ? Ha Hok']. inversion_clear Hok'.
  subst len. rewrite be16_read by done. simpl. by rewrite take_drop.
Qed.

(** ** Properties *)

(** The strict UTF-8 validator accepts a byte string exactly when it is
    the encoding of a sequence of Unicode scalar values (so overlong forms,
    surrogates, truncated sequences and codepoints above U+10FFFF are all
    rejected), and its loop always has enough turns. *)
Theorem utf8_validator_exact (s : list Z) (Hs : bytes_ok s) :
  is_valid_utf8 s = true ↔ ∃ cps, Forall scalar cps ∧ s = cps ≫= utf8_encode.
Proof. by apply is_valid_utf8_iff. Qed.

Lemma utf8_validator_exact_witness :
  is_valid_utf8 [0xED; 0xA0; 0x80] = false ∧ is_valid_utf8 [0xC0; 0x80] = false
  ∧ is_valid_utf8 ([0x41; 0xAC00; 0x1F600] ≫= utf8_encode) = true.
Proof.
  split_and!; [reflexivity..|]. apply utf8_validator_exact.
  - by repeat (constructor; [mach|]); constructor.
  - exists [0x41; 0xAC00; 0x1F600].
    split; [repeat constructor; unfold scalar; lia | done].
Defined.

(** Frame headers round-trip: decoding the 14 bytes written for any
    header with in-range fields gives the header back, whatever the buffer
    held before. *)
Theorem packet_header_roundtrip (h : PacketHeader) (buf : list Z)
  (Hh : packet_header_ok h) (Hlen : (k_header_bytes ≤ length buf)%nat) :
  decode_header (encode_header h buf) = h
  ∧ drop k_header_bytes (encode_header h buf) = drop k_header_bytes buf.
Proof.
  destruct Hh as (H1 & H2 & H3 & H4 & H5).
  rewrite encode_header_bytes by done. split; [|done].
  destruct h as [l m f q t]; simpl in *. unfold decode_header. f_equal.
  - by apply (read_be16_be16 l).
  - by apply (read_be16_be16 m).
  - by apply (read_be16_be16 f).
  - by apply (read_be32_be32 q).
  - by apply (read_be32_be32 t).
Qed.

Lemma packet_header_roundtrip_witness :
  let h := {| length_ := 300; msg_id := 0x0101; hdr_flags := 3; seq_ := 70000; utc_ts_ms32 := 4000000000 |} in
  decode_header (encode_header h (repeat 0 14)) = h
  ∧ drop k_header_bytes (encode_header h (repeat 0 14)) = drop k_header_bytes (repeat 0 14).
Proof.
  intros h. apply (packet_header_roundtrip h (repeat 0 14)); [|simpl; unfold k_header_bytes; lia].
  unfold packet_header_ok, h; simpl. split_and!; mach.
Defined.
