(* ===== verification/Frames.v ===== *)
(** * Frames of a byte stream

    The framing every TCP endpoint of the system shares (a 14-byte header whose
    first field is the length of the payload) as a split of a whole stream, and
    the byte budget of the send queues ([core/net/queue_budget.hpp]). *)
From S2P Require Import Prelude Packet.
From stdpp Require Import list.
Open Scope Z_scope.

Definition exceeds_queue_budget (queue_max_bytes queued_bytes incoming_bytes : Z) : bool :=
  if queue_max_bytes =? 0 then false
  else if queue_max_bytes <? incoming_bytes then true
  else queue_max_bytes - incoming_bytes <? queued_bytes.

(** ** Frames of a byte stream *)
(** The first complete frame of a buffer and the bytes behind it. *)
Definition next_frame (buf : list Z) : option (list Z * list Z) :=
  if (length buf <? k_header_bytes)%nat then None
  else
    let frame_bytes := (k_header_bytes + Z.to_nat (length_ (decode_header buf)))%nat in
    if (length buf <? frame_bytes)%nat then None else Some (take frame_bytes buf, drop frame_bytes buf).
(** The frames of a whole stream and its incomplete tail. *)
Fixpoint split_frames (fuel : nat) (buf : list Z) : list (list Z) * list Z :=
  match fuel with
  | O => ([], buf)
  | S fuel =>
      match next_frame buf with
      | None => ([], buf)
      | Some (frame, rest) => let '(fs, tail) := split_frames fuel rest in (frame :: fs, tail)
      end
  end.
Definition frames_of (stream : list Z) : list (list Z) * list Z := split_frames (length stream) stream.

(** ** Lemmas *)
Lemma byte_at_app a b i : (i < length a)%nat → byte_at (a ++ b) i = byte_at a i.
Proof. intros H. unfold byte_at. by rewrite lookup_app_l. Qed.
Lemma decode_header_app a b : (k_header_bytes ≤ length a)%nat → decode_header (a ++ b) = decode_header a.
Proof.
  unfold k_header_bytes. intros H. unfold decode_header, read_be16, read_be32.
  rewrite !drop_app_le by lia. by rewrite !byte_at_app by (rewrite length_drop; lia).
Qed.
Lemma frame_length_range buf : 0 ≤ length_ (decode_header buf) < 65536.
Proof. simpl. pose proof (read_be16_range (drop 0 buf)) as H. unfold in_u in H. exact H. Qed.
Lemma next_frame_some buf f rest : next_frame buf = Some (f, rest) →
  buf = f ++ rest ∧ (k_header_bytes ≤ length f)%nat
  ∧ length f = (k_header_bytes + Z.to_nat (length_ (decode_header f)))%nat.
Proof.
  unfold next_frame. destruct (Nat.ltb_spec (length buf) k_header_bytes); [done|].
  destruct (Nat.ltb_spec (length buf) (k_header_bytes + Z.to_nat (length_ (decode_header buf)))); [done|].
  set (n := (k_header_bytes + Z.to_nat (length_ (decode_header buf)))%nat) in *. intros Heq.
  assert (f = take n buf ∧ rest = drop n buf) as [-> ->] by (split; congruence). clear Heq.
  assert (Hl : length (take n buf) = n) by (rewrite length_take; lia).
  assert (Hd : decode_header (take n buf) = decode_header buf).
  { rewrite <- (take_drop n buf) at 2. symmetry. apply decode_header_app. rewrite Hl. unfold n. lia. }
  rewrite take_drop, Hl, Hd. split_and!; [done|unfold n; lia|done].
Qed.
Lemma next_frame_none buf : next_frame buf = None → Z.of_nat (length buf) < 14 + 65536.
Proof.
  unfold next_frame. pose proof (frame_length_range buf). unfold k_header_bytes. destruct (Nat.ltb_spec (length buf) 14); [lia|].
  destruct (Nat.ltb_spec (length buf) (14 + Z.to_nat (length_ (decode_header buf)))); [lia|done].
Qed.
Lemma next_frame_app a b f rest : next_frame a = Some (f, rest) → next_frame (a ++ b) = Some (f, rest ++ b).
Proof.
  unfold next_frame. destruct (Nat.ltb_spec (length a) k_header_bytes) as [|H]; [done|].
  destruct (Nat.ltb_spec (length a) (k_header_bytes + Z.to_nat (length_ (decode_header a)))) as [|H2]; [done|].
  intros Heq. rewrite decode_header_app, length_app by done.
  set (n := (k_header_bytes + Z.to_nat (length_ (decode_header a)))%nat) in *.
  assert (f = take n a ∧ rest = drop n a) as [-> ->] by (split; congruence). clear Heq.
  destruct (Nat.ltb_spec (length a + length b) k_header_bytes); [lia|].
  destruct (Nat.ltb_spec (length a + length b) n); [lia|].
  by rewrite take_app_le, drop_app_le by lia.
Qed.
Lemma next_frame_shorter buf f rest : next_frame buf = Some (f, rest) → (length rest < length buf)%nat.
Proof.
  intros (-> & Hl & _)%next_frame_some. rewrite length_app. unfold k_header_bytes in Hl. lia.
Qed.
(** Fuel beyond the buffer's length changes nothing. *)
Lemma split_frames_fuel n : ∀ buf, (length buf ≤ n)%nat → split_frames n buf = frames_of buf.
Proof.
  unfold frames_of. induction n as [n IH] using lt_wf_ind. intros buf Hn.
  destruct buf as [|b buf]; [by destruct n|]. destruct n as [|n]; [simpl in Hn; lia|].
  cbn [split_frames length]. destruct (next_frame (b :: buf)) as [[f rest]|] eqn:Hf; [|done].
  apply next_frame_shorter in Hf. simpl in *. by rewrite (IH n), (IH (length buf)) by lia.
Qed.
Lemma frames_of_step buf : frames_of buf =
  match next_frame buf with
  | None => ([], buf)
  | Some (f, rest) => (f :: (frames_of rest).1, (frames_of rest).2)
  end.
Proof.
  rewrite <- (split_frames_fuel (S (length buf)) buf) by lia. cbn [split_frames].
  destruct (next_frame buf) as [[f rest]|] eqn:Hf; [|done]. apply next_frame_shorter in Hf.
  rewrite split_frames_fuel by lia. by destruct (frames_of rest).
Qed.
(** Induction over the frames of a buffer. *)
Lemma frames_ind (P : list Z → Prop) : (∀ buf, next_frame buf = None → P buf) →
  (∀ buf f rest, next_frame buf = Some (f, rest) → P rest → P buf) → ∀ buf, P buf.
Proof.
  intros Hn Hs buf. remember (length buf) as n eqn:Hl. revert buf Hl. induction n as [n IH] using lt_wf_ind.
  intros buf ->. destruct (next_frame buf) as [[f rest]|] eqn:Hf; [|by apply Hn].
  eapply Hs; [exact Hf|]. apply (IH (length rest)); [by eapply next_frame_shorter|done].
Qed.
Lemma frames_of_concat buf : concat (frames_of buf).1 ++ (frames_of buf).2 = buf ∧ next_frame (frames_of buf).2 = None.
Proof.
  induction buf as [buf Hn|buf f rest Hf [IH1 IH2]] using frames_ind; rewrite frames_of_step.
  - by rewrite Hn.
  - rewrite Hf. apply next_frame_some in Hf as (-> & _). simpl. by rewrite <- app_assoc, IH1.
Qed.
Lemma frames_of_app a b :
  frames_of (a ++ b) = ((frames_of a).1 ++ (frames_of ((frames_of a).2 ++ b)).1, (frames_of ((frames_of a).2 ++ b)).2).
Proof.
  induction a as [a Hn|a f rest Hf IH] using frames_ind.
  - rewrite (frames_of_step a), Hn. simpl. by destruct (frames_of (a ++ b)).
  - rewrite (frames_of_step (a ++ b)), (frames_of_step a), Hf, (next_frame_app _ b _ _ Hf), IH. done.
Qed.
