(* ===== verification/AckWindow.v ===== *)
(** * RUDP ACK window

    Model of [core/src/net/rudp/ack_window.cpp] and its header: the receiver's
    record of which packet numbers arrived, kept as the largest number seen and
    a 64-bit mask whose bit [i] stands for packet [largest - i].

    The specification is the set of packet numbers accepted so far; the window
    is shown to be a faithful finite view of that set. *)
From S2P Require Import Prelude.
From stdpp Require Import gmap.
Open Scope Z_scope.

Record AckObservation := {
  accepted : bool;
  duplicate : bool;
  reordered : bool;
  estimated_lost_packets : Z;
  obs_ack_largest : Z;
  obs_ack_mask : Z;
}.

Record AckWindow := { initialized_ : bool; largest_ : Z; mask_ : Z }.

Definition ack_window_new : AckWindow := {| initialized_ := false; largest_ := 0; mask_ := 0 |}.

(** [AckWindow::reset] *)
Definition ack_window_reset (_ : AckWindow) : AckWindow := ack_window_new.

(** [AckWindow::observe].  The four returns of the source are the four leaves;
    each fills [ack_largest]/[ack_mask] from the updated members. *)
Definition observe (w : AckWindow) (packet_number : Z) : AckWindow * AckObservation :=
  let report (w' : AckWindow) (acc dup reo : bool) (lost : Z) :=
    (w', {| accepted := acc; duplicate := dup; reordered := reo;
            estimated_lost_packets := lost;
            obs_ack_largest := largest_ w'; obs_ack_mask := mask_ w' |}) in
  if negb (initialized_ w) then
    report {| initialized_ := true; largest_ := packet_number; mask_ := 1 |}
           true false false 0
  else if largest_ w <? packet_number then
    let delta := packet_number -₃₂ largest_ w in
    let lost := if 1 <? delta then delta -₃₂ 1 else 0 in
    let mask := if 64 <=? delta then 1 else Z.lor (mask_ w <<₆₄ delta) 1 in
    report {| initialized_ := true; largest_ := packet_number; mask_ := mask |}
           true false false lost
  else
    let distance := largest_ w -₃₂ packet_number in
    if 64 <=? distance then report w false true false 0
    else
      let bit := 1 <<₆₄ distance in
      if negb (Z.land (mask_ w) bit =? 0) then report w false true false 0
      else report {| initialized_ := true; largest_ := largest_ w;
                     mask_ := Z.lor (mask_ w) bit |} true false true 0.

(** Feeding a sequence of packet numbers; the result lists the numbers the
    window accepted, in order. *)
Fixpoint observe_all (w : AckWindow) (ps : list Z) : AckWindow * list Z :=
  match ps with
  | [] => (w, [])
  | p :: ps =>
      let '(w1, o) := observe w p in
      let '(w2, acc) := observe_all w1 ps in
      (w2, if accepted o then p :: acc else acc)
  end.

(** ** Specification: the set of accepted packet numbers *)

(** A number is taken when it is new and no accepted number is 64 or more
    ahead of it. *)
Definition spec_accepts (R : gset Z) (p : Z) : Prop :=
  (p ∉ R) ∧ set_Forall (λ q, q - p < 64) R.
#[global] Instance spec_accepts_dec R p : Decision (spec_accepts R p).
Proof. apply _. Defined.

Definition spec_observe (R : gset Z) (p : Z) : gset Z * bool :=
  if decide (spec_accepts R p) then ({[p]} ∪ R, true) else (R, false).

(** The abstraction relation: bit [i] of the mask answers "was
    [largest - i] accepted?" for the 64 most recent numbers. *)
Definition window_view (w : AckWindow) (R : gset Z) : Prop :=
  if initialized_ w then
    is_u32 (largest_ w) ∧ is_u64 (mask_ w) ∧ largest_ w ∈ R ∧
    (∀ p, p ∈ R → p ≤ largest_ w) ∧
    (∀ i, 0 ≤ i < 64 → Z.testbit (mask_ w) i = bool_decide (largest_ w - i ∈ R))
  else R = ∅.

Lemma window_view_new : window_view ack_window_new ∅.
Proof. done. Qed.

(** A number above the window is accepted by the specification. *)
Lemma spec_accepts_ahead R l p :
  (∀ q, q ∈ R → q ≤ l) → l < p → spec_accepts R p.
Proof.
  intros Hle Hlt. split.
  - intros Hin. specialize (Hle _ Hin). lia.
  - intros q Hq. specialize (Hle _ Hq). lia.
Qed.

(** Inside the window, acceptance is "bit clear". *)
Lemma spec_accepts_inside R l p :
  (∀ q, q ∈ R → q ≤ l) → l - p < 64 → p ∉ R → spec_accepts R p.
Proof.
  intros Hle Hd Hni. split; [done|]. intros q Hq. specialize (Hle _ Hq). lia.
Qed.

Lemma spec_observe_yes R p : spec_accepts R p → spec_observe R p = ({[p]} ∪ R, true).
Proof. intros H. unfold spec_observe. by rewrite decide_True. Qed.
Lemma spec_observe_no R p : ¬ spec_accepts R p → spec_observe R p = (R, false).
Proof. intros H. unfold spec_observe. by rewrite decide_False. Qed.

(** Shifting the mask by the advance and setting bit 0 re-indexes the view. *)
Lemma advance_mask_view R l p m :
  is_u64 m → (∀ q, q ∈ R → q ≤ l) → l < p →
  (∀ i, 0 ≤ i < 64 → Z.testbit m i = bool_decide (l - i ∈ R)) →
  ∀ i, 0 ≤ i < 64 →
  Z.testbit (if 64 <=? p - l then 1 else Z.lor (m <<₆₄ (p - l)) 1) i
    = bool_decide (p - i ∈ ({[p]} ∪ R : gset Z)).
Proof.
  intros Hm Hle Hlt Hbits i Hi.
  assert (H1 : Z.testbit 1 i = (i =? 0)).
  { change 1 with (Z.shiftl 1 0). by apply testbit_bit. }
  destruct (Z.eqb_spec i 0) as [->|Hi0].
  { rewrite bool_decide_eq_true_2 by (rewrite Z.sub_0_r; set_solver).
    destruct (64 <=? p - l); [done|]. rewrite Z.lor_spec, H1. apply orb_true_r. }
  assert (Hset : bool_decide (p - i ∈ ({[p]} ∪ R : gset Z)) = bool_decide (p - i ∈ R)).
  { apply bool_decide_ext. set_unfold. split; [intros [?|?]; [lia|done] | by right]. }
  rewrite Hset. destruct (Z.leb_spec 64 (p - l)).
  - rewrite H1, bool_decide_eq_false_2; [done|].
    intros Hin. specialize (Hle _ Hin). lia.
  - rewrite Z.lor_spec, H1, orb_false_r, testbit_u64, Z.shiftl_spec by lia.
    destruct (Z.ltb_spec i 64); [simpl|lia].
    destruct (Z.ltb_spec (i - (p - l)) 0).
    + rewrite Z.testbit_neg_r, bool_decide_eq_false_2; [done| |lia].
      intros Hin. specialize (Hle _ Hin). lia.
    + rewrite Hbits by lia. by replace (l - (i - (p - l))) with (p - i) by lia.
Qed.

Lemma reorder_mask_view R l p m :
  0 ≤ l - p < 64 →
  (∀ i, 0 ≤ i < 64 → Z.testbit m i = bool_decide (l - i ∈ R)) →
  ∀ i, 0 ≤ i < 64 →
  Z.testbit (Z.lor m (1 <<₆₄ (l - p))) i = bool_decide (l - i ∈ ({[p]} ∪ R : gset Z)).
Proof.
  intros Hd Hbits i Hi.
  rewrite Z.lor_spec, testbit_u64, testbit_bit, Hbits by lia.
  destruct (Z.ltb_spec i 64); [simpl|lia].
  destruct (Z.eqb_spec i (l - p)) as [->|Hne].
  - rewrite (bool_decide_eq_true_2 (_ ∈ {[p]} ∪ R)); [apply orb_true_r|].
    replace (l - (l - p)) with p by lia. set_solver.
  - rewrite orb_false_r. apply bool_decide_ext. set_unfold.
    split; [by right | intros [?|?]; [lia|done]].
Qed.

Lemma sub32_exact a b : is_u32 a → is_u32 b → b ≤ a → a -₃₂ b = a - b.
Proof. intros. rewrite u32_small; [done|]. mach. Qed.

(** One step of the window simulates one step of the specification. *)
Lemma observe_simulates w R p :
  window_view w R → is_u32 p →
  window_view (observe w p).1 (spec_observe R p).1
  ∧ accepted (observe w p).2 = (spec_observe R p).2.
Proof.
  intros Hv Hp. unfold observe. destruct w as [[] l m]; unfold window_view in Hv; simpl in *; last first.
  { subst R. rewrite spec_observe_yes by (split; set_solver).
    split; [|done]. split_and!; simpl; [done|mach|set_solver|set_solver|].
    intros i Hi. change 1 with (Z.shiftl 1 0). rewrite testbit_bit by lia.
    destruct (Z.eqb_spec i 0) as [->|]; symmetry.
    - apply bool_decide_eq_true_2. rewrite Z.sub_0_r. set_solver.
    - apply bool_decide_eq_false_2. set_unfold. lia. }
  destruct Hv as (Hl & Hm & Hin & Hle & Hbits).
  destruct (Z.ltb_spec l p) as [Hlt|Hge].
  - rewrite sub32_exact by (done || lia).
    rewrite spec_observe_yes by (by eapply spec_accepts_ahead).
    split; [|done]. split_and!; simpl; [done| | | |].
    + destruct (64 <=? p - l); [mach|].
      apply lor_u64_range; [apply u64_range | mach].
    + set_solver.
    + intros q Hq. set_unfold in Hq. destruct Hq as [->|Hq]; [lia|].
      specialize (Hle _ Hq). lia.
    + by eapply advance_mask_view.
  - rewrite sub32_exact by done. destruct (Z.leb_spec 64 (l - p)).
    { rewrite spec_observe_no; [done|]. intros [_ Hall].
      specialize (Hall _ Hin). simpl in Hall. lia. }
    rewrite (u64_small (Z.shiftl 1 (l - p))) by (apply bit64_range; lia).
    rewrite land_bit_nonzero, Hbits by lia.
    replace (l - (l - p)) with p by lia.
    case_bool_decide as HR; simpl.
    { rewrite spec_observe_no; [done|]. by intros []. }
    rewrite spec_observe_yes by (eapply spec_accepts_inside; [done|lia|done]).
    split; [|done]. split_and!; simpl; [done| | | |].
    + apply lor_u64_range; [done|]. apply bit64_range; lia.
    + set_solver.
    + intros q Hq. set_unfold in Hq. destruct Hq as [->|Hq]; [lia|].
      by apply Hle.
    + intros i Hi. rewrite <- (reorder_mask_view R l p m) by (done || lia).
      by rewrite (u64_small (Z.shiftl 1 (l - p))) by (apply bit64_range; lia).
Qed.

(** Everything the window accepts from a view [R] is new to [R] and pairwise
    distinct. *)
Lemma observe_all_fresh ps : ∀ w R,
  window_view w R → Forall (in_u 32) ps →
  NoDup (observe_all w ps).2 ∧ Forall (λ p, p ∉ R) (observe_all w ps).2
  ∧ window_view (observe_all w ps).1 (list_to_set (observe_all w ps).2 ∪ R).
Proof.
  induction ps as [|p ps IH]; intros w R Hv Hps; simpl.
  { split_and!; [constructor|constructor|]. by rewrite union_empty_l_L. }
  inversion_clear Hps.
  destruct (observe_simulates w R p) as [Hv' Hacc]; [done..|].
  destruct (observe w p) as [w1 o]; simpl in *.
  destruct (IH w1 (spec_observe R p).1) as (Hnd & Hfr & Hvw); [done..|].
  destruct (observe_all w1 ps) as [w2 acc]; simpl in *.
  rewrite Hacc. unfold spec_observe in *. case_decide as Hs; simpl in *; [|done].
  split_and!.
  - constructor; [|done]. intros Hin.
    rewrite Forall_forall in Hfr. specialize (Hfr _ Hin). set_solver.
  - constructor; [by apply Hs|]. eapply Forall_impl; [done|]. set_solver.
  - by rewrite (union_comm_L {[p]}), <- union_assoc_L.
Qed.

(** ** Properties *)

(** The 64-bit window is a refinement of the set of accepted packet
    numbers: from related states, [observe] accepts exactly the numbers the
    set specification accepts (new, and less than 64 behind the newest) and
    the resulting window again answers membership for the 64 most recent
    numbers; a number is reported either accepted or duplicate, never both. *)
Theorem ack_window_refines_set (w : AckWindow) (R : gset Z) (p : Z)
  (Hview : window_view w R) (Hp : is_u32 p) :
  window_view (observe w p).1 (spec_observe R p).1
  ∧ accepted (observe w p).2 = (spec_observe R p).2
  ∧ duplicate (observe w p).2 = negb (accepted (observe w p).2).
Proof.
  destruct (observe_simulates w R p Hview Hp) as [H1 H2].
  split_and!; [done..|]. unfold observe. by repeat case_match.
Qed.

Lemma ack_window_refines_set_witness :
  let w := (observe_all ack_window_new [5; 7; 6]).1 in
  accepted (observe w 6).2 = false ∧ accepted (observe w 80).2 = true
  ∧ duplicate (observe ack_window_new 5).2 = negb (accepted (observe ack_window_new 5).2).
Proof.
  split_and!; [reflexivity..|].
  apply (ack_window_refines_set ack_window_new ∅ 5); [apply window_view_new | mach].
Defined.

(** At-most-once acceptance.  Over any sequence of received packet
    numbers (with duplicates, reordering, gaps), the numbers the window
    accepts are pairwise distinct. *)
Theorem ack_window_at_most_once (ps : list Z) (Hps : Forall (in_u 32) ps) :
  NoDup (observe_all ack_window_new ps).2.
Proof. by apply (observe_all_fresh ps ack_window_new ∅ window_view_new). Qed.

Lemma ack_window_at_most_once_witness :
  (observe_all ack_window_new [1; 3; 2; 3; 1; 100; 2]).2 = [1; 3; 2; 100]
  ∧ NoDup (observe_all ack_window_new [1; 3; 2; 3; 1; 100; 2]).2.
Proof.
  split; [reflexivity|]. apply ack_window_at_most_once.
  repeat constructor; mach.
Defined.
