(* ===== verification/RudpPacket.v ===== *)
(** * RUDP datagram layout

    Model of [core/include/server/core/net/rudp/rudp_packet.hpp]: the 34-byte
    outer header, its encoder and decoder, and the magic-number test. *)
From S2P Require Import Prelude Packet.
From stdpp Require Import list.
Open Scope Z_scope.

Definition kRudpMagic : Z := 0x5255.
Definition kRudpHeaderBytes : nat := 34.

(** [PacketType] has a fixed underlying type, so the decoder's [static_cast]
    can produce any byte; bytes that name no enumerator are [kRawType]. *)
Inductive PacketType := kHello | kHelloAck | kData | kPing | kClose | kRawType (b : Z).
#[global] Instance PacketType_eq_dec : EqDecision PacketType.
Proof. solve_decision. Defined.

Definition packet_type_byte (t : PacketType) : Z :=
  match t with
  | kHello => 1 | kHelloAck => 2 | kData => 3 | kPing => 4 | kClose => 5 | kRawType b => b
  end.
Definition packet_type_of_byte (b : Z) : PacketType :=
  if b =? 1 then kHello else if b =? 2 then kHelloAck else if b =? 3 then kData
  else if b =? 4 then kPing else if b =? 5 then kClose else kRawType b.

Definition kFlagAckOnly : Z := 1.
Definition kFlagRetransmit : Z := 2.

Record RudpHeader := {
  magic : Z;
  version : Z;
  ptype : PacketType;
  connection_id : Z;
  packet_number : Z;
  ack_largest : Z;
  ack_mask : Z;
  ack_delay_ms : Z;
  channel : Z;
  flags : Z;
  timestamp_ms : Z;
  payload_length : Z;
}.

Definition with_payload_length (h : RudpHeader) (n : Z) : RudpHeader :=
  {| magic := magic h; version := version h; ptype := ptype h;
     connection_id := connection_id h; packet_number := packet_number h;
     ack_largest := ack_largest h; ack_mask := ack_mask h;
     ack_delay_ms := ack_delay_ms h; channel := channel h; flags := flags h;
     timestamp_ms := timestamp_ms h; payload_length := n |}.
Definition with_flags (h : RudpHeader) (f : Z) : RudpHeader :=
  {| magic := magic h; version := version h; ptype := ptype h;
     connection_id := connection_id h; packet_number := packet_number h;
     ack_largest := ack_largest h; ack_mask := ack_mask h;
     ack_delay_ms := ack_delay_ms h; channel := channel h; flags := f;
     timestamp_ms := timestamp_ms h; payload_length := payload_length h |}.

Definition encode_rudp_header (header : RudpHeader) (out : list Z) : list Z :=
  let out := write_be16 (magic header) 0 out in
  let out := store 2 [version header] out in
  let out := store 3 [packet_type_byte (ptype header)] out in
  let out := write_be32 (connection_id header) 4 out in
  let out := write_be32 (packet_number header) 8 out in
  let out := write_be32 (ack_largest header) 12 out in
  let out := write_be32 (u32 (Z.land (Z.shiftr (ack_mask header) 32) 0xFFFFFFFF)) 16 out in
  let out := write_be32 (u32 (Z.land (ack_mask header) 0xFFFFFFFF)) 20 out in
  let out := write_be16 (ack_delay_ms header) 24 out in
  let out := store 26 [channel header] out in
  let out := store 27 [flags header] out in
  let out := write_be32 (timestamp_ms header) 28 out in
  write_be16 (payload_length header) 32 out.

(** [decode_packet]; a result with [ok = false] is [None]. *)
Definition decode_packet (datagram : list Z) : option (RudpHeader * list Z) :=
  if (length datagram <? kRudpHeaderBytes)%nat then None
  else
    let ack_hi := read_be32 (drop 16 datagram) in
    let ack_lo := read_be32 (drop 20 datagram) in
    let header :=
      {| magic := read_be16 (drop 0 datagram);
         version := byte_at datagram 2;
         ptype := packet_type_of_byte (byte_at datagram 3);
         connection_id := read_be32 (drop 4 datagram);
         packet_number := read_be32 (drop 8 datagram);
         ack_largest := read_be32 (drop 12 datagram);
         ack_mask := Z.lor (ack_hi <<₆₄ 32) ack_lo;
         ack_delay_ms := read_be16 (drop 24 datagram);
         channel := byte_at datagram 26;
         flags := byte_at datagram 27;
         timestamp_ms := read_be32 (drop 28 datagram);
         payload_length := read_be16 (drop 32 datagram) |} in
    if negb (Z.of_nat (length datagram) =? Z.of_nat kRudpHeaderBytes + payload_length header)
    then None
    else Some (header, take (Z.to_nat (payload_length header)) (drop kRudpHeaderBytes datagram)).

Definition encode_packet (header : RudpHeader) (payload : list Z) : list Z :=
  let out := repeat 0 (kRudpHeaderBytes + length payload) in
  let mutable_header := with_payload_length header (u16 (Z.of_nat (length payload))) in
  let out := encode_rudp_header mutable_header out in
  if (length payload =? 0)%nat then out else store kRudpHeaderBytes payload out.

Definition looks_like_rudp (datagram : list Z) : bool :=
  (2 <=? length datagram)%nat && (read_be16 datagram =? kRudpMagic).

(** ** Well-formed headers and the byte image of a header *)
Definition packet_type_ok (t : PacketType) : Prop :=
  is_u8 (packet_type_byte t) ∧ packet_type_of_byte (packet_type_byte t) = t.
Definition rudp_header_ok (h : RudpHeader) : Prop :=
  is_u16 (magic h) ∧ is_u8 (version h) ∧ packet_type_ok (ptype h)
  ∧ is_u32 (connection_id h) ∧ is_u32 (packet_number h) ∧ is_u32 (ack_largest h)
  ∧ is_u64 (ack_mask h) ∧ is_u16 (ack_delay_ms h) ∧ is_u8 (channel h)
  ∧ is_u8 (flags h) ∧ is_u32 (timestamp_ms h) ∧ is_u16 (payload_length h).

Definition rudp_header_bytes (h : RudpHeader) : list Z :=
  be16 (magic h) ++ [version h; packet_type_byte (ptype h)]
  ++ be32 (connection_id h) ++ be32 (packet_number h) ++ be32 (ack_largest h)
  ++ be32 (ack_mask h / 2 ^ 32) ++ be32 (ack_mask h)
  ++ be16 (ack_delay_ms h) ++ [channel h; flags h]
  ++ be32 (timestamp_ms h) ++ be16 (payload_length h).

Lemma be32_u32 v : be32 (u32 v) = be32 v.
Proof. rewrite !be32_alt. cons_eq; [mach..|done]. Qed.

Lemma encode_rudp_header_bytes h buf :
  (34 ≤ length buf)%nat →
  encode_rudp_header h buf = rudp_header_bytes h ++ drop 34 buf.
Proof.
  intros Hlen. do 34 (destruct buf as [|? buf]; [simpl in Hlen; lia|]).
  unfold encode_rudp_header, rudp_header_bytes.
  rewrite !land_u32max, shiftr_div by lia. unfold write_be32. rewrite !be32_u32. reflexivity.
Qed.

Lemma rudp_header_bytes_length h : length (rudp_header_bytes h) = 34%nat.
Proof. reflexivity. Qed.

Lemma encode_packet_bytes h p :
  encode_packet h p =
    rudp_header_bytes (with_payload_length h (u16 (Z.of_nat (length p)))) ++ p.
Proof.
  unfold encode_packet. rewrite encode_rudp_header_bytes
    by (rewrite repeat_length; unfold kRudpHeaderBytes; lia).
  destruct p as [|b p]; [done|]. cbn [length Nat.eqb]. unfold store.
  change (drop 34 (repeat 0 (kRudpHeaderBytes + S (length p)))) with (repeat 0 (S (length p))).
  set (hb := rudp_header_bytes _).
  rewrite take_app_length' by done. f_equal.
  rewrite drop_ge; [by rewrite app_nil_r|].
  rewrite length_app, repeat_length. unfold hb. rewrite rudp_header_bytes_length.
  simpl. lia.
Qed.

Lemma encode_packet_length h p : length (encode_packet h p) = (34 + length p)%nat.
Proof. by rewrite encode_packet_bytes, length_app, rudp_header_bytes_length. Qed.

(** ** Decoding *)
Lemma join_mask m : is_u64 m →
  Z.lor (u32 (m / 2 ^ 32) <<₆₄ 32) (u32 m) = m.
Proof.
  intros Hm. rewrite (u32_small (m / _)) by mach.
  rewrite (u64_small (Z.shiftl _ _)) by (rewrite Z.shiftl_mul_pow2 by lia; mach).
  rewrite lor_shiftl_add by (lia || apply u32_range). mach.
Qed.

(** The header is read back from its image, whatever follows it. *)
Lemma decode_packet_image h p :
  rudp_header_ok h → payload_length h = Z.of_nat (length p) →
  decode_packet (rudp_header_bytes h ++ p) = Some (h, p).
Proof.
  intros (Hm & Hv & [Ht Hty] & Hc & Hn & Hl & Hmask & Hd & Hch & Hf & Hts & Hpl) Hlen.
  unfold decode_packet. rewrite length_app, rudp_header_bytes_length.
  destruct (Nat.ltb_spec (34 + length p) kRudpHeaderBytes); [unfold kRudpHeaderBytes in *; lia|].
  destruct h as [mg vs ty ci pn al am ad ch fl ts pl]; simpl in Hm, Hv, Ht, Hty, Hc, Hn, Hl, Hmask, Hd, Hch, Hf, Hts, Hpl, Hlen.
  set (d := rudp_header_bytes _ ++ p).
  assert (E1 : read_be16 (drop 0 d) = mg) by (by apply (read_be16_be16 mg)).
  assert (E2 : read_be32 (drop 4 d) = ci) by (by apply (read_be32_be32 ci)).
  assert (E3 : read_be32 (drop 8 d) = pn) by (by apply (read_be32_be32 pn)).
  assert (E4 : read_be32 (drop 12 d) = al) by (by apply (read_be32_be32 al)).
  assert (E5 : read_be32 (drop 16 d) = u32 (am / 2 ^ 32)).
  { rewrite <- (read_be32_be32 (u32 (am / 2 ^ 32)) (drop 20 d)), be32_u32 by apply u32_range. done. }
  assert (E6 : read_be32 (drop 20 d) = u32 am).
  { rewrite <- (read_be32_be32 (u32 am) (drop 24 d)), be32_u32 by apply u32_range. done. }
  assert (E7 : read_be16 (drop 24 d) = ad) by (by apply (read_be16_be16 ad)).
  assert (E8 : read_be32 (drop 28 d) = ts) by (by apply (read_be32_be32 ts)).
  assert (E9 : read_be16 (drop 32 d) = pl) by (by apply (read_be16_be16 pl)).
  rewrite E1, E2, E3, E4, E5, E6, E7, E8, E9, join_mask by done. cbn [payload_length].
  rewrite Hlen, (proj2 (Z.eqb_eq _ _)) by (unfold kRudpHeaderBytes; lia). cbn [negb].
  rewrite Nat2Z.id. change (drop kRudpHeaderBytes d) with p. rewrite firstn_all.
  change (byte_at d 2) with vs. change (byte_at d 26) with ch. change (byte_at d 27) with fl.
  change (byte_at d 3) with (packet_type_byte ty). by rewrite Hty.
Qed.

(** Decoding is only defined on images: a decoded datagram is its header's
    image followed by its payload. *)
Lemma split_mask hi lo : is_u32 hi → is_u32 lo →
  be32 (Z.lor (hi <<₆₄ 32) lo / 2 ^ 32) = be32 hi ∧ be32 (Z.lor (hi <<₆₄ 32) lo) = be32 lo
  ∧ is_u64 (Z.lor (hi <<₆₄ 32) lo).
Proof.
  intros Hh Hl.
  rewrite (u64_small (Z.shiftl _ _)) by (rewrite Z.shiftl_mul_pow2 by lia; mach).
  rewrite lor_shiftl_add by (lia || done).
  rewrite <- (be32_u32 ((_ + _) / _)), <- (be32_u32 (hi * _ + _)).
  rewrite (Z.div_add_l hi), (Z.div_small lo), Z.add_0_r by mach.
  replace (u32 (hi * 2 ^ 32 + lo)) with lo by mach.
  rewrite u32_small by done. split_and!; [done..|mach].
Qed.
Lemma packet_type_of_byte_ok b : is_u8 b →
  packet_type_ok (packet_type_of_byte b) ∧ packet_type_byte (packet_type_of_byte b) = b.
Proof.
  intros Hb. unfold packet_type_of_byte, packet_type_ok.
  repeat case_match; simpl; (split; [split; [mach|]|mach]); unfold packet_type_of_byte; try done.
  repeat case_match; done || lia.
Qed.

(** Peels the field that [L] names off both sides of an equation of suffixes. *)
Ltac peel L :=
  etransitivity; [apply L; (assumption || lia)|]; cbn [app]; apply f_equal.
Lemma decode_packet_sound d h p : bytes_ok d → decode_packet d = Some (h, p) →
  rudp_header_ok h ∧ payload_length h = Z.of_nat (length p) ∧ d = rudp_header_bytes h ++ p.
Proof.
  unfold decode_packet. intros Hok H.
  destruct (Nat.ltb_spec (length d) kRudpHeaderBytes) as [|Hge]; [done|].
  unfold kRudpHeaderBytes in *.
  match type of H with context [negb ?c] => destruct c eqn:Hc end; [|done].
  apply Z.eqb_eq in Hc. cbn [negb payload_length] in H, Hc.
  injection H as <- <-.
  pose proof (read_be16_range (drop 32 d)) as Hpl.
  rewrite (take_ge (drop 34 d)) by (rewrite length_drop; mach).
  assert (Hd : ∀ n, is_u32 (read_be32 (drop n d))).
  { intros n. by apply read_be32_range, Forall_drop. }
  destruct (split_mask (read_be32 (drop 16 d)) (read_be32 (drop 20 d))) as (E1 & E2 & E3); [done..|].
  destruct (packet_type_of_byte_ok (byte_at d 3)) as [Ht Et]; [by apply byte_at_ok|].
  split_and!.
  - unfold rudp_header_ok; simpl. split_and!; auto using byte_at_ok, read_be16_range.
  - cbn [payload_length]. rewrite length_drop. mach.
  - unfold rudp_header_bytes.
    cbn [magic version ptype connection_id packet_number ack_largest ack_mask ack_delay_ms
         channel flags timestamp_ms payload_length]. rewrite E1, E2, Et.
    rewrite <- !app_assoc. transitivity (drop 0 d); [by rewrite drop_0|].
    peel (be16_cut d 0). peel (byte_cut d 2). peel (byte_cut d 3). peel (be32_cut d 4).
    peel (be32_cut d 8). peel (be32_cut d 12). peel (be32_cut d 16). peel (be32_cut d 20).
    peel (be16_cut d 24). peel (byte_cut d 26). peel (byte_cut d 27). peel (be32_cut d 28).
    by peel (be16_cut d 32).
Qed.

Lemma decode_encode_packet h p :
  rudp_header_ok h → Z.of_nat (length p) < 65536 →
  decode_packet (encode_packet h p) = Some (with_payload_length h (Z.of_nat (length p)), p).
Proof.
  intros Hh Hp. rewrite encode_packet_bytes, u16_small by mach.
  apply decode_packet_image; [|done].
  destruct Hh as (?&?&?&?&?&?&?&?&?&?&?&?). unfold rudp_header_ok; simpl.
  split_and!; done || mach.
Qed.

Lemma looks_like_rudp_encode h p :
  is_u16 (magic h) → looks_like_rudp (encode_packet h p) = (magic h =? kRudpMagic).
Proof.
  intros Hm. rewrite encode_packet_bytes. unfold looks_like_rudp.
  rewrite length_app, rudp_header_bytes_length. cbn [Nat.leb Nat.add andb].
  f_equal. by apply (read_be16_be16 (magic h)).
Qed.

(** ** Properties *)

(** C40: datagrams round-trip in both directions.  Decoding an encoded packet
    gives the header back with the payload's length filled in, and any
    datagram that decodes is byte for byte the encoding of what was decoded. *)
Theorem rudp_packet_roundtrip :
  (∀ h p, rudp_header_ok h → Z.of_nat (length p) < 65536 →
     decode_packet (encode_packet h p)
     = Some (with_payload_length h (Z.of_nat (length p)), p))
  ∧ (∀ d h p, bytes_ok d → decode_packet d = Some (h, p) → encode_packet h p = d).
Proof.
  split.
  - apply decode_encode_packet.
  - intros d h p Hd H. apply decode_packet_sound in H as (Hh & Hl & ->); [|done].
    rewrite encode_packet_bytes. do 2 f_equal.
    destruct Hh as (_&_&_&_&_&_&_&_&_&_&_&Hpl). rewrite u16_small by (rewrite <- Hl; done).
    rewrite <- Hl. by destruct h.
Qed.

Lemma rudp_packet_roundtrip_witness :
  let h := {| magic := kRudpMagic; version := 1; ptype := kData; connection_id := 77;
              packet_number := 5; ack_largest := 9; ack_mask := 0x8000000000000001;
              ack_delay_ms := 10; channel := 2; flags := 0; timestamp_ms := 123456;
              payload_length := 0 |} in
  decode_packet (encode_packet h [1; 2; 3]) = Some (with_payload_length h 3, [1; 2; 3]).
Proof.
  intros h. apply (proj1 rudp_packet_roundtrip h [1; 2; 3]); [|simpl; lia].
  unfold rudp_header_ok, packet_type_ok, kRudpMagic, h; simpl. split_and!; done || mach.
Defined.
