(* ===== verification/RetransmissionQueue.v ===== *)
(** * RUDP retransmission queue

    Model of [core/src/net/rudp/retransmission_queue.cpp]: the FIFO of packets
    sent but not yet acknowledged, with the running total of their bytes. *)
From S2P Require Import Prelude.
From stdpp Require Import list.
Open Scope Z_scope.

Record PendingPacket := {
  pp_packet_number : Z;
  first_sent_unix_ms : Z;
  last_sent_unix_ms : Z;
  retransmit_count : Z;
  encoded_frame : list Z;
}.
Record Entry := { packet : PendingPacket; acked : bool }.
Record RetransmissionQueue := { pending_ : list Entry; inflight_bytes_ : Z }.

Definition frame_size (e : Entry) : Z := Z.of_nat (length (encoded_frame (packet e))).
Definition inflight_packets (q : RetransmissionQueue) : Z := Z.of_nat (length (pending_ q)).
Definition inflight_bytes (q : RetransmissionQueue) : Z := inflight_bytes_ q.

Definition rq_reset (_ : RetransmissionQueue) : RetransmissionQueue :=
  {| pending_ := []; inflight_bytes_ := 0 |}.

Definition rq_push (q : RetransmissionQueue) (packet_number sent_unix_ms : Z) (frame : list Z)
    : RetransmissionQueue :=
  if (length frame =? 0)%nat then q
  else
    let entry :=
      {| packet := {| pp_packet_number := packet_number;
                      first_sent_unix_ms := sent_unix_ms;
                      last_sent_unix_ms := sent_unix_ms;
                      retransmit_count := 0;
                      encoded_frame := frame |};
         acked := false |} in
    {| pending_ := pending_ q ++ [entry];
       inflight_bytes_ := inflight_bytes_ q +₆₄ Z.of_nat (length frame) |}.

Definition is_acked_by_mask (packet_number ack_largest ack_mask : Z) : bool :=
  if ack_largest <? packet_number then false
  else if packet_number =? ack_largest then true
  else
    let distance := ack_largest -₃₂ packet_number in
    if 64 <=? distance then true
    else
      let bit := 1 <<₆₄ distance in
      negb (Z.land ack_mask bit =? 0).

(** [erase_acked]: the [while] that pops acknowledged entries off the front,
    adjusting the byte count by hand ... *)
Fixpoint pop_acked_front (pending : list Entry) (bytes : Z) : list Entry * Z :=
  match pending with
  | e :: rest =>
      if acked e then
        let size := frame_size e in
        pop_acked_front rest (if size <=? bytes then bytes - size else 0)
      else (pending, bytes)
  | [] => ([], bytes)
  end.
(** ... then [remove_if] over the rest, recounting when something went. *)
Definition recount (pending : list Entry) : Z :=
  foldl (λ acc e, acc +₆₄ frame_size e) 0 pending.
Definition erase_acked (q : RetransmissionQueue) : RetransmissionQueue :=
  let '(pending, bytes) := pop_acked_front (pending_ q) (inflight_bytes_ q) in
  if (length pending =? 0)%nat then {| pending_ := pending; inflight_bytes_ := bytes |}
  else
    let pending' := filter (λ e, acked e = false) pending in
    if (length pending' =? length pending)%nat
    then {| pending_ := pending'; inflight_bytes_ := bytes |}
    else {| pending_ := pending'; inflight_bytes_ := recount pending' |}.

Definition mark_entry (ack_largest ack_mask : Z) (e : Entry) : Entry :=
  if negb (acked e) && is_acked_by_mask (pp_packet_number (packet e)) ack_largest ack_mask
  then {| packet := packet e; acked := true |}
  else e.
Definition mark_acked (q : RetransmissionQueue) (ack_largest ack_mask : Z) : RetransmissionQueue :=
  erase_acked {| pending_ := mark_entry ack_largest ack_mask <$> pending_ q;
                 inflight_bytes_ := inflight_bytes_ q |}.

(** The fields a retransmission updates. *)
Definition bump (now_unix_ms : Z) (p : PendingPacket) : PendingPacket :=
  {| pp_packet_number := pp_packet_number p;
     first_sent_unix_ms := first_sent_unix_ms p;
     last_sent_unix_ms := now_unix_ms;
     retransmit_count := retransmit_count p +₃₂ 1;
     encoded_frame := encoded_frame p |}.

(** The [for] loop of [collect_timeouts]; [n] is the number of packets [due]
    already holds. *)
Fixpoint collect_loop (now_unix_ms rto_ms max_batch n : Z) (pending : list Entry)
    : list Entry * list PendingPacket :=
  match pending with
  | [] => ([], [])
  | e :: rest =>
      if acked e then
        let '(rest', due) := collect_loop now_unix_ms rto_ms max_batch n rest in (e :: rest', due)
      else
        let elapsed := now_unix_ms -₆₄ last_sent_unix_ms (packet e) in
        if elapsed <? rto_ms then
          let '(rest', due) := collect_loop now_unix_ms rto_ms max_batch n rest in (e :: rest', due)
        else
          let p := bump now_unix_ms (packet e) in
          let e' := {| packet := p; acked := acked e |} in
          if max_batch <=? n + 1 then (e' :: rest, [p])
          else
            let '(rest', due) := collect_loop now_unix_ms rto_ms max_batch (n + 1) rest in
            (e' :: rest', p :: due)
  end.
Definition collect_timeouts (q : RetransmissionQueue) (now_unix_ms rto_ms max_batch : Z)
    : RetransmissionQueue * list PendingPacket :=
  if (max_batch =? 0) || (rto_ms =? 0) then (q, [])
  else
    let '(pending, due) := collect_loop now_unix_ms rto_ms max_batch 0 (pending_ q) in
    ({| pending_ := pending; inflight_bytes_ := inflight_bytes_ q |}, due).

(** ** Invariant: between operations no entry is marked, and the byte count is
    the sum of the frame sizes. *)
Definition total_bytes (l : list Entry) : Z := foldr (λ e acc, frame_size e + acc) 0 l.
Definition rq_ok (q : RetransmissionQueue) : Prop :=
  Forall (λ e, acked e = false) (pending_ q)
  ∧ inflight_bytes_ q = total_bytes (pending_ q)
  ∧ total_bytes (pending_ q) < 2 ^ 64.

(** Packets an acknowledgement leaves in flight. *)
Definition unacked_by (ack_largest ack_mask : Z) (e : Entry) : Prop :=
  is_acked_by_mask (pp_packet_number (packet e)) ack_largest ack_mask = false.
#[global] Instance unacked_by_dec l m e : Decision (unacked_by l m e).
Proof. unfold unacked_by. apply _. Defined.
(** Entries whose timer has expired. *)
Definition due_at (now_unix_ms rto_ms : Z) (e : Entry) : Prop :=
  rto_ms ≤ now_unix_ms -₆₄ last_sent_unix_ms (packet e).
#[global] Instance due_at_dec t r e : Decision (due_at t r e).
Proof. unfold due_at. apply _. Defined.

Lemma frame_size_nonneg e : 0 ≤ frame_size e.
Proof. unfold frame_size. lia. Qed.
Lemma total_bytes_nonneg l : 0 ≤ total_bytes l.
Proof. induction l as [|e l IH]; simpl; [lia|]. pose proof (frame_size_nonneg e). lia. Qed.
Lemma total_bytes_cons e l : total_bytes (e :: l) = frame_size e + total_bytes l.
Proof. done. Qed.
Lemma total_bytes_app l1 l2 : total_bytes (l1 ++ l2) = total_bytes l1 + total_bytes l2.
Proof. induction l1 as [|e l IH]; simpl; lia. Qed.
Lemma total_bytes_filter (P : Entry → Prop) `{∀ e, Decision (P e)} l :
  total_bytes (filter P l) ≤ total_bytes l.
Proof.
  induction l as [|e l IH]; [done|]. rewrite filter_cons. pose proof (frame_size_nonneg e).
  case_decide; simpl; lia.
Qed.
Lemma total_bytes_mark l m es : total_bytes (mark_entry l m <$> es) = total_bytes es.
Proof.
  induction es as [|e es IH]; [done|]. rewrite fmap_cons, !total_bytes_cons, IH. f_equal.
  unfold mark_entry. by case_match.
Qed.

Lemma recount_total l : total_bytes l < 2 ^ 64 → recount l = total_bytes l.
Proof.
  intros Hb. unfold recount.
  enough (H : ∀ acc, 0 ≤ acc → acc + total_bytes l < 2 ^ 64 →
    foldl (λ acc e, acc +₆₄ frame_size e) acc l = acc + total_bytes l) by (rewrite H; lia).
  clear Hb. induction l as [|e l IH]; intros acc Ha Hb; simpl in *; [lia|].
  pose proof (frame_size_nonneg e). pose proof (total_bytes_nonneg l).
  rewrite u64_small by mach. rewrite IH by lia. lia.
Qed.

(** The front loop keeps the count exact and stops at an unmarked entry. *)
Lemma pop_acked_front_spec l : ∀ bytes,
  bytes = total_bytes l →
  let '(l', bytes') := pop_acked_front l bytes in
  bytes' = total_bytes l' ∧ total_bytes l' ≤ total_bytes l
  ∧ filter (λ e, acked e = false) l' = filter (λ e, acked e = false) l.
Proof.
  induction l as [|e l IH]; intros bytes Hb; simpl; [done|].
  destruct (acked e) eqn:Ha; [|done].
  rewrite filter_cons_False by congruence.
  pose proof (frame_size_nonneg e). pose proof (total_bytes_nonneg l). simpl in Hb.
  destruct (Z.leb_spec (frame_size e) bytes); [|lia].
  specialize (IH (bytes - frame_size e)). destruct (pop_acked_front l _) as [l' b'].
  destruct IH as (? & ? & ?); [lia|]. split_and!; [done|lia|done].
Qed.

Lemma erase_acked_spec l bytes :
  bytes = total_bytes l → total_bytes l < 2 ^ 64 →
  erase_acked {| pending_ := l; inflight_bytes_ := bytes |}
  = {| pending_ := filter (λ e, acked e = false) l;
       inflight_bytes_ := total_bytes (filter (λ e, acked e = false) l) |}.
Proof.
  intros Hb Hlt. unfold erase_acked. simpl.
  pose proof (pop_acked_front_spec l bytes Hb) as Hp.
  destruct (pop_acked_front l bytes) as [l' b']. destruct Hp as (-> & Hle & <-).
  destruct l' as [|e l']; [done|]. cbn [length Nat.eqb].
  set (f := filter (λ e, acked e = false) (e :: l')).
  destruct (Nat.eqb_spec (length f) (S (length l'))) as [Hl|_].
  - assert (Hf : f = e :: l') by (by apply filter_full_length). by rewrite Hf.
  - rewrite recount_total; [done|]. subst f.
    pose proof (total_bytes_filter (λ e, acked e = false) (e :: l')). lia.
Qed.

(** Marking then erasing keeps exactly the packets the acknowledgement does
    not cover, in order. *)
Lemma filter_mark l m es : Forall (λ e, acked e = false) es →
  filter (λ e, acked e = false) (mark_entry l m <$> es) = filter (unacked_by l m) es.
Proof.
  induction 1 as [|e es He _ IH]; [done|]. rewrite fmap_cons.
  destruct (is_acked_by_mask (pp_packet_number (packet e)) l m) eqn:Hm.
  - rewrite !filter_cons_False; [done | unfold unacked_by; congruence |].
    unfold mark_entry. by rewrite He, Hm.
  - assert (Hk : mark_entry l m e = e) by (unfold mark_entry; by rewrite He, Hm).
    by rewrite Hk, !filter_cons_True, IH by done.
Qed.

Lemma mark_acked_spec q l m : rq_ok q →
  mark_acked q l m
  = {| pending_ := filter (unacked_by l m) (pending_ q);
       inflight_bytes_ := total_bytes (filter (unacked_by l m) (pending_ q)) |}.
Proof.
  intros (Ha & Hb & Hlt). unfold mark_acked.
  rewrite erase_acked_spec by (by rewrite total_bytes_mark). by rewrite filter_mark.
Qed.
Lemma mark_acked_ok q l m : rq_ok q → rq_ok (mark_acked q l m).
Proof.
  intros Hq. rewrite mark_acked_spec by done. destruct Hq as (Ha & _ & Hlt).
  split_and!; simpl; [|done|].
  - apply Forall_forall. intros e [_ He]%list_elem_of_filter.
    by apply (Forall_forall (λ e, acked e = false) (pending_ q)).
  - pose proof (total_bytes_filter (unacked_by l m) (pending_ q)). lia.
Qed.
Lemma rq_push_ok q n t f :
  rq_ok q → total_bytes (pending_ q) + Z.of_nat (length f) < 2 ^ 64 → rq_ok (rq_push q n t f).
Proof.
  intros (Ha & Hb & Hlt) Hf. unfold rq_push. destruct (Nat.eqb_spec (length f) 0); [done|].
  pose proof (total_bytes_nonneg (pending_ q)).
  unfold rq_ok; simpl. rewrite total_bytes_app. simpl. rewrite Hb, u64_small by mach.
  split_and!; unfold frame_size; simpl; [|lia|lia].
  apply Forall_app. split; [done|]. by repeat constructor.
Qed.

(** The loop of [collect_timeouts] on unmarked entries. *)
Definition touch (now_unix_ms : Z) (e : Entry) : Entry :=
  {| packet := bump now_unix_ms (packet e); acked := acked e |}.
Lemma collect_loop_spec now rto mb es : Forall (λ e, acked e = false) es →
  ∀ n, 0 ≤ n < mb →
  let '(es', due) := collect_loop now rto mb n es in
  due = take (Z.to_nat (mb - n)) (bump now ∘ packet <$> filter (due_at now rto) es)
  ∧ Forall2 (λ e e', e' = e ∨ due_at now rto e ∧ e' = touch now e) es es'.
Proof.
  induction 1 as [|e es He Hes IH]; intros n Hn; simpl.
  { split; [by destruct (Z.to_nat _) | constructor]. }
  rewrite He.
  destruct (Z.ltb_spec (now -₆₄ last_sent_unix_ms (packet e)) rto) as [Hlt|Hge].
  { rewrite filter_cons_False by (unfold due_at; lia). specialize (IH n Hn).
    destruct (collect_loop now rto mb n es) as [es' due]. destruct IH.
    split; [done|]. constructor; auto. }
  rewrite filter_cons_True, fmap_cons by done.
  replace (Z.to_nat (mb - n)) with (S (Z.to_nat (mb - (n + 1)))) by lia.
  destruct (Z.leb_spec mb (n + 1)).
  - replace (Z.to_nat (mb - (n + 1))) with 0%nat by lia. split; [done|].
    constructor; [right; unfold touch; by rewrite He|].
    apply Forall2_same_length_lookup_2; [done|]. intros; simplify_eq; auto.
  - specialize (IH (n + 1)). destruct (collect_loop now rto mb (n + 1) es) as [es' due].
    destruct IH as [-> IH]; [lia|]. split; [done|].
    constructor; [right; unfold touch; by rewrite He|done].
Qed.

Lemma collect_timeouts_spec (q : RetransmissionQueue) (now rto mb : Z) :
  rq_ok q → rto ≠ 0 → 0 < mb →
  (collect_timeouts q now rto mb).2
    = take (Z.to_nat mb) (bump now ∘ packet <$> filter (due_at now rto) (pending_ q))
  ∧ Forall2 (λ e e', e' = e ∨ due_at now rto e ∧ e' = touch now e)
      (pending_ q) (pending_ (collect_timeouts q now rto mb).1)
  ∧ rq_ok (collect_timeouts q now rto mb).1.
Proof.
  intros (Ha & Hb & Hlt) Hrto Hmb. unfold collect_timeouts.
  destruct (Z.eqb_spec mb 0); [lia|]. destruct (Z.eqb_spec rto 0); [done|]. cbn [orb].
  pose proof (collect_loop_spec now rto mb _ Ha 0) as Hc.
  destruct (collect_loop now rto mb 0 (pending_ q)) as [es due].
  destruct Hc as [-> Hes]; [lia|]. rewrite Z.sub_0_r. split_and!; [done..|].
  assert (Ht : total_bytes es = total_bytes (pending_ q)).
  { clear -Hes. induction Hes as [|e e' ? ? He _ IH]; [done|].
    rewrite !total_bytes_cons, IH. by destruct He as [->|[_ ->]]. }
  unfold rq_ok; simpl. rewrite Ht. split_and!; [|done..].
  clear -Ha Hes. induction Hes as [|e e' ? ? He _ IH]; [constructor|].
  inversion_clear Ha. constructor; [by destruct He as [->|[_ ->]] | auto].
Qed.

(** ** Properties *)

(** Acknowledgement processing is exact: from a consistent queue,
    [mark_acked] removes precisely the packets covered by
    [(ack_largest, ack_mask)], keeps the others in order, and leaves the byte
    counter equal to the bytes still queued, through both the front-popping
    and the recounting path. *)
Theorem mark_acked_exact (q : RetransmissionQueue) (l m : Z) (Hq : rq_ok q) :
  mark_acked q l m
  = {| pending_ := filter (unacked_by l m) (pending_ q);
       inflight_bytes_ := total_bytes (filter (unacked_by l m) (pending_ q)) |}
  ∧ rq_ok (mark_acked q l m).
Proof. split; [by apply mark_acked_spec | by apply mark_acked_ok]. Qed.

Definition sample_queue : RetransmissionQueue :=
  rq_push (rq_push (rq_push {| pending_ := []; inflight_bytes_ := 0 |} 1 1000 [1; 1]) 2 1000 [2]) 3 1010 [3; 3; 3].
Lemma sample_queue_ok : rq_ok sample_queue.
Proof. split_and!; [repeat constructor|done|done]. Defined.

Lemma mark_acked_exact_witness :
  pp_packet_number ∘ packet <$> pending_ (mark_acked sample_queue 3 3) = [1]
  ∧ inflight_bytes (mark_acked sample_queue 3 3) = 2
  ∧ rq_ok (mark_acked sample_queue 3 3).
Proof.
  split_and!; [reflexivity..|]. by apply (mark_acked_exact sample_queue 3 3 sample_queue_ok).
Defined.

(** The retransmission batch is the first [max_batch] packets whose timer
    expired, oldest first, with the retry counter and timestamp updated; every
    queued packet stays queued, so nothing is lost by collecting. *)
Theorem collect_timeouts_exact (q : RetransmissionQueue) (now rto mb : Z)
  (Hq : rq_ok q) (Hrto : rto ≠ 0) (Hmb : 0 < mb) :
  (collect_timeouts q now rto mb).2
    = take (Z.to_nat mb) (bump now ∘ packet <$> filter (due_at now rto) (pending_ q))
  ∧ Forall2 (λ e e', e' = e ∨ due_at now rto e ∧ e' = touch now e)
      (pending_ q) (pending_ (collect_timeouts q now rto mb).1)
  ∧ rq_ok (collect_timeouts q now rto mb).1.
Proof. by apply collect_timeouts_spec. Qed.

Lemma collect_timeouts_exact_witness :
  pp_packet_number <$> (collect_timeouts sample_queue 1200 200 2).2 = [1; 2]
  ∧ retransmit_count <$> (collect_timeouts sample_queue 1200 200 2).2 = [1; 1]
  ∧ rq_ok (collect_timeouts sample_queue 1200 200 2).1.
Proof.
  split_and!; [reflexivity..|].
  apply (collect_timeouts_exact sample_queue 1200 200 2 sample_queue_ok); lia.
Defined.
