(* ===== verification/RudpEngine.v ===== *)
(** * RUDP engine

    Model of [core/include/server/core/net/rudp/rudp_peer_state.hpp] and
    [core/src/net/rudp/rudp_engine.cpp]: handshake, data, acknowledgement,
    retransmission and fallback of one peer.  Each member function is a
    function from the engine state to the new state, its result and the
    runtime-metrics calls it makes, in order. *)
From S2P Require Import Prelude Packet RudpPacket AckWindow RetransmissionQueue.
From stdpp Require Import list gmap strings.
Open Scope Z_scope.

Inductive LifecycleState :=
  lsIdle | lsHelloSent | lsHelloReceived | lsEstablished | lsDraining | lsClosed.
#[global] Instance LifecycleState_eq_dec : EqDecision LifecycleState.
Proof. solve_decision. Defined.

Record RudpConfig := {
  handshake_timeout_ms : Z;
  idle_timeout_ms : Z;
  cfg_ack_delay_ms : Z;
  rto_min_ms : Z;
  rto_max_ms : Z;
  max_inflight_packets : Z;
  max_inflight_bytes : Z;
  mtu_payload_bytes : Z;
}.
Definition default_rudp_config : RudpConfig :=
  {| handshake_timeout_ms := 1500; idle_timeout_ms := 10000; cfg_ack_delay_ms := 10;
     rto_min_ms := 50; rto_max_ms := 2000; max_inflight_packets := 256;
     max_inflight_bytes := 256 * 1024; mtu_payload_bytes := 1200 |}.

(** ** RTT estimation *)
Record RttEstimator := { rtt_initialized : bool; srtt_ms : Z; rttvar_ms : Z; rto_ms : Z }.
Definition rtt_new : RttEstimator :=
  {| rtt_initialized := false; srtt_ms := 0; rttvar_ms := 0; rto_ms := 200 |}.

(** [std::clamp] *)
Definition clamp (v lo hi : Z) : Z := if v <? lo then lo else if hi <? v then hi else v.

Definition rtt_update (r : RttEstimator) (sample_ms rto_min rto_max : Z) : RttEstimator :=
  if sample_ms =? 0 then r
  else
    let '(srtt, rttvar) :=
      if negb (rtt_initialized r) then (sample_ms, Z.max 1 (sample_ms / 2))
      else
        let err := u32 (Z.abs (i32 (srtt_ms r) - i32 sample_ms)) in
        (u32 ((7 * srtt_ms r +₆₄ sample_ms) / 8), u32 ((3 * rttvar_ms r +₆₄ err) / 4)) in
    let candidate := srtt +₃₂ Z.max 1 (4 *₃₂ rttvar) in
    {| rtt_initialized := true; srtt_ms := srtt; rttvar_ms := rttvar;
       rto_ms := clamp candidate rto_min rto_max |}.

(** ** Peer state *)
Record RudpPeerState := {
  lifecycle : LifecycleState;
  st_connection_id : Z;
  next_packet_number : Z;
  last_recv_unix_ms : Z;
  last_send_unix_ms : Z;
  last_ack_emit_unix_ms : Z;
  st_ack_largest : Z;
  st_ack_mask : Z;
  st_fallback_required : bool;
  st_fallback_reason : string;
  rtt : RttEstimator;
}.
Definition peer_state_new : RudpPeerState :=
  {| lifecycle := lsIdle; st_connection_id := 0; next_packet_number := 1;
     last_recv_unix_ms := 0; last_send_unix_ms := 0; last_ack_emit_unix_ms := 0;
     st_ack_largest := 0; st_ack_mask := 0; st_fallback_required := false;
     st_fallback_reason := ""; rtt := rtt_new |}.

(** Assignments to one member. *)
Definition set_lifecycle (v : LifecycleState) (s : RudpPeerState) : RudpPeerState :=
  {| lifecycle := v; st_connection_id := st_connection_id s;
     next_packet_number := next_packet_number s; last_recv_unix_ms := last_recv_unix_ms s;
     last_send_unix_ms := last_send_unix_ms s; last_ack_emit_unix_ms := last_ack_emit_unix_ms s;
     st_ack_largest := st_ack_largest s; st_ack_mask := st_ack_mask s;
     st_fallback_required := st_fallback_required s; st_fallback_reason := st_fallback_reason s;
     rtt := rtt s |}.
Definition set_connection_id (v : Z) (s : RudpPeerState) : RudpPeerState :=
  {| lifecycle := lifecycle s; st_connection_id := v;
     next_packet_number := next_packet_number s; last_recv_unix_ms := last_recv_unix_ms s;
     last_send_unix_ms := last_send_unix_ms s; last_ack_emit_unix_ms := last_ack_emit_unix_ms s;
     st_ack_largest := st_ack_largest s; st_ack_mask := st_ack_mask s;
     st_fallback_required := st_fallback_required s; st_fallback_reason := st_fallback_reason s;
     rtt := rtt s |}.
Definition set_next_packet_number (v : Z) (s : RudpPeerState) : RudpPeerState :=
  {| lifecycle := lifecycle s; st_connection_id := st_connection_id s;
     next_packet_number := v; last_recv_unix_ms := last_recv_unix_ms s;
     last_send_unix_ms := last_send_unix_ms s; last_ack_emit_unix_ms := last_ack_emit_unix_ms s;
     st_ack_largest := st_ack_largest s; st_ack_mask := st_ack_mask s;
     st_fallback_required := st_fallback_required s; st_fallback_reason := st_fallback_reason s;
     rtt := rtt s |}.
Definition set_times (recv send ackemit : Z) (s : RudpPeerState) : RudpPeerState :=
  {| lifecycle := lifecycle s; st_connection_id := st_connection_id s;
     next_packet_number := next_packet_number s; last_recv_unix_ms := recv;
     last_send_unix_ms := send; last_ack_emit_unix_ms := ackemit;
     st_ack_largest := st_ack_largest s; st_ack_mask := st_ack_mask s;
     st_fallback_required := st_fallback_required s; st_fallback_reason := st_fallback_reason s;
     rtt := rtt s |}.
Definition set_last_recv (v : Z) (s : RudpPeerState) : RudpPeerState :=
  set_times v (last_send_unix_ms s) (last_ack_emit_unix_ms s) s.
Definition set_last_send (v : Z) (s : RudpPeerState) : RudpPeerState :=
  set_times (last_recv_unix_ms s) v (last_ack_emit_unix_ms s) s.
Definition set_last_ack_emit (v : Z) (s : RudpPeerState) : RudpPeerState :=
  set_times (last_recv_unix_ms s) (last_send_unix_ms s) v s.
Definition set_ack (l m : Z) (s : RudpPeerState) : RudpPeerState :=
  {| lifecycle := lifecycle s; st_connection_id := st_connection_id s;
     next_packet_number := next_packet_number s; last_recv_unix_ms := last_recv_unix_ms s;
     last_send_unix_ms := last_send_unix_ms s; last_ack_emit_unix_ms := last_ack_emit_unix_ms s;
     st_ack_largest := l; st_ack_mask := m;
     st_fallback_required := st_fallback_required s; st_fallback_reason := st_fallback_reason s;
     rtt := rtt s |}.
Definition set_rtt (v : RttEstimator) (s : RudpPeerState) : RudpPeerState :=
  {| lifecycle := lifecycle s; st_connection_id := st_connection_id s;
     next_packet_number := next_packet_number s; last_recv_unix_ms := last_recv_unix_ms s;
     last_send_unix_ms := last_send_unix_ms s; last_ack_emit_unix_ms := last_ack_emit_unix_ms s;
     st_ack_largest := st_ack_largest s; st_ack_mask := st_ack_mask s;
     st_fallback_required := st_fallback_required s; st_fallback_reason := st_fallback_reason s;
     rtt := v |}.
(** [RudpPeerState::mark_fallback] *)
Definition mark_fallback (reason : string) (s : RudpPeerState) : RudpPeerState :=
  {| lifecycle := lifecycle s; st_connection_id := st_connection_id s;
     next_packet_number := next_packet_number s; last_recv_unix_ms := last_recv_unix_ms s;
     last_send_unix_ms := last_send_unix_ms s; last_ack_emit_unix_ms := last_ack_emit_unix_ms s;
     st_ack_largest := st_ack_largest s; st_ack_mask := st_ack_mask s;
     st_fallback_required := true; st_fallback_reason := reason; rtt := rtt s |}.
(** [std::move] out of [state_.fallback_reason]: the common implementations
    leave the source string empty. *)
Definition move_fallback_reason (s : RudpPeerState) : RudpPeerState :=
  {| lifecycle := lifecycle s; st_connection_id := st_connection_id s;
     next_packet_number := next_packet_number s; last_recv_unix_ms := last_recv_unix_ms s;
     last_send_unix_ms := last_send_unix_ms s; last_ack_emit_unix_ms := last_ack_emit_unix_ms s;
     st_ack_largest := st_ack_largest s; st_ack_mask := st_ack_mask s;
     st_fallback_required := st_fallback_required s; st_fallback_reason := ""; rtt := rtt s |}.

(** ** Metrics the engine records *)
Inductive RudpFallbackReason :=
  frHandshakeTimeout | frIdleTimeout | frProtocolError | frInflightLimit | frDisabled | frOther.
Inductive RudpMetric :=
  | RecordHandshake (ok : bool)
  | RecordRetransmit (n : Z)
  | SetInflight (n : Z)
  | RecordRtt (ms : Z)
  | RecordFallback (r : RudpFallbackReason).

Definition classify_fallback_reason (reason : string) : RudpFallbackReason :=
  if bool_decide (reason = "rudp_handshake_timeout") then frHandshakeTimeout
  else if bool_decide (reason = "rudp_idle_timeout") then frIdleTimeout
  else if bool_decide (reason = "rudp_inflight_limit") then frInflightLimit
  else if bool_decide (reason = "rudp_disabled") then frDisabled
  else if bool_decide (reason = "invalid_rudp_packet")
       || bool_decide (reason = "connection_id_mismatch")
       || bool_decide (reason = "rudp_not_established")
       || bool_decide (reason = "peer_closed") then frProtocolError
  else frOther.

(** ** The engine *)
Record RudpEngine := {
  config_ : RudpConfig;
  state_ : RudpPeerState;
  ack_window_ : AckWindow;
  retransmission_queue_ : RetransmissionQueue;
}.
Definition upd_state (f : RudpPeerState → RudpPeerState) (e : RudpEngine) : RudpEngine :=
  {| config_ := config_ e; state_ := f (state_ e); ack_window_ := ack_window_ e;
     retransmission_queue_ := retransmission_queue_ e |}.
Definition set_queue (q : RetransmissionQueue) (e : RudpEngine) : RudpEngine :=
  {| config_ := config_ e; state_ := state_ e; ack_window_ := ack_window_ e;
     retransmission_queue_ := q |}.
Definition set_window (w : AckWindow) (e : RudpEngine) : RudpEngine :=
  {| config_ := config_ e; state_ := state_ e; ack_window_ := w;
     retransmission_queue_ := retransmission_queue_ e |}.

Record ProcessResult := {
  parsed : bool;
  consumed : bool;
  handshake_established : bool;
  fallback_required : bool;
  fallback_reason : string;
  egress_datagrams : list (list Z);
  inner_frames : list (list Z);
  result_retransmit_count : Z;
}.
Definition empty_result : ProcessResult :=
  {| parsed := false; consumed := false; handshake_established := false;
     fallback_required := false; fallback_reason := ""; egress_datagrams := [];
     inner_frames := []; result_retransmit_count := 0 |}.
(** A result of [process_datagram] past the [consumed = true] line. *)
Definition consumed_result (pars hs fb : bool) (reason : string) (eg inner : list (list Z)) : ProcessResult :=
  {| parsed := pars; consumed := true; handshake_established := hs;
     fallback_required := fb; fallback_reason := reason; egress_datagrams := eg;
     inner_frames := inner; result_retransmit_count := 0 |}.

Definition engine_new (config : RudpConfig) : RudpEngine :=
  {| config_ := config; state_ := peer_state_new; ack_window_ := ack_window_new;
     retransmission_queue_ := {| pending_ := []; inflight_bytes_ := 0 |} |}.

Definition engine_reset (e : RudpEngine) : RudpEngine * list RudpMetric :=
  ({| config_ := config_ e; state_ := peer_state_new;
      ack_window_ := ack_window_reset (ack_window_ e);
      retransmission_queue_ := rq_reset (retransmission_queue_ e) |}, [SetInflight 0]).

Definition now32 (now_unix_ms : Z) : Z := u32 (Z.land now_unix_ms 0xFFFFFFFF).

Definition make_header (e : RudpEngine) (type : PacketType) (flgs chan pnum now_unix_ms : Z)
    (payload : list Z) : RudpHeader :=
  {| magic := kRudpMagic; version := 1; ptype := type;
     connection_id := st_connection_id (state_ e);
     packet_number := pnum;
     ack_largest := st_ack_largest (state_ e);
     ack_mask := st_ack_mask (state_ e);
     ack_delay_ms := u16 (Z.min (cfg_ack_delay_ms (config_ e)) 0xFFFF);
     channel := chan; flags := flgs;
     timestamp_ms := now32 now_unix_ms;
     payload_length := u16 (Z.of_nat (length payload)) |}.
Definition make_packet (e : RudpEngine) (type : PacketType) (flgs chan pnum now_unix_ms : Z)
    (payload : list Z) : list Z :=
  encode_packet (make_header e type flgs chan pnum now_unix_ms payload) payload.

(** [set_fallback]: the new engine, the reason moved into the result and the
    metric recorded. *)
Definition set_fallback (e : RudpEngine) (reason : string) : RudpEngine * list RudpMetric :=
  (upd_state (λ s, move_fallback_reason (set_lifecycle lsDraining (mark_fallback reason s))) e,
   [RecordFallback (classify_fallback_reason reason)]).

Definition make_hello (e : RudpEngine) (conn now_unix_ms : Z) : RudpEngine * list Z :=
  let e := upd_state (λ s, set_last_send now_unix_ms (set_lifecycle lsHelloSent (set_connection_id conn s))) e in
  (e, make_packet e kHello 0 0 0 now_unix_ms []).

Definition make_close (e : RudpEngine) (now_unix_ms : Z) : RudpEngine * list Z :=
  let e := upd_state (λ s, set_last_send now_unix_ms (set_lifecycle lsClosed s)) e in
  (e, make_packet e kClose 0 0 0 now_unix_ms []).

(** The tail of [process_datagram] for packets that reach the code after the
    [switch]: [kData], and bytes that name no packet type. *)
Definition process_data (e : RudpEngine) (h : RudpHeader) (payload : list Z) (now_unix_ms : Z)
    : RudpEngine * ProcessResult * list RudpMetric :=
  if negb (bool_decide (lifecycle (state_ e) = lsEstablished)) then
    let '(e, ms) := set_fallback e "rudp_not_established" in
    (e, consumed_result true false true "rudp_not_established" [] [], RecordHandshake false :: ms)
  else
    let '(w, ack) := observe (ack_window_ e) (packet_number h) in
    let e := upd_state (set_ack (obs_ack_largest ack) (obs_ack_mask ack)) (set_window w e) in
    if negb (accepted ack) then (e, consumed_result true false false "" [] [], [])
    else
      let inner := if (length payload =? 0)%nat then [] else [payload] in
      let should_emit_ack :=
        (Z.land (flags h) kFlagAckOnly =? 0)
        && (last_ack_emit_unix_ms (state_ e) +₆₄ cfg_ack_delay_ms (config_ e) <=? now_unix_ms) in
      let egress :=
        if should_emit_ack then [make_packet e kData kFlagAckOnly (channel h) 0 now_unix_ms []]
        else [] in
      let e := if should_emit_ack then upd_state (set_last_ack_emit now_unix_ms) e else e in
      let result := consumed_result true false false "" egress inner in
      if negb (timestamp_ms h =? 0) then
        let sent_ts := timestamp_ms h in
        let now_ts := Z.land now_unix_ms 0xFFFFFFFF in
        let sample := u32 (if sent_ts <=? now_ts then now_ts - sent_ts else 0) in
        let e := upd_state (λ s, set_rtt (rtt_update (rtt s) sample (rto_min_ms (config_ e))
                                            (rto_max_ms (config_ e))) s) e in
        (e, result, [RecordRtt sample])
      else (e, result, []).

(** [record_rudp_handshake_result(false); set_fallback(result, reason)] *)
Definition fail_datagram (e : RudpEngine) (pars : bool) (reason : string)
    : RudpEngine * ProcessResult * list RudpMetric :=
  let '(e, ms) := set_fallback e reason in
  (e, consumed_result pars false true reason [] [], RecordHandshake false :: ms).

(** The dispatch on the packet type. *)
Definition process_type (e : RudpEngine) (h : RudpHeader) (payload : list Z) (now_unix_ms : Z)
    : RudpEngine * ProcessResult * list RudpMetric :=
  match ptype h with
  | kHello =>
      let new_established := negb (bool_decide (lifecycle (state_ e) = lsEstablished)) in
      let e := upd_state (λ s, set_last_send now_unix_ms (set_lifecycle lsEstablished s)) e in
      (e, consumed_result true new_established false ""
            [make_packet e kHelloAck 0 0 0 now_unix_ms []] [], [RecordHandshake true])
  | kHelloAck =>
      (upd_state (set_lifecycle lsEstablished) e,
       consumed_result true true false "" [] [], [RecordHandshake true])
  | kClose =>
      let e := upd_state (set_lifecycle lsClosed) e in
      let '(e, ms) := set_fallback e "peer_closed" in
      (e, consumed_result true false true "peer_closed" [] [], ms)
  | kPing =>
      (e, consumed_result true false false ""
            [make_packet e kData kFlagAckOnly 0 0 now_unix_ms []] [], [])
  | kData | kRawType _ => process_data e h payload now_unix_ms
  end.

Definition process_datagram (e : RudpEngine) (datagram : list Z) (now_unix_ms : Z)
    : RudpEngine * ProcessResult * list RudpMetric :=
  if negb (looks_like_rudp datagram) then (e, empty_result, [])
  else
    match decode_packet datagram with
    | None => fail_datagram e false "invalid_rudp_packet"
    | Some (h, payload) =>
        if negb (version h =? 1) then fail_datagram e false "invalid_rudp_packet"
        else
          let e := upd_state (set_last_recv now_unix_ms) e in
          if negb (st_connection_id (state_ e) =? 0) && negb (connection_id h =? 0)
             && negb (st_connection_id (state_ e) =? connection_id h)
          then fail_datagram e true "connection_id_mismatch"
          else
            let e := if st_connection_id (state_ e) =? 0
                     then upd_state (set_connection_id (connection_id h)) e else e in
            let q := mark_acked (retransmission_queue_ e) (ack_largest h) (ack_mask h) in
            let e := set_queue q e in
            let '(e, r, ms) := process_type e h payload now_unix_ms in
            (e, r, SetInflight (inflight_packets q) :: ms)
    end.

(** [None] is [false]; [Some d] is [true] with [out_datagram = d]. *)
Definition queue_reliable_payload (e : RudpEngine) (inner_frame : list Z) (chan now_unix_ms : Z)
    : RudpEngine * option (list Z) * list RudpMetric :=
  let size := Z.of_nat (length inner_frame) in
  if negb (bool_decide (lifecycle (state_ e) = lsEstablished)) then (e, None, [])
  else if (length inner_frame =? 0)%nat then (e, None, [])
  else if mtu_payload_bytes (config_ e) <? size then (e, None, [])
  else if max_inflight_packets (config_ e) <=? inflight_packets (retransmission_queue_ e)
  then (e, None, [RecordFallback frInflightLimit])
  else if max_inflight_bytes (config_ e) <? inflight_bytes (retransmission_queue_ e) +₆₄ size
  then (e, None, [RecordFallback frInflightLimit])
  else
    let pnum := next_packet_number (state_ e) in
    let e := upd_state (set_next_packet_number (pnum +₃₂ 1)) e in
    let frame := make_packet e kData 0 chan pnum now_unix_ms inner_frame in
    let q := rq_push (retransmission_queue_ e) pnum now_unix_ms frame in
    let e := upd_state (set_last_send now_unix_ms) (set_queue q e) in
    (e, Some frame, [SetInflight (inflight_packets q)]).

Definition queue_unreliable_payload (e : RudpEngine) (inner_frame : list Z) (chan now_unix_ms : Z)
    : RudpEngine * option (list Z) :=
  if negb (bool_decide (lifecycle (state_ e) = lsEstablished)) then (e, None)
  else if (length inner_frame =? 0)%nat then (e, None)
  else if mtu_payload_bytes (config_ e) <? Z.of_nat (length inner_frame) then (e, None)
  else
    let pnum := next_packet_number (state_ e) in
    let e := upd_state (λ s, set_last_send now_unix_ms (set_next_packet_number (pnum +₃₂ 1) s)) e in
    (e, Some (make_packet e kData 0 chan pnum now_unix_ms inner_frame)).

(** [frame[27] |= kFlagRetransmit] on a copy of a queued frame. *)
Definition retransmit_frame (frame : list Z) : list Z :=
  if (kRudpHeaderBytes <=? length frame)%nat
  then store 27 [u8 (Z.lor (byte_at frame 27) kFlagRetransmit)] frame
  else frame.

Definition poll (e : RudpEngine) (now_unix_ms : Z) : RudpEngine * ProcessResult * list RudpMetric :=
  let fail (reason : string) :=
    let '(e, ms) := set_fallback e reason in
    (e, {| parsed := false; consumed := false; handshake_established := false;
           fallback_required := true; fallback_reason := reason; egress_datagrams := [];
           inner_frames := []; result_retransmit_count := 0 |}, ms) in
  let st := state_ e in
  if bool_decide (lifecycle st = lsHelloSent) && (0 <? last_send_unix_ms st)
     && (last_send_unix_ms st +₆₄ handshake_timeout_ms (config_ e) <? now_unix_ms)
  then fail "rudp_handshake_timeout"
  else if bool_decide (lifecycle st = lsEstablished) && (0 <? last_recv_unix_ms st)
     && (last_recv_unix_ms st +₆₄ idle_timeout_ms (config_ e) <? now_unix_ms)
  then fail "rudp_idle_timeout"
  else
    let '(q, due) := collect_timeouts (retransmission_queue_ e) now_unix_ms (rto_ms (rtt st)) 16 in
    let e := set_queue q e in
    if (length due =? 0)%nat then (e, empty_result, [])
    else
      let n := Z.of_nat (length due) in
      (e, {| parsed := false; consumed := false; handshake_established := false;
             fallback_required := false; fallback_reason := "";
             egress_datagrams := (λ p, retransmit_frame (encoded_frame p)) <$> due;
             inner_frames := []; result_retransmit_count := n |},
       [RecordRetransmit n; SetInflight (inflight_packets q)]).

(** ** Operation sequences *)
Inductive EngineOp :=
  | OpProcess (datagram : list Z) (now : Z)
  | OpPoll (now : Z)
  | OpReliable (inner : list Z) (chan now : Z)
  | OpUnreliable (inner : list Z) (chan now : Z)
  | OpHello (conn now : Z)
  | OpClose (now : Z)
  | OpReset.
#[global] Instance EngineOp_eq_dec : EqDecision EngineOp.
Proof. solve_decision. Defined.
Definition op_ok (op : EngineOp) : Prop :=
  match op with
  | OpProcess d _ => bytes_ok d
  | OpReliable _ c _ | OpUnreliable _ c _ => is_u8 c
  | OpHello c _ => is_u32 c
  | _ => True
  end.
Definition exec (e : RudpEngine) (op : EngineOp) : RudpEngine :=
  match op with
  | OpProcess d now => (process_datagram e d now).1.1
  | OpPoll now => (poll e now).1.1
  | OpReliable p c now => (queue_reliable_payload e p c now).1.1
  | OpUnreliable p c now => (queue_unreliable_payload e p c now).1
  | OpHello c now => (make_hello e c now).1
  | OpClose now => (make_close e now).1
  | OpReset => (engine_reset e).1
  end.
Definition number_if_any (r : ProcessResult) (n : Z) : list Z :=
  match inner_frames r with [] => [] | _ => [n] end.
(** Packet numbers whose payload an operation hands to the application. *)
Definition delivered (e : RudpEngine) (op : EngineOp) : list Z :=
  match op with
  | OpProcess d now =>
      match decode_packet d with
      | Some (h, _) => number_if_any (process_datagram e d now).1.2 (packet_number h)
      | None => []
      end
  | _ => []
  end.
Fixpoint run_ops (e : RudpEngine) (ops : list EngineOp) : RudpEngine * list Z :=
  match ops with
  | [] => (e, [])
  | op :: ops =>
      let '(e', ds) := run_ops (exec e op) ops in (e', delivered e op ++ ds)
  end.

(** ** Invariant *)
Definition config_ok (c : RudpConfig) : Prop :=
  0 ≤ max_inflight_packets c ∧ 0 ≤ max_inflight_bytes c
  ∧ 0 ≤ mtu_payload_bytes c ≤ 65535
  ∧ max_inflight_bytes c + 131072 < 2 ^ 64.

(** A queued frame is the encoding of a DATA packet of the entry's number. *)
Definition data_header (h : RudpHeader) : Prop :=
  rudp_header_ok h ∧ magic h = kRudpMagic ∧ version h = 1 ∧ ptype h = kData ∧ flags h = 0.
Definition entry_frame_ok (mtu : Z) (en : Entry) : Prop :=
  ∃ h p, encoded_frame (packet en) = encode_packet h p ∧ data_header h
    ∧ packet_number h = pp_packet_number (packet en) ∧ (0 < Z.of_nat (length p) ≤ mtu).

(** The acknowledgement fields copied into the peer state mirror the window. *)
Definition ack_fields_of (w : AckWindow) (l m : Z) : Prop :=
  if initialized_ w then l = largest_ w ∧ m = mask_ w else l = 0 ∧ m = 0.

Section Invariant.
Context (cfg : RudpConfig).

Record engine_inv (e : RudpEngine) (R : gset Z) : Prop := {
  inv_config : config_ok (config_ e);
  inv_queue : rq_ok (retransmission_queue_ e);
  inv_packets : inflight_packets (retransmission_queue_ e) ≤ max_inflight_packets (config_ e);
  inv_bytes : inflight_bytes (retransmission_queue_ e) ≤ max_inflight_bytes (config_ e) + 34;
  inv_frames : Forall (entry_frame_ok (mtu_payload_bytes (config_ e)))
                 (pending_ (retransmission_queue_ e));
  inv_window : window_view (ack_window_ e) R;
  inv_ack : is_u32 (st_ack_largest (state_ e)) ∧ is_u64 (st_ack_mask (state_ e))
    ∧ ack_fields_of (ack_window_ e) (st_ack_largest (state_ e)) (st_ack_mask (state_ e));
  inv_ids : is_u32 (st_connection_id (state_ e)) ∧ is_u32 (next_packet_number (state_ e));
  inv_cfg : config_ e = cfg;
}.

Lemma engine_new_inv : config_ok cfg → engine_inv (engine_new cfg) ∅.
Proof.
  intros Hc. pose proof Hc as (? & ? & ? & ?).
  split; simpl; [done|by split_and!|done|unfold inflight_bytes; simpl; lia|constructor|done|split_and!; [mach|mach|done..]|split; mach|done].
Qed.

(** Updates that leave the acknowledgement fields alone. *)
Lemma upd_state_inv e R f : engine_inv e R →
  st_ack_largest (f (state_ e)) = st_ack_largest (state_ e) →
  st_ack_mask (f (state_ e)) = st_ack_mask (state_ e) →
  is_u32 (st_connection_id (f (state_ e))) → is_u32 (next_packet_number (f (state_ e))) →
  engine_inv (upd_state f e) R.
Proof. intros [] H1 H2 H3 H4. split; simpl; [done..| |done|done]. by rewrite H1, H2. Qed.

(** Replacing the queue by one that holds no more. *)
Lemma set_queue_inv e R q : engine_inv e R → rq_ok q →
  inflight_packets q ≤ inflight_packets (retransmission_queue_ e) →
  inflight_bytes q ≤ inflight_bytes (retransmission_queue_ e) →
  Forall (entry_frame_ok (mtu_payload_bytes (config_ e))) (pending_ q) →
  engine_inv (set_queue q e) R.
Proof. intros [] ? ? ? ?. split; simpl; [done|done|lia|lia|done..]. Qed.

Lemma mark_acked_inv e R l m : engine_inv e R →
  engine_inv (set_queue (mark_acked (retransmission_queue_ e) l m) e) R.
Proof.
  intros Hi. pose proof Hi as [_ Hq _ _ Hf _ _ _ _].
  assert (Hm := mark_acked_ok _ l m Hq). rewrite mark_acked_spec in Hm |- * by done.
  apply set_queue_inv; [done|done| | |]; simpl.
  - unfold inflight_packets; simpl. pose proof (length_filter (unacked_by l m) (pending_ (retransmission_queue_ e))). lia.
  - unfold inflight_bytes; simpl. destruct Hq as (_ & -> & _). apply total_bytes_filter.
  - apply Forall_forall. intros en [_ Hen]%list_elem_of_filter.
    by apply (proj1 (Forall_forall _ _) Hf).
Qed.

#[local] Hint Resolve inv_ack inv_ids : core.
(** Discharges the side conditions of [upd_state_inv] for concrete setters. *)
Ltac inv_upd :=
  match goal with
  | H : engine_inv ?e ?R |- engine_inv (upd_state _ ?e) ?R =>
      apply upd_state_inv; [exact H | reflexivity | reflexivity
        | try (apply (proj1 (inv_ids _ _ H))); auto | try (apply (proj2 (inv_ids _ _ H))); auto]
  end.

Lemma set_fallback_inv e R reason : engine_inv e R → engine_inv (set_fallback e reason).1 R.
Proof. intros H. simpl. inv_upd. Qed.

Lemma observe_fields w R p : window_view w R → is_u32 p →
  is_u32 (obs_ack_largest (observe w p).2) ∧ is_u64 (obs_ack_mask (observe w p).2)
  ∧ ack_fields_of (observe w p).1 (obs_ack_largest (observe w p).2) (obs_ack_mask (observe w p).2).
Proof.
  intros Hv Hp. destruct (observe_simulates w R p Hv Hp) as [Hv' _].
  assert (Hi : initialized_ (observe w p).1 = true
    ∧ obs_ack_largest (observe w p).2 = largest_ (observe w p).1
    ∧ obs_ack_mask (observe w p).2 = mask_ (observe w p).1).
  { unfold observe. destruct w as [[] l m]; simpl; by repeat case_match. }
  destruct Hi as (Hi & -> & ->). unfold window_view in Hv'. unfold ack_fields_of.
  rewrite Hi in Hv' |- *. by destruct Hv' as (? & ? & _).
Qed.

(** What one operation may do to the set of delivered packet numbers. *)
Definition grows (e : RudpEngine) (R : gset Z) (pns : list Z) : Prop :=
  ∃ R', engine_inv e R' ∧ R ⊆ R' ∧ Forall (λ p, (p ∉ R) ∧ p ∈ R') pns.
Lemma grows_same e R : engine_inv e R → grows e R [].
Proof. intros. exists R. split_and!; [done..|constructor]. Qed.

Lemma set_window_inv e R w R' l m : engine_inv e R → window_view w R' → is_u32 l → is_u64 m → ack_fields_of w l m →
  engine_inv (upd_state (set_ack l m) (set_window w e)) R'.
Proof. intros [] ? ? ? ?. by split. Qed.

Lemma process_data_grows e R h payload now :
  engine_inv e R → is_u32 (packet_number h) →
  grows (process_data e h payload now).1.1 R
    (number_if_any (process_data e h payload now).1.2 (packet_number h)).
Proof.
  intros Hi Hn. unfold process_data.
  destruct (negb _); [by apply grows_same, set_fallback_inv|].
  pose proof (observe_simulates _ _ _ (inv_window _ _ Hi) Hn) as [Hv Hacc].
  pose proof (observe_fields _ _ _ (inv_window _ _ Hi) Hn) as (Hl & Hm & Ha).
  destruct (observe (ack_window_ e) (packet_number h)) as [w ack]; simpl in *.
  set (e1 := upd_state (set_ack _ _) (set_window w e)).
  assert (Hi1 : engine_inv e1 (spec_observe R (packet_number h)).1) by (by eapply set_window_inv).
  unfold spec_observe in Hacc, Hi1. case_decide as Hs; simpl in Hacc, Hi1; rewrite Hacc; cbn [negb]; last first.
  { by apply grows_same. }
  set (emit := andb _ _).
  set (e2 := if emit then upd_state (set_last_ack_emit now) e1 else e1).
  assert (Hi2 : engine_inv e2 ({[packet_number h]} ∪ R)) by (unfold e2; destruct emit; [inv_upd|done]).
  set (inner := if (length payload =? 0)%nat then _ else _).
  assert (Hg : ∀ e', engine_inv e' ({[packet_number h]} ∪ R) → ∀ eg,
    grows e' R (number_if_any (consumed_result true false false "" eg inner) (packet_number h))).
  { intros e' He' eg. eexists; split; [done|]. split; [set_solver|].
    unfold number_if_any; simpl. unfold inner. destruct (length payload =? 0)%nat; [constructor|].
    constructor; [|constructor]. split; [apply Hs|set_solver]. }
  destruct (negb (timestamp_ms h =? 0)); simpl; apply Hg; [inv_upd|done].
Qed.

Lemma fail_datagram_grows e R b reason n : engine_inv e R →
  grows (fail_datagram e b reason).1.1 R (number_if_any (fail_datagram e b reason).1.2 n).
Proof. intros Hi. by apply grows_same, set_fallback_inv. Qed.

Lemma process_type_grows e R h payload now :
  engine_inv e R → is_u32 (packet_number h) →
  grows (process_type e h payload now).1.1 R
    (number_if_any (process_type e h payload now).1.2 (packet_number h)).
Proof.
  intros Hi Hn. unfold process_type. destruct (ptype h); try by apply process_data_grows.
  - apply grows_same. cbn [fst]. inv_upd.
  - apply grows_same. cbn [fst]. inv_upd.
  - by apply grows_same.
  - apply grows_same. cbn [fst]. apply (set_fallback_inv _ R "peer_closed"). inv_upd.
Qed.

Lemma process_datagram_grows e R d now : engine_inv e R →
  (∀ h p, decode_packet d = Some (h, p) → is_u32 (connection_id h) ∧ is_u32 (packet_number h)) →
  grows (process_datagram e d now).1.1 R (delivered e (OpProcess d now)).
Proof.
  intros Hi Hd. unfold delivered, process_datagram.
  destruct (decode_packet d) as [[h payload]|] eqn:Hdec.
  2: { destruct (negb _); [by apply grows_same|]. by apply grows_same, set_fallback_inv. }
  destruct (negb _); [by apply grows_same|].
  destruct (Hd h payload) as [Hc Hn]; [done|].
  destruct (negb _); [by apply fail_datagram_grows|].
  set (e1 := upd_state (set_last_recv now) e).
  assert (Hi1 : engine_inv e1 R) by (unfold e1; inv_upd).
  destruct (_ && _ && _); [by apply fail_datagram_grows|].
  set (e2 := if st_connection_id (state_ e1) =? 0 then _ else e1).
  assert (Hi2 : engine_inv e2 R) by (unfold e2; case_match; [inv_upd|done]).
  assert (Hi3 := mark_acked_inv e2 R (ack_largest h) (ack_mask h) Hi2).
  assert (Hg := process_type_grows _ _ h payload now Hi3 Hn).
  by destruct (process_type _ h payload now) as [[e4 r] ms].
Qed.

Lemma make_header_ok e R t f c n now p :
  engine_inv e R → packet_type_ok t → is_u8 f → is_u8 c → is_u32 n →
  rudp_header_ok (make_header e t f c n now p).
Proof.
  intros [_ _ _ _ _ _ (? & ? & _) [] _] ? ? ? ?. unfold rudp_header_ok, make_header, now32, kRudpMagic; simpl.
  split_and!; auto using u16_range, u32_range; mach.
Qed.

Lemma queue_reliable_inv e R p c now : engine_inv e R → is_u8 c →
  engine_inv (queue_reliable_payload e p c now).1.1 R.
Proof.
  intros Hi Hc. unfold queue_reliable_payload.
  destruct (negb _); [done|]. destruct (Nat.eqb_spec (length p) 0) as [|Hp]; [done|].
  destruct (Z.ltb_spec (mtu_payload_bytes (config_ e)) (Z.of_nat (length p))) as [|Hmtu]; [done|].
  destruct (Z.leb_spec (max_inflight_packets (config_ e)) (inflight_packets (retransmission_queue_ e))) as [|Hpk]; [done|].
  pose proof Hi as [(? & ? & ? & ?) Hq _ Hb Hf _ _ [_ Hn] _].
  pose proof (total_bytes_nonneg (pending_ (retransmission_queue_ e))) as Hnn.
  assert (Heq : inflight_bytes (retransmission_queue_ e) = total_bytes (pending_ (retransmission_queue_ e))) by apply Hq.
  rewrite u64_small by (rewrite Heq in *; mach).
  destruct (Z.ltb_spec (max_inflight_bytes (config_ e)) (inflight_bytes (retransmission_queue_ e) + Z.of_nat (length p))) as [|Hby]; [done|].
  cbn [fst]. set (n := next_packet_number (state_ e)) in *.
  set (e1 := upd_state (set_next_packet_number (n +₃₂ 1)) e).
  assert (Hi1 : engine_inv e1 R) by (unfold e1; inv_upd; apply u32_range).
  assert (Hh : rudp_header_ok (make_header e1 kData 0 c n now p)) by (eapply make_header_ok; done || split; done || mach).
  set (fr := make_packet e1 kData 0 c n now p).
  assert (Hfr : length fr = (34 + length p)%nat) by apply encode_packet_length.
  assert (Hq' : rq_ok (rq_push (retransmission_queue_ e1) n now fr)).
  { apply rq_push_ok; [done|]. simpl. rewrite Hfr. lia. }
  unfold rq_push in *. rewrite Hfr in *. cbn [Nat.add Nat.eqb] in *.
  change (retransmission_queue_ e1) with (retransmission_queue_ e) in *.
  unfold inflight_bytes in *.
  rewrite u64_small in Hq' |- * by mach.
  destruct Hi1 as [? _ _ _ _ ? ? ? ?].
  split; simpl; [done|done| | | |done..].
  - unfold inflight_packets in *; simpl. rewrite length_app. simpl. lia.
  - unfold inflight_bytes; simpl. lia.
  - apply Forall_app. split; [done|]. constructor; [|constructor].
    exists (make_header e1 kData 0 c n now p), p. split_and!; [done|by unfold data_header; split_and!|done|lia|done].
Qed.

Lemma poll_inv e R now : engine_inv e R → engine_inv (poll e now).1.1 R.
Proof.
  intros Hi. unfold poll.
  destruct (_ && _ && _); [by apply set_fallback_inv|].
  destruct (_ && _ && _); [by apply set_fallback_inv|].
  enough (Hq : engine_inv (set_queue (collect_timeouts (retransmission_queue_ e) now (rto_ms (rtt (state_ e))) 16).1 e) R).
  { destruct (collect_timeouts _ _ _ _) as [q due]. by destruct (length due =? 0)%nat. }
  set (rto := rto_ms _). destruct (Z.eqb_spec rto 0) as [->|Hr].
  { unfold collect_timeouts. simpl. by destruct e. }
  pose proof Hi as [_ Hq _ _ Hf _ _ _ _].
  destruct (collect_timeouts_spec _ now rto 16 Hq Hr) as (_ & Hall & Hq'); [lia|].
  apply set_queue_inv; [done|done| | |].
  - unfold inflight_packets. by rewrite (Forall2_length _ _ _ Hall).
  - unfold collect_timeouts. destruct (_ || _); [done|]. by case_match.
  - clear -Hf Hall. induction Hall as [|a b ? ? Hab _ IH]; [constructor|].
    inversion_clear Hf. constructor; [|auto]. by destruct Hab as [->|[_ ->]].
Qed.

Lemma exec_grows e R op : engine_inv e R → op_ok op → op ≠ OpReset →
  grows (exec e op) R (delivered e op).
Proof.
  intros Hi Hop Hne. destruct op; simpl in Hop; try done.
  - apply process_datagram_grows; [done|]. intros h p Hdec.
    by apply decode_packet_sound in Hdec as ((_ & _ & _ & ? & ? & _) & _ & _).
  - by apply grows_same, poll_inv.
  - by apply grows_same, queue_reliable_inv.
  - apply grows_same. simpl. unfold queue_unreliable_payload.
    repeat case_match; simplify_eq; try done. simpl. inv_upd. apply u32_range.
  - apply grows_same. simpl. by inv_upd.
  - apply grows_same. simpl. inv_upd.
Qed.
Lemma reset_inv e R : engine_inv e R → engine_inv (exec e OpReset) ∅.
Proof.
  intros [Hc _ _ _ _ _ _ _ Heq]. simpl. rewrite Heq in Hc |- *. by apply engine_new_inv.
Qed.

Lemma run_ops_inv ops : ∀ e R, engine_inv e R → Forall op_ok ops →
  ∃ R', engine_inv (run_ops e ops).1 R'.
Proof.
  induction ops as [|op ops IH]; intros e R Hi Hops; simpl; [eauto|].
  inversion_clear Hops.
  assert (Hn : ∃ R1, engine_inv (exec e op) R1).
  { destruct (decide (op = OpReset)) as [->|Hne]; [eauto using reset_inv|].
    destruct (exec_grows e R op) as (R1 & ? & _); eauto. }
  destruct Hn as [R1 HR1]. destruct (IH _ _ HR1) as [R2 HR2]; [done|].
  destruct (run_ops (exec e op) ops). eauto.
Qed.

Lemma run_ops_nodup ops : ∀ e R, engine_inv e R → Forall op_ok ops → OpReset ∉ ops →
  NoDup (run_ops e ops).2 ∧ Forall (λ p, p ∉ R) (run_ops e ops).2.
Proof.
  induction ops as [|op ops IH]; intros e R Hi Hops Hnr; simpl.
  { split; constructor. }
  inversion_clear Hops. apply not_elem_of_cons in Hnr as [? ?].
  destruct (exec_grows e R op) as (R1 & Hi1 & Hsub & Hd); [done|done|congruence|].
  destruct (IH _ _ Hi1) as [Hnd Hfr]; [done..|].
  destruct (run_ops (exec e op) ops) as [e2 ds]; simpl in *.
  rewrite Forall_forall in Hd, Hfr.
  assert (Hone : NoDup (delivered e op)).
  { destruct op; simpl; try constructor. unfold number_if_any.
    repeat case_match; try constructor; [set_solver|constructor]. }
  split.
  - apply NoDup_app. split_and!; [done| |done].
    intros x Hx%Hd Hx'%Hfr. by destruct Hx.
  - apply Forall_app. split; apply Forall_forall; [intros x Hx%Hd; tauto|].
    intros x Hx%Hfr. set_solver.
Qed.
End Invariant.

(** ** Lemmas about emitted packets *)
Lemma decode_make_packet cfg e R t f c n now p :
  engine_inv cfg e R → packet_type_ok t → is_u8 f → is_u8 c → is_u32 n → Z.of_nat (length p) < 65536 →
  looks_like_rudp (make_packet e t f c n now p) = true
  ∧ decode_packet (make_packet e t f c n now p) = Some (make_header e t f c n now p, p).
Proof.
  intros Hi Ht Hf Hc Hn Hp. unfold make_packet. split.
  - rewrite looks_like_rudp_encode; [done|]. simpl. unfold kRudpMagic. mach.
  - rewrite decode_encode_packet; [|by eapply make_header_ok|done].
    unfold make_header, with_payload_length; simpl. by rewrite (u16_small (Z.of_nat (length p))) by mach.
Qed.

Lemma retransmit_frame_encode h p :
  retransmit_frame (encode_packet h p)
  = encode_packet (with_flags h (u8 (Z.lor (flags h) kFlagRetransmit))) p.
Proof.
  unfold retransmit_frame. rewrite encode_packet_length.
  cbn [kRudpHeaderBytes Nat.leb Nat.add]. by rewrite !encode_packet_bytes.
Qed.

Lemma decode_retransmit h p :
  rudp_header_ok h → magic h = kRudpMagic → Z.of_nat (length p) < 65536 →
  looks_like_rudp (retransmit_frame (encode_packet h p)) = true
  ∧ decode_packet (retransmit_frame (encode_packet h p))
    = Some (with_payload_length (with_flags h (u8 (Z.lor (flags h) kFlagRetransmit)))
              (Z.of_nat (length p)), p).
Proof.
  intros (?&?&?&?&?&?&?&?&?&?&?&?) Hm Hp. rewrite retransmit_frame_encode. split.
  - rewrite looks_like_rudp_encode; simpl; rewrite Hm; [done|]. unfold kRudpMagic. mach.
  - apply decode_encode_packet; [|done]. unfold rudp_header_ok; simpl.
    split_and!; first [done | apply u8_range].
Qed.

(** The connection-id check of [process_datagram]. *)
Definition conn_compatible (e : RudpEngine) (h : RudpHeader) : Prop :=
  st_connection_id (state_ e) = 0 ∨ connection_id h = 0
  ∨ st_connection_id (state_ e) = connection_id h.

(** A well-formed DATA packet for an established peer: what is delivered is
    decided by the ACK window alone. *)
Lemma process_data_packet cfg e R d h p now :
  engine_inv cfg e R → lifecycle (state_ e) = lsEstablished →
  looks_like_rudp d = true → decode_packet d = Some (h, p) →
  version h = 1 → ptype h = kData → is_u32 (packet_number h) → conn_compatible e h → p ≠ [] →
  inner_frames (process_datagram e d now).1.2
    = (if decide (spec_accepts R (packet_number h)) then [p] else [])
  ∧ fallback_required (process_datagram e d now).1.2 = false
  ∧ lifecycle (state_ (process_datagram e d now).1.1) = lsEstablished
  ∧ (st_connection_id (state_ e) = connection_id h ∨ connection_id h = 0 →
     st_connection_id (state_ (process_datagram e d now).1.1) = st_connection_id (state_ e)).
Proof.
  intros Hi Hl Hk Hd Hv Ht Hn Hc Hp. unfold process_datagram. rewrite Hk, Hd, Hv. cbn [negb Z.eqb Pos.eqb].
  destruct (_ && _ && _) eqn:Hmis.
  { exfalso. unfold conn_compatible in Hc. simpl in Hmis. lia. }
  set (e1 := if _ =? 0 then _ else _). set (q := mark_acked _ _ _).
  unfold process_type, process_data. rewrite Ht.
  assert (Hl1 : lifecycle (state_ (set_queue q e1)) = lsEstablished) by (unfold e1; by case_match).
  assert (Hw1 : ack_window_ (set_queue q e1) = ack_window_ e) by (unfold e1; by case_match).
  rewrite Hl1, Hw1. cbn [negb bool_decide].
  assert (Hid : st_connection_id (state_ e) = connection_id h ∨ connection_id h = 0 →
    st_connection_id (state_ e1) = st_connection_id (state_ e)).
  { unfold e1. simpl. destruct (Z.eqb_spec (st_connection_id (state_ e)) 0); [|done]. simpl. lia. }
  clearbody e1. simpl in Hl1.
  destruct (observe_simulates _ _ _ (inv_window _ _ _ Hi) Hn) as [_ Hacc].
  destruct (observe (ack_window_ e) (packet_number h)) as [w ack]; simpl in Hacc.
  unfold spec_observe in Hacc.
  destruct p as [|b p]; [done|]. cbn [length Nat.eqb].
  case_decide; simpl in Hacc; rewrite Hacc; simpl; [|by split_and!].
  destruct (negb (timestamp_ms h =? 0)), (Z.land (flags h) kFlagAckOnly =? 0),
    (last_ack_emit_unix_ms (state_ e1) +₆₄ cfg_ack_delay_ms (config_ e1) <=? now);
    simpl; by split_and!.
Qed.

(** Frames of [queue_reliable_payload]: what a successful call returns. *)
Lemma queue_reliable_some e p c now e' d ms :
  queue_reliable_payload e p c now = (e', Some d, ms) →
  lifecycle (state_ e) = lsEstablished ∧ p ≠ []
  ∧ Z.of_nat (length p) ≤ mtu_payload_bytes (config_ e)
  ∧ d = make_packet (upd_state (set_next_packet_number (next_packet_number (state_ e) +₃₂ 1)) e)
          kData 0 c (next_packet_number (state_ e)) now p
  ∧ next_packet_number (state_ e') = next_packet_number (state_ e) +₃₂ 1.
Proof.
  unfold queue_reliable_payload. intros H.
  destruct (bool_decide _) eqn:Hb; [|done]. apply bool_decide_eq_true in Hb. cbn [negb] in H.
  destruct (Nat.eqb_spec (length p) 0); [done|].
  destruct (Z.ltb_spec (mtu_payload_bytes (config_ e)) (Z.of_nat (length p))); [done|].
  destruct (_ <=? _); [done|]. destruct (_ <? _); [done|]. simplify_eq.
  split_and!; [done|by destruct p|done..].
Qed.

(** The acknowledgement state of the sender after any compatible packet. *)
Lemma process_datagram_queue e d now h p :
  looks_like_rudp d = true → decode_packet d = Some (h, p) → version h = 1 → conn_compatible e h →
  retransmission_queue_ (process_datagram e d now).1.1
  = mark_acked (retransmission_queue_ e) (ack_largest h) (ack_mask h).
Proof.
  intros Hk Hd Hv Hc. unfold process_datagram. rewrite Hk, Hd, Hv. cbn [negb Z.eqb Pos.eqb].
  destruct (_ && _ && _) eqn:Hmis.
  { exfalso. unfold conn_compatible in Hc. simpl in Hmis. lia. }
  set (e1 := if _ =? 0 then _ else _).
  assert (Hq : retransmission_queue_ e1 = retransmission_queue_ e) by (unfold e1; by case_match).
  rewrite Hq. clearbody e1. unfold process_type, process_data.
  destruct (ptype h); try done; simpl;
    (destruct (bool_decide _); simpl; [|done];
     destruct (observe _ _) as [w a]; simpl; destruct (accepted a); simpl; [|done];
     destruct (Z.land (flags h) kFlagAckOnly =? 0), (_ <=? now); simpl;
     by destruct (timestamp_ms h =? 0)).
Qed.

(** What an ACK field says about the receiver's set of accepted numbers. *)
Definition ack_covers (R : gset Z) (n : Z) : Prop := n ∈ R ∨ ∃ l, l ∈ R ∧ 64 ≤ l - n.

Lemma is_acked_covers cfg e R n : engine_inv cfg e R → is_u32 n → 1 ≤ n →
  is_acked_by_mask n (st_ack_largest (state_ e)) (st_ack_mask (state_ e)) = true ↔ ack_covers R n.
Proof.
  intros [_ _ _ _ _ Hv (Hl & Hm & Ha) _ _] Hn H1. unfold is_acked_by_mask.
  unfold window_view, ack_fields_of in *. destruct (initialized_ (ack_window_ e)).
  2: { destruct Ha as [-> ->]. subst R. destruct (Z.ltb_spec 0 n); [|lia].
       split; [done|]. unfold ack_covers. set_solver. }
  destruct Ha as [-> ->], Hv as (Hlw & _ & Hin & Hle & Hbits). set (l := largest_ _) in *.
  destruct (Z.ltb_spec l n).
  { split; [done|]. intros [Hr|(q & Hq & Hd)]; [apply Hle in Hr|apply Hle in Hq]; lia. }
  destruct (Z.eqb_spec n l) as [->|]; [split; [by left|done]|].
  rewrite sub32_exact by (done || lia). destruct (Z.leb_spec 64 (l - n)).
  { split; [intros _; right; eauto|done]. }
  rewrite (u64_small (Z.shiftl 1 (l - n))) by (apply bit64_range; lia).
  rewrite land_bit_nonzero, Hbits by lia. replace (l - (l - n)) with n by lia.
  rewrite bool_decide_eq_true. split; [by left|]. intros [?|(q & Hq & Hd)]; [done|].
  apply Hle in Hq. lia.
Qed.

Lemma timestamped_entry_due e now rto mb d :
  rq_ok (retransmission_queue_ e) → rto ≠ 0 → 0 < mb →
  d ∈ (collect_timeouts (retransmission_queue_ e) now rto mb).2 →
  ∃ en, en ∈ pending_ (retransmission_queue_ e) ∧ due_at now rto en ∧ d = bump now (packet en).
Proof.
  intros Hq Hr Hm Hd. destruct (collect_timeouts_spec _ now rto mb Hq Hr) as (Hdue & _); [lia|].
  rewrite Hdue in Hd. apply (subseteq_take (Z.to_nat mb)) in Hd.
  apply list_elem_of_fmap in Hd as (en & -> & Hen).
  apply list_elem_of_filter in Hen as [? ?]. eauto.
Qed.

(** ** Properties *)

(** A configuration and two engines that completed the handshake over
    connection id 7. *)
Definition demo_client : RudpEngine := Eval vm_compute in
  let '(c, hello) := make_hello (engine_new default_rudp_config) 7 1000 in
  let '(_, r, _) := process_datagram (engine_new default_rudp_config) hello 1001 in
  (process_datagram c (default [] (head (egress_datagrams r))) 1002).1.1.
Definition demo_server : RudpEngine := Eval vm_compute in
  let '(c, hello) := make_hello (engine_new default_rudp_config) 7 1000 in
  (process_datagram (engine_new default_rudp_config) hello 1001).1.1.
Lemma default_config_ok : config_ok default_rudp_config.
Proof. unfold config_ok; simpl; lia. Qed.
(** An engine that has exchanged no DATA yet. *)
Lemma idle_engine_inv cfg e : config_ok cfg → config_ e = cfg →
  retransmission_queue_ e = {| pending_ := []; inflight_bytes_ := 0 |} →
  ack_window_ e = ack_window_new → st_ack_largest (state_ e) = 0 → st_ack_mask (state_ e) = 0 →
  is_u32 (st_connection_id (state_ e)) → is_u32 (next_packet_number (state_ e)) →
  engine_inv cfg e ∅.
Proof.
  intros Hc He Hq Hw Hl Hm ? ?. pose proof Hc as (? & ? & ? & ?).
  split; rewrite ?Hq, ?Hw, ?Hl, ?Hm, ?He; unfold inflight_packets, inflight_bytes; simpl;
    try done; lia.
Qed.
Lemma demo_client_inv : engine_inv default_rudp_config demo_client ∅.
Proof. apply idle_engine_inv; (apply default_config_ok || (vm_compute; done)). Qed.
Lemma demo_server_inv : engine_inv default_rudp_config demo_server ∅.
Proof. apply idle_engine_inv; (apply default_config_ok || (vm_compute; done)). Qed.

(** C17: flow control.  Whatever sequence of datagrams, polls, sends, handshakes,
    closes and resets an engine goes through, it never has more unacknowledged
    packets than [max_inflight_packets], never more queued bytes than
    [max_inflight_bytes] plus one 34-byte header, and its byte counter is
    exactly the sum of the queued frames. *)
Theorem engine_flow_control (cfg : RudpConfig) (ops : list EngineOp)
  (Hcfg : config_ok cfg) (Hops : Forall op_ok ops) :
  let q := retransmission_queue_ (run_ops (engine_new cfg) ops).1 in
  inflight_packets q ≤ max_inflight_packets cfg
  ∧ inflight_bytes q ≤ max_inflight_bytes cfg + 34
  ∧ inflight_bytes q = total_bytes (pending_ q).
Proof.
  destruct (run_ops_inv cfg ops _ ∅ (engine_new_inv cfg Hcfg) Hops)
    as [R [_ (_ & Hb & _) H1 H2 _ _ _ _ Heq]].
  rewrite Heq in H1, H2. by split_and!.
Qed.

Definition demo_hello : list Z := Eval vm_compute in
  (make_hello (engine_new default_rudp_config) 7 1000).2.
Definition demo_ops : list EngineOp :=
  [OpHello 7 1000; OpProcess demo_hello 1001;
   OpReliable [1; 2; 3] 0 1002; OpReliable [4] 0 1003; OpPoll 1300].
Lemma demo_ops_ok : Forall op_ok demo_ops.
Proof. repeat apply Forall_cons_2; done. Qed.
Lemma engine_flow_control_witness :
  let q := retransmission_queue_ (run_ops (engine_new default_rudp_config) demo_ops).1 in
  inflight_packets q = 2 ∧ inflight_packets q ≤ 256 ∧ inflight_bytes q = total_bytes (pending_ q).
Proof.
  split; [vm_compute; reflexivity|].
  destruct (engine_flow_control default_rudp_config demo_ops default_config_ok demo_ops_ok)
    as (H1 & _ & H3). split; assumption.
Defined.

(** C3: at-most-once delivery.  Between resets, an engine never hands the
    payload of the same packet number to the application twice, however
    often and in whatever order the network repeats datagrams. *)
Theorem engine_at_most_once (cfg : RudpConfig) (ops : list EngineOp)
  (Hcfg : config_ok cfg) (Hops : Forall op_ok ops) (Hnoreset : OpReset ∉ ops) :
  NoDup (run_ops (engine_new cfg) ops).2.
Proof. by apply (run_ops_nodup cfg ops _ ∅ (engine_new_inv cfg Hcfg) Hops Hnoreset). Qed.

(** A DATA packet of another engine, arriving twice. *)
Definition demo_data : list Z := Eval vm_compute in
  default [] (queue_reliable_payload demo_client [10; 11] 0 1003).1.2.
Definition demo_dup_ops : list EngineOp :=
  [OpProcess demo_hello 1001;
   OpProcess demo_data 1004; OpProcess demo_data 1005; OpPoll 1300].
Lemma demo_dup_ops_ok : Forall op_ok demo_dup_ops.
Proof. repeat apply Forall_cons_2; done. Qed.
Lemma engine_at_most_once_witness :
  (run_ops (engine_new default_rudp_config) demo_dup_ops).2 = [1]
  ∧ NoDup (run_ops (engine_new default_rudp_config) demo_dup_ops).2.
Proof.
  split; [vm_compute; reflexivity|].
  apply (engine_at_most_once _ _ default_config_ok demo_dup_ops_ok). set_solver.
Defined.

(** C2: reliable delivery over the wire.  The datagram a successful
    [queue_reliable_payload] returns, when it reaches an established peer of
    the same connection, is delivered as exactly the payload that was queued if
    the peer has not accepted its number and is less than 64 ahead of it, and
    delivers nothing otherwise; the retransmitted copy of it is recognised and
    delivers nothing more, and the connection stays established. *)
Theorem reliable_delivery_exact (cfg1 cfg2 : RudpConfig) (s r s' : RudpEngine) (R1 R2 : gset Z)
  (p d : list Z) (c now now1 now2 : Z) (ms : list RudpMetric)
  (Hs : engine_inv cfg1 s R1) (Hr : engine_inv cfg2 r R2) (Hc : is_u8 c)
  (Hq : queue_reliable_payload s p c now = (s', Some d, ms))
  (Hest : lifecycle (state_ r) = lsEstablished)
  (Hconn : st_connection_id (state_ r) = st_connection_id (state_ s)) :
  let n := next_packet_number (state_ s) in
  let '(r1, o1, _) := process_datagram r d now1 in
  let '(r2, o2, _) := process_datagram r1 (retransmit_frame d) now2 in
  inner_frames o1 = (if decide (spec_accepts R2 n) then [p] else []) ∧ inner_frames o2 = [] ∧ lifecycle (state_ r2) = lsEstablished.
Proof.
  apply queue_reliable_some in Hq as (_ & Hp & Hmtu & Hd & _). cbv zeta.
  set (n := next_packet_number (state_ s)) in *.
  set (e1 := upd_state _ s) in Hd.
  assert (Hn : is_u32 n) by apply (inv_ids _ _ _ Hs).
  assert (Hi1 : engine_inv cfg1 e1 R1).
  { apply upd_state_inv; [done..|apply (inv_ids _ _ _ Hs)|apply u32_range]. }
  assert (Hlen : Z.of_nat (length p) < 65536).
  { destruct (inv_config _ _ _ Hs) as (_ & _ & ? & _). lia. }
  assert (Ht : packet_type_ok kData) by (split; done).
  destruct (decode_make_packet _ _ _ kData 0 c n now p Hi1) as [Hk Hdec]; [done..|].
  rewrite <- Hd in Hk, Hdec. set (h := make_header _ _ _ _ _ _ _) in Hdec.
  assert (Hcc : conn_compatible r h) by (right; right; done).
  destruct (process_data_packet cfg2 r R2 d h p now1) as (Ho1 & _ & Hl1 & Hid1); [done..|].
  destruct (process_datagram_grows cfg2 r R2 d now1 Hr) as (R' & Hr1 & Hsub & Hdel).
  { intros h' p' Heq. rewrite Hdec in Heq. simplify_eq. split; [|done]. apply (inv_ids _ _ _ Hs). }
  unfold delivered, number_if_any in Hdel. rewrite Hdec, Ho1 in Hdel.
  destruct (process_datagram r d now1) as [[r1 o1] ms1]; simpl in *.
  destruct (decode_retransmit h p) as [Hk2 Hdec2]; [by eapply make_header_ok|done..|].
  rewrite Hd. unfold make_packet. fold h.
  destruct (process_data_packet cfg2 r1 R' _ _ p now2 Hr1 Hl1 Hk2 Hdec2) as (Ho2 & _ & Hl2 & _); [done..| |done|].
  { right; right. simpl. rewrite Hid1 by (left; done). done. }
  rewrite decide_False in Ho2.
  - destruct (process_datagram r1 _ now2) as [[r2 o2] ?]. by split_and!.
  - intros [Hni Hq]. destruct (decide (spec_accepts R2 n)) as [Ha|Hna].
    + apply Forall_inv in Hdel. by destruct Hdel.
    + apply Hna. split; [set_solver|]. intros q Hin. apply Hq. set_solver.
Qed.

Lemma reliable_delivery_exact_witness :
  let '(r1, o1, _) := process_datagram demo_server demo_data 1004 in
  let '(r2, o2, _) := process_datagram r1 (retransmit_frame demo_data) 1300 in
  inner_frames o1 = [[10; 11]] ∧ inner_frames o2 = [] ∧ lifecycle (state_ r2) = lsEstablished.
Proof.
  apply (reliable_delivery_exact default_rudp_config default_rudp_config demo_client demo_server
    (queue_reliable_payload demo_client [10; 11] 0 1003).1.1 ∅ ∅ [10; 11] demo_data 0 1003 1004 1300
    (queue_reliable_payload demo_client [10; 11] 0 1003).2 demo_client_inv demo_server_inv);
    [mach | reflexivity | reflexivity | reflexivity].
Defined.

(** C20: acknowledgements are sound.  When a packet carrying the peer's ACK
    fields is processed, the sender keeps in flight exactly the packets the
    peer has not accepted, except those 64 or more behind the newest number
    the peer accepted: for those the ACK fields carry no information and the
    sender forgets them as acknowledged. *)
Theorem ack_exchange_exact (cfg1 cfg2 : RudpConfig) (s r : RudpEngine) (R1 R2 : gset Z)
  (f c now now' : Z)
  (Hs : engine_inv cfg1 s R1) (Hr : engine_inv cfg2 r R2) (Hf : is_u8 f) (Hc : is_u8 c)
  (Hconn : st_connection_id (state_ r) = st_connection_id (state_ s))
  (Hnums : Forall (λ en, 1 ≤ pp_packet_number (packet en) < 2 ^ 32)
             (pending_ (retransmission_queue_ s))) :
  let s' := (process_datagram s (make_packet r kData f c 0 now []) now').1.1 in
  ∀ en, en ∈ pending_ (retransmission_queue_ s') ↔
    en ∈ pending_ (retransmission_queue_ s) ∧ ¬ ack_covers R2 (pp_packet_number (packet en)).
Proof.
  destruct (decode_make_packet _ _ _ kData f c 0 now [] Hr) as [Hk Hdec];
    [by split|done..|mach|done|].
  cbv zeta. intros en. erewrite process_datagram_queue; [|done..|by right; right].
  rewrite mark_acked_spec by apply (inv_queue _ _ _ Hs). simpl. rewrite list_elem_of_filter.
  rewrite Forall_forall in Hnums. unfold unacked_by. split.
  - intros [Hu Hin]. split; [done|]. specialize (Hnums _ Hin).
    rewrite <- (is_acked_covers cfg2 r R2) by (done || mach). by rewrite Hu.
  - intros [Hin Hu]. split; [|done]. specialize (Hnums _ Hin).
    rewrite <- (is_acked_covers cfg2 r R2) in Hu by (done || mach). by apply not_true_is_false.
Qed.

Definition demo_sending : RudpEngine := Eval vm_compute in
  (queue_reliable_payload demo_client [10; 11] 0 1003).1.1.
Lemma demo_sending_inv : engine_inv default_rudp_config demo_sending ∅.
Proof.
  change demo_sending with (queue_reliable_payload demo_client [10; 11] 0 1003).1.1.
  apply queue_reliable_inv; [apply demo_client_inv|mach].
Qed.
Lemma ack_exchange_exact_witness :
  let s' := (process_datagram demo_sending (make_packet demo_server kData 1 0 0 1010 []) 1011).1.1 in
  length (pending_ (retransmission_queue_ s')) = 1%nat ∧
  ∀ en, en ∈ pending_ (retransmission_queue_ s') ↔
    en ∈ pending_ (retransmission_queue_ demo_sending) ∧ ¬ ack_covers ∅ (pp_packet_number (packet en)).
Proof.
  split; [vm_compute; reflexivity|].
  apply (ack_exchange_exact _ _ demo_sending demo_server ∅ ∅ 1 0 1010 1011
    demo_sending_inv demo_server_inv); [mach|mach|reflexivity|].
  constructor; [split; vm_compute; done | constructor].
Defined.

(** A poll retransmits faithfully.  Every datagram a poll sends is a copy of
    a packet still in flight whose timer expired: it decodes to the same
    packet number and payload with the retransmit flag set; a poll sends at
    most 16 of them and reports their number. *)
Theorem poll_retransmits_pending (cfg : RudpConfig) (e : RudpEngine) (R : gset Z) (now : Z)
  (Hi : engine_inv cfg e R) :
  let r := (poll e now).1.2 in
  (length (egress_datagrams r) ≤ 16)%nat
  ∧ result_retransmit_count r = Z.of_nat (length (egress_datagrams r))
  ∧ ∀ d, d ∈ egress_datagrams r →
      ∃ en h p, en ∈ pending_ (retransmission_queue_ e) ∧ due_at now (rto_ms (rtt (state_ e))) en
        ∧ encoded_frame (packet en) = encode_packet h p
        ∧ decode_packet d = Some (with_payload_length (with_flags h kFlagRetransmit)
                                    (Z.of_nat (length p)), p)
        ∧ packet_number h = pp_packet_number (packet en).
Proof.
  unfold poll. destruct (_ && _ && _); [split_and!; simpl; [lia|done|set_solver]|].
  destruct (_ && _ && _); [split_and!; simpl; [lia|done|set_solver]|].
  set (rto := rto_ms _). destruct (Z.eqb_spec rto 0) as [->|Hr].
  { split_and!; simpl; [lia|done|set_solver]. }
  destruct (collect_timeouts_spec _ now rto 16 (inv_queue _ _ _ Hi) Hr) as (Hdue & _); [lia|].
  pose proof (λ d, timestamped_entry_due e now rto 16 d (inv_queue _ _ _ Hi) Hr ltac:(lia)) as Hen.
  destruct (collect_timeouts _ now rto 16) as [q due]; simpl in Hdue, Hen.
  destruct (Nat.eqb_spec (length due) 0) as [H0|H0]; [split_and!; simpl; [lia|done|set_solver]|].
  simpl. rewrite length_fmap. split_and!.
  - rewrite Hdue, length_take. lia.
  - done.
  - intros d Hd. apply list_elem_of_fmap in Hd as (pk & -> & Hpk).
    destruct (Hen _ Hpk) as (en & Hin & Hdu & ->).
    pose proof (proj1 (Forall_forall _ _) (inv_frames _ _ _ Hi) _ Hin) as (h & p & Hfr & Hdh & Hnum & Hlen).
    destruct Hdh as (Hok & Hmag & _ & _ & Hfl).
    destruct (inv_config _ _ _ Hi) as (_ & _ & ? & _).
    destruct (decode_retransmit h p Hok Hmag) as [_ Hdec]; [lia|].
    exists en, h, p. cbn [encoded_frame bump]. rewrite Hfr. split_and!; [done..| |done].
    rewrite Hdec, Hfl. done.
Qed.

Lemma poll_retransmits_pending_witness :
  length (egress_datagrams (poll demo_sending 1300).1.2) = 1%nat
  ∧ result_retransmit_count (poll demo_sending 1300).1.2
    = Z.of_nat (length (egress_datagrams (poll demo_sending 1300).1.2)).
Proof.
  split; [vm_compute; reflexivity|].
  apply (poll_retransmits_pending default_rudp_config demo_sending ∅ 1300 demo_sending_inv).
Defined.

(** Fallback is final for the datagram.  Whenever processing asks for
    fallback, the engine is draining with the fallback flag set, a reason is
    given, and the datagram delivered no payload and triggered no reply; and a
    payload is only ever delivered by an engine that was established. *)
Theorem fallback_delivers_nothing (e : RudpEngine) (d : list Z) (now : Z) :
  let '(e', r, _) := process_datagram e d now in
  (fallback_required r = true →
     lifecycle (state_ e') = lsDraining ∧ st_fallback_required (state_ e') = true
     ∧ inner_frames r = [] ∧ egress_datagrams r = [] ∧ fallback_reason r ≠ EmptyString)
  ∧ (inner_frames r ≠ [] → lifecycle (state_ e) = lsEstablished ∧ fallback_required r = false).
Proof.
  unfold process_datagram. destruct (negb _); [done|].
  destruct (decode_packet d) as [[h p]|]; [|done].
  destruct (negb _); [done|]. destruct (_ && _ && _); [done|].
  set (e1 := if _ =? 0 then _ else _).
  assert (Hl : lifecycle (state_ e1) = lifecycle (state_ e)) by (unfold e1; by case_match).
  clearbody e1. unfold process_type, process_data.
  destruct (ptype h); try done; simpl; rewrite Hl;
    (case_bool_decide; simpl; [|done];
     destruct (observe _ _) as [w a]; simpl; destruct (accepted a); simpl; [|done];
     destruct (timestamp_ms h =? 0); simpl; done).
Qed.

(** The RTT estimator keeps its promises.  After a sample the retransmission
    timeout lies within the configured bounds, and (for times below 2^31 ms) the
    smoothed round-trip time stays between its old value and the sample. *)
Theorem rtt_update_bounds (r : RttEstimator) (sample lo hi : Z)
  (Hs : 0 < sample < 2 ^ 31) (Hr : 0 ≤ srtt_ms r < 2 ^ 31) (Hb : lo ≤ hi) :
  let r' := rtt_update r sample lo hi in
  lo ≤ rto_ms r' ≤ hi ∧ rtt_initialized r' = true
  ∧ (if rtt_initialized r
     then Z.min (srtt_ms r) sample ≤ srtt_ms r' ≤ Z.max (srtt_ms r) sample
     else srtt_ms r' = sample).
Proof.
  unfold rtt_update. destruct (Z.eqb_spec sample 0); [lia|].
  destruct (rtt_initialized r); cbn [negb srtt_ms rto_ms rtt_initialized];
    (split; [unfold clamp; repeat case_match; lia|split; [done|]]); [|done].
  rewrite u32_small; rewrite u64_small; mach.
Qed.

Lemma rtt_update_bounds_witness :
  let r' := rtt_update (rtt_update rtt_new 80 50 2000) 120 50 2000 in
  50 ≤ rto_ms r' ≤ 2000 ∧ srtt_ms r' = 85.
Proof.
  split; [|vm_compute; reflexivity].
  apply (rtt_update_bounds (rtt_update rtt_new 80 50 2000) 120 50 2000); [lia| |lia].
  vm_compute. split; [discriminate|reflexivity].
Defined.

(** Reliability has a horizon of 64 packets.  If the peer has accepted a
    number 64 or more ahead of a packet it never received, then its ACK fields
    make the sender drop that packet as acknowledged, and a copy arriving later
    is refused as a duplicate: the packet is lost although it was queued as
    reliable. *)
Theorem stale_packet_lost (cfg : RudpConfig) (r : RudpEngine) (R : gset Z) (n l : Z)
  (Hr : engine_inv cfg r R) (Hn : is_u32 n) (H1 : 1 ≤ n) (Hl : l ∈ R) (Hd : 64 ≤ l - n)
  (Hnew : n ∉ R) :
  is_acked_by_mask n (st_ack_largest (state_ r)) (st_ack_mask (state_ r)) = true
  ∧ accepted (observe (ack_window_ r) n).2 = false.
Proof.
  split.
  - apply (is_acked_covers cfg r R); [done..|]. right. eauto.
  - destruct (observe_simulates _ _ _ (inv_window _ _ _ Hr) Hn) as [_ ->].
    rewrite spec_observe_no; [done|]. intros [_ Hall]. specialize (Hall _ Hl). simpl in Hall. lia.
Qed.

Definition demo_ahead : RudpEngine :=
  upd_state (set_ack 100 1) (set_window (observe ack_window_new 100).1 demo_server).
Lemma demo_ahead_inv : engine_inv default_rudp_config demo_ahead {[100]}.
Proof.
  eapply set_window_inv; [apply demo_server_inv| |mach|mach|done].
  pose proof (observe_simulates ack_window_new ∅ 100 window_view_new) as [H _]; [mach|].
  by rewrite spec_observe_yes, union_empty_r_L in H by (split; set_solver).
Qed.
Lemma stale_packet_lost_witness :
  is_acked_by_mask 2 (st_ack_largest (state_ demo_ahead)) (st_ack_mask (state_ demo_ahead)) = true
  ∧ accepted (observe (ack_window_ demo_ahead) 2).2 = false.
Proof.
  apply (stale_packet_lost default_rudp_config demo_ahead {[100]} 2 100 demo_ahead_inv);
    [mach|lia|set_solver|lia|set_solver].
Defined.

(** The handshake completes.  A fresh client's HELLO makes a fresh server
    established and answers with one datagram; that datagram makes the client
    established; both then hold the client's connection id. *)
Theorem handshake_establishes (cfg1 cfg2 : RudpConfig) (conn t1 t2 t3 : Z)
  (Hc1 : config_ok cfg1) (Hc2 : config_ok cfg2) (Hconn : is_u32 conn) :
  let '(c, hello) := make_hello (engine_new cfg1) conn t1 in
  let '(s, r, _) := process_datagram (engine_new cfg2) hello t2 in
  ∃ reply, egress_datagrams r = [reply] ∧ handshake_established r = true ∧
    let '(c', r', _) := process_datagram c reply t3 in
    handshake_established r' = true
    ∧ lifecycle (state_ s) = lsEstablished ∧ lifecycle (state_ c') = lsEstablished
    ∧ st_connection_id (state_ s) = conn ∧ st_connection_id (state_ c') = conn.
Proof.
  unfold make_hello. set (c := upd_state _ (engine_new cfg1)).
  assert (Hc : engine_inv cfg1 c ∅).
  { apply upd_state_inv; [by apply engine_new_inv|done|done|done|simpl; mach]. }
  destruct (decode_make_packet _ _ _ kHello 0 0 0 t1 [] Hc) as [Hk Hdec]; [by split|mach|mach|mach|done|].
  unfold process_datagram at 1. rewrite Hk, Hdec. cbn -[make_packet process_datagram].
  eexists. split; [done|]. split; [done|].
  match goal with |- context [make_packet ?s' kHelloAck _ _ _ _ _] => set (s := s') end.
  assert (Hs : engine_inv cfg2 s ∅).
  { apply idle_engine_inv; [done|done|done|done|done|done|done|simpl; mach]. }
  destruct (decode_make_packet _ _ _ kHelloAck 0 0 0 t2 [] Hs) as [Hk2 Hdec2]; [by split|mach|mach|mach|done|].
  unfold process_datagram. rewrite Hk2, Hdec2. simpl. rewrite Z.eqb_refl.
  cbn [negb]. rewrite andb_false_r. simpl.
  destruct (Z.eqb_spec conn 0) as [->|]; by split_and!.
Qed.

Lemma handshake_establishes_witness :
  let '(c, hello) := make_hello (engine_new default_rudp_config) 7 1000 in
  let '(s, r, _) := process_datagram (engine_new default_rudp_config) hello 1001 in
  ∃ reply, egress_datagrams r = [reply] ∧ handshake_established r = true ∧
    let '(c', r', _) := process_datagram c reply 1002 in
    handshake_established r' = true
    ∧ lifecycle (state_ s) = lsEstablished ∧ lifecycle (state_ c') = lsEstablished
    ∧ st_connection_id (state_ s) = 7 ∧ st_connection_id (state_ c') = 7.
Proof.
  apply (handshake_establishes default_rudp_config default_rudp_config 7 1000 1001 1002
    default_config_ok default_config_ok). mach.
Defined.
