(* ===== verification/Topology.v ===== *)
(** * Topology reconciliation

    Model of the first half of [core/include/server/core/worlds/topology.hpp]:
    the desired-topology document, the aggregation of observed instances into
    pools, the comparison of the two and the plan of corrective actions. *)
From S2P Require Import Prelude Containers Text.
From stdpp Require Import list gmap strings.
Open Scope Z_scope.

Record DesiredTopologyPool := {
  dp_world_id : string;
  dp_shard : string;
  dp_replicas : Z;
  dp_capacity_class : string;
  dp_placement_tags : list string;
}.
Record DesiredTopologyDocument := {
  dt_topology_id : string;
  dt_revision : Z;
  dt_updated_at_ms : Z;
  dt_pools : list DesiredTopologyPool;
}.
Record ObservedTopologyInstance := {
  oi_instance_id : string;
  oi_role : string;
  oi_world_id : string;
  oi_shard : string;
  oi_ready : bool;
}.
Record ObservedTopologyPool := {
  op_world_id : string;
  op_shard : string;
  op_instances : Z;
  op_ready_instances : Z;
}.

Inductive TopologyPoolStatus :=
  psAligned | psMissingObservedPool | psUnderReplicated | psOverReplicated
  | psNoReadyInstances | psUndeclaredObservedPool.
#[global] Instance TopologyPoolStatus_eq_dec : EqDecision TopologyPoolStatus.
Proof. solve_decision. Defined.
Definition topology_pool_status_name (status : TopologyPoolStatus) : string :=
  match status with
  | psAligned => "aligned"
  | psMissingObservedPool => "missing_observed_pool"
  | psUnderReplicated => "under_replicated"
  | psOverReplicated => "over_replicated"
  | psNoReadyInstances => "no_ready_instances"
  | psUndeclaredObservedPool => "undeclared_observed_pool"
  end.

Record ReconciledTopologyPool := {
  rp_world_id : string;
  rp_shard : string;
  rp_desired_replicas : Z;
  rp_observed_instances : Z;
  rp_ready_instances : Z;
  rp_status : TopologyPoolStatus;
}.
Record TopologyReconciliationSummary := {
  rs_desired_present : bool;
  rs_desired_pools : Z;
  rs_observed_pools : Z;
  aligned_pools : Z;
  missing_pools : Z;
  under_replicated_pools : Z;
  over_replicated_pools : Z;
  undeclared_pools : Z;
  no_ready_pools : Z;
}.
Record TopologyReconciliation := {
  rec_summary : TopologyReconciliationSummary;
  rec_pools : list ReconciledTopologyPool;
}.

Inductive TopologyActuationActionKind :=
  akScaleOutPool | akScaleInPool | akRestorePoolReadiness | akObserveUndeclaredPool.
#[global] Instance TopologyActuationActionKind_eq_dec : EqDecision TopologyActuationActionKind.
Proof. solve_decision. Defined.
Definition topology_actuation_action_kind_name (action : TopologyActuationActionKind) : string :=
  match action with
  | akScaleOutPool => "scale_out_pool"
  | akScaleInPool => "scale_in_pool"
  | akRestorePoolReadiness => "restore_pool_readiness"
  | akObserveUndeclaredPool => "observe_undeclared_pool"
  end.
Definition parse_topology_actuation_action_kind (name : string) : option TopologyActuationActionKind :=
  if bool_decide (name = "scale_out_pool") then Some akScaleOutPool
  else if bool_decide (name = "scale_in_pool") then Some akScaleInPool
  else if bool_decide (name = "restore_pool_readiness") then Some akRestorePoolReadiness
  else if bool_decide (name = "observe_undeclared_pool") then Some akObserveUndeclaredPool
  else None.

Record TopologyActuationAction := {
  aa_world_id : string;
  aa_shard : string;
  aa_status : TopologyPoolStatus;
  aa_action : TopologyActuationActionKind;
  aa_desired_replicas : Z;
  aa_observed_instances : Z;
  aa_ready_instances : Z;
  aa_replica_delta : Z;
  aa_actionable : bool;
}.
Record TopologyActuationPlanSummary := {
  pl_desired_present : bool;
  pl_actions_total : Z;
  actionable_actions : Z;
  scale_out_actions : Z;
  scale_in_actions : Z;
  readiness_recovery_actions : Z;
  observe_only_actions : Z;
}.
Record TopologyActuationPlan := {
  plan_summary : TopologyActuationPlanSummary;
  plan_actions : list TopologyActuationAction;
}.

(** [detail::make_pool_key]: world id, a newline, shard. *)
Definition make_pool_key (world_id shard : string) : string := world_id +:+ String newline shard.

Definition observed_key (p : ObservedTopologyPool) : string := make_pool_key (op_world_id p) (op_shard p).
Definition desired_key (p : DesiredTopologyPool) : string := make_pool_key (dp_world_id p) (dp_shard p).

(** ** [collect_observed_pools] *)
Definition count_instance (ready : bool) (p : ObservedTopologyPool) : ObservedTopologyPool :=
  {| op_world_id := op_world_id p; op_shard := op_shard p;
     op_instances := op_instances p +₃₂ 1;
     op_ready_instances := bump_if ready (op_ready_instances p) |}.
Definition collect_step (pool_index : gmap string ObservedTopologyPool)
    (instance : ObservedTopologyInstance) : gmap string ObservedTopologyPool :=
  if negb (bool_decide (oi_role instance = "server")) then pool_index
  else if bool_decide (oi_world_id instance = EmptyString) || bool_decide (oi_shard instance = EmptyString)
  then pool_index
  else
    let key := make_pool_key (oi_world_id instance) (oi_shard instance) in
    let fresh := {| op_world_id := oi_world_id instance; op_shard := oi_shard instance;
                    op_instances := 0; op_ready_instances := 0 |} in
    alter (count_instance (oi_ready instance)) key (emplace key fresh pool_index).
Definition collect_index (instances : list ObservedTopologyInstance) : gmap string ObservedTopologyPool :=
  foldl collect_step ∅ instances.
Definition collect_observed_pools `{!MapIteration string} (instances : list ObservedTopologyInstance)
    : list ObservedTopologyPool :=
  snd <$> iterate (collect_index instances).

(** ** [reconcile_topology] *)
(** The summary after one counter is incremented. *)
Definition add_counts (aligned missing under over undeclared no_ready : bool) (s : TopologyReconciliationSummary) : TopologyReconciliationSummary :=
  {| rs_desired_present := rs_desired_present s;
     rs_desired_pools := rs_desired_pools s;
     rs_observed_pools := rs_observed_pools s;
     aligned_pools := bump_if aligned (aligned_pools s);
     missing_pools := bump_if missing (missing_pools s);
     under_replicated_pools := bump_if under (under_replicated_pools s);
     over_replicated_pools := bump_if over (over_replicated_pools s);
     undeclared_pools := bump_if undeclared (undeclared_pools s);
     no_ready_pools := bump_if no_ready (no_ready_pools s) |}.
Definition inc_aligned := add_counts true false false false false false.
Definition inc_missing := add_counts false true false false false false.
Definition inc_under_replicated := add_counts false false true false false false.
Definition inc_over_replicated := add_counts false false false true false false.
Definition inc_undeclared := add_counts false false false false true false.
Definition inc_no_ready := add_counts false false false false false true.

(** The body of the loop over the desired pools, given the [find] result: the
    entry and the summary, whose counter each branch increments. *)
Definition reconcile_one (d : DesiredTopologyPool) (found : option ObservedTopologyPool) (s : TopologyReconciliationSummary)
    : ReconciledTopologyPool * TopologyReconciliationSummary :=
  let reconciled observed ready status :=
    {| rp_world_id := dp_world_id d; rp_shard := dp_shard d; rp_desired_replicas := dp_replicas d;
       rp_observed_instances := observed; rp_ready_instances := ready; rp_status := status |} in
  match found with
  | Some it =>
      let reconciled := reconciled (op_instances it) (op_ready_instances it) in
      if op_instances it =? 0 then (reconciled psMissingObservedPool, inc_missing s)
      else if op_ready_instances it =? 0 then (reconciled psNoReadyInstances, inc_no_ready s)
      else if op_instances it <? dp_replicas d then (reconciled psUnderReplicated, inc_under_replicated s)
      else if dp_replicas d <? op_instances it then (reconciled psOverReplicated, inc_over_replicated s)
      else (reconciled psAligned, inc_aligned s)
  | None => (reconciled 0 0 psMissingObservedPool, inc_missing s)
  end.
Definition undeclared_pool (o : ObservedTopologyPool) : ReconciledTopologyPool :=
  {| rp_world_id := op_world_id o; rp_shard := op_shard o; rp_desired_replicas := 0;
     rp_observed_instances := op_instances o; rp_ready_instances := op_ready_instances o;
     rp_status := psUndeclaredObservedPool |}.

(** The first loop consumes the index: a pool that was found is erased. *)
Fixpoint reconcile_desired (s : TopologyReconciliationSummary)
    (observed_index : gmap string ObservedTopologyPool) (ds : list DesiredTopologyPool)
    : TopologyReconciliationSummary * gmap string ObservedTopologyPool * list ReconciledTopologyPool :=
  match ds with
  | [] => (s, observed_index, [])
  | d :: ds =>
      let found := observed_index !! desired_key d in
      let '(reconciled, s) := reconcile_one d found s in
      let observed_index := match found with
                            | Some _ => delete (desired_key d) observed_index
                            | None => observed_index
                            end in
      let '(s, observed_index, pools) := reconcile_desired s observed_index ds in
      (s, observed_index, reconciled :: pools)
  end.

Definition initial_summary (desired_topology : option DesiredTopologyDocument)
    (observed_pools : list ObservedTopologyPool) : TopologyReconciliationSummary :=
  {| rs_desired_present := bool_decide (is_Some desired_topology);
     rs_desired_pools := match desired_topology with
                         | Some doc => u32 (Z.of_nat (length (dt_pools doc)))
                         | None => 0
                         end;
     rs_observed_pools := u32 (Z.of_nat (length observed_pools));
     aligned_pools := 0; missing_pools := 0; under_replicated_pools := 0;
     over_replicated_pools := 0; undeclared_pools := 0; no_ready_pools := 0 |}.
Definition reconcile_topology `{!MapIteration string} (desired_topology : option DesiredTopologyDocument)
    (observed_pools : list ObservedTopologyPool) : TopologyReconciliation :=
  let s := initial_summary desired_topology observed_pools in
  let observed_index := index_by observed_key observed_pools in
  let '(s, observed_index, pools) :=
    match desired_topology with
    | Some doc => reconcile_desired s observed_index (dt_pools doc)
    | None => (s, observed_index, [])
    end in
  let '(s, undeclared) := emit_loop (λ s _, inc_undeclared s) (λ kv, undeclared_pool kv.2) s (iterate observed_index) in
  {| rec_summary := s; rec_pools := pools ++ undeclared |}.

(** ** [plan_topology_actuation] *)
(** The differences of casts to [std::int32_t] are kept exact: a result outside
    the 32-bit range is undefined behaviour in the source. *)
Definition plan_action (p : ReconciledTopologyPool) : TopologyActuationAction :=
  let mk a delta act :=
    {| aa_world_id := rp_world_id p; aa_shard := rp_shard p; aa_status := rp_status p;
       aa_action := a; aa_desired_replicas := rp_desired_replicas p;
       aa_observed_instances := rp_observed_instances p;
       aa_ready_instances := rp_ready_instances p;
       aa_replica_delta := delta; aa_actionable := act |} in
  match rp_status p with
  | psMissingObservedPool | psUnderReplicated =>
      mk akScaleOutPool (i32 (rp_desired_replicas p) - i32 (rp_observed_instances p)) true
  | psOverReplicated =>
      mk akScaleInPool (i32 (rp_observed_instances p) - i32 (rp_desired_replicas p)) true
  | psNoReadyInstances => mk akRestorePoolReadiness 0 true
  | psUndeclaredObservedPool => mk akObserveUndeclaredPool (i32 (rp_observed_instances p)) false
  | psAligned => mk akObserveUndeclaredPool 0 false
  end.
Definition count_action (s : TopologyActuationPlanSummary) (a : TopologyActuationAction)
    : TopologyActuationPlanSummary :=
  let has k := bool_decide (aa_action a = k) in
  {| pl_desired_present := pl_desired_present s;
     pl_actions_total := pl_actions_total s;
     actionable_actions := bump_if (aa_actionable a) (actionable_actions s);
     scale_out_actions := bump_if (has akScaleOutPool) (scale_out_actions s);
     scale_in_actions := bump_if (has akScaleInPool) (scale_in_actions s);
     readiness_recovery_actions := bump_if (has akRestorePoolReadiness) (readiness_recovery_actions s);
     observe_only_actions := bump_if (has akObserveUndeclaredPool) (observe_only_actions s) |}.
Definition with_total (n : Z) (s : TopologyActuationPlanSummary) : TopologyActuationPlanSummary :=
  {| pl_desired_present := pl_desired_present s; pl_actions_total := n;
     actionable_actions := actionable_actions s; scale_out_actions := scale_out_actions s;
     scale_in_actions := scale_in_actions s;
     readiness_recovery_actions := readiness_recovery_actions s;
     observe_only_actions := observe_only_actions s |}.

Definition plan_topology_actuation `{!MapIteration string} (desired_topology : option DesiredTopologyDocument)
    (observed_pools : list ObservedTopologyPool) : TopologyActuationPlan :=
  let reconciliation := reconcile_topology desired_topology observed_pools in
  let summary :=
    {| pl_desired_present := rs_desired_present (rec_summary reconciliation);
       pl_actions_total := 0; actionable_actions := 0; scale_out_actions := 0;
       scale_in_actions := 0; readiness_recovery_actions := 0; observe_only_actions := 0 |} in
  let '(s, actions) :=
    emit_loop count_action plan_action summary
      (filter (λ p, rp_status p ≠ psAligned) (rec_pools reconciliation)) in
  {| plan_summary := with_total (u32 (Z.of_nat (length actions))) s; plan_actions := actions |}.

(** ** Keys *)
Abbreviation no_newline s := (has_char newline s = false).

Lemma make_pool_key_inj w1 w2 s1 s2 : no_newline w1 → no_newline w2 →
  make_pool_key w1 s1 = make_pool_key w2 s2 → w1 = w2 ∧ s1 = s2.
Proof.
  unfold make_pool_key. revert w2. induction w1 as [|c w1 IH]; intros [|c' w2] H1 H2 Heq; simpl in *.
  - by simplify_eq.
  - injection Heq as <- _. by rewrite bool_decide_eq_true_2 in H2.
  - injection Heq as -> _. by rewrite bool_decide_eq_true_2 in H1.
  - apply orb_false_iff in H1 as [_ H1], H2 as [_ H2]. injection Heq as -> Heq.
    by destruct (IH w2 H1 H2 Heq) as [-> ->].
Qed.

(** ** Lemmas about collection *)
(** The instances [collect_observed_pools] looks at, and their key. *)
Definition counted (i : ObservedTopologyInstance) : Prop :=
  oi_role i = "server" ∧ oi_world_id i ≠ EmptyString ∧ oi_shard i ≠ EmptyString.
Definition instance_key (i : ObservedTopologyInstance) : string :=
  make_pool_key (oi_world_id i) (oi_shard i).
#[global] Instance counted_dec i : Decision (counted i).
Proof. unfold counted. apply _. Defined.
(** Counted instances of one pool, and the ready ones among them. *)
Definition members (k : string) (is_ : list ObservedTopologyInstance) : list ObservedTopologyInstance :=
  filter (λ i, counted i ∧ instance_key i = k) is_.
Definition ready_members (k : string) (is_ : list ObservedTopologyInstance) : list ObservedTopologyInstance :=
  filter (λ i, oi_ready i = true) (members k is_).

Lemma members_snoc k l i : members k (l ++ [i])
  = members k l ++ (if decide (counted i ∧ instance_key i = k) then [i] else []).
Proof. unfold members. rewrite filter_app, filter_cons, filter_nil. done. Qed.

Lemma collect_step_skip m i : ¬ counted i → collect_step m i = m.
Proof.
  intros Hc. unfold collect_step. case_bool_decide; [|done]. cbn [negb].
  repeat case_bool_decide; try done. exfalso. by apply Hc.
Qed.
Lemma collect_step_counted m i : counted i →
  collect_step m i = alter (count_instance (oi_ready i)) (instance_key i)
    (emplace (instance_key i)
       {| op_world_id := oi_world_id i; op_shard := oi_shard i;
          op_instances := 0; op_ready_instances := 0 |} m).
Proof.
  intros (H1 & H2 & H3). unfold collect_step.
  by rewrite bool_decide_eq_true_2, !bool_decide_eq_false_2.
Qed.

(** The invariant of the collecting loop. *)
Lemma collect_index_lookup l k :
  match collect_index l !! k with
  | Some p => observed_key p = k ∧ op_instances p = u32 (Z.of_nat (length (members k l)))
              ∧ op_ready_instances p = u32 (Z.of_nat (length (ready_members k l)))
              ∧ (∃ i, i ∈ members k l ∧ op_world_id p = oi_world_id i ∧ op_shard p = oi_shard i)
  | None => members k l = []
  end.
Proof.
  unfold collect_index, ready_members. induction l as [|i l IH] using rev_ind; [cbn [foldl]; by rewrite lookup_empty|].
  rewrite foldl_snoc, members_snoc. destruct (decide (counted i)) as [Hc|Hc].
  2: { rewrite collect_step_skip, decide_False, app_nil_r by tauto. done. }
  rewrite collect_step_counted by done.
  destruct (decide (instance_key i = k)) as [Hk|Hk].
  2: { rewrite lookup_alter_ne, emplace_lookup_other, decide_False, app_nil_r by tauto. done. }
  subst k. rewrite lookup_alter_eq, emplace_lookup_same, decide_True by done.
  cbn [fmap option_fmap option_map]. rewrite filter_app, !length_app, filter_cons, filter_nil.
  assert (Hin : i ∈ members (instance_key i) l ++ [i]) by set_solver.
  destruct (foldl collect_step ∅ l !! instance_key i) as [p|]; cbn [default].
  - destruct IH as (? & Hn & Hr & (j & ? & ? & ?)). simpl. rewrite Hn, Hr. split_and!.
    + done.
    + unfold u32, wrap. rewrite Zplus_mod_idemp_l. f_equal. lia.
    + unfold bump_if. destruct (decide (oi_ready i = true)) as [->|Hf].
      * simpl. unfold u32, wrap. rewrite Zplus_mod_idemp_l. f_equal. lia.
      * apply not_true_is_false in Hf. rewrite Hf. simpl. f_equal. lia.
    + exists j. split_and!; [set_solver|done..].
  - rewrite IH. simpl. split_and!; [done..| |].
    + unfold bump_if. by destruct (oi_ready i).
    + exists i. split_and!; [set_solver|done..].
Qed.

(** ** Lemmas about reconciliation *)
(** The entry of a desired pool, and the count of an entry by its status. *)
Definition reconcile_pool (d : DesiredTopologyPool) (found : option ObservedTopologyPool) : ReconciledTopologyPool :=
  (reconcile_one d found (initial_summary None [])).1.
Definition count_pool (s : TopologyReconciliationSummary) (p : ReconciledTopologyPool) : TopologyReconciliationSummary :=
  let has st := bool_decide (rp_status p = st) in
  add_counts (has psAligned) (has psMissingObservedPool) (has psUnderReplicated) (has psOverReplicated)
    (has psUndeclaredObservedPool) (has psNoReadyInstances) s.
Lemma reconcile_one_eq d found s : reconcile_one d found s = (reconcile_pool d found, count_pool s (reconcile_pool d found)).
Proof. unfold reconcile_pool, reconcile_one. destruct found as [o|]; [|done]. cbv zeta. repeat case_match; done. Qed.
Lemma reconcile_desired_pools ds : ∀ s m, NoDup (desired_key <$> ds) →
  let '(s', m', pools) := reconcile_desired s m ds in
  pools = (λ d, reconcile_pool d (m !! desired_key d)) <$> ds
  ∧ ∀ k, m' !! k = if decide (k ∈ desired_key <$> ds) then None else m !! k.
Proof.
  induction ds as [|d ds IH]; intros s m Hnd; cbn [reconcile_desired].
  { by split. }
  rewrite fmap_cons in Hnd. apply NoDup_cons in Hnd as [Hnew Hnd].
  set (found := m !! desired_key d).
  set (m1 := match found with Some _ => delete _ m | None => m end).
  assert (Hm1 : ∀ k, m1 !! k = if decide (k = desired_key d) then None else m !! k).
  { intros k. subst m1. destruct (decide (k = desired_key d)) as [->|].
    - destruct found eqn:Hf; [by rewrite lookup_delete_eq|done].
    - destruct found; [by rewrite lookup_delete_ne|done]. }
  rewrite reconcile_one_eq. specialize (IH (count_pool s (reconcile_pool d found)) m1 Hnd).
  destruct (reconcile_desired _ m1 ds) as [[s' m'] pools]. destruct IH as [-> Hm']. split.
  - rewrite fmap_cons. f_equal. apply list_fmap_ext. intros i d' Hd'. f_equal.
    rewrite Hm1, decide_False; [done|]. intros Heq. apply Hnew. rewrite <- Heq.
    apply list_elem_of_fmap_2. by eapply list_elem_of_lookup_2.
  - intros k. rewrite Hm', Hm1, fmap_cons. repeat case_decide; try done; set_solver.
Qed.

Lemma reconcile_desired_counts ds : ∀ s m,
  (reconcile_desired s m ds).1.1 = foldl count_pool s (reconcile_desired s m ds).2.
Proof.
  induction ds as [|d ds IH]; intros s m; cbn [reconcile_desired]; [done|].
  rewrite reconcile_one_eq. set (s1 := count_pool _ _). set (m1 := match _ with Some _ => _ | None => _ end).
  specialize (IH s1 m1). by destruct (reconcile_desired s1 m1 ds) as [[s' m'] pools].
Qed.

Lemma undeclared_leftover (m : gmap string ObservedTopologyPool) (obs : list ObservedTopologyPool) (K : list string) :
  NoDup (observed_key <$> obs) →
  (∀ k, m !! k = if decide (k ∈ K) then None else index_by observed_key obs !! k) →
  snd <$> map_to_list m ≡ₚ filter (λ o, observed_key o ∉ K) obs.
Proof.
  intros Hnd Hm.
  assert (Hmv : ∀ k o, m !! k = Some o ↔ (k ∉ K) ∧ observed_key o = k ∧ o ∈ obs).
  { intros k o. rewrite Hm, index_by_lookup. case_decide as HK; [naive_solver|]. split.
    - intros Hf. apply first_with_some in Hf as [? ?]. done.
    - intros (_ & <- & Ho). by apply first_with_unique. }
  apply NoDup_Permutation.
  - apply NoDup_fmap_2_strong; [|apply NoDup_map_to_list].
    intros [k1 o1] [k2 o2] H1 H2 Heq. simpl in Heq. subst o2.
    apply elem_of_map_to_list in H1, H2. rewrite Hmv in H1, H2. naive_solver.
  - apply NoDup_filter. by eapply NoDup_fmap_1.
  - intros o. rewrite list_elem_of_fmap, list_elem_of_filter. split.
    + intros ([k o'] & -> & Hin). apply elem_of_map_to_list, Hmv in Hin. naive_solver.
    + intros [HK Ho]. exists (observed_key o, o). split; [done|].
      by apply elem_of_map_to_list, Hmv.
Qed.

(** The pools of a reconciliation, without the order of the index. *)
Definition reconcile_spec (ds : list DesiredTopologyPool) (obs : list ObservedTopologyPool)
    : list ReconciledTopologyPool :=
  ((λ d, reconcile_pool d (first_with observed_key (desired_key d) obs)) <$> ds)
  ++ (undeclared_pool <$> filter (λ o, observed_key o ∉ desired_key <$> ds) obs).
Definition desired_pools_of (t : option DesiredTopologyDocument) : list DesiredTopologyPool :=
  match t with Some doc => dt_pools doc | None => [] end.

Section Reconcile.
Context `{!MapIteration string}.
Implicit Types (t : option DesiredTopologyDocument) (obs : list ObservedTopologyPool).

Lemma undeclared_counts (l : list (string * ObservedTopologyPool)) : ∀ s,
  foldl (λ s _, inc_undeclared s) s ((λ kv, undeclared_pool kv.2) <$> l) = foldl count_pool s ((λ kv, undeclared_pool kv.2) <$> l).
Proof. induction l as [|kv l IH]; intros s; [done|]. cbn [fmap list_fmap foldl]. by rewrite IH. Qed.
(** One shape for both cases of the optional document. *)
Lemma reconcile_topology_eq t obs :
  let '(_, m, pools) :=
    reconcile_desired (initial_summary t obs) (index_by observed_key obs) (desired_pools_of t) in
  let pools' := pools ++ ((λ kv, undeclared_pool kv.2) <$> iterate m) in
  reconcile_topology t obs
  = {| rec_summary := foldl count_pool (initial_summary t obs) pools'; rec_pools := pools' |}.
Proof.
  unfold reconcile_topology, desired_pools_of. destruct t as [doc|].
  - pose proof (reconcile_desired_counts (dt_pools doc) (initial_summary (Some doc) obs)
      (index_by observed_key obs)) as Hc.
    destruct (reconcile_desired _ _ _) as [[s' m'] pools]. simpl in Hc. subst s'.
    by rewrite emit_loop_eq, undeclared_counts, foldl_app.
  - by rewrite emit_loop_eq, undeclared_counts.
Qed.

Lemma reconcile_topology_split t obs :
  NoDup (desired_key <$> desired_pools_of t) → NoDup (observed_key <$> obs) → ∃ undeclared,
  rec_pools (reconcile_topology t obs) = ((λ d, reconcile_pool d (first_with observed_key (desired_key d) obs)) <$> desired_pools_of t) ++ undeclared
  ∧ undeclared ≡ₚ undeclared_pool <$> filter (λ o, observed_key o ∉ desired_key <$> desired_pools_of t) obs.
Proof.
  intros Hd Ho. pose proof (reconcile_topology_eq t obs) as Heq.
  pose proof (reconcile_desired_pools (desired_pools_of t) (initial_summary t obs) (index_by observed_key obs) Hd) as Hp.
  destruct (reconcile_desired _ _ _) as [[s m] pools]. rewrite Heq. cbn [rec_pools].
  destruct Hp as [-> Hm]. eexists. split.
  - f_equal. apply list_fmap_ext. intros i d _. by rewrite index_by_lookup.
  - rewrite (iterate_perm _ m), <- (undeclared_leftover m obs _ Ho Hm).
    by rewrite <- list_fmap_compose.
Qed.
Lemma reconcile_topology_pools t obs :
  NoDup (desired_key <$> desired_pools_of t) → NoDup (observed_key <$> obs) →
  rec_pools (reconcile_topology t obs) ≡ₚ reconcile_spec (desired_pools_of t) obs.
Proof.
  intros Hd Ho. destruct (reconcile_topology_split t obs Hd Ho) as (undeclared & -> & Hu). unfold reconcile_spec. by rewrite Hu.
Qed.
Lemma reconcile_topology_totals t obs : let s := rec_summary (reconcile_topology t obs) in
  rs_desired_present s = bool_decide (is_Some t) ∧ rs_desired_pools s = u32 (Z.of_nat (length (desired_pools_of t)))
  ∧ rs_observed_pools s = u32 (Z.of_nat (length obs)).
Proof.
  pose proof (reconcile_topology_eq t obs) as Heq. destruct (reconcile_desired _ _ _) as [[s m] pools]. rewrite Heq. cbn [rec_summary].
  assert (H : ∀ {T} (f : TopologyReconciliationSummary → T) ps s, (∀ s p, f (count_pool s p) = f s) → f (foldl count_pool s ps) = f s).
  { intros T f ps. induction ps as [|p ps IH]; intros s' Hf; [done|]. cbn [foldl]. by rewrite IH, Hf. }
  cbv zeta. rewrite !H by done. by destruct t.
Qed.

Lemma reconcile_topology_counts t obs :
  let r := reconcile_topology t obs in
  let n st := u32 (Z.of_nat (length (filter (λ p, rp_status p = st) (rec_pools r)))) in
  aligned_pools (rec_summary r) = n psAligned
  ∧ missing_pools (rec_summary r) = n psMissingObservedPool
  ∧ under_replicated_pools (rec_summary r) = n psUnderReplicated
  ∧ over_replicated_pools (rec_summary r) = n psOverReplicated
  ∧ undeclared_pools (rec_summary r) = n psUndeclaredObservedPool
  ∧ no_ready_pools (rec_summary r) = n psNoReadyInstances.
Proof.
  pose proof (reconcile_topology_eq t obs) as Heq.
  destruct (reconcile_desired _ _ _) as [[s m] pools]. rewrite Heq. cbn [rec_pools rec_summary].
  set (ps := pools ++ _). set (s0 := initial_summary t obs). cbv zeta.
  assert (Hf : ∀ (f : TopologyReconciliationSummary → Z) st,
    (∀ s p, f (count_pool s p) = bump_if (bool_decide (rp_status p = st)) (f s)) → f s0 = 0 →
    f (foldl count_pool s0 ps) = u32 (Z.of_nat (length (filter (λ p, rp_status p = st) ps)))).
  { intros f st Hst H0. rewrite (foldl_counter f _ (λ p, rp_status p = st)); [by rewrite H0|done|rewrite H0; mach]. }
  split_and!; by apply Hf.
Qed.
End Reconcile.

(** The counted instances of one world and shard. *)
Definition serving (w s : string) (is_ : list ObservedTopologyInstance) : list ObservedTopologyInstance :=
  filter (λ i, counted i ∧ oi_world_id i = w ∧ oi_shard i = s) is_.
Lemma members_serving w s l : no_newline w → Forall (λ i, no_newline (oi_world_id i)) l →
  members (make_pool_key w s) l = serving w s l.
Proof.
  intros Hw. unfold members, serving. induction 1 as [|i l Hi _ IH]; [done|].
  rewrite !filter_cons, IH. apply decide_ext. unfold instance_key. split; [|naive_solver].
  intros [? ?]. split; [done|]. by apply make_pool_key_inj.
Qed.

Lemma collect_elem `{!MapIteration string} l p :
  p ∈ collect_observed_pools l ↔ ∃ k, collect_index l !! k = Some p.
Proof.
  unfold collect_observed_pools. rewrite (iterate_perm _ (collect_index l)), list_elem_of_fmap. split.
  - intros ([k p'] & -> & Hin). exists k. by apply elem_of_map_to_list.
  - intros [k Hk]. exists (k, p). split; [done|]. by apply elem_of_map_to_list.
Qed.

Lemma collect_keys_nodup `{!MapIteration string} l : NoDup (observed_key <$> collect_observed_pools l).
Proof.
  unfold collect_observed_pools. rewrite (iterate_perm _ (collect_index l)), <- list_fmap_compose.
  apply NoDup_fmap_2_strong; [|apply NoDup_map_to_list].
  intros [k1 p1] [k2 p2] H1 H2 Heq. simpl in Heq. apply elem_of_map_to_list in H1, H2.
  pose proof (collect_index_lookup l k1) as Hk1. pose proof (collect_index_lookup l k2) as Hk2.
  rewrite H1 in Hk1. rewrite H2 in Hk2. destruct Hk1 as [? _], Hk2 as [? _].
  assert (k1 = k2) by congruence. subst k2. congruence.
Qed.

(** ** Lemmas about plans *)
Lemma plan_actions_eq `{!MapIteration string} t obs :
  plan_actions (plan_topology_actuation t obs)
  = plan_action <$> filter (λ p, rp_status p ≠ psAligned) (rec_pools (reconcile_topology t obs)).
Proof. unfold plan_topology_actuation. by rewrite emit_loop_eq. Qed.

Lemma plan_empty_pools `{!MapIteration string} t obs :
  plan_actions (plan_topology_actuation t obs) = [] ↔
  Forall (λ p, rp_status p = psAligned) (rec_pools (reconcile_topology t obs)).
Proof.
  rewrite plan_actions_eq. set (ps := rec_pools _). clearbody ps.
  induction ps as [|p ps IH]; [done|]. rewrite filter_cons. case_decide as Hp; split.
  - done.
  - by intros [? _]%Forall_cons.
  - intros Hn. constructor; [destruct (decide (rp_status p = psAligned)); naive_solver|by apply IH].
  - intros [_ ?]%Forall_cons. by apply IH.
Qed.

Lemma reconcile_pool_aligned d found :
  rp_status (reconcile_pool d found) = psAligned ↔
  ∃ o, found = Some o ∧ op_instances o = dp_replicas d ∧ op_instances o ≠ 0 ∧ op_ready_instances o ≠ 0.
Proof.
  unfold reconcile_pool, reconcile_one. destruct found as [o|]; simpl; [|naive_solver].
  destruct (Z.eqb_spec (op_instances o) 0); [naive_solver|].
  destruct (Z.eqb_spec (op_ready_instances o) 0); [naive_solver|].
  destruct (Z.ltb_spec (op_instances o) (dp_replicas d)).
  { split; [done|]. intros (? & [= <-] & ? & _). lia. }
  destruct (Z.ltb_spec (dp_replicas d) (op_instances o)).
  { split; [done|]. intros (? & [= <-] & ? & _). lia. }
  split; [intros _|done]. exists o. split_and!; [done|lia|done..].
Qed.

(** A reconciled pool whose counts fit [std::int32_t] and agree with its status. *)
Definition pool_consistent (p : ReconciledTopologyPool) : Prop :=
  0 ≤ rp_desired_replicas p < 2 ^ 31 ∧ 0 ≤ rp_observed_instances p < 2 ^ 31
  ∧ match rp_status p with
    | psAligned => rp_observed_instances p = rp_desired_replicas p
    | psMissingObservedPool => rp_observed_instances p = 0
    | psUnderReplicated => rp_observed_instances p < rp_desired_replicas p
    | psOverReplicated => rp_desired_replicas p < rp_observed_instances p
    | psNoReadyInstances => rp_ready_instances p = 0
    | psUndeclaredObservedPool => rp_desired_replicas p = 0
    end.
Definition small (n : Z) : Prop := 0 ≤ n < 2 ^ 31.
Lemma reconcile_pool_consistent d found :
  small (dp_replicas d) → (∀ o, found = Some o → small (op_instances o)) →
  pool_consistent (reconcile_pool d found).
Proof.
  unfold small, pool_consistent, reconcile_pool, reconcile_one. intros Hd Ho. destruct found as [o|]; simpl; [|lia].
  specialize (Ho o eq_refl). destruct (Z.eqb_spec (op_instances o) 0); [cbn; lia|].
  destruct (Z.eqb_spec (op_ready_instances o) 0); [cbn; lia|].
  destruct (Z.ltb_spec (op_instances o) (dp_replicas d)); [cbn; lia|].
  destruct (Z.ltb_spec (dp_replicas d) (op_instances o)); cbn; lia.
Qed.
Lemma reconcile_spec_consistent ds obs :
  Forall (λ d, small (dp_replicas d)) ds → Forall (λ o, small (op_instances o)) obs →
  Forall pool_consistent (reconcile_spec ds obs).
Proof.
  rewrite !Forall_forall. intros Hd Ho p Hp. apply elem_of_app in Hp as [Hp|Hp].
  - apply list_elem_of_fmap in Hp as (d & -> & Hin). apply reconcile_pool_consistent; [auto|].
    intros o [_ ?]%first_with_some. auto.
  - apply list_elem_of_fmap in Hp as (o & -> & [_ Hin]%list_elem_of_filter).
    specialize (Ho _ Hin). unfold small, pool_consistent in *. simpl. lia.
Qed.

(** ** Properties *)

(** Observed pools are exact.  When world ids contain no newline, the pools
    collected from the registry are one per (world, shard) pair; each counts
    exactly the server instances of its pair and the ready ones among them;
    and every counted instance has its pool. *)
Theorem collect_pools_exact `{!MapIteration string} (l : list ObservedTopologyInstance)
  (Hnl : Forall (λ i, no_newline (oi_world_id i)) l) :
  NoDup ((λ p, (op_world_id p, op_shard p)) <$> collect_observed_pools l)
  ∧ (∀ p, p ∈ collect_observed_pools l →
       let own := serving (op_world_id p) (op_shard p) l in
       own ≠ [] ∧ op_instances p = u32 (Z.of_nat (length own))
       ∧ op_ready_instances p = u32 (Z.of_nat (length (filter (λ i, oi_ready i = true) own))))
  ∧ (∀ i, i ∈ l → counted i → ∃ p, p ∈ collect_observed_pools l
       ∧ op_world_id p = oi_world_id i ∧ op_shard p = oi_shard i).
Proof.
  rewrite Forall_forall in Hnl. split_and!.
  - apply (NoDup_fmap_1 (λ ws, make_pool_key ws.1 ws.2)). rewrite <- list_fmap_compose.
    apply collect_keys_nodup.
  - intros p [k Hk]%collect_elem. pose proof (collect_index_lookup l k) as Hl. rewrite Hk in Hl.
    destruct Hl as (<- & Hn & Hr & (i & Hi & Hw & Hs)). cbv zeta.
    unfold ready_members, observed_key in Hn, Hr, Hi.
    assert (Hin := Hi). apply list_elem_of_filter in Hin as [_ Hin].
    rewrite members_serving in Hn, Hr, Hi by (try apply Forall_forall; auto; rewrite Hw; auto).
    split_and!; [|done..]. intros Hnil. rewrite Hnil in Hi. by apply not_elem_of_nil in Hi.
  - intros i Hi Hc. pose proof (collect_index_lookup l (instance_key i)) as Hl.
    assert (Him : i ∈ members (instance_key i) l) by (by apply list_elem_of_filter).
    destruct (collect_index l !! instance_key i) as [p|] eqn:Hp.
    2: { rewrite Hl in Him. by apply not_elem_of_nil in Him. }
    exists p. split; [apply collect_elem; eauto|]. destruct Hl as (_ & _ & _ & (j & Hj & -> & ->)).
    apply list_elem_of_filter in Hj as [[_ Hk] Hj].
    unfold instance_key in Hk. apply make_pool_key_inj in Hk; auto.
Qed.

Definition demo_instance (id w s : string) (r : bool) : ObservedTopologyInstance :=
  {| oi_instance_id := id; oi_role := "server"; oi_world_id := w; oi_shard := s; oi_ready := r |}.
Definition demo_instances : list ObservedTopologyInstance :=
  [demo_instance "i1" "alpha" "s0" true; demo_instance "i2" "alpha" "s0" false;
   demo_instance "i3" "beta" "s1" true].
Lemma collect_pools_exact_witness :
  length (collect_observed_pools demo_instances) = 2%nat
  ∧ ∃ p, p ∈ collect_observed_pools demo_instances ∧ op_world_id p = "alpha" ∧ op_shard p = "s0".
Proof.
  split; [vm_compute; reflexivity|].
  destruct (collect_pools_exact demo_instances) as (_ & _ & H); [repeat constructor|].
  apply (H (demo_instance "i1" "alpha" "s0" true)); [left|done].
Defined.

(** What a status says of a declared pool. *)
Definition status_meets (desired observed ready : Z) (status : TopologyPoolStatus) : Prop :=
  match status with
  | psMissingObservedPool => observed = 0
  | psNoReadyInstances => observed ≠ 0 ∧ ready = 0
  | psUnderReplicated => observed ≠ 0 ∧ ready ≠ 0 ∧ observed < desired
  | psOverReplicated => observed ≠ 0 ∧ ready ≠ 0 ∧ desired < observed
  | psAligned => observed ≠ 0 ∧ ready ≠ 0 ∧ observed = desired
  | psUndeclaredObservedPool => False
  end.
(** The report on a desired pool: its names and target, the counts of the observed
    pool of the same world and shard, if any, and the status they call for. *)
Definition reports (obs : list ObservedTopologyPool) (d : DesiredTopologyPool) (p : ReconciledTopologyPool) : Prop :=
  rp_world_id p = dp_world_id d ∧ rp_shard p = dp_shard d ∧ rp_desired_replicas p = dp_replicas d
  ∧ ((∃ o, o ∈ obs ∧ observed_key o = desired_key d ∧ rp_observed_instances p = op_instances o ∧ rp_ready_instances p = op_ready_instances o)
     ∨ (∀ o, o ∈ obs → observed_key o ≠ desired_key d) ∧ rp_observed_instances p = 0 ∧ rp_ready_instances p = 0)
  ∧ status_meets (rp_desired_replicas p) (rp_observed_instances p) (rp_ready_instances p) (rp_status p).
Lemma reconcile_pool_reports obs d : reports obs d (reconcile_pool d (first_with observed_key (desired_key d) obs)).
Proof.
  unfold reports. destruct (first_with observed_key (desired_key d) obs) as [o|] eqn:Ef; unfold reconcile_pool, reconcile_one; cbv zeta.
  - apply first_with_some in Ef as [Hk Ho]. destruct (Z.eqb_spec (op_instances o) 0); [split_and!; eauto 6|].
    destruct (Z.eqb_spec (op_ready_instances o) 0); [split_and!; eauto 6; done|].
    destruct (Z.ltb_spec (op_instances o) (dp_replicas d)); [split_and!; eauto 6; done|].
    destruct (Z.ltb_spec (dp_replicas d) (op_instances o)); split_and!; eauto 6; try done. cbn. lia.
  - cbn. split_and!; try done. right. split; [|done]. intros o Ho Hk. by apply (proj1 (first_with_none observed_key (desired_key d) obs) Ef o).
Qed.
(** C38: reconciliation is exact.  For documents without repeated pools, the
    report has, in order, one entry per desired pool, with its names and target,
    the counts of the observed pool with its key and the status that these numbers
    call for, then one "undeclared" entry per observed pool whose key nobody
    desired, with its names and counts, in the unspecified order of the index; each
    summary counter is the number of entries with its status, and the totals are
    the numbers of desired and observed pools. *)
Theorem reconcile_topology_exact `{!MapIteration string} (t : option DesiredTopologyDocument)
  (obs : list ObservedTopologyPool)
  (Hd : NoDup (desired_key <$> desired_pools_of t)) (Ho : NoDup (observed_key <$> obs)) :
  let r := reconcile_topology t obs in
  let n st := u32 (Z.of_nat (length (filter (λ p, rp_status p = st) (rec_pools r)))) in
  (∃ declared undeclared, rec_pools r = declared ++ undeclared
     ∧ Forall2 (reports obs) (desired_pools_of t) declared
     ∧ undeclared ≡ₚ (λ o, {| rp_world_id := op_world_id o; rp_shard := op_shard o; rp_desired_replicas := 0;
                              rp_observed_instances := op_instances o; rp_ready_instances := op_ready_instances o;
                              rp_status := psUndeclaredObservedPool |})
                    <$> filter (λ o, observed_key o ∉ desired_key <$> desired_pools_of t) obs)
  ∧ aligned_pools (rec_summary r) = n psAligned
  ∧ missing_pools (rec_summary r) = n psMissingObservedPool
  ∧ under_replicated_pools (rec_summary r) = n psUnderReplicated
  ∧ over_replicated_pools (rec_summary r) = n psOverReplicated
  ∧ undeclared_pools (rec_summary r) = n psUndeclaredObservedPool
  ∧ no_ready_pools (rec_summary r) = n psNoReadyInstances
  ∧ rs_desired_present (rec_summary r) = bool_decide (is_Some t)
  ∧ rs_desired_pools (rec_summary r) = u32 (Z.of_nat (length (desired_pools_of t)))
  ∧ rs_observed_pools (rec_summary r) = u32 (Z.of_nat (length obs)).
Proof.
  cbv zeta. split; [|pose proof (reconcile_topology_counts t obs) as (? & ? & ? & ? & ? & ?); pose proof (reconcile_topology_totals t obs) as (? & ? & ?); by split_and!].
  destruct (reconcile_topology_split t obs Hd Ho) as (undeclared & -> & Hu). eexists _, undeclared. split_and!; [done| |done].
  apply Forall2_fmap_r, Forall_Forall2_diag, Forall_forall. intros d _. apply reconcile_pool_reports.
Qed.

Definition demo_desired : DesiredTopologyDocument :=
  {| dt_topology_id := "t"; dt_revision := 4; dt_updated_at_ms := 1000;
     dt_pools := [{| dp_world_id := "alpha"; dp_shard := "s0"; dp_replicas := 3;
                     dp_capacity_class := "std"; dp_placement_tags := [] |}] |}.
Definition demo_observed : list ObservedTopologyPool :=
  [{| op_world_id := "alpha"; op_shard := "s0"; op_instances := 2; op_ready_instances := 1 |};
   {| op_world_id := "beta"; op_shard := "s1"; op_instances := 1; op_ready_instances := 1 |}].
Lemma demo_keys_nodup :
  NoDup (desired_key <$> desired_pools_of (Some demo_desired)) ∧ NoDup (observed_key <$> demo_observed).
Proof. split; apply (bool_decide_unpack _); vm_compute; exact I. Qed.
Lemma reconcile_topology_exact_witness :
  under_replicated_pools (rec_summary (reconcile_topology (Some demo_desired) demo_observed)) = 1
  ∧ ∃ declared undeclared, rec_pools (reconcile_topology (Some demo_desired) demo_observed) = declared ++ undeclared
      ∧ Forall2 (reports demo_observed) (dt_pools demo_desired) declared ∧ length undeclared = 1%nat.
Proof.
  split; [vm_compute; reflexivity|].
  destruct (reconcile_topology_exact (Some demo_desired) demo_observed) as ((declared & undeclared & H1 & H2 & H3) & _); [apply demo_keys_nodup..|].
  exists declared, undeclared. split_and!; [done|done|]. by rewrite H3.
Defined.

(** The plan is empty exactly when the topology is right.  No action is
    proposed iff every desired pool is observed with exactly the desired, non-zero
    number of instances and at least one of them ready, and nothing undeclared
    is observed. *)
Theorem plan_empty_iff_aligned `{!MapIteration string} (t : option DesiredTopologyDocument)
  (obs : list ObservedTopologyPool)
  (Hd : NoDup (desired_key <$> desired_pools_of t)) (Ho : NoDup (observed_key <$> obs)) :
  plan_actions (plan_topology_actuation t obs) = [] ↔
  (∀ d, d ∈ desired_pools_of t → ∃ o, o ∈ obs ∧ observed_key o = desired_key d
     ∧ op_instances o = dp_replicas d ∧ op_instances o ≠ 0 ∧ op_ready_instances o ≠ 0)
  ∧ (∀ o, o ∈ obs → observed_key o ∈ desired_key <$> desired_pools_of t).
Proof.
  rewrite plan_empty_pools, (reconcile_topology_pools t obs Hd Ho), Forall_forall.
  split.
  - intros Hall. split.
    + intros d Hin.
      assert (Ha : reconcile_pool d (first_with observed_key (desired_key d) obs)
        ∈ reconcile_spec (desired_pools_of t) obs).
      { apply elem_of_app. left. apply list_elem_of_fmap. eauto. }
      apply Hall, reconcile_pool_aligned in Ha as (o & [? ?]%first_with_some & ?). eauto.
    + intros o Hin. destruct (decide (observed_key o ∈ desired_key <$> desired_pools_of t)) as [|Hno]; [done|].
      assert (Hu : undeclared_pool o ∈ reconcile_spec (desired_pools_of t) obs).
      { apply elem_of_app. right. apply list_elem_of_fmap_2. by apply list_elem_of_filter. }
      by apply Hall in Hu.
  - intros [Hdes Hund] p Hp. apply elem_of_app in Hp as [Hp|Hp].
    + apply list_elem_of_fmap in Hp as (d & -> & Hin). destruct (Hdes _ Hin) as (o & Hoin & Hk & Hrest).
      rewrite <- Hk, first_with_unique by done. apply reconcile_pool_aligned. eauto.
    + apply list_elem_of_fmap in Hp as (o & _ & [Hno Hin]%list_elem_of_filter). by destruct Hno; apply Hund.
Qed.

Lemma plan_empty_iff_aligned_witness :
  plan_actions (plan_topology_actuation (Some demo_desired)
    [{| op_world_id := "alpha"; op_shard := "s0"; op_instances := 3; op_ready_instances := 1 |}]) = []
  ∧ plan_actions (plan_topology_actuation (Some demo_desired) demo_observed) ≠ [].
Proof.
  split; [vm_compute; reflexivity|].
  intros H. apply (plan_empty_iff_aligned (Some demo_desired) demo_observed) in H;
    [|apply demo_keys_nodup..].
  destruct H as [_ H]. specialize (H {| op_world_id := "beta"; op_shard := "s1"; op_instances := 1;
    op_ready_instances := 1 |} ltac:(right; left)).
  apply (bool_decide_pack _) in H. vm_compute in H. exact H.
Defined.

(** Planned changes hit the target.  In every proposed action the observed
    count plus the delta (scale out) or minus it (scale in) is the desired
    count, a scale-in removes at least one instance, readiness recovery is only
    proposed for a pool without ready instances, and exactly the actions on
    declared pools are actionable. *)
Theorem plan_actions_hit_target `{!MapIteration string} (t : option DesiredTopologyDocument)
  (obs : list ObservedTopologyPool)
  (Hd : NoDup (desired_key <$> desired_pools_of t)) (Ho : NoDup (observed_key <$> obs))
  (Hsd : Forall (λ d, small (dp_replicas d)) (desired_pools_of t))
  (Hso : Forall (λ o, small (op_instances o)) obs) :
  Forall (λ a,
    match aa_action a with
    | akScaleOutPool => aa_observed_instances a + aa_replica_delta a = aa_desired_replicas a
                        ∧ aa_actionable a = true
    | akScaleInPool => aa_observed_instances a - aa_replica_delta a = aa_desired_replicas a
                       ∧ 0 < aa_replica_delta a ∧ aa_actionable a = true
    | akRestorePoolReadiness => aa_ready_instances a = 0 ∧ aa_replica_delta a = 0
                                ∧ aa_actionable a = true
    | akObserveUndeclaredPool => aa_desired_replicas a = 0
                                 ∧ aa_replica_delta a = aa_observed_instances a
                                 ∧ aa_actionable a = false
    end) (plan_actions (plan_topology_actuation t obs)).
Proof.
  rewrite plan_actions_eq. apply Forall_fmap, Forall_forall. intros p Hp.
  apply list_elem_of_filter in Hp as [Hne Hp]. rewrite (reconcile_topology_pools t obs Hd Ho) in Hp.
  assert (Hc := proj1 (Forall_forall _ _) (reconcile_spec_consistent _ _ Hsd Hso) _ Hp).
  unfold pool_consistent in Hc. unfold plan_action. simpl.
  destruct (rp_status p); simpl; try done; mach.
Qed.

Lemma plan_actions_hit_target_witness :
  (aa_replica_delta <$> plan_actions (plan_topology_actuation (Some demo_desired) demo_observed)) = [1; 1]
  ∧ Forall (λ a, aa_action a = akScaleOutPool →
       aa_observed_instances a + aa_replica_delta a = aa_desired_replicas a)
     (plan_actions (plan_topology_actuation (Some demo_desired) demo_observed)).
Proof.
  split; [vm_compute; reflexivity|].
  eapply Forall_impl.
  - apply (plan_actions_hit_target (Some demo_desired) demo_observed); try apply demo_keys_nodup;
      repeat constructor; unfold small; simpl; lia.
  - simpl. intros a Ha Hk. rewrite Hk in Ha. apply Ha.
Defined.

(** A pool desired with zero replicas never settles.  Whatever is observed,
    a plan keeps proposing an action for it (a scale-out of zero once the last
    instance is gone). *)
Theorem zero_replica_pool_never_aligned `{!MapIteration string} (t : option DesiredTopologyDocument)
  (obs : list ObservedTopologyPool) (d : DesiredTopologyPool)
  (Hin : d ∈ desired_pools_of t) (Hzero : dp_replicas d = 0) :
  plan_actions (plan_topology_actuation t obs) ≠ [].
Proof.
  rewrite plan_empty_pools. intros Hall. pose proof (reconcile_topology_eq t obs) as Heq.
  destruct (reconcile_desired _ _ _) as [[s m] pools] eqn:Hr. rewrite Heq in Hall. cbn [rec_pools] in Hall.
  apply Forall_app in Hall as [Hall _].
  assert (Hd : ∃ found, reconcile_pool d found ∈ pools).
  { clear Heq Hall. revert Hr. generalize (initial_summary t obs) (index_by observed_key obs).
    revert s m pools. induction (desired_pools_of t) as [|d' ds IH]; intros s m pools s0 m0 Hr; [set_solver|].
    cbn [reconcile_desired] in Hr. rewrite reconcile_one_eq in Hr.
    destruct (reconcile_desired (count_pool _ _) _ ds) as [[s2 m2] ps2] eqn:Hr2. simplify_eq.
    apply elem_of_cons in Hin as [->|Hin]; [eexists; left|].
    destruct (IH Hin _ _ _ _ _ Hr2) as [f Hf]. exists f. by right. }
  destruct Hd as [found Hd]. rewrite Forall_forall in Hall. apply Hall, reconcile_pool_aligned in Hd.
  destruct Hd as (o & _ & ? & ? & _). congruence.
Qed.
Definition demo_zero : DesiredTopologyDocument :=
  {| dt_topology_id := "t"; dt_revision := 1; dt_updated_at_ms := 0;
     dt_pools := [{| dp_world_id := "alpha"; dp_shard := "s0"; dp_replicas := 0;
                     dp_capacity_class := "std"; dp_placement_tags := [] |}] |}.
Lemma zero_replica_pool_never_aligned_witness :
  (aa_action <$> plan_actions (plan_topology_actuation (Some demo_zero) [])) = [akScaleOutPool]
  ∧ plan_actions (plan_topology_actuation (Some demo_zero) []) ≠ [].
Proof.
  split; [vm_compute; reflexivity|].
  eapply (zero_replica_pool_never_aligned (Some demo_zero) []); [left|reflexivity].
Defined.

(** Action names parse back, and only action names parse. *)
Theorem action_kind_name_roundtrip (k : TopologyActuationActionKind) (name : string) :
  parse_topology_actuation_action_kind name = Some k ↔ name = topology_actuation_action_kind_name k.
Proof.
  unfold parse_topology_actuation_action_kind, topology_actuation_action_kind_name.
  repeat case_bool_decide; destruct k; naive_solver.
Qed.
