(* ===== verification/TopologyStatus.v ===== *)
(** * Topology actuation: requests, executions, realization and leases

    Model of the second half of
    [core/include/server/core/worlds/topology.hpp]: how an approved request, an
    executor's progress document and an adapter's lease are interpreted against
    the current plan. *)
From S2P Require Import Prelude Containers Topology.
From stdpp Require Import list gmap strings.
Open Scope Z_scope.

(** ** Requests *)
Record TopologyActuationRequestAction := {
  rq_world_id : string;
  rq_shard : string;
  rq_action : TopologyActuationActionKind;
  rq_replica_delta : Z;
}.
Record TopologyActuationRequestDocument := {
  rqd_request_id : string;
  rqd_revision : Z;
  rqd_requested_at_ms : Z;
  rqd_basis_topology_revision : Z;
  rqd_actions : list TopologyActuationRequestAction;
}.
Inductive TopologyActuationRequestActionState := rsPending | rsSatisfied | rsSuperseded.
#[global] Instance RequestActionState_eq_dec : EqDecision TopologyActuationRequestActionState.
Proof. solve_decision. Defined.
Definition topology_actuation_request_action_state_name
    (state : TopologyActuationRequestActionState) : string :=
  match state with
  | rsPending => "pending"
  | rsSatisfied => "satisfied"
  | rsSuperseded => "superseded"
  end.
Record TopologyActuationRequestActionStatus := {
  rqs_world_id : string;
  rqs_shard : string;
  rqs_requested_action : TopologyActuationActionKind;
  rqs_requested_replica_delta : Z;
  rqs_state : TopologyActuationRequestActionState;
  rqs_current_status : option TopologyPoolStatus;
  rqs_current_action : option TopologyActuationActionKind;
  rqs_current_replica_delta : Z;
}.
Record TopologyActuationRequestStatusSummary := {
  rqm_request_present : bool;
  rqm_desired_present : bool;
  basis_topology_revision_matches_current : bool;
  rqm_basis_topology_revision : Z;
  rqm_current_topology_revision : Z;
  rqm_actions_total : Z;
  pending_actions : Z;
  satisfied_actions : Z;
  superseded_actions : Z;
}.
Record TopologyActuationRequestStatus := {
  rqst_summary : TopologyActuationRequestStatusSummary;
  rqst_actions : list TopologyActuationRequestActionStatus;
}.

(** ** Executions *)
Record TopologyActuationExecutionAction := {
  ex_world_id : string;
  ex_shard : string;
  ex_action : TopologyActuationActionKind;
  ex_replica_delta : Z;
}.
Inductive TopologyActuationExecutionActionState := esClaimed | esCompleted | esFailed.
#[global] Instance ExecutionActionState_eq_dec : EqDecision TopologyActuationExecutionActionState.
Proof. solve_decision. Defined.
Definition topology_actuation_execution_action_state_name
    (state : TopologyActuationExecutionActionState) : string :=
  match state with
  | esClaimed => "claimed"
  | esCompleted => "completed"
  | esFailed => "failed"
  end.
Definition parse_topology_actuation_execution_action_state (name : string)
    : option TopologyActuationExecutionActionState :=
  if bool_decide (name = "claimed") then Some esClaimed
  else if bool_decide (name = "completed") then Some esCompleted
  else if bool_decide (name = "failed") then Some esFailed
  else None.
Record TopologyActuationExecutionItem := {
  it_action : TopologyActuationExecutionAction;
  it_observed_instances_before : Z;
  it_ready_instances_before : Z;
  it_state : TopologyActuationExecutionActionState;
}.
Record TopologyActuationExecutionDocument := {
  exd_executor_id : string;
  exd_revision : Z;
  exd_updated_at_ms : Z;
  exd_request_revision : Z;
  exd_actions : list TopologyActuationExecutionItem;
}.
Inductive TopologyActuationExecutionStatusState :=
  xsAvailable | xsClaimed | xsCompleted | xsFailed | xsStale.
#[global] Instance ExecutionStatusState_eq_dec : EqDecision TopologyActuationExecutionStatusState.
Proof. solve_decision. Defined.
Definition topology_actuation_execution_status_state_name
    (state : TopologyActuationExecutionStatusState) : string :=
  match state with
  | xsAvailable => "available"
  | xsClaimed => "claimed"
  | xsCompleted => "completed"
  | xsFailed => "failed"
  | xsStale => "stale"
  end.
Record TopologyActuationExecutionActionStatus := {
  xs_world_id : string;
  xs_shard : string;
  xs_requested_action : TopologyActuationActionKind;
  xs_requested_replica_delta : Z;
  xs_state : TopologyActuationExecutionStatusState;
  xs_request_state : option TopologyActuationRequestActionState;
  xs_execution_state : option TopologyActuationExecutionActionState;
}.
Record TopologyActuationExecutionStatusSummary := {
  xm_request_present : bool;
  xm_execution_present : bool;
  execution_revision_matches_current_request : bool;
  xm_execution_request_revision : Z;
  xm_current_request_revision : Z;
  xm_actions_total : Z;
  xm_available_actions : Z;
  xm_claimed_actions : Z;
  xm_completed_actions : Z;
  xm_failed_actions : Z;
  xm_stale_actions : Z;
}.
Record TopologyActuationExecutionStatus := {
  xst_summary : TopologyActuationExecutionStatusSummary;
  xst_actions : list TopologyActuationExecutionActionStatus;
}.

(** ** Realization *)
Inductive TopologyActuationRealizationState :=
  zsAvailable | zsClaimed | zsAwaitingObservation | zsRealized | zsFailed | zsStale.
#[global] Instance RealizationState_eq_dec : EqDecision TopologyActuationRealizationState.
Proof. solve_decision. Defined.
Definition topology_actuation_realization_state_name
    (state : TopologyActuationRealizationState) : string :=
  match state with
  | zsAvailable => "available"
  | zsClaimed => "claimed"
  | zsAwaitingObservation => "awaiting_observation"
  | zsRealized => "realized"
  | zsFailed => "failed"
  | zsStale => "stale"
  end.
Record TopologyActuationRealizationActionStatus := {
  zs_world_id : string;
  zs_shard : string;
  zs_requested_action : TopologyActuationActionKind;
  zs_requested_replica_delta : Z;
  zs_state : TopologyActuationRealizationState;
  zs_request_state : option TopologyActuationRequestActionState;
  zs_execution_state : option TopologyActuationExecutionActionState;
  zs_observed_instances_before : Z;
  zs_ready_instances_before : Z;
  zs_current_observed_instances : Z;
  zs_current_ready_instances : Z;
}.
Record TopologyActuationRealizationStatusSummary := {
  zm_request_present : bool;
  zm_execution_present : bool;
  zm_execution_revision_matches_current_request : bool;
  zm_execution_request_revision : Z;
  zm_current_request_revision : Z;
  zm_actions_total : Z;
  zm_available_actions : Z;
  zm_claimed_actions : Z;
  zm_awaiting_observation_actions : Z;
  zm_realized_actions : Z;
  zm_failed_actions : Z;
  zm_stale_actions : Z;
}.
Record TopologyActuationRealizationStatus := {
  zst_summary : TopologyActuationRealizationStatusSummary;
  zst_actions : list TopologyActuationRealizationActionStatus;
}.

(** ** Leases *)
Record TopologyActuationAdapterLeaseAction := {
  la_world_id : string;
  la_shard : string;
  la_action : TopologyActuationActionKind;
  la_replica_delta : Z;
}.
Record TopologyActuationAdapterLeaseDocument := {
  ld_adapter_id : string;
  ld_revision : Z;
  ld_leased_at_ms : Z;
  ld_execution_revision : Z;
  ld_actions : list TopologyActuationAdapterLeaseAction;
}.
Inductive TopologyActuationAdapterStatusState :=
  dsAvailable | dsLeased | dsAwaitingRealization | dsRealized | dsFailed | dsStale.
#[global] Instance AdapterStatusState_eq_dec : EqDecision TopologyActuationAdapterStatusState.
Proof. solve_decision. Defined.
Definition topology_actuation_adapter_status_state_name
    (state : TopologyActuationAdapterStatusState) : string :=
  match state with
  | dsAvailable => "available"
  | dsLeased => "leased"
  | dsAwaitingRealization => "awaiting_realization"
  | dsRealized => "realized"
  | dsFailed => "failed"
  | dsStale => "stale"
  end.
Record TopologyActuationAdapterStatusAction := {
  da_world_id : string;
  da_shard : string;
  da_requested_action : TopologyActuationActionKind;
  da_requested_replica_delta : Z;
  da_state : TopologyActuationAdapterStatusState;
  da_execution_state : option TopologyActuationExecutionStatusState;
  da_realization_state : option TopologyActuationRealizationState;
}.
Record TopologyActuationAdapterStatusSummary := {
  dm_execution_present : bool;
  dm_lease_present : bool;
  lease_revision_matches_current_execution : bool;
  dm_lease_execution_revision : Z;
  dm_current_execution_revision : Z;
  dm_actions_total : Z;
  dm_available_actions : Z;
  dm_leased_actions : Z;
  dm_awaiting_realization_actions : Z;
  dm_realized_actions : Z;
  dm_failed_actions : Z;
  dm_stale_actions : Z;
}.
Record TopologyActuationAdapterStatus := {
  dst_summary : TopologyActuationAdapterStatusSummary;
  dst_actions : list TopologyActuationAdapterStatusAction;
}.

(** ** Runtime assignments *)
Record TopologyActuationRuntimeAssignmentItem := {
  asg_instance_id : string;
  asg_world_id : string;
  asg_shard : string;
  asg_action : TopologyActuationActionKind;
}.
Record TopologyActuationRuntimeAssignmentDocument := {
  asd_adapter_id : string;
  asd_revision : Z;
  asd_updated_at_ms : Z;
  asd_lease_revision : Z;
  asd_assignments : list TopologyActuationRuntimeAssignmentItem;
}.
Definition find_topology_actuation_runtime_assignment
    (document : TopologyActuationRuntimeAssignmentDocument) (instance_id : string)
    : option TopologyActuationRuntimeAssignmentItem :=
  snd <$> list_find (λ a, asg_instance_id a = instance_id) (asd_assignments document).

Definition action_key (a : TopologyActuationAction) : string := make_pool_key (aa_world_id a) (aa_shard a).
Definition request_key (a : TopologyActuationRequestAction) : string := make_pool_key (rq_world_id a) (rq_shard a).
Definition request_status_key (a : TopologyActuationRequestActionStatus) : string :=
  make_pool_key (rqs_world_id a) (rqs_shard a).
Definition item_key (i : TopologyActuationExecutionItem) : string :=
  make_pool_key (ex_world_id (it_action i)) (ex_shard (it_action i)).
Definition execution_status_key (a : TopologyActuationExecutionActionStatus) : string :=
  make_pool_key (xs_world_id a) (xs_shard a).
Definition realization_status_key (a : TopologyActuationRealizationActionStatus) : string :=
  make_pool_key (zs_world_id a) (zs_shard a).
Definition lease_key (a : TopologyActuationAdapterLeaseAction) : string := make_pool_key (la_world_id a) (la_shard a).

(** ** [evaluate_topology_actuation_request_status] *)
Definition request_action_status (plan_index : gmap string TopologyActuationAction)
    (requested_action : TopologyActuationRequestAction) : TopologyActuationRequestActionStatus :=
  let mk state st act delta :=
    {| rqs_world_id := rq_world_id requested_action; rqs_shard := rq_shard requested_action;
       rqs_requested_action := rq_action requested_action;
       rqs_requested_replica_delta := rq_replica_delta requested_action;
       rqs_state := state; rqs_current_status := st; rqs_current_action := act;
       rqs_current_replica_delta := delta |} in
  match plan_index !! request_key requested_action with
  | None => mk rsSatisfied None None 0
  | Some it =>
      mk (if aa_actionable it
             && bool_decide (aa_action it = rq_action requested_action)
             && (aa_replica_delta it =? rq_replica_delta requested_action)
          then rsPending else rsSuperseded)
         (Some (aa_status it)) (Some (aa_action it)) (aa_replica_delta it)
  end.
Definition count_request (s : TopologyActuationRequestStatusSummary)
    (a : TopologyActuationRequestActionStatus) : TopologyActuationRequestStatusSummary :=
  let has st := bool_decide (rqs_state a = st) in
  {| rqm_request_present := rqm_request_present s;
     rqm_desired_present := rqm_desired_present s;
     basis_topology_revision_matches_current := basis_topology_revision_matches_current s;
     rqm_basis_topology_revision := rqm_basis_topology_revision s;
     rqm_current_topology_revision := rqm_current_topology_revision s;
     rqm_actions_total := rqm_actions_total s;
     pending_actions := bump_if (has rsPending) (pending_actions s);
     satisfied_actions := bump_if (has rsSatisfied) (satisfied_actions s);
     superseded_actions := bump_if (has rsSuperseded) (superseded_actions s) |}.

Definition evaluate_topology_actuation_request_status `{!MapIteration string}
    (request_document : option TopologyActuationRequestDocument)
    (desired_topology : option DesiredTopologyDocument)
    (observed_pools : list ObservedTopologyPool) : TopologyActuationRequestStatus :=
  let summary matches basis total :=
    {| rqm_request_present := bool_decide (is_Some request_document);
       rqm_desired_present := bool_decide (is_Some desired_topology);
       basis_topology_revision_matches_current := matches;
       rqm_basis_topology_revision := basis;
       rqm_current_topology_revision :=
         match desired_topology with Some doc => dt_revision doc | None => 0 end;
       rqm_actions_total := total;
       pending_actions := 0; satisfied_actions := 0; superseded_actions := 0 |} in
  match request_document with
  | None => {| rqst_summary := summary false 0 0; rqst_actions := [] |}
  | Some request =>
      let matches := match desired_topology with
                     | Some doc => dt_revision doc =? rqd_basis_topology_revision request
                     | None => false
                     end in
      let current_plan := plan_topology_actuation desired_topology observed_pools in
      let plan_index := index_by action_key (plan_actions current_plan) in
      let '(s, actions) :=
        emit_loop count_request (request_action_status plan_index)
          (summary matches (rqd_basis_topology_revision request)
             (u32 (Z.of_nat (length (rqd_actions request)))))
          (rqd_actions request) in
      {| rqst_summary := s; rqst_actions := actions |}
  end.

(** ** [evaluate_topology_actuation_execution_status] *)
Definition execution_action_status (has_execution revision_matches : bool)
    (execution_index : gmap string TopologyActuationExecutionItem)
    (request_action : TopologyActuationRequestActionStatus) : TopologyActuationExecutionActionStatus :=
  let execution_it := execution_index !! request_status_key request_action in
  let execution_matches_request :=
    match execution_it with
    | Some i => bool_decide (ex_action (it_action i) = rqs_requested_action request_action)
                && (ex_replica_delta (it_action i) =? rqs_requested_replica_delta request_action)
    | None => false
    end in
  let '(state, execution_state) :=
    match rqs_state request_action with
    | rsPending =>
        match execution_it with
        | None => (xsAvailable, None)
        | Some i =>
            if negb has_execution then (xsAvailable, None)
            else if negb revision_matches || negb execution_matches_request then (xsStale, Some (it_state i))
            else match it_state i with
                 | esClaimed => (xsClaimed, Some (it_state i))
                 | esFailed => (xsFailed, Some (it_state i))
                 | esCompleted => (xsStale, Some (it_state i))
                 end
        end
    | rsSatisfied =>
        match execution_it with
        | Some i =>
            if revision_matches && execution_matches_request && bool_decide (it_state i = esCompleted)
            then (xsCompleted, Some (it_state i))
            else (xsStale, Some (it_state i))
        | None => (xsStale, None)
        end
    | rsSuperseded => (xsStale, it_state <$> execution_it)
    end in
  {| xs_world_id := rqs_world_id request_action; xs_shard := rqs_shard request_action;
     xs_requested_action := rqs_requested_action request_action;
     xs_requested_replica_delta := rqs_requested_replica_delta request_action;
     xs_state := state; xs_request_state := Some (rqs_state request_action);
     xs_execution_state := execution_state |}.
Definition count_execution (s : TopologyActuationExecutionStatusSummary)
    (a : TopologyActuationExecutionActionStatus) : TopologyActuationExecutionStatusSummary :=
  let has st := bool_decide (xs_state a = st) in
  {| xm_request_present := xm_request_present s;
     xm_execution_present := xm_execution_present s;
     execution_revision_matches_current_request := execution_revision_matches_current_request s;
     xm_execution_request_revision := xm_execution_request_revision s;
     xm_current_request_revision := xm_current_request_revision s;
     xm_actions_total := xm_actions_total s;
     xm_available_actions := bump_if (has xsAvailable) (xm_available_actions s);
     xm_claimed_actions := bump_if (has xsClaimed) (xm_claimed_actions s);
     xm_completed_actions := bump_if (has xsCompleted) (xm_completed_actions s);
     xm_failed_actions := bump_if (has xsFailed) (xm_failed_actions s);
     xm_stale_actions := bump_if (has xsStale) (xm_stale_actions s) |}.

Definition execution_items (d : option TopologyActuationExecutionDocument)
    : list TopologyActuationExecutionItem :=
  match d with Some doc => exd_actions doc | None => [] end.
Definition request_revision_matches (execution_document : option TopologyActuationExecutionDocument)
    (request_document : option TopologyActuationRequestDocument) : bool :=
  match execution_document, request_document with
  | Some x, Some r => exd_request_revision x =? rqd_revision r
  | _, _ => false
  end.
Definition evaluate_topology_actuation_execution_status `{!MapIteration string}
    (execution_document : option TopologyActuationExecutionDocument)
    (request_document : option TopologyActuationRequestDocument)
    (desired_topology : option DesiredTopologyDocument)
    (observed_pools : list ObservedTopologyPool) : TopologyActuationExecutionStatus :=
  let revision_matches := request_revision_matches execution_document request_document in
  let request_status :=
    evaluate_topology_actuation_request_status request_document desired_topology observed_pools in
  let execution_index := index_by item_key (execution_items execution_document) in
  let summary :=
    {| xm_request_present := bool_decide (is_Some request_document);
       xm_execution_present := bool_decide (is_Some execution_document);
       execution_revision_matches_current_request := revision_matches;
       xm_execution_request_revision :=
         match execution_document with Some x => exd_request_revision x | None => 0 end;
       xm_current_request_revision :=
         match request_document with Some r => rqd_revision r | None => 0 end;
       xm_actions_total := u32 (Z.of_nat (length (rqst_actions request_status)));
       xm_available_actions := 0; xm_claimed_actions := 0; xm_completed_actions := 0;
       xm_failed_actions := 0; xm_stale_actions := 0 |} in
  let '(s, actions) :=
    emit_loop count_execution
      (execution_action_status (bool_decide (is_Some execution_document)) revision_matches execution_index)
      summary (rqst_actions request_status) in
  {| xst_summary := s; xst_actions := actions |}.

(** ** [evaluate_topology_actuation_realization_status] *)
(** The sums are on [std::uint32_t]; [delta] is [max(delta, 0)] cast to it. *)
Definition is_realized (kind : TopologyActuationActionKind) (delta observed_before ready_before
    observed_now ready_now : Z) : bool :=
  let d := u32 (Z.max delta 0) in
  match kind with
  | akScaleOutPool => observed_before +₃₂ d <=? observed_now
  | akScaleInPool => observed_now +₃₂ d <=? observed_before
  | akRestorePoolReadiness => (ready_before =? 0) && (0 <? ready_now)
  | akObserveUndeclaredPool => false
  end.
Definition realization_action_status (execution_index : gmap string TopologyActuationExecutionItem)
    (observed_index : gmap string ObservedTopologyPool)
    (execution_action : TopologyActuationExecutionActionStatus)
    : TopologyActuationRealizationActionStatus :=
  let key := execution_status_key execution_action in
  let '(observed_now, ready_now) :=
    match observed_index !! key with
    | Some p => (op_instances p, op_ready_instances p)
    | None => (0, 0)
    end in
  let '(observed_before, ready_before) :=
    match execution_index !! key with
    | Some i => (it_observed_instances_before i, it_ready_instances_before i)
    | None => (0, 0)
    end in
  {| zs_world_id := xs_world_id execution_action; zs_shard := xs_shard execution_action;
     zs_requested_action := xs_requested_action execution_action;
     zs_requested_replica_delta := xs_requested_replica_delta execution_action;
     zs_state :=
       match xs_state execution_action with
       | xsAvailable => zsAvailable
       | xsClaimed => zsClaimed
       | xsFailed => zsFailed
       | xsStale => zsStale
       | xsCompleted =>
           if is_realized (xs_requested_action execution_action)
                (xs_requested_replica_delta execution_action)
                observed_before ready_before observed_now ready_now
           then zsRealized else zsAwaitingObservation
       end;
     zs_request_state := xs_request_state execution_action;
     zs_execution_state := xs_execution_state execution_action;
     zs_observed_instances_before := observed_before;
     zs_ready_instances_before := ready_before;
     zs_current_observed_instances := observed_now;
     zs_current_ready_instances := ready_now |}.
Definition count_realization (s : TopologyActuationRealizationStatusSummary)
    (a : TopologyActuationRealizationActionStatus) : TopologyActuationRealizationStatusSummary :=
  let has st := bool_decide (zs_state a = st) in
  {| zm_request_present := zm_request_present s;
     zm_execution_present := zm_execution_present s;
     zm_execution_revision_matches_current_request := zm_execution_revision_matches_current_request s;
     zm_execution_request_revision := zm_execution_request_revision s;
     zm_current_request_revision := zm_current_request_revision s;
     zm_actions_total := zm_actions_total s;
     zm_available_actions := bump_if (has zsAvailable) (zm_available_actions s);
     zm_claimed_actions := bump_if (has zsClaimed) (zm_claimed_actions s);
     zm_awaiting_observation_actions :=
       bump_if (has zsAwaitingObservation) (zm_awaiting_observation_actions s);
     zm_realized_actions := bump_if (has zsRealized) (zm_realized_actions s);
     zm_failed_actions := bump_if (has zsFailed) (zm_failed_actions s);
     zm_stale_actions := bump_if (has zsStale) (zm_stale_actions s) |}.

Definition evaluate_topology_actuation_realization_status `{!MapIteration string}
    (execution_document : option TopologyActuationExecutionDocument)
    (request_document : option TopologyActuationRequestDocument)
    (desired_topology : option DesiredTopologyDocument)
    (observed_pools : list ObservedTopologyPool) : TopologyActuationRealizationStatus :=
  let execution_status :=
    evaluate_topology_actuation_execution_status execution_document request_document
      desired_topology observed_pools in
  let xsum := xst_summary execution_status in
  let execution_index := index_by item_key (execution_items execution_document) in
  let observed_index := index_by observed_key observed_pools in
  let summary :=
    {| zm_request_present := xm_request_present xsum;
       zm_execution_present := xm_execution_present xsum;
       zm_execution_revision_matches_current_request := execution_revision_matches_current_request xsum;
       zm_execution_request_revision := xm_execution_request_revision xsum;
       zm_current_request_revision := xm_current_request_revision xsum;
       zm_actions_total := u32 (Z.of_nat (length (xst_actions execution_status)));
       zm_available_actions := 0; zm_claimed_actions := 0; zm_awaiting_observation_actions := 0;
       zm_realized_actions := 0; zm_failed_actions := 0; zm_stale_actions := 0 |} in
  let '(s, actions) :=
    emit_loop count_realization (realization_action_status execution_index observed_index)
      summary (xst_actions execution_status) in
  {| zst_summary := s; zst_actions := actions |}.

(** ** [evaluate_topology_actuation_adapter_status] *)
Definition adapter_action_status (lease_revision_matches : bool)
    (lease_index : gmap string TopologyActuationAdapterLeaseAction)
    (realization_index : gmap string TopologyActuationRealizationActionStatus)
    (action : TopologyActuationExecutionActionStatus) : TopologyActuationAdapterStatusAction :=
  let key := execution_status_key action in
  let lease_it := lease_index !! key in
  let leased := bool_decide (is_Some lease_it) in
  let lease_matches_action :=
    match lease_it with
    | Some l => bool_decide (la_action l = xs_requested_action action)
                && (la_replica_delta l =? xs_requested_replica_delta action)
    | None => false
    end in
  let realization_state := zs_state <$> realization_index !! key in
  let state :=
    if bool_decide (xs_state action = xsStale)
       || (leased && (negb lease_revision_matches || negb lease_matches_action)) then dsStale
    else if bool_decide (realization_state = Some zsRealized) then dsRealized
    else if bool_decide (realization_state = Some zsAwaitingObservation)
    then (if leased then dsAwaitingRealization else dsAvailable)
    else if bool_decide (xs_state action = xsFailed) then (if leased then dsFailed else dsAvailable)
    else if leased && lease_matches_action then dsLeased
    else dsAvailable in
  {| da_world_id := xs_world_id action; da_shard := xs_shard action;
     da_requested_action := xs_requested_action action;
     da_requested_replica_delta := xs_requested_replica_delta action;
     da_state := state; da_execution_state := Some (xs_state action);
     da_realization_state := realization_state |}.
Definition count_adapter (s : TopologyActuationAdapterStatusSummary)
    (a : TopologyActuationAdapterStatusAction) : TopologyActuationAdapterStatusSummary :=
  let has st := bool_decide (da_state a = st) in
  {| dm_execution_present := dm_execution_present s;
     dm_lease_present := dm_lease_present s;
     lease_revision_matches_current_execution := lease_revision_matches_current_execution s;
     dm_lease_execution_revision := dm_lease_execution_revision s;
     dm_current_execution_revision := dm_current_execution_revision s;
     dm_actions_total := dm_actions_total s;
     dm_available_actions := bump_if (has dsAvailable) (dm_available_actions s);
     dm_leased_actions := bump_if (has dsLeased) (dm_leased_actions s);
     dm_awaiting_realization_actions :=
       bump_if (has dsAwaitingRealization) (dm_awaiting_realization_actions s);
     dm_realized_actions := bump_if (has dsRealized) (dm_realized_actions s);
     dm_failed_actions := bump_if (has dsFailed) (dm_failed_actions s);
     dm_stale_actions := bump_if (has dsStale) (dm_stale_actions s) |}.

Definition lease_actions (d : option TopologyActuationAdapterLeaseDocument)
    : list TopologyActuationAdapterLeaseAction :=
  match d with Some doc => ld_actions doc | None => [] end.
Definition execution_revision_matches (lease_document : option TopologyActuationAdapterLeaseDocument)
    (execution_document : option TopologyActuationExecutionDocument) : bool :=
  match lease_document, execution_document with
  | Some l, Some x => ld_execution_revision l =? exd_revision x
  | _, _ => false
  end.
Definition evaluate_topology_actuation_adapter_status `{!MapIteration string}
    (lease_document : option TopologyActuationAdapterLeaseDocument)
    (execution_document : option TopologyActuationExecutionDocument)
    (request_document : option TopologyActuationRequestDocument)
    (desired_topology : option DesiredTopologyDocument)
    (observed_pools : list ObservedTopologyPool) : TopologyActuationAdapterStatus :=
  let revision_matches := execution_revision_matches lease_document execution_document in
  let execution_status :=
    evaluate_topology_actuation_execution_status execution_document request_document
      desired_topology observed_pools in
  let realization_status :=
    evaluate_topology_actuation_realization_status execution_document request_document
      desired_topology observed_pools in
  let lease_index := index_by lease_key (lease_actions lease_document) in
  let realization_index := index_by realization_status_key (zst_actions realization_status) in
  let summary :=
    {| dm_execution_present := bool_decide (is_Some execution_document);
       dm_lease_present := bool_decide (is_Some lease_document);
       lease_revision_matches_current_execution := revision_matches;
       dm_lease_execution_revision :=
         match lease_document with Some l => ld_execution_revision l | None => 0 end;
       dm_current_execution_revision :=
         match execution_document with Some x => exd_revision x | None => 0 end;
       dm_actions_total := u32 (Z.of_nat (length (xst_actions execution_status)));
       dm_available_actions := 0; dm_leased_actions := 0; dm_awaiting_realization_actions := 0;
       dm_realized_actions := 0; dm_failed_actions := 0; dm_stale_actions := 0 |} in
  let '(s, actions) :=
    emit_loop count_adapter (adapter_action_status revision_matches lease_index realization_index)
      summary (xst_actions execution_status) in
  {| dst_summary := s; dst_actions := actions |}.

(** ** Lemmas *)
Section Evaluation.
Context `{!MapIteration string}.
Implicit Types (l : option TopologyActuationAdapterLeaseDocument)
  (x : option TopologyActuationExecutionDocument) (r : option TopologyActuationRequestDocument)
  (t : option DesiredTopologyDocument) (obs : list ObservedTopologyPool).

Definition request_actions r : list TopologyActuationRequestAction :=
  match r with Some doc => rqd_actions doc | None => [] end.
Definition plan_index_of t obs : gmap string TopologyActuationAction :=
  index_by action_key (plan_actions (plan_topology_actuation t obs)).
Definition execution_index_of x : gmap string TopologyActuationExecutionItem :=
  index_by item_key (execution_items x).

(** Each evaluator maps one report over the actions of the previous stage. *)
Lemma request_status_actions r t obs :
  rqst_actions (evaluate_topology_actuation_request_status r t obs)
  = request_action_status (plan_index_of t obs) <$> request_actions r.
Proof.
  unfold evaluate_topology_actuation_request_status. destruct r as [doc|]; [|done].
  by rewrite emit_loop_eq.
Qed.
Lemma execution_status_actions x r t obs :
  xst_actions (evaluate_topology_actuation_execution_status x r t obs)
  = execution_action_status (bool_decide (is_Some x)) (request_revision_matches x r) (execution_index_of x)
    <$> rqst_actions (evaluate_topology_actuation_request_status r t obs).
Proof. unfold evaluate_topology_actuation_execution_status. by rewrite emit_loop_eq. Qed.
Lemma realization_status_actions x r t obs :
  zst_actions (evaluate_topology_actuation_realization_status x r t obs)
  = realization_action_status (execution_index_of x) (index_by observed_key obs)
    <$> xst_actions (evaluate_topology_actuation_execution_status x r t obs).
Proof. unfold evaluate_topology_actuation_realization_status. by rewrite emit_loop_eq. Qed.
Lemma adapter_status_actions l x r t obs :
  dst_actions (evaluate_topology_actuation_adapter_status l x r t obs)
  = adapter_action_status (execution_revision_matches l x) (index_by lease_key (lease_actions l))
      (index_by realization_status_key
         (zst_actions (evaluate_topology_actuation_realization_status x r t obs)))
    <$> xst_actions (evaluate_topology_actuation_execution_status x r t obs).
Proof. unfold evaluate_topology_actuation_adapter_status. by rewrite emit_loop_eq. Qed.

(** Reports keep the key of the action they report on. *)
Lemma request_action_status_key m q : request_status_key (request_action_status m q) = request_key q.
Proof. unfold request_action_status. by destruct (m !! request_key q). Qed.
Lemma execution_action_status_key b b' m q :
  execution_status_key (execution_action_status b b' m q) = request_status_key q.
Proof. unfold execution_action_status. by repeat case_match. Qed.
Lemma realization_action_status_key m m' q :
  realization_status_key (realization_action_status m m' q) = execution_status_key q.
Proof. unfold realization_action_status. by repeat case_match. Qed.

Lemma execution_keys x r t obs :
  execution_status_key <$> xst_actions (evaluate_topology_actuation_execution_status x r t obs)
  = request_key <$> request_actions r.
Proof.
  rewrite execution_status_actions, request_status_actions, <- !list_fmap_compose.
  apply list_fmap_ext. intros i q _. simpl.
  by rewrite execution_action_status_key, request_action_status_key.
Qed.

(** With distinct request keys, the realization found under an action's key is
    the realization of that action. *)
Lemma realization_index_lookup x r t obs a :
  NoDup (request_key <$> request_actions r) →
  a ∈ xst_actions (evaluate_topology_actuation_execution_status x r t obs) →
  index_by realization_status_key
    (zst_actions (evaluate_topology_actuation_realization_status x r t obs)) !! execution_status_key a
  = Some (realization_action_status (execution_index_of x) (index_by observed_key obs) a).
Proof.
  intros Hnd Ha. rewrite index_by_lookup, realization_status_actions.
  set (f := realization_action_status _ _).
  rewrite <- (realization_action_status_key (execution_index_of x) (index_by observed_key obs) a).
  apply (first_with_unique _ _ (f a)); [|by apply list_elem_of_fmap_2].
  rewrite <- list_fmap_compose, <- (execution_keys x r t obs) in *.
  erewrite list_fmap_ext; [exact Hnd|]. intros i q _. apply realization_action_status_key.
Qed.

(** What the verdicts about one action mean. *)
Lemma execution_completed b b' m q :
  xs_state (execution_action_status b b' m q) = xsCompleted →
  rqs_state q = rsSatisfied ∧ b' = true ∧ ∃ i, m !! request_status_key q = Some i
    ∧ it_state i = esCompleted ∧ ex_action (it_action i) = rqs_requested_action q
    ∧ ex_replica_delta (it_action i) = rqs_requested_replica_delta q.
Proof.
  unfold execution_action_status. destruct (rqs_state q); simpl; [| |done].
  - destruct (m !! _) as [i|]; [|done]. destruct (negb b); [done|].
    destruct (_ || _); [done|]. by destruct (it_state i).
  - destruct (m !! _) as [i|]; [|done]. destruct (_ && _ && _) eqn:Hb; [|done]. intros _.
    apply andb_true_iff in Hb as [[-> [Hb1 Hb2]%andb_true_iff]%andb_true_iff Hb3].
    apply bool_decide_eq_true in Hb1, Hb3. apply Z.eqb_eq in Hb2. eauto 10.
Qed.
Lemma execution_claimed b b' m q :
  xs_state (execution_action_status b b' m q) = xsClaimed →
  rqs_state q = rsPending ∧ b' = true ∧ ∃ i, m !! request_status_key q = Some i
    ∧ it_state i = esClaimed ∧ ex_action (it_action i) = rqs_requested_action q
    ∧ ex_replica_delta (it_action i) = rqs_requested_replica_delta q.
Proof.
  unfold execution_action_status. destruct (rqs_state q); simpl; [| |done].
  - destruct (m !! _) as [i|]; [|done]. destruct (negb b); [done|].
    destruct (_ || _) eqn:Hb; [done|]. destruct (it_state i) eqn:Hs; try done. intros _.
    apply orb_false_iff in Hb as [Hb1 Hb2]. apply negb_false_iff in Hb1, Hb2.
    apply andb_true_iff in Hb2 as [Hb2 Hb3]. apply bool_decide_eq_true in Hb2.
    apply Z.eqb_eq in Hb3. eauto 10.
  - destruct (m !! _) as [i|]; [|done]. by destruct (_ && _ && _).
Qed.
Lemma realization_realized m m' a :
  zs_state (realization_action_status m m' a) = zsRealized →
  xs_state a = xsCompleted ∧
  is_realized (xs_requested_action a) (xs_requested_replica_delta a)
    (from_option it_observed_instances_before 0 (m !! execution_status_key a))
    (from_option it_ready_instances_before 0 (m !! execution_status_key a))
    (from_option op_instances 0 (m' !! execution_status_key a))
    (from_option op_ready_instances 0 (m' !! execution_status_key a)) = true.
Proof.
  unfold realization_action_status. destruct (m' !! _), (m !! _); simpl;
    destruct (xs_state a); try done; by case_match.
Qed.
Lemma adapter_not_stale b m m' a :
  da_state (adapter_action_status b m m' a) ≠ dsStale →
  xs_state a ≠ xsStale ∧
  ∀ k, m !! execution_status_key a = Some k →
    b = true ∧ la_action k = xs_requested_action a ∧ la_replica_delta k = xs_requested_replica_delta a.
Proof.
  unfold adapter_action_status. simpl. destruct (_ || _) eqn:Hb; [done|]. intros _.
  apply orb_false_iff in Hb as [Hs Hl]. apply bool_decide_eq_false in Hs. split; [done|].
  intros k Hk. rewrite Hk in Hl. rewrite bool_decide_eq_true_2 in Hl by eauto. simpl in Hl.
  apply orb_false_iff in Hl as [H1 H2]. apply negb_false_iff in H1, H2.
  apply andb_true_iff in H2 as [H2 H3]. apply bool_decide_eq_true in H2. apply Z.eqb_eq in H3. done.
Qed.
Lemma adapter_realized b m m' a :
  da_state (adapter_action_status b m m' a) = dsRealized → zs_state <$> m' !! execution_status_key a = Some zsRealized.
Proof.
  unfold adapter_action_status. simpl. destruct (_ || _); [done|].
  case_bool_decide; [done|]. by repeat case_match.
Qed.
Lemma adapter_leased b m m' a :
  da_state (adapter_action_status b m m' a) ∈ [dsLeased; dsAwaitingRealization; dsFailed] →
  is_Some (m !! execution_status_key a).
Proof.
  unfold adapter_action_status. simpl. destruct (_ || _); [set_solver|].
  destruct (bool_decide (is_Some (m !! execution_status_key a))) eqn:Hb.
  { by apply bool_decide_eq_true in Hb. }
  simpl. repeat case_match; set_solver.
Qed.
End Evaluation.

(** Splitting a list by state loses nothing. *)
Lemma adapter_states_partition (as_ : list TopologyActuationAdapterStatusAction) :
  let n st := Z.of_nat (length (filter (λ a, da_state a = st) as_)) in
  n dsAvailable + n dsLeased + n dsAwaitingRealization + n dsRealized + n dsFailed + n dsStale
  = Z.of_nat (length as_).
Proof.
  induction as_ as [|a as_ IH]; [done|]. cbv beta zeta in *. rewrite !filter_cons. cbn [length].
  destruct (da_state a) eqn:E; repeat case_decide; try congruence; cbn [length]; lia.
Qed.

(** ** Properties *)

(** How a request is judged against the current plan.  For each requested
    action, in order: it is satisfied when the plan has nothing for its pool,
    pending when the first planned action for the pool is actionable and is the
    requested one with the same delta, and superseded otherwise. *)
Theorem request_status_exact `{!MapIteration string} (r : TopologyActuationRequestDocument)
  (t : option DesiredTopologyDocument) (obs : list ObservedTopologyPool) :
  let plan := plan_actions (plan_topology_actuation t obs) in
  Forall2 (λ q s,
    rqs_world_id s = rq_world_id q ∧ rqs_shard s = rq_shard q
    ∧ rqs_requested_action s = rq_action q ∧ rqs_requested_replica_delta s = rq_replica_delta q
    ∧ (rqs_state s = rsSatisfied ↔ ∀ a, a ∈ plan → action_key a ≠ request_key q)
    ∧ (rqs_state s = rsPending ↔ ∃ a, first_with action_key (request_key q) plan = Some a
         ∧ aa_actionable a = true ∧ aa_action a = rq_action q ∧ aa_replica_delta a = rq_replica_delta q))
    (rqd_actions r) (rqst_actions (evaluate_topology_actuation_request_status (Some r) t obs)).
Proof.
  cbv zeta. rewrite request_status_actions. cbn [request_actions].
  apply Forall2_fmap_r, Forall_Forall2_diag, Forall_forall. intros q _.
  unfold compose. cbv beta. unfold request_action_status, plan_index_of. rewrite index_by_lookup, <- first_with_none.
  destruct (first_with _ _ _) as [a|]; simpl; split_and!; try done; try naive_solver.
  - by case_match.
  - destruct (_ && _ && _) eqn:Hb.
    + apply andb_true_iff in Hb as [[H1 H2]%andb_true_iff H3].
      apply bool_decide_eq_true in H2. apply Z.eqb_eq in H3. naive_solver.
    + split; [done|]. intros (? & [= <-] & H1 & H2 & H3).
      by rewrite H1, bool_decide_eq_true_2, H3, Z.eqb_refl in Hb.
Qed.

(** C23: "realized" is earned end to end.  When the adapter view reports an action
    as realized, the request still contains it, the executor completed exactly
    that action under the current request revision, the current plan has
    nothing left to do for the pool, the observation shows the promised effect
    relative to the executor's baseline, and a lease on the pool, if any, is for
    this action under the current execution revision. *)
Theorem adapter_realized_sound `{!MapIteration string}
  (l : option TopologyActuationAdapterLeaseDocument) (x : option TopologyActuationExecutionDocument)
  (r : option TopologyActuationRequestDocument) (t : option DesiredTopologyDocument)
  (obs : list ObservedTopologyPool) (a : TopologyActuationAdapterStatusAction)
  (Hnd : NoDup (request_key <$> request_actions r))
  (Ha : a ∈ dst_actions (evaluate_topology_actuation_adapter_status l x r t obs))
  (Hst : da_state a = dsRealized) :
  let k := make_pool_key (da_world_id a) (da_shard a) in
  request_revision_matches x r = true
  ∧ (∃ q, q ∈ request_actions r ∧ request_key q = k ∧ rq_action q = da_requested_action a
       ∧ rq_replica_delta q = da_requested_replica_delta a)
  ∧ (∀ pa, pa ∈ plan_actions (plan_topology_actuation t obs) → action_key pa ≠ k)
  ∧ (∃ i, i ∈ execution_items x ∧ item_key i = k ∧ it_state i = esCompleted
       ∧ ex_action (it_action i) = da_requested_action a
       ∧ ex_replica_delta (it_action i) = da_requested_replica_delta a
       ∧ is_realized (da_requested_action a) (da_requested_replica_delta a)
           (it_observed_instances_before i) (it_ready_instances_before i)
           (from_option op_instances 0 (first_with observed_key k obs))
           (from_option op_ready_instances 0 (first_with observed_key k obs)) = true)
  ∧ (∀ la, first_with lease_key k (lease_actions l) = Some la →
       execution_revision_matches l x = true ∧ la_action la = da_requested_action a
       ∧ la_replica_delta la = da_requested_replica_delta a).
Proof.
  rewrite adapter_status_actions in Ha. apply list_elem_of_fmap in Ha as (xa & -> & Hxa).
  pose proof (adapter_realized _ _ _ _ Hst) as Hz. pose proof (adapter_not_stale _ _ _ _ ltac:(by rewrite Hst)) as [_ Hl].
  rewrite (realization_index_lookup x r t obs xa Hnd Hxa) in Hz. injection Hz as Hz.
  apply realization_realized in Hz as [Hc Hr].
  rewrite execution_status_actions, request_status_actions, <- list_fmap_compose in Hxa.
  apply list_elem_of_fmap in Hxa as (q & -> & Hq). simpl in Hc.
  apply execution_completed in Hc as (Hs & Hrev & i & Hi & Hi1 & Hi2 & Hi3).
  set (xa := (execution_action_status _ _ _ ∘ request_action_status _) q) in *.
  assert (Hkey : execution_status_key xa = request_key q).
  { unfold xa. simpl. by rewrite execution_action_status_key, request_action_status_key. }
  assert (Hx : xs_requested_action xa = rq_action q ∧ xs_requested_replica_delta xa = rq_replica_delta q
    ∧ rqs_requested_action (request_action_status (plan_index_of t obs) q) = rq_action q
    ∧ rqs_requested_replica_delta (request_action_status (plan_index_of t obs) q) = rq_replica_delta q).
  { unfold xa, execution_action_status, request_action_status. simpl. by repeat case_match. }
  destruct Hx as (Hx1 & Hx2 & Hx3 & Hx4).
  change (make_pool_key _ _) with (execution_status_key xa). cbn [da_requested_action da_requested_replica_delta adapter_action_status].
  rewrite request_action_status_key in Hi. rewrite Hx3 in Hi2. rewrite Hx4 in Hi3.
  rewrite (index_by_lookup observed_key) in Hr. rewrite Hx1, Hx2, Hkey in *. cbv zeta. split_and!.
  - done.
  - eauto.
  - apply first_with_none. unfold request_action_status, plan_index_of in Hs.
    rewrite index_by_lookup in Hs.
    destruct (first_with action_key (request_key q) _) as [pa|]; [|done]. simpl in Hs. by case_match.
  - rewrite Hi in Hr. simpl in Hr. unfold execution_index_of in Hi. rewrite index_by_lookup in Hi.
    apply first_with_some in Hi as [? ?]. eauto 10.
  - intros la Hla. apply (Hl la). by rewrite index_by_lookup.
Qed.

(** A scale-out of one instance, requested, completed and visible. *)
Definition demo_request : TopologyActuationRequestDocument :=
  {| rqd_request_id := "r"; rqd_revision := 9; rqd_requested_at_ms := 0;
     rqd_basis_topology_revision := 4;
     rqd_actions := [{| rq_world_id := "alpha"; rq_shard := "s0"; rq_action := akScaleOutPool;
                        rq_replica_delta := 1 |}] |}.
Definition demo_item (st : TopologyActuationExecutionActionState) : TopologyActuationExecutionItem :=
  {| it_action := {| ex_world_id := "alpha"; ex_shard := "s0"; ex_action := akScaleOutPool;
                     ex_replica_delta := 1 |};
     it_observed_instances_before := 2; it_ready_instances_before := 2; it_state := st |}.
Definition demo_execution (st : TopologyActuationExecutionActionState) : TopologyActuationExecutionDocument :=
  {| exd_executor_id := "x"; exd_revision := 5; exd_updated_at_ms := 0; exd_request_revision := 9;
     exd_actions := [demo_item st] |}.
Definition demo_lease : TopologyActuationAdapterLeaseDocument :=
  {| ld_adapter_id := "k8s"; ld_revision := 1; ld_leased_at_ms := 0; ld_execution_revision := 5;
     ld_actions := [{| la_world_id := "alpha"; la_shard := "s0"; la_action := akScaleOutPool;
                       la_replica_delta := 1 |}] |}.
Definition demo_scaled : list ObservedTopologyPool :=
  [{| op_world_id := "alpha"; op_shard := "s0"; op_instances := 3; op_ready_instances := 3 |}].
Definition demo_realized : TopologyActuationAdapterStatusAction :=
  {| da_world_id := "alpha"; da_shard := "s0"; da_requested_action := akScaleOutPool;
     da_requested_replica_delta := 1; da_state := dsRealized; da_execution_state := Some xsCompleted;
     da_realization_state := Some zsRealized |}.
Lemma demo_request_nodup : NoDup (request_key <$> request_actions (Some demo_request)).
Proof. repeat constructor. set_solver. Qed.
Lemma adapter_realized_sound_witness :
  dst_actions (evaluate_topology_actuation_adapter_status (Some demo_lease)
    (Some (demo_execution esCompleted)) (Some demo_request) (Some demo_desired) demo_scaled) = [demo_realized]
  ∧ request_revision_matches (Some (demo_execution esCompleted)) (Some demo_request) = true.
Proof.
  split; [vm_compute; reflexivity|].
  apply (adapter_realized_sound (Some demo_lease) (Some (demo_execution esCompleted)) (Some demo_request)
    (Some demo_desired) demo_scaled demo_realized demo_request_nodup); [|reflexivity].
  match goal with |- _ ∈ ?l => replace l with [demo_realized] by (vm_compute; reflexivity) end. left.
Defined.

(** Lease discipline.  An action is only shown as leased, awaiting
    realization or failed to an adapter whose lease was taken on the current
    execution revision and names exactly that action; the adapter view has one
    report per requested action, in order. *)
Theorem adapter_lease_discipline `{!MapIteration string}
  (l : option TopologyActuationAdapterLeaseDocument) (x : option TopologyActuationExecutionDocument)
  (r : option TopologyActuationRequestDocument) (t : option DesiredTopologyDocument)
  (obs : list ObservedTopologyPool) :
  (λ a, make_pool_key (da_world_id a) (da_shard a))
    <$> dst_actions (evaluate_topology_actuation_adapter_status l x r t obs)
    = request_key <$> request_actions r
  ∧ ∀ a, a ∈ dst_actions (evaluate_topology_actuation_adapter_status l x r t obs) →
      da_state a ∈ [dsLeased; dsAwaitingRealization; dsFailed] →
      execution_revision_matches l x = true ∧
      ∃ la, la ∈ lease_actions l ∧ lease_key la = make_pool_key (da_world_id a) (da_shard a)
        ∧ la_action la = da_requested_action a ∧ la_replica_delta la = da_requested_replica_delta a.
Proof.
  rewrite adapter_status_actions. split.
  - rewrite <- list_fmap_compose. apply execution_keys.
  - intros a Ha Hst. apply list_elem_of_fmap in Ha as (xa & -> & _).
    destruct (adapter_leased _ _ _ _ Hst) as [la Hla].
    assert (Hns : da_state (adapter_action_status (execution_revision_matches l x)
      (index_by lease_key (lease_actions l)) (index_by realization_status_key
        (zst_actions (evaluate_topology_actuation_realization_status x r t obs))) xa) ≠ dsStale).
    { intros Hs. rewrite Hs in Hst. set_solver. }
    apply adapter_not_stale in Hns as [_ Hl]. destruct (Hl _ Hla) as (? & ? & ?). split; [done|].
    rewrite index_by_lookup in Hla. apply first_with_some in Hla as [? ?]. exists la. done.
Qed.

(** Execution verdicts.  "Claimed" means the request is still pending and the
    executor holds exactly that action under the current request revision;
    "completed" means the same executor record is completed and the plan no
    longer asks for anything; everything else that has an outdated or different
    record is stale. *)
Theorem execution_status_sound `{!MapIteration string} (x : option TopologyActuationExecutionDocument)
  (r : option TopologyActuationRequestDocument) (t : option DesiredTopologyDocument)
  (obs : list ObservedTopologyPool) (a : TopologyActuationExecutionActionStatus)
  (Ha : a ∈ xst_actions (evaluate_topology_actuation_execution_status x r t obs))
  (Hst : xs_state a = xsClaimed ∨ xs_state a = xsCompleted) :
  request_revision_matches x r = true
  ∧ xs_request_state a = Some (if decide (xs_state a = xsClaimed) then rsPending else rsSatisfied)
  ∧ ∃ i, i ∈ execution_items x ∧ item_key i = execution_status_key a
      ∧ it_state i = (if decide (xs_state a = xsClaimed) then esClaimed else esCompleted)
      ∧ ex_action (it_action i) = xs_requested_action a
      ∧ ex_replica_delta (it_action i) = xs_requested_replica_delta a.
Proof.
  rewrite execution_status_actions in Ha. apply list_elem_of_fmap in Ha as (q & -> & _).
  set (E := execution_action_status _ _ _ q) in *.
  assert (Hf : xs_request_state E = Some (rqs_state q) ∧ xs_requested_action E = rqs_requested_action q
    ∧ xs_requested_replica_delta E = rqs_requested_replica_delta q).
  { unfold E, execution_action_status. by repeat case_match. }
  destruct Hf as (-> & -> & ->). unfold E. rewrite execution_action_status_key. fold E.
  destruct Hst as [Hst|Hst]; rewrite Hst.
  - apply execution_claimed in Hst as (-> & -> & i & Hi & ? & ? & ?). split_and!; [done..|].
    unfold execution_index_of in Hi. rewrite index_by_lookup in Hi.
    apply first_with_some in Hi as [? ?]. exists i. by split_and!.
  - apply execution_completed in Hst as (-> & -> & i & Hi & ? & ? & ?). split_and!; [done..|].
    unfold execution_index_of in Hi. rewrite index_by_lookup in Hi.
    apply first_with_some in Hi as [? ?]. exists i. by split_and!.
Qed.

Definition demo_two : list ObservedTopologyPool :=
  [{| op_world_id := "alpha"; op_shard := "s0"; op_instances := 2; op_ready_instances := 2 |}].
Definition demo_claimed : TopologyActuationExecutionActionStatus :=
  {| xs_world_id := "alpha"; xs_shard := "s0"; xs_requested_action := akScaleOutPool;
     xs_requested_replica_delta := 1; xs_state := xsClaimed; xs_request_state := Some rsPending;
     xs_execution_state := Some esClaimed |}.
Lemma execution_status_sound_witness :
  request_revision_matches (Some (demo_execution esClaimed)) (Some demo_request) = true.
Proof.
  apply (execution_status_sound (Some (demo_execution esClaimed)) (Some demo_request)
    (Some demo_desired) demo_two demo_claimed); [|left; reflexivity].
  match goal with |- _ ∈ ?l => replace l with [demo_claimed] by (vm_compute; reflexivity) end. left.
Defined.

(** The adapter summary adds up.  With fewer than 2^32 requested actions the
    six counters are the numbers of reports in each state and sum to
    [actions_total]. *)
Theorem adapter_counters_partition `{!MapIteration string}
  (l : option TopologyActuationAdapterLeaseDocument) (x : option TopologyActuationExecutionDocument)
  (r : option TopologyActuationRequestDocument) (t : option DesiredTopologyDocument)
  (obs : list ObservedTopologyPool)
  (Hlen : Z.of_nat (length (request_actions r)) < 2 ^ 32) :
  let st := evaluate_topology_actuation_adapter_status l x r t obs in
  let s := dst_summary st in
  dm_actions_total s = Z.of_nat (length (request_actions r))
  ∧ dm_realized_actions s = Z.of_nat (length (filter (λ a, da_state a = dsRealized) (dst_actions st)))
  ∧ dm_stale_actions s = Z.of_nat (length (filter (λ a, da_state a = dsStale) (dst_actions st)))
  ∧ dm_available_actions s + dm_leased_actions s + dm_awaiting_realization_actions s
    + dm_realized_actions s + dm_failed_actions s + dm_stale_actions s = dm_actions_total s.
Proof.
  unfold evaluate_topology_actuation_adapter_status. rewrite emit_loop_eq. cbn [dst_summary dst_actions].
  set (s0 := {| dm_execution_present := _ |}). set (xa := xst_actions _) in *.
  set (as_ := _ <$> xa).
  assert (Hxa : length xa = length (request_actions r)).
  { unfold xa. rewrite <- (length_fmap execution_status_key), execution_keys. apply length_fmap. }
  assert (Hl : length as_ = length (request_actions r)) by (unfold as_; by rewrite length_fmap).
  assert (Hc : ∀ (f : TopologyActuationAdapterStatusSummary → Z) st,
    (∀ s p, f (count_adapter s p) = bump_if (bool_decide (da_state p = st)) (f s)) → f s0 = 0 →
    f (foldl count_adapter s0 as_) = Z.of_nat (length (filter (λ a, da_state a = st) as_))).
  { intros f st Hst H0. rewrite (foldl_counter f _ (λ a, da_state a = st)); [|done|rewrite H0; mach].
    rewrite H0. pose proof (length_filter (λ a, da_state a = st) as_). rewrite u32_small; [lia|]. mach. }
  assert (Ht : dm_actions_total (foldl count_adapter s0 as_) = Z.of_nat (length (request_actions r))).
  { assert (Hk : ∀ l s, dm_actions_total (foldl count_adapter s l) = dm_actions_total s).
    { clear. intros l. induction l as [|a l IH]; intros s; [done|]. simpl. by rewrite IH. }
    rewrite Hk. simpl. rewrite Hxa. apply u32_small. mach. }
  cbv zeta. rewrite Ht, (Hc dm_available_actions dsAvailable), (Hc dm_leased_actions dsLeased),
    (Hc dm_awaiting_realization_actions dsAwaitingRealization), (Hc dm_realized_actions dsRealized),
    (Hc dm_failed_actions dsFailed), (Hc dm_stale_actions dsStale) by done.
  split_and!; [done..|]. rewrite <- Hl. apply adapter_states_partition.
Qed.
Lemma adapter_counters_partition_witness :
  dm_actions_total (dst_summary (evaluate_topology_actuation_adapter_status (Some demo_lease)
    (Some (demo_execution esCompleted)) (Some demo_request) (Some demo_desired) demo_scaled)) = 1.
Proof.
  apply (adapter_counters_partition (Some demo_lease) (Some (demo_execution esCompleted))
    (Some demo_request) (Some demo_desired) demo_scaled). reflexivity.
Defined.
