(* ===== verification/WorldDocuments.v ===== *)
(** * World control-plane documents

    Model of [core/include/server/core/state/world_lifecycle_policy.hpp] and of
    the envelope half of [core/include/server/core/worlds/migration.hpp]: the
    key=value texts stored in the registry, their parsers and printers. *)
From S2P Require Import Prelude Text.
From stdpp Require Import list strings.
Open Scope Z_scope.

(** ** World lifecycle policy *)
Record WorldLifecyclePolicy := {
  lp_draining : bool;
  lp_replacement_owner_instance_id : string;
}.
Definition reassignment_declared (p : WorldLifecyclePolicy) : bool :=
  negb (bool_decide (lp_replacement_owner_instance_id p = EmptyString)).
Definition policy_empty (p : WorldLifecyclePolicy) : bool :=
  negb (lp_draining p) && bool_decide (lp_replacement_owner_instance_id p = EmptyString).

(** The loop body on one line: the policy so far and [recognized]. *)
Definition policy_line (st : WorldLifecyclePolicy * bool) (line : string) : WorldLifecyclePolicy * bool :=
  let '(policy, recognized) := st in
  match key_value line with
  | Some (key, value) =>
      if bool_decide (key = "draining") then
        ({| lp_draining := parse_bool value;
            lp_replacement_owner_instance_id := lp_replacement_owner_instance_id policy |}, true)
      else if bool_decide (key = "replacement_owner_instance_id") then
        ({| lp_draining := lp_draining policy; lp_replacement_owner_instance_id := value |}, true)
      else st
  | None => st
  end.
Definition parse_world_lifecycle_policy (payload : string) : option WorldLifecyclePolicy :=
  if bool_decide (payload = EmptyString) then None
  else
    let '(policy, recognized) :=
      foldl policy_line
        ({| lp_draining := false; lp_replacement_owner_instance_id := EmptyString |}, false)
        (lines payload) in
    if recognized then Some policy else None.
(** [out << key << '=' << value << '\n'] *)
Definition kv_line (key value rest : string) : string :=
  (key +:+ String equals_sign value) +:+ String newline rest.
Definition serialize_world_lifecycle_policy (policy : WorldLifecyclePolicy) : string :=
  kv_line "draining" (print_bool (lp_draining policy))
    (kv_line "replacement_owner_instance_id" (lp_replacement_owner_instance_id policy) EmptyString).

(** ** World migration envelope *)
Record WorldMigrationEnvelope := {
  env_target_world_id : string;
  env_target_owner_instance_id : string;
  env_preserve_room : bool;
  env_payload_kind : string;
  env_payload_ref : string;
  env_updated_at_ms : Z;
}.
Definition empty_envelope : WorldMigrationEnvelope :=
  {| env_target_world_id := EmptyString; env_target_owner_instance_id := EmptyString;
     env_preserve_room := false; env_payload_kind := EmptyString;
     env_payload_ref := EmptyString; env_updated_at_ms := 0 |}.
(** The assignments of the loop body; [None] when the key is not recognised. *)
Definition set_envelope_field (e : WorldMigrationEnvelope) (key value : string)
    : option WorldMigrationEnvelope :=
  let mk w o r k f u :=
    Some {| env_target_world_id := w; env_target_owner_instance_id := o; env_preserve_room := r;
            env_payload_kind := k; env_payload_ref := f; env_updated_at_ms := u |} in
  let '(Build_WorldMigrationEnvelope w o r k f u) := e in
  if bool_decide (key = "target_world_id") then mk value o r k f u
  else if bool_decide (key = "target_owner_instance_id") then mk w value r k f u
  else if bool_decide (key = "preserve_room") then mk w o (parse_bool value) k f u
  else if bool_decide (key = "payload_kind") then mk w o r value f u
  else if bool_decide (key = "payload_ref") then mk w o r k value u
  else if bool_decide (key = "updated_at_ms") then
    mk w o r k f (if bool_decide (value = EmptyString) then u else strtoull value)
  else None.
Definition envelope_line (st : WorldMigrationEnvelope * bool) (line : string) : WorldMigrationEnvelope * bool :=
  match key_value line with
  | Some (key, value) =>
      match set_envelope_field st.1 key value with Some e => (e, true) | None => st end
  | None => st
  end.
Definition parse_world_migration_envelope (payload : string) : option WorldMigrationEnvelope :=
  if bool_decide (payload = EmptyString) then None
  else
    let '(envelope, recognized) := foldl envelope_line (empty_envelope, false) (lines payload) in
    if negb recognized || bool_decide (env_target_world_id envelope = EmptyString)
       || bool_decide (env_target_owner_instance_id envelope = EmptyString)
    then None else Some envelope.
Definition serialize_world_migration_envelope (e : WorldMigrationEnvelope) : string :=
  kv_line "target_world_id" (env_target_world_id e)
  (kv_line "target_owner_instance_id" (env_target_owner_instance_id e)
  (kv_line "preserve_room" (print_bool (env_preserve_room e))
  (kv_line "payload_kind" (env_payload_kind e)
  (kv_line "payload_ref" (env_payload_ref e)
  (kv_line "updated_at_ms" (print_u64 (env_updated_at_ms e)) EmptyString))))).

(** ** Lemmas *)
Lemma kv_line_nonempty k v rest : k ≠ EmptyString → kv_line k v rest ≠ EmptyString.
Proof. by destruct k. Qed.
Lemma lines_kv k v rest : has_char newline k = false → has_char newline v = false →
  lines (kv_line k v rest) = (k +:+ String equals_sign v) :: lines rest.
Proof.
  intros Hk Hv. unfold kv_line. rewrite lines_app; [done|].
  rewrite has_char_app, Hk. simpl. done.
Qed.

(** ** Properties *)

(** A lifecycle policy survives being stored and read back, for any
    replacement id that is one line without outer spaces. *)
Theorem lifecycle_policy_roundtrip (p : WorldLifecyclePolicy)
  (Hp : plain (lp_replacement_owner_instance_id p)) :
  parse_world_lifecycle_policy (serialize_world_lifecycle_policy p) = Some p.
Proof.
  unfold parse_world_lifecycle_policy, serialize_world_lifecycle_policy.
  rewrite bool_decide_eq_false_2 by by apply kv_line_nonempty.
  rewrite !lines_kv by (apply plain_print_bool || apply Hp || done).
  cbn [foldl lines]. unfold policy_line.
  rewrite !key_value_line by (apply plain_print_bool || apply Hp || done). simpl.
  rewrite parse_print_bool. by destruct p.
Qed.
Lemma lifecycle_policy_roundtrip_witness :
  let p := {| lp_draining := true; lp_replacement_owner_instance_id := "server-2" |} in
  parse_world_lifecycle_policy (serialize_world_lifecycle_policy p) = Some p.
Proof. apply lifecycle_policy_roundtrip. vm_compute. split; reflexivity. Defined.

(** A migration envelope the control plane accepts. *)
Definition envelope_ok (e : WorldMigrationEnvelope) : Prop :=
  plain (env_target_world_id e) ∧ env_target_world_id e ≠ EmptyString
  ∧ plain (env_target_owner_instance_id e) ∧ env_target_owner_instance_id e ≠ EmptyString
  ∧ plain (env_payload_kind e) ∧ plain (env_payload_ref e) ∧ is_u64 (env_updated_at_ms e).

(** A migration envelope survives being stored and read back: every field,
    including the 64-bit timestamp, for single-line values without outer spaces
    and non-empty targets. *)
Theorem migration_envelope_roundtrip (e : WorldMigrationEnvelope) (He : envelope_ok e) :
  parse_world_migration_envelope (serialize_world_migration_envelope e) = Some e.
Proof.
  destruct He as (Hw & Hwn & Ho & Hon & Hk & Hr & Hu).
  assert (Hpu : plain (print_u64 (env_updated_at_ms e))) by (apply plain_print_u64, Hu).
  assert (Hpb := plain_print_bool (env_preserve_room e)).
  unfold parse_world_migration_envelope, serialize_world_migration_envelope.
  rewrite bool_decide_eq_false_2 by by apply kv_line_nonempty.
  rewrite !lines_kv by (apply Hw || apply Ho || apply Hk || apply Hr || apply Hpu || apply Hpb || done).
  cbn [foldl lines]. unfold envelope_line.
  rewrite !key_value_line by (apply Hw || apply Ho || apply Hk || apply Hr || apply Hpu || apply Hpb || done).
  destruct e as [w o r k f u]; simpl in *.
  rewrite parse_print_bool, strtoull_print by done.
  rewrite (bool_decide_eq_false_2 (print_u64 u = EmptyString)) by apply print_u64_nonempty.
  simpl. by rewrite !bool_decide_eq_false_2.
Qed.
Lemma migration_envelope_roundtrip_witness :
  let e := {| env_target_world_id := "beta"; env_target_owner_instance_id := "server-9";
              env_preserve_room := true; env_payload_kind := "room"; env_payload_ref := "k=v";
              env_updated_at_ms := 1760000000123 |} in
  parse_world_migration_envelope (serialize_world_migration_envelope e) = Some e.
Proof.
  apply migration_envelope_roundtrip. unfold envelope_ok, plain.
  split_and!; first [reflexivity | discriminate | unfold in_u; simpl; lia].
Defined.
