(* ===== verification/WorldHandover.v ===== *)
(** * World drain, owner transfer and migration

    Model of [core/include/server/core/worlds/world_transfer.hpp], the status
    half of [migration.hpp] and [world_drain.hpp]: the phases of handing a world
    over, and the orchestration that decides when its drain policy may be
    cleared. *)
From S2P Require Import Prelude Containers WorldDocuments.
From stdpp Require Import list strings sets gmap.
Open Scope Z_scope.

(** ** Owner transfer *)
Record ObservedWorldTransferInstance := { ti_instance_id : string; ti_ready : bool }.
Record ObservedWorldTransferState := {
  ts_world_id : string;
  ts_owner_instance_id : string;
  ts_draining : bool;
  ts_replacement_owner_instance_id : string;
  ts_instances : list ObservedWorldTransferInstance;
}.
Inductive WorldTransferPhase :=
  tpIdle | tpTargetMissing | tpTargetNotReady | tpOwnerMissing
  | tpAwaitingOwnerHandoff | tpOwnerHandoffCommitted.
#[global] Instance WorldTransferPhase_eq_dec : EqDecision WorldTransferPhase.
Proof. solve_decision. Defined.
Definition world_transfer_phase_name (phase : WorldTransferPhase) : string :=
  match phase with
  | tpIdle => "idle"
  | tpTargetMissing => "target_missing"
  | tpTargetNotReady => "target_not_ready"
  | tpOwnerMissing => "owner_missing"
  | tpAwaitingOwnerHandoff => "awaiting_owner_handoff"
  | tpOwnerHandoffCommitted => "owner_handoff_committed"
  end.
Record WorldTransferSummary := {
  tm_transfer_declared : bool;
  tm_draining : bool;
  tm_owner_present : bool;
  tm_target_present : bool;
  tm_target_ready : bool;
  tm_owner_matches_target : bool;
  tm_instances_total : Z;
  tm_ready_instances : Z;
}.
Record WorldTransferStatus := {
  tst_world_id : string;
  tst_owner_instance_id : string;
  tst_target_owner_instance_id : string;
  tst_phase : WorldTransferPhase;
  tst_summary : WorldTransferSummary;
}.
Abbreviation nonempty s := (negb (bool_decide (s = EmptyString))).

(** The loop over the instances: ready count, target present, target ready. *)
Definition transfer_step (target : string) (acc : Z * bool * bool)
    (i : ObservedWorldTransferInstance) : Z * bool * bool :=
  let '(ready, present, tready) := acc in
  let ready := bump_if (ti_ready i) ready in
  if bool_decide (ti_instance_id i = target) then (ready, true, ti_ready i)
  else (ready, present, tready).
Definition transfer_scan (target : string) (instances : list ObservedWorldTransferInstance)
    : Z * bool * bool :=
  foldl (transfer_step target) (0, false, false) instances.
Definition evaluate_world_transfer (state : ObservedWorldTransferState) : WorldTransferStatus :=
  let target := ts_replacement_owner_instance_id state in
  let owner := ts_owner_instance_id state in
  let declared := ts_draining state && nonempty target in
  let owner_present := nonempty owner in
  let '(ready, target_present, target_ready) := transfer_scan target (ts_instances state) in
  let owner_matches := owner_present && nonempty target && bool_decide (owner = target) in
  {| tst_world_id := ts_world_id state; tst_owner_instance_id := owner;
     tst_target_owner_instance_id := target;
     tst_phase :=
       if negb declared then tpIdle
       else if negb target_present then tpTargetMissing
       else if negb target_ready then tpTargetNotReady
       else if negb owner_present then tpOwnerMissing
       else if owner_matches then tpOwnerHandoffCommitted
       else tpAwaitingOwnerHandoff;
     tst_summary :=
       {| tm_transfer_declared := declared; tm_draining := ts_draining state;
          tm_owner_present := owner_present; tm_target_present := target_present;
          tm_target_ready := target_ready; tm_owner_matches_target := owner_matches;
          tm_instances_total := u32 (Z.of_nat (length (ts_instances state)));
          tm_ready_instances := ready |} |}.

(** ** Migration status *)
Record ObservedWorldMigrationInstance := { mi_instance_id : string; mi_ready : bool }.
Record ObservedWorldMigrationWorld := {
  mw_world_id : string;
  mw_current_owner_instance_id : string;
  mw_draining : bool;
  mw_instances : list ObservedWorldMigrationInstance;
}.
Inductive WorldMigrationPhase :=
  mpIdle | mpTargetWorldMissing | mpTargetOwnerMissing | mpTargetOwnerNotReady
  | mpAwaitingSourceDrain | mpReadyToResume.
#[global] Instance WorldMigrationPhase_eq_dec : EqDecision WorldMigrationPhase.
Proof. solve_decision. Defined.
Definition world_migration_phase_name (phase : WorldMigrationPhase) : string :=
  match phase with
  | mpIdle => "idle"
  | mpTargetWorldMissing => "target_world_missing"
  | mpTargetOwnerMissing => "target_owner_missing"
  | mpTargetOwnerNotReady => "target_owner_not_ready"
  | mpAwaitingSourceDrain => "awaiting_source_drain"
  | mpReadyToResume => "ready_to_resume"
  end.
Record WorldMigrationSummary := {
  mm_envelope_present : bool;
  mm_source_draining : bool;
  mm_target_world_present : bool;
  mm_target_owner_present : bool;
  mm_target_owner_ready : bool;
  mm_target_owner_matches_target_world_owner : bool;
  mm_preserve_room : bool;
}.
Record WorldMigrationStatus := {
  mst_source_world_id : string;
  mst_target_world_id : string;
  mst_target_owner_instance_id : string;
  mst_payload_kind : string;
  mst_payload_ref : string;
  mst_phase : WorldMigrationPhase;
  mst_summary : WorldMigrationSummary;
}.
Definition evaluate_world_migration (source_world : ObservedWorldMigrationWorld)
    (envelope : option WorldMigrationEnvelope) (target_world : option ObservedWorldMigrationWorld)
    : WorldMigrationStatus :=
  let src := mw_draining source_world in
  match envelope with
  | None =>
      {| mst_source_world_id := mw_world_id source_world; mst_target_world_id := EmptyString;
         mst_target_owner_instance_id := EmptyString; mst_payload_kind := EmptyString;
         mst_payload_ref := EmptyString; mst_phase := mpIdle;
         mst_summary :=
           {| mm_envelope_present := false; mm_source_draining := src; mm_target_world_present := false;
              mm_target_owner_present := false; mm_target_owner_ready := false;
              mm_target_owner_matches_target_world_owner := false; mm_preserve_room := false |} |}
  | Some env =>
      let mk phase world_present owner_present owner_ready owner_matches :=
        {| mst_source_world_id := mw_world_id source_world;
           mst_target_world_id := env_target_world_id env;
           mst_target_owner_instance_id := env_target_owner_instance_id env;
           mst_payload_kind := env_payload_kind env; mst_payload_ref := env_payload_ref env;
           mst_phase := phase;
           mst_summary :=
             {| mm_envelope_present := true; mm_source_draining := src;
                mm_target_world_present := world_present; mm_target_owner_present := owner_present;
                mm_target_owner_ready := owner_ready;
                mm_target_owner_matches_target_world_owner := owner_matches;
                mm_preserve_room := env_preserve_room env |} |} in
      match target_world with
      | None => mk mpTargetWorldMissing false false false false
      | Some tw =>
          if bool_decide (mw_world_id tw = EmptyString) then mk mpTargetWorldMissing false false false false
          else
            let target := env_target_owner_instance_id env in
            let owner_matches := nonempty (mw_current_owner_instance_id tw)
                                 && bool_decide (mw_current_owner_instance_id tw = target) in
            let found := snd <$> list_find (λ i, mi_instance_id i = target) (mw_instances tw) in
            let present := bool_decide (is_Some found) in
            let ready := from_option mi_ready false found in
            mk (if negb present then mpTargetOwnerMissing
                else if negb ready then mpTargetOwnerNotReady
                else if negb src then mpAwaitingSourceDrain
                else mpReadyToResume) true present ready owner_matches
      end
  end.

(** ** Drain *)
Record ObservedWorldDrainInstance := { di_instance_id : string; di_ready : bool; di_active_sessions : Z }.
Record ObservedWorldDrainState := {
  dr_world_id : string;
  dr_owner_instance_id : string;
  dr_draining : bool;
  dr_replacement_owner_instance_id : string;
  dr_instances : list ObservedWorldDrainInstance;
}.
Inductive WorldDrainPhase :=
  wpIdle | wpReplacementTargetMissing | wpReplacementTargetNotReady | wpDrainingSessions | wpDrained.
#[global] Instance WorldDrainPhase_eq_dec : EqDecision WorldDrainPhase.
Proof. solve_decision. Defined.
Definition world_drain_phase_name (phase : WorldDrainPhase) : string :=
  match phase with
  | wpIdle => "idle"
  | wpReplacementTargetMissing => "replacement_target_missing"
  | wpReplacementTargetNotReady => "replacement_target_not_ready"
  | wpDrainingSessions => "draining_sessions"
  | wpDrained => "drained"
  end.
Record WorldDrainSummary := {
  wm_drain_declared : bool;
  wm_replacement_declared : bool;
  wm_owner_present : bool;
  wm_replacement_present : bool;
  wm_replacement_ready : bool;
  wm_instances_total : Z;
  wm_ready_instances : Z;
  wm_active_sessions_total : Z;
  wm_owner_active_sessions : Z;
  wm_replacement_active_sessions : Z;
}.
Record WorldDrainStatus := {
  wst_world_id : string;
  wst_owner_instance_id : string;
  wst_replacement_owner_instance_id : string;
  wst_phase : WorldDrainPhase;
  wst_summary : WorldDrainSummary;
}.
(** One turn of the loop over the instances. *)
Definition drain_count (owner replacement : string) (s : WorldDrainSummary)
    (i : ObservedWorldDrainInstance) : WorldDrainSummary :=
  let at_owner := nonempty owner && bool_decide (di_instance_id i = owner) in
  let at_repl := nonempty replacement && bool_decide (di_instance_id i = replacement) in
  {| wm_drain_declared := wm_drain_declared s;
     wm_replacement_declared := wm_replacement_declared s;
     wm_owner_present := wm_owner_present s;
     wm_replacement_present := if at_repl then true else wm_replacement_present s;
     wm_replacement_ready := if at_repl then di_ready i else wm_replacement_ready s;
     wm_instances_total := wm_instances_total s;
     wm_ready_instances := bump_if (di_ready i) (wm_ready_instances s);
     wm_active_sessions_total := wm_active_sessions_total s +₃₂ di_active_sessions i;
     wm_owner_active_sessions := if at_owner then di_active_sessions i else wm_owner_active_sessions s;
     wm_replacement_active_sessions :=
       if at_repl then di_active_sessions i else wm_replacement_active_sessions s |}.
Definition evaluate_world_drain (state : ObservedWorldDrainState) : WorldDrainStatus :=
  let owner := dr_owner_instance_id state in
  let replacement := dr_replacement_owner_instance_id state in
  let s :=
    foldl (drain_count owner replacement)
      {| wm_drain_declared := dr_draining state; wm_replacement_declared := nonempty replacement;
         wm_owner_present := nonempty owner; wm_replacement_present := false;
         wm_replacement_ready := false;
         wm_instances_total := u32 (Z.of_nat (length (dr_instances state)));
         wm_ready_instances := 0; wm_active_sessions_total := 0; wm_owner_active_sessions := 0;
         wm_replacement_active_sessions := 0 |} (dr_instances state) in
  {| wst_world_id := dr_world_id state; wst_owner_instance_id := owner;
     wst_replacement_owner_instance_id := replacement;
     wst_phase :=
       if negb (dr_draining state) then wpIdle
       else if wm_replacement_declared s && negb (wm_replacement_present s) then wpReplacementTargetMissing
       else if wm_replacement_declared s && negb (wm_replacement_ready s) then wpReplacementTargetNotReady
       else if 0 <? wm_active_sessions_total s then wpDrainingSessions
       else wpDrained;
     wst_summary := s |}.

(** ** Orchestration *)
Inductive WorldDrainOrchestrationPhase :=
  opIdle | opBlockedByReplacementTarget | opDraining | opAwaitingOwnerTransfer
  | opAwaitingMigration | opReadyToClear.
#[global] Instance WorldDrainOrchestrationPhase_eq_dec : EqDecision WorldDrainOrchestrationPhase.
Proof. solve_decision. Defined.
Definition world_drain_orchestration_phase_name (phase : WorldDrainOrchestrationPhase) : string :=
  match phase with
  | opIdle => "idle"
  | opBlockedByReplacementTarget => "blocked_by_replacement_target"
  | opDraining => "draining"
  | opAwaitingOwnerTransfer => "awaiting_owner_transfer"
  | opAwaitingMigration => "awaiting_migration"
  | opReadyToClear => "ready_to_clear"
  end.
Inductive WorldDrainNextAction :=
  naNone | naWaitForDrain | naStabilizeReplacementTarget | naCommitOwnerTransfer
  | naAwaitMigration | naClearPolicy.
#[global] Instance WorldDrainNextAction_eq_dec : EqDecision WorldDrainNextAction.
Proof. solve_decision. Defined.
Definition world_drain_next_action_name (action : WorldDrainNextAction) : string :=
  match action with
  | naNone => "none"
  | naWaitForDrain => "wait_for_drain"
  | naStabilizeReplacementTarget => "stabilize_replacement_target"
  | naCommitOwnerTransfer => "commit_owner_transfer"
  | naAwaitMigration => "await_migration"
  | naClearPolicy => "clear_policy"
  end.
Record WorldDrainOrchestrationSummary := {
  om_drain_declared : bool;
  om_drained : bool;
  om_transfer_declared : bool;
  om_transfer_committed : bool;
  om_migration_declared : bool;
  om_migration_ready : bool;
  om_clear_allowed : bool;
}.
Record WorldDrainOrchestrationStatus := {
  ost_world_id : string;
  ost_drain_phase : WorldDrainPhase;
  ost_phase : WorldDrainOrchestrationPhase;
  ost_next_action : WorldDrainNextAction;
  ost_target_owner_instance_id : string;
  ost_target_world_id : string;
  ost_summary : WorldDrainOrchestrationSummary;
}.

(** The block [if (transfer.has_value() && ...)]: declared, committed, target. *)
Definition transfer_gate (transfer : option WorldTransferStatus) : bool * bool * string :=
  match transfer with
  | Some t =>
      if tm_transfer_declared (tst_summary t)
      then (true, bool_decide (tst_phase t = tpOwnerHandoffCommitted), tst_target_owner_instance_id t)
      else (false, false, EmptyString)
  | None => (false, false, EmptyString)
  end.
(** The block [if (migration.has_value() && ...)]: declared, ready, targets. *)
Definition migration_gate (migration : option WorldMigrationStatus) (owner : string)
    : bool * bool * string * string :=
  match migration with
  | Some m =>
      if mm_envelope_present (mst_summary m)
      then (true, bool_decide (mst_phase m = mpReadyToResume), mst_target_world_id m,
            mst_target_owner_instance_id m)
      else (false, false, EmptyString, owner)
  | None => (false, false, EmptyString, owner)
  end.

(** Each [return out;] of the source is a call of [ret] with the fields assigned
    so far. *)
Definition evaluate_world_drain_orchestration (drain : WorldDrainStatus)
    (transfer : option WorldTransferStatus) (migration : option WorldMigrationStatus)
    : WorldDrainOrchestrationStatus :=
  let ret phase action owner world td tc md mr clear :=
    {| ost_world_id := wst_world_id drain; ost_drain_phase := wst_phase drain;
       ost_phase := phase; ost_next_action := action;
       ost_target_owner_instance_id := owner; ost_target_world_id := world;
       ost_summary :=
         {| om_drain_declared := wm_drain_declared (wst_summary drain);
            om_drained := bool_decide (wst_phase drain = wpDrained);
            om_transfer_declared := td; om_transfer_committed := tc;
            om_migration_declared := md; om_migration_ready := mr; om_clear_allowed := clear |} |} in
  if negb (wm_drain_declared (wst_summary drain)) || bool_decide (wst_phase drain = wpIdle)
  then ret opIdle naNone EmptyString EmptyString false false false false false
  else if bool_decide (wst_phase drain = wpReplacementTargetMissing)
          || bool_decide (wst_phase drain = wpReplacementTargetNotReady)
  then ret opBlockedByReplacementTarget naStabilizeReplacementTarget
         (wst_replacement_owner_instance_id drain) EmptyString false false false false false
  else if bool_decide (wst_phase drain = wpDrainingSessions)
  then ret opDraining naWaitForDrain (wst_replacement_owner_instance_id drain) EmptyString
         false false false false false
  else
    let '(td, tc, owner) := transfer_gate transfer in
    if td && negb tc
    then ret opAwaitingOwnerTransfer naCommitOwnerTransfer owner EmptyString td tc false false false
    else
      let '(md, mr, world, owner) := migration_gate migration owner in
      if md && negb mr
      then ret opAwaitingMigration naAwaitMigration owner world td tc md mr false
      else ret opReadyToClear naClearPolicy owner world td tc md mr true.

(** ** Lemmas *)
(** The last instance with a given id decides [present]/[ready]; with distinct
    ids it is the only one. *)
Lemma transfer_scan_target target l : NoDup (ti_instance_id <$> l) →
  (transfer_scan target l).1.2 = bool_decide (target ∈ ti_instance_id <$> l)
  ∧ ((transfer_scan target l).2 = true ↔ ∃ i, i ∈ l ∧ ti_instance_id i = target ∧ ti_ready i = true).
Proof.
  unfold transfer_scan. induction l as [|i l IH] using rev_ind; intros Hnd.
  { split; [done|]. set_solver. }
  rewrite fmap_app in Hnd. apply NoDup_app in Hnd as (Hnd & Hdis & _). specialize (IH Hnd).
  rewrite foldl_snoc. set (f := foldl _ _ l) in *. destruct f as [[n p] r]. simpl in IH.
  destruct IH as [-> Hr]. unfold transfer_step. simpl. case_bool_decide as Hi; simpl.
  - split.
    + symmetry. apply bool_decide_eq_true_2. set_solver.
    + split; [intros ?; exists i; set_solver|]. intros (j & Hj & Hid & Hready).
      apply elem_of_app in Hj as [Hj|Hj]; [|by apply list_elem_of_singleton in Hj as ->].
      exfalso. apply (Hdis (ti_instance_id j)); [by apply list_elem_of_fmap_2|].
      rewrite Hid, <- Hi. set_solver.
  - split.
    + apply bool_decide_ext. rewrite fmap_app, elem_of_app. simpl. set_solver.
    + rewrite Hr. split; intros (j & Hj & ? & ?); exists j; [set_solver|].
      apply elem_of_app in Hj as [Hj|Hj]; [done|]. apply list_elem_of_singleton in Hj as ->. done.
Qed.

(** Sessions over all instances, without wrap-around. *)
Definition total_sessions (l : list ObservedWorldDrainInstance) : Z :=
  foldr (λ i acc, di_active_sessions i + acc) 0 l.
Lemma total_sessions_nonneg l : Forall (λ i, is_u32 (di_active_sessions i)) l → 0 ≤ total_sessions l.
Proof. induction 1 as [|i l Hi _ IH]; simpl; [done|]. unfold in_u in Hi. lia. Qed.
Lemma total_sessions_zero l : Forall (λ i, is_u32 (di_active_sessions i)) l →
  total_sessions l = 0 → Forall (λ i, di_active_sessions i = 0) l.
Proof.
  induction 1 as [|i l Hi Hl IH]; simpl; intros H0; [constructor|].
  pose proof (total_sessions_nonneg l Hl). unfold in_u in Hi. constructor; [lia|]. apply IH. lia.
Qed.

Lemma total_sessions_all_zero l : Forall (λ i, di_active_sessions i = 0) l → total_sessions l = 0.
Proof. induction 1 as [|i l Hi _ IH]; simpl; lia. Qed.

Definition transfer_instance (i : ObservedWorldDrainInstance) : ObservedWorldTransferInstance :=
  {| ti_instance_id := di_instance_id i; ti_ready := di_ready i |}.

Section DrainScan.
Context (owner replacement : string).
Lemma drain_scan_total l : ∀ s, Forall (λ i, is_u32 (di_active_sessions i)) l →
  0 ≤ wm_active_sessions_total s → wm_active_sessions_total s + total_sessions l < 2 ^ 32 →
  wm_active_sessions_total (foldl (drain_count owner replacement) s l)
  = wm_active_sessions_total s + total_sessions l.
Proof.
  induction l as [|i l IH]; intros s Hl H0 Hb; simpl in *; [lia|].
  inversion_clear Hl. pose proof (total_sessions_nonneg l ltac:(done)).
  rewrite IH; simpl; rewrite ?u32_small by mach; [lia|done|unfold in_u in *; lia|lia].
Qed.
Lemma drain_scan_fixed l : ∀ s,
  wm_drain_declared (foldl (drain_count owner replacement) s l) = wm_drain_declared s
  ∧ wm_replacement_declared (foldl (drain_count owner replacement) s l) = wm_replacement_declared s.
Proof. induction l as [|i l IH]; intros s; simpl; [done|]. destruct (IH (drain_count owner replacement s i)). done. Qed.
(** The drain view of the replacement is the transfer view of the target. *)
Lemma drain_scan_replacement l : ∀ s, replacement ≠ EmptyString →
  let f := foldl (drain_count owner replacement) s l in
  (wm_ready_instances f, wm_replacement_present f, wm_replacement_ready f)
  = foldl (transfer_step replacement)
      (wm_ready_instances s, wm_replacement_present s, wm_replacement_ready s)
      (transfer_instance <$> l).
Proof.
  induction l as [|i l IH]; intros s Hr; cbv zeta; [done|]. rewrite fmap_cons. cbn [foldl].
  rewrite (IH (drain_count owner replacement s i) Hr). f_equal. simpl.
  rewrite (bool_decide_eq_false_2 (replacement = EmptyString)) by done. simpl. by case_bool_decide.
Qed.
End DrainScan.

(** The transfer snapshot of the instances and policy seen by the drain. *)
Definition transfer_view (st : ObservedWorldDrainState) : ObservedWorldTransferState :=
  {| ts_world_id := dr_world_id st; ts_owner_instance_id := dr_owner_instance_id st;
     ts_draining := dr_draining st;
     ts_replacement_owner_instance_id := dr_replacement_owner_instance_id st;
     ts_instances := transfer_instance <$> dr_instances st |}.
Definition sessions_ok (st : ObservedWorldDrainState) : Prop :=
  Forall (λ i, is_u32 (di_active_sessions i)) (dr_instances st)
  ∧ total_sessions (dr_instances st) < 2 ^ 32.
(** The replacement, if one is declared, is present and ready. *)
Definition replacement_settled (st : ObservedWorldDrainState) : Prop :=
  dr_replacement_owner_instance_id st = EmptyString ∨
  ∃ i, i ∈ dr_instances st ∧ di_instance_id i = dr_replacement_owner_instance_id st ∧ di_ready i = true.

Lemma drain_phase_eq st : sessions_ok st →
  let target := dr_replacement_owner_instance_id st in
  let '(_, present, ready) := transfer_scan target (transfer_instance <$> dr_instances st) in
  wst_phase (evaluate_world_drain st) =
    if negb (dr_draining st) then wpIdle
    else if nonempty target && negb present then wpReplacementTargetMissing
    else if nonempty target && negb ready then wpReplacementTargetNotReady
    else if 0 <? total_sessions (dr_instances st) then wpDrainingSessions else wpDrained.
Proof.
  intros [Hs Hb]. unfold evaluate_world_drain. cbn [wst_phase]. set (s0 := {| wm_drain_declared := _ |}).
  rewrite drain_scan_total by (simpl; done || lia). change (wm_active_sessions_total s0) with 0. rewrite Z.add_0_l.
  destruct (drain_scan_fixed (dr_owner_instance_id st) (dr_replacement_owner_instance_id st)
    (dr_instances st) s0) as [_ ->]. change (wm_replacement_declared s0) with (nonempty (dr_replacement_owner_instance_id st)).
  case_bool_decide as Hr; simpl.
  { by destruct (transfer_scan _ _) as [[??]?]. }
  pose proof (drain_scan_replacement (dr_owner_instance_id st) _ (dr_instances st) s0 Hr) as Hd.
  cbv zeta in Hd. unfold transfer_scan.
  change (0, false, false)
    with (wm_ready_instances s0, wm_replacement_present s0, wm_replacement_ready s0).
  by rewrite <- Hd.
Qed.

Lemma drained_iff st : NoDup (di_instance_id <$> dr_instances st) → sessions_ok st →
  wst_phase (evaluate_world_drain st) = wpDrained ↔
  dr_draining st = true ∧ replacement_settled st ∧ Forall (λ i, di_active_sessions i = 0) (dr_instances st).
Proof.
  intros Hnd Hs. pose proof (drain_phase_eq st Hs) as Hp. cbv zeta in Hp.
  set (target := dr_replacement_owner_instance_id st) in *.
  assert (Hnd' : NoDup (ti_instance_id <$> (transfer_instance <$> dr_instances st)))
    by (by rewrite <- list_fmap_compose).
  destruct (transfer_scan_target target _ Hnd') as [Hpres Hready].
  destruct (transfer_scan _ _) as [[n present] ready]; simpl in Hpres, Hready. rewrite Hp.
  assert (Hsettled : replacement_settled st ↔ nonempty target = false ∨ ready = true).
  { unfold replacement_settled. fold target. rewrite Hready.
    rewrite negb_false_iff, bool_decide_eq_true. f_equiv. split.
    - intros (i & Hi & ? & ?). exists (transfer_instance i). split; [by apply list_elem_of_fmap_2|done].
    - intros (j & Hj & ? & ?). apply list_elem_of_fmap in Hj as (i & -> & ?). eauto. }
  assert (Hrp : ready = true → present = true).
  { rewrite Hready, Hpres, bool_decide_eq_true. intros (j & ? & <- & _). by apply list_elem_of_fmap_2. }
  destruct Hs as [Hs Hb]. pose proof (total_sessions_nonneg _ Hs).
  assert (Hz : total_sessions (dr_instances st) = 0 ↔ Forall (λ i, di_active_sessions i = 0) (dr_instances st)).
  { split; [by apply total_sessions_zero|apply total_sessions_all_zero]. }
  rewrite Hsettled, <- Hz. destruct (dr_draining st); [|naive_solver].
  destruct (Z.ltb_spec 0 (total_sessions (dr_instances st)));
    destruct (nonempty target), present, ready; simpl; naive_solver lia.
Qed.

(** An open gate is one whose hand-over step, if declared, is done. *)
Lemma transfer_gate_open tr :
  (transfer_gate tr).1.1 && negb (transfer_gate tr).1.2 = false ↔
  ∀ t, tr = Some t → tm_transfer_declared (tst_summary t) = true → tst_phase t = tpOwnerHandoffCommitted.
Proof.
  unfold transfer_gate. destruct tr as [t|]; [|done].
  destruct (tm_transfer_declared _) eqn:Ht; simpl.
  - case_bool_decide; simpl; (split; [|by intros H'; specialize (H' t eq_refl Ht)]); [|done].
    by intros _ t' [= <-] _.
  - split; [|done]. intros _ t' [= <-]. congruence.
Qed.
Lemma migration_gate_open mg owner :
  (migration_gate mg owner).1.1.1 && negb (migration_gate mg owner).1.1.2 = false ↔
  ∀ m, mg = Some m → mm_envelope_present (mst_summary m) = true → mst_phase m = mpReadyToResume.
Proof.
  unfold migration_gate. destruct mg as [m|]; [|done].
  destruct (mm_envelope_present _) eqn:Hm; simpl.
  - case_bool_decide; simpl; (split; [|by intros H'; specialize (H' m eq_refl Hm)]); [|done].
    by intros _ m' [= <-] _.
  - split; [|done]. intros _ m' [= <-]. congruence.
Qed.

Lemma clear_allowed_spec st tr mg :
  NoDup (di_instance_id <$> dr_instances st) → sessions_ok st →
  om_clear_allowed (ost_summary (evaluate_world_drain_orchestration (evaluate_world_drain st) tr mg)) = true
  ↔ dr_draining st = true ∧ replacement_settled st
    ∧ Forall (λ i, di_active_sessions i = 0) (dr_instances st)
    ∧ (∀ t, tr = Some t → tm_transfer_declared (tst_summary t) = true → tst_phase t = tpOwnerHandoffCommitted)
    ∧ (∀ m, mg = Some m → mm_envelope_present (mst_summary m) = true → mst_phase m = mpReadyToResume).
Proof.
  intros Hnd Hs.
  pose proof (drained_iff st Hnd Hs) as Hd.
  assert (Hdecl : wm_drain_declared (wst_summary (evaluate_world_drain st)) = dr_draining st).
  { apply (drain_scan_fixed (dr_owner_instance_id st) (dr_replacement_owner_instance_id st)). }
  trans (wst_phase (evaluate_world_drain st) = wpDrained
    ∧ (∀ t, tr = Some t → tm_transfer_declared (tst_summary t) = true → tst_phase t = tpOwnerHandoffCommitted)
    ∧ (∀ m, mg = Some m → mm_envelope_present (mst_summary m) = true → mst_phase m = mpReadyToResume));
    [|naive_solver].
  unfold evaluate_world_drain_orchestration. rewrite Hdecl.
  destruct (wst_phase (evaluate_world_drain st)) eqn:Hph; simpl; rewrite ?orb_true_r, ?orb_false_r;
    try (destruct (dr_draining st); simpl; (split; [done|by intros [? _]])).
  destruct Hd as [Hd _]. destruct (Hd eq_refl) as [-> _]. simpl.
  rewrite <- transfer_gate_open. destruct (transfer_gate tr) as [[td tc] owner]; simpl.
  rewrite <- (migration_gate_open mg owner). destruct (migration_gate mg owner) as [[[md mr] w] o]; simpl.
  destruct (td && negb tc), (md && negb mr); simpl; naive_solver.
Qed.
Lemma ready_to_clear_phase d tr mg :
  ost_phase (evaluate_world_drain_orchestration d tr mg) = opReadyToClear ↔
  om_clear_allowed (ost_summary (evaluate_world_drain_orchestration d tr mg)) = true.
Proof. unfold evaluate_world_drain_orchestration. by repeat case_match. Qed.
Lemma orchestration_idle_phase st tr mg :
  ost_phase (evaluate_world_drain_orchestration (evaluate_world_drain st) tr mg) = opIdle →
  dr_draining st = false.
Proof.
  unfold evaluate_world_drain_orchestration.
  assert (Hdecl : wm_drain_declared (wst_summary (evaluate_world_drain st)) = dr_draining st).
  { apply (drain_scan_fixed (dr_owner_instance_id st) (dr_replacement_owner_instance_id st)). }
  assert (Hidle : wst_phase (evaluate_world_drain st) = wpIdle → dr_draining st = false).
  { unfold evaluate_world_drain; simpl. destruct (dr_draining st); [|done]. by repeat case_match. }
  rewrite Hdecl. destruct (negb (dr_draining st)) eqn:Hn; [intros _; by apply negb_true_iff|]. simpl.
  case_bool_decide; [intros _; auto|]. by repeat case_match.
Qed.

(** ** Properties *)

(** A drain policy is only cleared when the hand-over is complete, and then
    it can be.  The orchestration allows clearing exactly when the drain is
    declared, the replacement (if one is declared) is present and ready, no
    instance has an active session, a declared owner transfer is committed and
    an announced migration is ready to resume. *)
Theorem clear_allowed_iff (st : ObservedWorldDrainState) (tr : option WorldTransferStatus)
  (mg : option WorldMigrationStatus)
  (Hnd : NoDup (di_instance_id <$> dr_instances st)) (Hs : sessions_ok st) :
  om_clear_allowed (ost_summary (evaluate_world_drain_orchestration (evaluate_world_drain st) tr mg)) = true
  ↔ dr_draining st = true ∧ replacement_settled st
    ∧ Forall (λ i, di_active_sessions i = 0) (dr_instances st)
    ∧ (∀ t, tr = Some t → tm_transfer_declared (tst_summary t) = true → tst_phase t = tpOwnerHandoffCommitted)
    ∧ (∀ m, mg = Some m → mm_envelope_present (mst_summary m) = true → mst_phase m = mpReadyToResume).
Proof. by apply clear_allowed_spec. Qed.

Definition demo_drained : ObservedWorldDrainState :=
  {| dr_world_id := "alpha"; dr_owner_instance_id := "s2"; dr_draining := true;
     dr_replacement_owner_instance_id := "s2";
     dr_instances := [{| di_instance_id := "s1"; di_ready := true; di_active_sessions := 0 |};
                      {| di_instance_id := "s2"; di_ready := true; di_active_sessions := 0 |}] |}.
Lemma demo_drained_ok : NoDup (di_instance_id <$> dr_instances demo_drained) ∧ sessions_ok demo_drained.
Proof.
  split; [apply (bool_decide_unpack _); vm_compute; exact I|].
  split; [repeat constructor; unfold in_u; simpl; lia|simpl; lia].
Qed.
Lemma clear_allowed_iff_witness :
  om_clear_allowed (ost_summary (evaluate_world_drain_orchestration (evaluate_world_drain demo_drained)
    (Some (evaluate_world_transfer (transfer_view demo_drained))) None)) = true
  ∧ Forall (λ i, di_active_sessions i = 0) (dr_instances demo_drained).
Proof.
  assert (H : om_clear_allowed (ost_summary (evaluate_world_drain_orchestration
    (evaluate_world_drain demo_drained) (Some (evaluate_world_transfer (transfer_view demo_drained))) None)) = true)
    by (vm_compute; reflexivity).
  split; [exact H|]. apply clear_allowed_iff in H; [apply H|apply demo_drained_ok..].
Defined.

(** Drain and transfer never disagree about the target.  For a draining world
    with a declared replacement, the drain is blocked on a missing (or unready)
    target exactly when the transfer is; so once the drain is past that point
    the transfer is waiting only for the owner record. *)
Theorem drain_transfer_agree (st : ObservedWorldDrainState)
  (Hs : sessions_ok st) (Hd : dr_draining st = true)
  (Hr : dr_replacement_owner_instance_id st ≠ EmptyString) :
  let d := wst_phase (evaluate_world_drain st) in
  let t := tst_phase (evaluate_world_transfer (transfer_view st)) in
  (d = wpReplacementTargetMissing ↔ t = tpTargetMissing)
  ∧ (d = wpReplacementTargetNotReady ↔ t = tpTargetNotReady)
  ∧ (d = wpDrained → t ∈ [tpOwnerMissing; tpAwaitingOwnerHandoff; tpOwnerHandoffCommitted]).
Proof.
  pose proof (drain_phase_eq st Hs) as Hp. cbv zeta in Hp |- *.
  unfold evaluate_world_transfer. cbn [transfer_view ts_instances ts_replacement_owner_instance_id].
  destruct (transfer_scan _ _) as [[n present] ready]. rewrite Hp. simpl. rewrite Hd.
  rewrite (bool_decide_eq_false_2 (dr_replacement_owner_instance_id st = _)) by done. simpl.
  destruct present; simpl; [|by split_and!].
  destruct ready; simpl; [|by split_and!].
  destruct (bool_decide (dr_owner_instance_id st = EmptyString)),
    (bool_decide (dr_owner_instance_id st = dr_replacement_owner_instance_id st)), (0 <? _); simpl;
    (split_and!; [done|done|intros; by apply (bool_decide_unpack _)]).
Qed.
Lemma drain_transfer_agree_witness :
  tst_phase (evaluate_world_transfer (transfer_view demo_drained))
    ∈ [tpOwnerMissing; tpAwaitingOwnerHandoff; tpOwnerHandoffCommitted].
Proof.
  apply (drain_transfer_agree demo_drained); [apply demo_drained_ok|reflexivity|discriminate|].
  vm_compute. reflexivity.
Defined.

(** An owner hand-over is committed exactly when the world is draining, the
    recorded owner is the declared (non-empty) replacement, and that instance is
    present and ready. *)
Theorem transfer_committed_iff (st : ObservedWorldTransferState)
  (Hnd : NoDup (ti_instance_id <$> ts_instances st)) :
  tst_phase (evaluate_world_transfer st) = tpOwnerHandoffCommitted ↔
  ts_draining st = true ∧ ts_replacement_owner_instance_id st ≠ EmptyString
  ∧ ts_owner_instance_id st = ts_replacement_owner_instance_id st
  ∧ ∃ i, i ∈ ts_instances st ∧ ti_instance_id i = ts_replacement_owner_instance_id st ∧ ti_ready i = true.
Proof.
  destruct (transfer_scan_target (ts_replacement_owner_instance_id st) _ Hnd) as [Hp Hr].
  unfold evaluate_world_transfer. destruct (transfer_scan _ _) as [[n present] ready]; simpl in *.
  rewrite <- Hr. assert (Hrp : ready = true → present = true).
  { rewrite Hr, Hp, bool_decide_eq_true. intros (i & ? & <- & _). by apply list_elem_of_fmap_2. }
  clear Hp Hr. destruct (ts_draining st); simpl; [|by split; [|intros (? & _)]].
  case_bool_decide as H1; simpl; [by split; [|intros (_ & ? & _)]|].
  destruct present; simpl; [|split; [done|]; intros (_ & _ & _ & ->); by specialize (Hrp eq_refl)].
  destruct ready; simpl; [|by split; [|intros (_ & _ & _ & ?)]].
  case_bool_decide as H2; simpl; [split; [done|intros (_ & _ & ? & _); congruence]|].
  case_bool_decide; simpl; [done|]. split; [done|]. by intros (_ & _ & ? & _).
Qed.
Lemma transfer_committed_iff_witness :
  ∃ i, i ∈ ts_instances (transfer_view demo_drained) ∧ ti_instance_id i = "s2" ∧ ti_ready i = true.
Proof.
  apply (transfer_committed_iff (transfer_view demo_drained)); [|vm_compute; reflexivity].
  apply (bool_decide_unpack _). vm_compute. exact I.
Defined.

(** A migration is ready to resume exactly when an envelope announces it, the
    target world is known, the first instance carrying the target owner's id is
    ready, and the source world is draining. *)
Theorem migration_ready_iff (src : ObservedWorldMigrationWorld) (env : option WorldMigrationEnvelope)
  (tw : option ObservedWorldMigrationWorld) :
  mst_phase (evaluate_world_migration src env tw) = mpReadyToResume ↔
  ∃ e w i, env = Some e ∧ tw = Some w ∧ mw_world_id w ≠ EmptyString ∧ mw_draining src = true
    ∧ head (filter (λ i, mi_instance_id i = env_target_owner_instance_id e) (mw_instances w)) = Some i
    ∧ mi_ready i = true.
Proof.
  assert (Hfind : ∀ t (l : list ObservedWorldMigrationInstance),
    snd <$> list_find (λ i, mi_instance_id i = t) l = head (filter (λ i, mi_instance_id i = t) l)).
  { intros t l. induction l as [|i l IH]; [done|]. simpl. rewrite filter_cons. case_decide; [done|].
    rewrite <- IH. by destruct (list_find _ l) as [[]|]. }
  unfold evaluate_world_migration. destruct env as [e|]; [|split; [done|by intros (? & ? & ? & ? & _)]].
  destruct tw as [w|]; [|split; [done|by intros (? & ? & ? & ? & ? & _)]].
  case_bool_decide as Hw; [split; [done|]; intros (? & ? & ? & _ & [= <-] & ? & _); done|].
  cbn [mst_phase]. rewrite Hfind. destruct (head _) as [i|] eqn:Hh; simpl.
  2: { split; [done|]. intros (? & ? & ? & [= <-] & [= <-] & _ & _ & ? & _). congruence. }
  destruct (mi_ready i) eqn:Hi; simpl.
  2: { split; [done|]. intros (? & ? & j & [= <-] & [= <-] & _ & _ & ? & ?). congruence. }
  destruct (mw_draining src); simpl; [|split; [done|]; by intros (? & ? & ? & _ & _ & _ & ? & _)].
  split; [|done]. intros _. by exists e, w, i.
Qed.
