(* ===== verification/Kubernetes.v ===== *)
(** * Kubernetes view of a world pool

    Model of [core/include/server/core/worlds/kubernetes.hpp]: naming and
    binding of workloads, counting of runtime assignments, and the orchestration
    that turns a leased topology action plus the drain orchestration into the
    next Kubernetes step. *)
From S2P Require Import Prelude Containers Text Topology TopologyStatus WorldDocuments WorldHandover.
From stdpp Require Import list strings sets gmap.
Open Scope Z_scope.

Inductive KubernetesWorkloadKind := kDeployment | kStatefulSet.
#[global] Instance KubernetesWorkloadKind_eq_dec : EqDecision KubernetesWorkloadKind.
Proof. solve_decision. Defined.
Definition kubernetes_workload_kind_name (kind : KubernetesWorkloadKind) : string :=
  match kind with kDeployment => "deployment" | kStatefulSet => "statefulset" end.
Definition parse_kubernetes_workload_kind (value : string) : option KubernetesWorkloadKind :=
  if bool_decide (value = "deployment") then Some kDeployment
  else if bool_decide (value = "statefulset") then Some kStatefulSet
  else None.

Record KubernetesPoolBinding := {
  kb_world_id : string;
  kb_shard : string;
  kb_namespace_name : string;
  kb_workload_name : string;
  kb_workload_kind : KubernetesWorkloadKind;
  kb_target_replicas : Z;
  kb_capacity_class : string;
  kb_placement_tags : list string;
}.
Record KubernetesPoolObservation := {
  ko_current_spec_replicas : Z;
  ko_ready_replicas : Z;
  ko_available_replicas : Z;
  ko_terminating_replicas : Z;
  ko_assigned_runtime_instances : Z;
  ko_idle_ready_runtime_instances : Z;
}.
Inductive KubernetesPoolOrchestrationPhase :=
  kpIdle | kpScaleWorkload | kpAwaitReadyReplicas | kpAwaitRuntimeAssignment
  | kpAwaitReplacementTarget | kpAwaitDrain | kpAwaitOwnerTransfer | kpAwaitMigration
  | kpRetireWorkload | kpComplete | kpStale.
#[global] Instance KubernetesPoolOrchestrationPhase_eq_dec : EqDecision KubernetesPoolOrchestrationPhase.
Proof. solve_decision. Defined.
Definition kubernetes_pool_orchestration_phase_name (phase : KubernetesPoolOrchestrationPhase) : string :=
  match phase with
  | kpIdle => "idle"
  | kpScaleWorkload => "scale_workload"
  | kpAwaitReadyReplicas => "await_ready_replicas"
  | kpAwaitRuntimeAssignment => "await_runtime_assignment"
  | kpAwaitReplacementTarget => "await_replacement_target"
  | kpAwaitDrain => "await_drain"
  | kpAwaitOwnerTransfer => "await_owner_transfer"
  | kpAwaitMigration => "await_migration"
  | kpRetireWorkload => "retire_workload"
  | kpComplete => "complete"
  | kpStale => "stale"
  end.
Inductive KubernetesPoolNextAction :=
  knNone | knPatchWorkloadReplicas | knWaitForPodsReady | knPublishRuntimeAssignments
  | knStabilizeReplacementTarget | knWaitForDrain | knCommitOwnerTransfer | knWaitForMigration
  | knPatchWorkloadRetirement.
#[global] Instance KubernetesPoolNextAction_eq_dec : EqDecision KubernetesPoolNextAction.
Proof. solve_decision. Defined.
Definition kubernetes_pool_next_action_name (action : KubernetesPoolNextAction) : string :=
  match action with
  | knNone => "none"
  | knPatchWorkloadReplicas => "patch_workload_replicas"
  | knWaitForPodsReady => "wait_for_pods_ready"
  | knPublishRuntimeAssignments => "publish_runtime_assignments"
  | knStabilizeReplacementTarget => "stabilize_replacement_target"
  | knWaitForDrain => "wait_for_drain"
  | knCommitOwnerTransfer => "commit_owner_transfer"
  | knWaitForMigration => "wait_for_migration"
  | knPatchWorkloadRetirement => "patch_workload_retirement"
  end.
Record KubernetesPoolOrchestrationSummary := {
  ks_action_present : bool;
  ks_assignment_present : bool;
  ks_binding_target_reached : bool;
  ks_pods_ready_for_target : bool;
  ks_runtime_assignment_satisfied : bool;
  ks_drain_ready_to_retire : bool;
  ks_target_replicas : Z;
  ks_current_spec_replicas : Z;
  ks_ready_replicas : Z;
  ks_available_replicas : Z;
  ks_terminating_replicas : Z;
  ks_assigned_runtime_instances : Z;
  ks_idle_ready_runtime_instances : Z;
  ks_drain_orchestration_phase : WorldDrainOrchestrationPhase;
}.
Record KubernetesPoolOrchestrationStatus := {
  kst_world_id : string;
  kst_shard : string;
  kst_namespace_name : string;
  kst_workload_name : string;
  kst_workload_kind : KubernetesWorkloadKind;
  kst_requested_action : TopologyActuationActionKind;
  kst_phase : KubernetesPoolOrchestrationPhase;
  kst_next_action : KubernetesPoolNextAction;
  kst_target_owner_instance_id : string;
  kst_target_world_id : string;
  kst_summary : KubernetesPoolOrchestrationSummary;
}.

(** ** [sanitize_kubernetes_name_token] *)
Definition dash : char := of_code 45.
(** [std::isalnum] *)
Definition is_alnum (c : char) : bool :=
  is_digit c || ((65 <=? code c) && (code c <=? 90)) || ((97 <=? code c) && (code c <=? 122)).
Definition clean_char (c : char) : char := if is_alnum c then to_lower c else dash.
Fixpoint collapse (previous_dash : bool) (s : string) : string :=
  match s with
  | EmptyString => EmptyString
  | String c s' =>
      if bool_decide (c = dash) then
        if previous_dash then collapse true s' else String c (collapse true s')
      else String c (collapse false s')
  end.
Fixpoint strip_front (s : string) : string :=
  match s with
  | String c s' => if bool_decide (c = dash) then strip_front s' else s
  | EmptyString => EmptyString
  end.
Fixpoint strip_back (s : string) : string :=
  match s with
  | String c s' =>
      let r := strip_back s' in
      if bool_decide (r = EmptyString) && bool_decide (c = dash) then EmptyString else String c r
  | EmptyString => EmptyString
  end.
Definition sanitize_kubernetes_name_token (value : string) : string :=
  let out := map_string clean_char value in
  let collapsed := strip_back (strip_front (collapse false out)) in
  if bool_decide (collapsed = EmptyString) then "pool" else collapsed.

Definition make_kubernetes_pool_workload_name (world_id shard : string)
    (workload_kind : KubernetesWorkloadKind) : string :=
  (if bool_decide (workload_kind = kStatefulSet) then "world-set-" else "world-deploy-")
  +:+ sanitize_kubernetes_name_token world_id +:+ "-" +:+ sanitize_kubernetes_name_token shard.

Definition make_kubernetes_pool_binding (pool : DesiredTopologyPool) (namespace_name : string)
    (workload_kind : KubernetesWorkloadKind) : KubernetesPoolBinding :=
  {| kb_world_id := dp_world_id pool; kb_shard := dp_shard pool; kb_namespace_name := namespace_name;
     kb_workload_name := make_kubernetes_pool_workload_name (dp_world_id pool) (dp_shard pool) workload_kind;
     kb_workload_kind := workload_kind; kb_target_replicas := dp_replicas pool;
     kb_capacity_class := dp_capacity_class pool; kb_placement_tags := dp_placement_tags pool |}.

Definition assignment_for (world_id shard : string) (action : TopologyActuationActionKind)
    (a : TopologyActuationRuntimeAssignmentItem) : bool :=
  bool_decide (asg_world_id a = world_id) && bool_decide (asg_shard a = shard)
  && bool_decide (asg_action a = action).
Definition count_topology_actuation_runtime_assignments
    (document : TopologyActuationRuntimeAssignmentDocument) (world_id shard : string)
    (action : TopologyActuationActionKind) : Z :=
  foldl (λ count a, bump_if (assignment_for world_id shard action a) count) 0 (asd_assignments document).

(** ** [evaluate_kubernetes_pool_orchestration] *)
(** Phase and next action of a scale-in, by drain phase. *)
Definition scale_in_step (target : Z) (o : KubernetesPoolObservation)
    (drain : option WorldDrainOrchestrationStatus)
    : KubernetesPoolOrchestrationPhase * KubernetesPoolNextAction :=
  let retire :=
    if (target <? ko_current_spec_replicas o) || (0 <? ko_terminating_replicas o)
    then (kpRetireWorkload, knPatchWorkloadRetirement)
    else (kpComplete, knNone) in
  match drain with
  | Some d =>
      match ost_phase d with
      | opBlockedByReplacementTarget => (kpAwaitReplacementTarget, knStabilizeReplacementTarget)
      | opDraining => (kpAwaitDrain, knWaitForDrain)
      | opAwaitingOwnerTransfer => (kpAwaitOwnerTransfer, knCommitOwnerTransfer)
      | opAwaitingMigration => (kpAwaitMigration, knWaitForMigration)
      | opReadyToClear | opIdle => retire
      end
  | None => retire
  end.
(** [static_cast<std::uint32_t>(std::max(delta, 0))] *)
Definition positive_delta (delta : Z) : Z := u32 (Z.max delta 0).

Definition evaluate_kubernetes_pool_orchestration (binding : KubernetesPoolBinding)
    (o : KubernetesPoolObservation) (lease_action : option TopologyActuationAdapterLeaseAction)
    (drain : option WorldDrainOrchestrationStatus) : KubernetesPoolOrchestrationStatus :=
  let target := kb_target_replicas binding in
  let '(requested, phase, next, satisfied) :=
    match lease_action with
    | None => (akObserveUndeclaredPool, kpIdle, knNone, false)
    | Some l =>
        match la_action l with
        | akScaleOutPool =>
            let required := positive_delta (la_replica_delta l) in
            let '(phase, next) :=
              if ko_current_spec_replicas o <? target then (kpScaleWorkload, knPatchWorkloadReplicas)
              else if ko_ready_replicas o <? target then (kpAwaitReadyReplicas, knWaitForPodsReady)
              else if ko_assigned_runtime_instances o <? required
              then (kpAwaitRuntimeAssignment, knPublishRuntimeAssignments)
              else (kpComplete, knNone) in
            (la_action l, phase, next, required <=? ko_assigned_runtime_instances o)
        | akRestorePoolReadiness =>
            let '(phase, next) :=
              if ko_current_spec_replicas o <? target then (kpScaleWorkload, knPatchWorkloadReplicas)
              else if ko_ready_replicas o =? 0 then (kpAwaitReadyReplicas, knWaitForPodsReady)
              else (kpComplete, knNone) in
            (la_action l, phase, next, true)
        | akScaleInPool =>
            let '(phase, next) := scale_in_step target o drain in
            (la_action l, phase, next, true)
        | akObserveUndeclaredPool => (la_action l, kpIdle, knNone, true)
        end
    end in
  {| kst_world_id := kb_world_id binding; kst_shard := kb_shard binding;
     kst_namespace_name := kb_namespace_name binding; kst_workload_name := kb_workload_name binding;
     kst_workload_kind := kb_workload_kind binding; kst_requested_action := requested;
     kst_phase := phase; kst_next_action := next;
     kst_target_owner_instance_id := from_option ost_target_owner_instance_id EmptyString drain;
     kst_target_world_id := from_option ost_target_world_id EmptyString drain;
     kst_summary :=
       {| ks_action_present := bool_decide (is_Some lease_action);
          ks_assignment_present := 0 <? ko_assigned_runtime_instances o;
          ks_binding_target_reached := ko_current_spec_replicas o =? target;
          ks_pods_ready_for_target := target <=? ko_ready_replicas o;
          ks_runtime_assignment_satisfied := satisfied;
          ks_drain_ready_to_retire :=
            match drain with Some d => bool_decide (ost_phase d = opReadyToClear) | None => false end;
          ks_target_replicas := target;
          ks_current_spec_replicas := ko_current_spec_replicas o;
          ks_ready_replicas := ko_ready_replicas o;
          ks_available_replicas := ko_available_replicas o;
          ks_terminating_replicas := ko_terminating_replicas o;
          ks_assigned_runtime_instances := ko_assigned_runtime_instances o;
          ks_idle_ready_runtime_instances := ko_idle_ready_runtime_instances o;
          ks_drain_orchestration_phase := from_option ost_phase opIdle drain |} |}.

(** ** Well-formed name tokens *)
Definition lower_alnum (c : char) : bool := is_digit c || ((97 <=? code c) && (code c <=? 122)).
Definition label_char (c : char) : bool := lower_alnum c || bool_decide (c = dash).
(** No two dashes in a row, given whether a dash precedes. *)
Fixpoint single_dashes (previous_dash : bool) (s : string) : bool :=
  match s with
  | EmptyString => true
  | String c s' => if bool_decide (c = dash) then negb previous_dash && single_dashes true s'
                   else single_dashes false s'
  end.
Definition starts_dash (s : string) : bool :=
  match s with String c _ => bool_decide (c = dash) | EmptyString => false end.
Fixpoint ends_dash (s : string) : bool :=
  match s with
  | EmptyString => false
  | String c s' => if bool_decide (s' = EmptyString) then bool_decide (c = dash) else ends_dash s'
  end.
Definition token_ok (s : string) : Prop :=
  s ≠ EmptyString ∧ all_chars label_char s = true ∧ single_dashes false s = true
  ∧ starts_dash s = false ∧ ends_dash s = false.

Lemma clean_char_label c : label_char (clean_char c) = true.
Proof.
  unfold clean_char, label_char, lower_alnum. destruct (is_alnum c) eqn:Ha; [|done].
  unfold is_alnum in Ha. unfold to_lower, is_digit in *. pose proof (code_range c).
  destruct ((65 <=? code c) && (code c <=? 90)) eqn:Hu; [rewrite code_of_code by lia|]; lia.
Qed.
Lemma clean_char_id c : label_char c = true → clean_char c = c.
Proof.
  unfold label_char, clean_char, lower_alnum. intros Hl. case_bool_decide as Hd; [by subst|].
  rewrite orb_false_r in Hl. unfold is_alnum, to_lower.
  destruct (is_digit c) eqn:Hd'; simpl in *.
  - apply is_digit_code in Hd'. destruct ((65 <=? code c) && (code c <=? 90)) eqn:Hu; [lia|done].
  - rewrite Hl, orb_true_r. destruct ((65 <=? code c) && (code c <=? 90)) eqn:Hu; [lia|done].
Qed.
Lemma map_clean_label s : all_chars label_char (map_string clean_char s) = true.
Proof. induction s as [|c s IH]; [done|]. cbn [map_string all_chars]. by rewrite clean_char_label, IH. Qed.
Lemma map_clean_id s : all_chars label_char s = true → map_string clean_char s = s.
Proof.
  induction s as [|c s IH]; simpl; [done|]. intros [Hc Hs]%andb_true_iff.
  by rewrite clean_char_id, IH.
Qed.

Lemma collapse_label p s : all_chars label_char s = true → all_chars label_char (collapse p s) = true.
Proof.
  revert p. induction s as [|c s IH]; intros p; simpl; [done|]. intros [Hc Hs]%andb_true_iff.
  case_bool_decide; [destruct p|]; simpl; rewrite ?Hc; by apply IH.
Qed.
Lemma collapse_single p s : single_dashes p (collapse p s) = true.
Proof.
  revert p. induction s as [|c s IH]; intros p; simpl; [done|].
  case_bool_decide as Hc; [destruct p; simpl; [apply IH|]|simpl].
  - rewrite bool_decide_eq_true_2 by done. apply IH.
  - rewrite bool_decide_eq_false_2 by done. apply IH.
Qed.
Lemma collapse_id p s : single_dashes p s = true → collapse p s = s.
Proof.
  revert p. induction s as [|c s IH]; intros p; simpl; [done|].
  case_bool_decide; [intros [Hp Hs]%andb_true_iff; destruct p; [done|]|intros Hs]; by rewrite IH.
Qed.
Lemma single_dashes_weaken p s : single_dashes p s = true → single_dashes false s = true.
Proof. destruct s as [|c s]; simpl; [done|]. case_bool_decide; [|done]. by intros [_ ?]%andb_true_iff. Qed.
Lemma strip_front_spec s : all_chars label_char s = true → single_dashes false s = true →
  all_chars label_char (strip_front s) = true ∧ single_dashes false (strip_front s) = true
  ∧ starts_dash (strip_front s) = false.
Proof.
  induction s as [|c s IH]; simpl; [done|]. intros [Hc Hs]%andb_true_iff Hd.
  case_bool_decide as Hcd; [apply IH; [done|by eapply single_dashes_weaken]|].
  simpl. by rewrite Hc, Hs, bool_decide_eq_false_2.
Qed.
Lemma strip_back_spec s p : all_chars label_char s = true → single_dashes p s = true →
  all_chars label_char (strip_back s) = true ∧ single_dashes p (strip_back s) = true
  ∧ ends_dash (strip_back s) = false ∧ (starts_dash s = false → starts_dash (strip_back s) = false).
Proof.
  revert p. induction s as [|c s IH]; intros p; simpl; [done|]. intros [Hc Hs]%andb_true_iff Hd.
  assert (Hd' : ∃ p', single_dashes p' s = true ∧ (bool_decide (c = dash) = true → p = false ∧ p' = true)
    ∧ (bool_decide (c = dash) = false → p' = false)).
  { case_bool_decide; [apply andb_true_iff in Hd as [Hp Hd]; apply negb_true_iff in Hp; by exists true|by exists false]. }
  destruct Hd' as (p' & Hsd & Hp1 & Hp2). destruct (IH p' Hs Hsd) as (H1 & H2 & H3 & _).
  destruct (bool_decide (strip_back s = EmptyString)) eqn:He; simpl.
  - apply bool_decide_eq_true in He. destruct (bool_decide (c = dash)) eqn:Hcd; simpl; [done|].
    rewrite He. simpl. by rewrite Hc, Hcd.
  - rewrite Hc, H1, He. split_and!; [done| |done|done].
    destruct (bool_decide (c = dash)) eqn:Hcd; [destruct (Hp1 eq_refl) as [-> ->]|rewrite (Hp2 eq_refl) in H2]; done.
Qed.
Lemma strip_back_id s : ends_dash s = false → strip_back s = s.
Proof.
  induction s as [|c s IH]; simpl; [done|]. case_bool_decide as Hs.
  - subst s. intros Hc. simpl. by rewrite Hc.
  - intros He. rewrite IH by done. by rewrite bool_decide_eq_false_2.
Qed.

Lemma sanitize_token_ok v : token_ok (sanitize_kubernetes_name_token v).
Proof.
  unfold sanitize_kubernetes_name_token. set (s := collapse false _).
  destruct (strip_front_spec s) as (H1 & H2 & H3);
    [apply collapse_label, map_clean_label|apply collapse_single|].
  destruct (strip_back_spec (strip_front s) false H1 H2) as (H4 & H5 & H6 & H7).
  case_bool_decide; [done|]. split_and!; auto.
Qed.
Lemma sanitize_id s : token_ok s → sanitize_kubernetes_name_token s = s.
Proof.
  intros (Hn & Hl & Hd & Hs & He). unfold sanitize_kubernetes_name_token.
  rewrite map_clean_id, collapse_id by done.
  assert (Hf : strip_front s = s) by (destruct s as [|c s]; [done|]; simpl in *; by rewrite Hs).
  by rewrite Hf, strip_back_id, bool_decide_eq_false_2.
Qed.

Lemma count_assignments_eq d w s k :
  count_topology_actuation_runtime_assignments d w s k
  = u32 (Z.of_nat (length (filter (λ a, assignment_for w s k a = true) (asd_assignments d)))).
Proof.
  unfold count_topology_actuation_runtime_assignments.
  set (upd := λ (count : Z) a, bump_if (assignment_for w s k a) count).
  apply (foldl_counter id upd (λ a, assignment_for w s k a = true) (asd_assignments d)) with (s := 0); [|by vm_compute].
  intros n a. unfold id, upd. by destruct (assignment_for w s k a).
Qed.

(** ** Properties *)

(** Name tokens are valid DNS-1123 material.  A sanitised token is never
    empty, uses only lower-case letters, digits and dashes, neither starts nor
    ends with a dash and has no two dashes in a row; sanitising again changes
    nothing. *)
Theorem sanitize_valid_idempotent (v : string) :
  token_ok (sanitize_kubernetes_name_token v)
  ∧ sanitize_kubernetes_name_token (sanitize_kubernetes_name_token v) = sanitize_kubernetes_name_token v.
Proof. split; [apply sanitize_token_ok|apply sanitize_id, sanitize_token_ok]. Qed.

(** Workload names do not separate pools.  Two different pools can be bound
    to one and the same workload name, of either kind. *)
Theorem workload_name_not_injective (k : KubernetesWorkloadKind) :
  make_kubernetes_pool_workload_name "a-b" "c" k = make_kubernetes_pool_workload_name "a" "b-c" k
  ∧ make_pool_key "a-b" "c" ≠ make_pool_key "a" "b-c".
Proof. destruct k; split; vm_compute; (reflexivity || discriminate). Qed.

(** C24: a workload is retired only after the hand-over.  If a leased scale-in on a
    draining world, orchestrated from its drain, transfer and migration state,
    tells the controller to retire workload replicas, then no instance of the
    world has an active session, the declared replacement is ready, a declared
    owner transfer is committed and an announced migration is ready. *)
Theorem retirement_after_handover (b : KubernetesPoolBinding) (o : KubernetesPoolObservation)
  (l : TopologyActuationAdapterLeaseAction) (st : ObservedWorldDrainState)
  (tr : option WorldTransferStatus) (mg : option WorldMigrationStatus)
  (Hnd : NoDup (di_instance_id <$> dr_instances st)) (Hs : sessions_ok st)
  (Hd : dr_draining st = true)
  (Hact : kst_next_action (evaluate_kubernetes_pool_orchestration b o (Some l)
     (Some (evaluate_world_drain_orchestration (evaluate_world_drain st) tr mg))) = knPatchWorkloadRetirement) :
  Forall (λ i, di_active_sessions i = 0) (dr_instances st) ∧ replacement_settled st
  ∧ (∀ t, tr = Some t → tm_transfer_declared (tst_summary t) = true → tst_phase t = tpOwnerHandoffCommitted)
  ∧ (∀ m, mg = Some m → mm_envelope_present (mst_summary m) = true → mst_phase m = mpReadyToResume)
  ∧ la_action l = akScaleInPool.
Proof.
  unfold evaluate_kubernetes_pool_orchestration in Hact.
  destruct (la_action l) eqn:Hl; cbv zeta in Hact;
    [exfalso| |exfalso|done].
  { destruct (ko_current_spec_replicas o <? _); [done|]. destruct (ko_ready_replicas o <? _); [done|].
    by destruct (ko_assigned_runtime_instances o <? _). }
  2: { destruct (ko_current_spec_replicas o <? _); [done|]. by destruct (ko_ready_replicas o =? _). }
  unfold scale_in_step in Hact.
  destruct (ost_phase (evaluate_world_drain_orchestration _ tr mg)) eqn:Hp; try done.
  { apply orchestration_idle_phase in Hp. congruence. }
  apply ready_to_clear_phase, clear_allowed_spec in Hp; [|done..]. naive_solver.
Qed.

Definition demo_binding : KubernetesPoolBinding :=
  make_kubernetes_pool_binding
    {| dp_world_id := "alpha"; dp_shard := "s0"; dp_replicas := 1; dp_capacity_class := "std";
       dp_placement_tags := ["region:eu-west-1"; "zone:a"; "aws-lb-type:alb"] |} "dynaxis-worlds" kStatefulSet.
Definition demo_observation : KubernetesPoolObservation :=
  {| ko_current_spec_replicas := 2; ko_ready_replicas := 2; ko_available_replicas := 2;
     ko_terminating_replicas := 0; ko_assigned_runtime_instances := 0;
     ko_idle_ready_runtime_instances := 1 |}.
Definition demo_lease_action (k : TopologyActuationActionKind) : TopologyActuationAdapterLeaseAction :=
  {| la_world_id := "alpha"; la_shard := "s0"; la_action := k; la_replica_delta := 1 |}.
Lemma retirement_after_handover_witness :
  Forall (λ i, di_active_sessions i = 0) (dr_instances demo_drained) ∧ replacement_settled demo_drained.
Proof.
  destruct (retirement_after_handover demo_binding demo_observation (demo_lease_action akScaleInPool)
    demo_drained (Some (evaluate_world_transfer (transfer_view demo_drained))) None) as (H1 & H2 & _);
    [apply demo_drained_ok|apply demo_drained_ok|reflexivity|vm_compute; reflexivity|].
  split; assumption.
Defined.

(** A leased action is reported complete only when its goal is reached: for a
    scale-out, the workload spec and the ready pods cover the target and enough
    runtime assignments are published; for readiness recovery, the spec covers
    the target and a pod is ready; for a scale-in, the spec is at or below the
    target and nothing is terminating; and an action is asked for exactly in the
    phases that are neither idle nor complete. *)
Theorem kubernetes_complete_sound (b : KubernetesPoolBinding) (o : KubernetesPoolObservation)
  (l : option TopologyActuationAdapterLeaseAction) (d : option WorldDrainOrchestrationStatus) :
  let st := evaluate_kubernetes_pool_orchestration b o l d in
  (kst_next_action st = knNone ↔ kst_phase st = kpIdle ∨ kst_phase st = kpComplete)
  ∧ (kst_phase st = kpComplete →
     ∃ a, l = Some a ∧
     match la_action a with
     | akScaleOutPool => kb_target_replicas b ≤ ko_current_spec_replicas o
         ∧ kb_target_replicas b ≤ ko_ready_replicas o
         ∧ positive_delta (la_replica_delta a) ≤ ko_assigned_runtime_instances o
     | akRestorePoolReadiness => kb_target_replicas b ≤ ko_current_spec_replicas o
         ∧ ko_ready_replicas o ≠ 0
     | akScaleInPool => ko_current_spec_replicas o ≤ kb_target_replicas b
         ∧ ko_terminating_replicas o ≤ 0
     | akObserveUndeclaredPool => False
     end).
Proof.
  unfold evaluate_kubernetes_pool_orchestration.
  destruct l as [a|]; [|split; [split; [by left|done]|done]].
  destruct (la_action a) eqn:Ha; cbv zeta beta.
  - destruct (Z.ltb_spec (ko_current_spec_replicas o) (kb_target_replicas b)); [split; [by split; [|intros []]|done]|].
    destruct (Z.ltb_spec (ko_ready_replicas o) (kb_target_replicas b)); [split; [by split; [|intros []]|done]|].
    destruct (Z.ltb_spec (ko_assigned_runtime_instances o) (positive_delta (la_replica_delta a)));
      [split; [by split; [|intros []]|done]|].
    split; [split; [by right|done]|]. intros _. exists a. by rewrite Ha.
  - unfold scale_in_step.
    assert (Hret : let r := if (kb_target_replicas b <? ko_current_spec_replicas o)
        || (0 <? ko_terminating_replicas o) then (kpRetireWorkload, knPatchWorkloadRetirement) else (kpComplete, knNone) in
      (r.2 = knNone ↔ r.1 = kpIdle ∨ r.1 = kpComplete) ∧ (r.1 = kpComplete →
        ko_current_spec_replicas o ≤ kb_target_replicas b ∧ ko_terminating_replicas o ≤ 0)).
    { destruct (_ || _) eqn:Hb; simpl; [split; [by split; [|intros []]|done]|].
      split; [split; [by right|done]|]. intros _. lia. }
    cbv zeta in Hret. destruct (if _ || _ then _ else _) as [ph na]. simpl in Hret.
    destruct Hret as [Hr1 Hr2].
    destruct d as [d|]; [destruct (ost_phase d)|]; simpl;
      first [ split; [by split; [|intros []]|done]
            | split; [done|]; intros Hc; exists a; rewrite Ha; auto ].
  - destruct (Z.ltb_spec (ko_current_spec_replicas o) (kb_target_replicas b)); [split; [by split; [|intros []]|done]|].
    destruct (Z.eqb_spec (ko_ready_replicas o) 0); [split; [by split; [|intros []]|done]|].
    split; [split; [by right|done]|]. intros _. exists a. by rewrite Ha.
  - split; [split; [by left|done]|done].
Qed.
