(* ===== verification/Aws.v ===== *)
(** * AWS view of a world pool

    Model of [core/include/server/core/worlds/aws.hpp]: the expansion of a
    Kubernetes pool binding into AWS identities, placement, load balancer and
    managed-dependency names, and the adapter status of a leased action. *)
From S2P Require Import Prelude Containers Text Topology TopologyStatus Kubernetes.
From stdpp Require Import list strings.
Open Scope Z_scope.

Inductive AwsLoadBalancerScheme := kInternal | kInternetFacing.
Inductive AwsLoadBalancerType := kNetwork | kApplication.
Inductive AwsLoadBalancerTargetKind := kIp | kInstance.
#[global] Instance AwsLoadBalancerScheme_eq_dec : EqDecision AwsLoadBalancerScheme.
Proof. solve_decision. Defined.
#[global] Instance AwsLoadBalancerType_eq_dec : EqDecision AwsLoadBalancerType.
Proof. solve_decision. Defined.
#[global] Instance AwsLoadBalancerTargetKind_eq_dec : EqDecision AwsLoadBalancerTargetKind.
Proof. solve_decision. Defined.
Definition aws_load_balancer_scheme_name (scheme : AwsLoadBalancerScheme) : string :=
  match scheme with kInternal => "internal" | kInternetFacing => "internet-facing" end.
Definition parse_aws_load_balancer_scheme (value : string) : option AwsLoadBalancerScheme :=
  if bool_decide (value = "internal") then Some kInternal
  else if bool_decide (value = "internet-facing") then Some kInternetFacing
  else None.
Definition aws_load_balancer_type_name (type : AwsLoadBalancerType) : string :=
  match type with kNetwork => "network" | kApplication => "application" end.
Definition parse_aws_load_balancer_type (value : string) : option AwsLoadBalancerType :=
  if bool_decide (value = "network") || bool_decide (value = "nlb") then Some kNetwork
  else if bool_decide (value = "application") || bool_decide (value = "alb") then Some kApplication
  else None.
Definition aws_load_balancer_target_kind_name (kind : AwsLoadBalancerTargetKind) : string :=
  match kind with kIp => "ip" | kInstance => "instance" end.
Definition parse_aws_load_balancer_target_kind (value : string) : option AwsLoadBalancerTargetKind :=
  if bool_decide (value = "ip") then Some kIp
  else if bool_decide (value = "instance") then Some kInstance
  else None.

Record AwsPlacementTarget := {
  region : string;
  availability_zones : list string;
  subnet_ids : list string;
}.
Record AwsPoolIdentity := {
  id_cluster_name : string;
  id_namespace_name : string;
  id_workload_name : string;
  id_service_name : string;
  id_iam_role_name : string;
}.
Record AwsLoadBalancerAttachment := {
  lb_kubernetes_service_name : string;
  lb_load_balancer_name : string;
  lb_target_group_name : string;
  lb_type : AwsLoadBalancerType;
  lb_scheme : AwsLoadBalancerScheme;
  lb_target_kind : AwsLoadBalancerTargetKind;
  lb_listener_port : Z;
  lb_preserve_client_ip : bool;
}.
Record AwsManagedDependencyConventions := {
  redis_replication_group_id : string;
  redis_subnet_group_name : string;
  postgres_cluster_id : string;
  postgres_subnet_group_name : string;
  postgres_secret_name : string;
}.
Record AwsAdapterDefaults := {
  def_cluster_name : string;
  def_placement : AwsPlacementTarget;
  def_load_balancer_type : AwsLoadBalancerType;
  def_load_balancer_scheme : AwsLoadBalancerScheme;
  def_load_balancer_target_kind : AwsLoadBalancerTargetKind;
  def_listener_port : Z;
  def_preserve_client_ip : bool;
  def_redis_prefix : string;
  def_postgres_prefix : string;
}.
Record AwsPoolBinding := {
  ab_world_id : string;
  ab_shard : string;
  ab_capacity_class : string;
  ab_placement_tags : list string;
  ab_identity : AwsPoolIdentity;
  ab_placement : AwsPlacementTarget;
  ab_load_balancer : AwsLoadBalancerAttachment;
  ab_managed_dependencies : AwsManagedDependencyConventions;
}.
Record AwsLoadBalancerObservation := {
  load_balancer_attached : bool;
  target_group_attached : bool;
  targets_healthy : bool;
}.
Record AwsManagedDependencyObservation := { redis_ready : bool; postgres_ready : bool }.
Inductive AwsPoolAdapterPhase :=
  awIdle | awAwaitLoadBalancerAttachment | awAwaitTargetHealth | awAwaitManagedDependencies
  | awAwaitRuntimeAssignment | awComplete | awStale.
#[global] Instance AwsPoolAdapterPhase_eq_dec : EqDecision AwsPoolAdapterPhase.
Proof. solve_decision. Defined.
Definition aws_pool_adapter_phase_name (phase : AwsPoolAdapterPhase) : string :=
  match phase with
  | awIdle => "idle"
  | awAwaitLoadBalancerAttachment => "await_load_balancer_attachment"
  | awAwaitTargetHealth => "await_target_health"
  | awAwaitManagedDependencies => "await_managed_dependencies"
  | awAwaitRuntimeAssignment => "await_runtime_assignment"
  | awComplete => "complete"
  | awStale => "stale"
  end.
Inductive AwsPoolAdapterNextAction :=
  anNone | anEnsureLoadBalancerAttachment | anWaitForTargetHealth | anEnsureManagedDependencies
  | anPublishRuntimeAssignments.
#[global] Instance AwsPoolAdapterNextAction_eq_dec : EqDecision AwsPoolAdapterNextAction.
Proof. solve_decision. Defined.
Definition aws_pool_adapter_next_action_name (action : AwsPoolAdapterNextAction) : string :=
  match action with
  | anNone => "none"
  | anEnsureLoadBalancerAttachment => "ensure_load_balancer_attachment"
  | anWaitForTargetHealth => "wait_for_target_health"
  | anEnsureManagedDependencies => "ensure_managed_dependencies"
  | anPublishRuntimeAssignments => "publish_runtime_assignments"
  end.
Record AwsPoolAdapterStatusSummary := {
  as_action_present : bool;
  as_load_balancer_ready : bool;
  as_managed_dependencies_ready : bool;
  as_runtime_assignment_satisfied : bool;
  as_assigned_runtime_instances : Z;
  as_required_runtime_assignments : Z;
}.
Record AwsPoolAdapterStatus := {
  ast_world_id : string;
  ast_shard : string;
  ast_requested_action : TopologyActuationActionKind;
  ast_phase : AwsPoolAdapterPhase;
  ast_next_action : AwsPoolAdapterNextAction;
  ast_summary : AwsPoolAdapterStatusSummary;
}.

Fixpoint find_prefixed_world_tag_value (tags : list string) (prefix : string) : option string :=
  match tags with
  | [] => None
  | tag :: tags =>
      match after_prefix prefix tag with
      | Some v => Some v
      | None => find_prefixed_world_tag_value tags prefix
      end
  end.
Definition collect_prefixed_world_tag_values (tags : list string) (prefix : string) : list string :=
  omap (after_prefix prefix) tags.

Definition make_aws_pool_service_name (world_id shard : string) : string :=
  "world-svc-" +:+ sanitize_kubernetes_name_token world_id +:+ "-" +:+ sanitize_kubernetes_name_token shard.
Definition make_aws_pool_iam_role_name (service_name : string) : string := service_name +:+ "-role".

(** [v.empty() ? fallback : v] *)
Definition or_default {A} (v fallback : list A) : list A :=
  match v with [] => fallback | _ => v end.

Definition make_aws_pool_binding (binding : KubernetesPoolBinding) (defaults : AwsAdapterDefaults)
    : AwsPoolBinding :=
  let tags := kb_placement_tags binding in
  let service := make_aws_pool_service_name (kb_world_id binding) (kb_shard binding) in
  let region_ := default (region (def_placement defaults)) (find_prefixed_world_tag_value tags "region:") in
  let zones :=
    or_default (collect_prefixed_world_tag_values tags "az:")
               (collect_prefixed_world_tag_values tags "zone:") in
  let type := match find_prefixed_world_tag_value tags "aws-lb-type:" with
              | Some v => default (def_load_balancer_type defaults) (parse_aws_load_balancer_type v)
              | None => def_load_balancer_type defaults
              end in
  let scheme := match find_prefixed_world_tag_value tags "aws-lb-scheme:" with
                | Some v => default (def_load_balancer_scheme defaults) (parse_aws_load_balancer_scheme v)
                | None => def_load_balancer_scheme defaults
                end in
  let target := match find_prefixed_world_tag_value tags "aws-lb-target:" with
                | Some v => default (def_load_balancer_target_kind defaults)
                              (parse_aws_load_balancer_target_kind v)
                | None => def_load_balancer_target_kind defaults
                end in
  let world_token := sanitize_kubernetes_name_token (kb_world_id binding) in
  let region_token :=
    sanitize_kubernetes_name_token (if bool_decide (region_ = EmptyString) then "global" else region_) in
  let redis := sanitize_kubernetes_name_token (def_redis_prefix defaults) in
  let postgres := sanitize_kubernetes_name_token (def_postgres_prefix defaults) in
  {| ab_world_id := kb_world_id binding; ab_shard := kb_shard binding;
     ab_capacity_class := kb_capacity_class binding; ab_placement_tags := tags;
     ab_identity :=
       {| id_cluster_name := def_cluster_name defaults; id_namespace_name := kb_namespace_name binding;
          id_workload_name := kb_workload_name binding; id_service_name := service;
          id_iam_role_name := make_aws_pool_iam_role_name service |};
     ab_placement :=
       {| region := region_;
          availability_zones := or_default zones (availability_zones (def_placement defaults));
          subnet_ids := or_default (collect_prefixed_world_tag_values tags "subnet:")
                                   (subnet_ids (def_placement defaults)) |};
     ab_load_balancer :=
       {| lb_kubernetes_service_name := service;
          lb_load_balancer_name :=
            (if bool_decide (type = kApplication) then "alb-" else "nlb-") +:+ service;
          lb_target_group_name := "tg-" +:+ service; lb_type := type; lb_scheme := scheme;
          lb_target_kind := target; lb_listener_port := def_listener_port defaults;
          lb_preserve_client_ip := def_preserve_client_ip defaults |};
     ab_managed_dependencies :=
       {| redis_replication_group_id := redis +:+ "-" +:+ world_token;
          redis_subnet_group_name := redis +:+ "-" +:+ region_token +:+ "-subnets";
          postgres_cluster_id := postgres +:+ "-" +:+ world_token;
          postgres_subnet_group_name := postgres +:+ "-" +:+ region_token +:+ "-subnets";
          postgres_secret_name := postgres +:+ "-" +:+ world_token +:+ "-credentials" |} |}.

Definition evaluate_aws_pool_adapter_status (binding : AwsPoolBinding)
    (lb : AwsLoadBalancerObservation) (deps : AwsManagedDependencyObservation)
    (lease_action : option TopologyActuationAdapterLeaseAction)
    (runtime_assignment : option TopologyActuationRuntimeAssignmentDocument) : AwsPoolAdapterStatus :=
  let lb_ready := load_balancer_attached lb && target_group_attached lb && targets_healthy lb in
  let deps_ready := redis_ready deps && postgres_ready deps in
  let mk requested phase next satisfied assigned required :=
    {| ast_world_id := ab_world_id binding; ast_shard := ab_shard binding;
       ast_requested_action := requested; ast_phase := phase; ast_next_action := next;
       ast_summary :=
         {| as_action_present := bool_decide (is_Some lease_action);
            as_load_balancer_ready := lb_ready; as_managed_dependencies_ready := deps_ready;
            as_runtime_assignment_satisfied := satisfied;
            as_assigned_runtime_instances := assigned;
            as_required_runtime_assignments := required |} |} in
  match lease_action with
  | None => mk akObserveUndeclaredPool awIdle anNone false 0 0
  | Some l =>
      let assigned := match runtime_assignment with
                      | Some doc => count_topology_actuation_runtime_assignments doc
                                      (ab_world_id binding) (ab_shard binding) (la_action l)
                      | None => 0
                      end in
      let required := if bool_decide (la_action l = akScaleOutPool)
                      then positive_delta (la_replica_delta l) else 0 in
      let satisfied := required <=? assigned in
      let '(phase, next) :=
        match la_action l with
        | akObserveUndeclaredPool => (awIdle, anNone)
        | akScaleInPool => (awComplete, anNone)
        | akScaleOutPool | akRestorePoolReadiness =>
            if negb (load_balancer_attached lb)
            then (awAwaitLoadBalancerAttachment, anEnsureLoadBalancerAttachment)
            else if negb (target_group_attached lb) || negb (targets_healthy lb)
            then (awAwaitTargetHealth, anWaitForTargetHealth)
            else if negb deps_ready then (awAwaitManagedDependencies, anEnsureManagedDependencies)
            else if negb satisfied then (awAwaitRuntimeAssignment, anPublishRuntimeAssignments)
            else (awComplete, anNone)
        end in
      mk (la_action l) phase next satisfied assigned required
  end.

(** ** Lemmas *)

(** ** Properties *)

(** Placement tags are read exactly.  The collected values of a prefix are, in
    order, the remainders of the tags that start with it, and the single-value
    lookup is the first of them. *)
Theorem prefixed_tags_exact (tags : list string) (prefix : string) :
  (∀ v, v ∈ collect_prefixed_world_tag_values tags prefix ↔ (prefix +:+ v) ∈ tags)
  ∧ find_prefixed_world_tag_value tags prefix = head (collect_prefixed_world_tag_values tags prefix).
Proof.
  unfold collect_prefixed_world_tag_values. split.
  - intros v. rewrite list_elem_of_omap. split.
    + intros (t & Ht & ->%after_prefix_spec). done.
    + intros Ht. exists (prefix +:+ v). split; [done|]. by apply after_prefix_spec.
  - induction tags as [|t tags IH]; [done|]. simpl. destruct (after_prefix prefix t); [done|]. apply IH.
Qed.

(** A leased scale-out or recovery is complete on AWS exactly when the load
    balancer is attached with a healthy target group, both managed dependencies
    are ready and, for a scale-out, at least the requested number of runtime
    assignments names this pool with this action. *)
Theorem aws_complete_iff (b : AwsPoolBinding) (lb : AwsLoadBalancerObservation)
  (deps : AwsManagedDependencyObservation) (l : TopologyActuationAdapterLeaseAction)
  (doc : TopologyActuationRuntimeAssignmentDocument)
  (Hk : la_action l = akScaleOutPool ∨ la_action l = akRestorePoolReadiness)
  (Hlen : Z.of_nat (length (asd_assignments doc)) < 2 ^ 32) :
  ast_phase (evaluate_aws_pool_adapter_status b lb deps (Some l) (Some doc)) = awComplete ↔
  load_balancer_attached lb = true ∧ target_group_attached lb = true ∧ targets_healthy lb = true
  ∧ redis_ready deps = true ∧ postgres_ready deps = true
  ∧ (la_action l = akScaleOutPool →
     positive_delta (la_replica_delta l)
     ≤ Z.of_nat (length (filter (λ a, assignment_for (ab_world_id b) (ab_shard b) akScaleOutPool a = true)
                          (asd_assignments doc)))).
Proof.
  unfold evaluate_aws_pool_adapter_status. rewrite count_assignments_eq.
  set (n := length (filter _ _)).
  assert (Hn : (n ≤ length (asd_assignments doc))%nat) by apply length_filter.
  rewrite u32_small by mach. unfold n in *. clear n.
  destruct (load_balancer_attached lb), (target_group_attached lb), (targets_healthy lb),
    (redis_ready deps), (postgres_ready deps);
    destruct Hk as [Hk|Hk]; rewrite Hk; simpl; try (split; [done|by intros (? & ? & ? & ? & ? & _)]).
  - destruct (Z.leb_spec (positive_delta (la_replica_delta l))
      (Z.of_nat (length (filter (λ a, assignment_for (ab_world_id b) (ab_shard b) akScaleOutPool a = true)
         (asd_assignments doc))))) as [Hle|Hgt]; simpl.
    + split; [by intros _; split_and!|done].
    + split; [done|]. intros (_ & _ & _ & _ & _ & H). specialize (H eq_refl). lia.
  - destruct (Z.leb_spec 0 (Z.of_nat (length (filter (λ a, assignment_for (ab_world_id b) (ab_shard b)
      akRestorePoolReadiness a = true) (asd_assignments doc))))); [|lia]. simpl.
    by split; [intros _; split_and!|].
Qed.

Definition demo_defaults : AwsAdapterDefaults :=
  {| def_cluster_name := "eks"; def_placement := {| region := "us-east-1"; availability_zones := ["b"]; subnet_ids := [] |};
     def_load_balancer_type := kNetwork; def_load_balancer_scheme := kInternal;
     def_load_balancer_target_kind := kIp; def_listener_port := 7000; def_preserve_client_ip := true;
     def_redis_prefix := "dynaxis-redis"; def_postgres_prefix := "dynaxis-pg" |}.
Definition demo_assignments : TopologyActuationRuntimeAssignmentDocument :=
  {| asd_adapter_id := "k8s"; asd_revision := 1; asd_updated_at_ms := 0; asd_lease_revision := 1;
     asd_assignments := [{| asg_instance_id := "i9"; asg_world_id := "alpha"; asg_shard := "s0";
                            asg_action := akScaleOutPool |}] |}.
Lemma aws_complete_iff_witness :
  ast_phase (evaluate_aws_pool_adapter_status (make_aws_pool_binding demo_binding demo_defaults)
    {| load_balancer_attached := true; target_group_attached := true; targets_healthy := true |}
    {| redis_ready := true; postgres_ready := true |} (Some (demo_lease_action akScaleOutPool))
    (Some demo_assignments)) = awComplete.
Proof.
  apply aws_complete_iff; [left; reflexivity|simpl; lia|].
  split_and!; reflexivity.
Defined.

(** An AWS binding respects its tags and stays consistent.  A region tag
    overrides the default region, availability-zone tags take precedence over
    zone tags and both over the default, the load balancer is named after its
    own type, and every generated name is built on the same service name. *)
Theorem aws_binding_consistent (k : KubernetesPoolBinding) (d : AwsAdapterDefaults) :
  let b := make_aws_pool_binding k d in
  let tags := kb_placement_tags k in
  region (ab_placement b) = default (region (def_placement d)) (find_prefixed_world_tag_value tags "region:")
  ∧ (collect_prefixed_world_tag_values tags "az:" ≠ [] →
     availability_zones (ab_placement b) = collect_prefixed_world_tag_values tags "az:")
  ∧ (collect_prefixed_world_tag_values tags "az:" = [] →
     collect_prefixed_world_tag_values tags "zone:" = [] →
     availability_zones (ab_placement b) = availability_zones (def_placement d))
  ∧ lb_load_balancer_name (ab_load_balancer b)
    = (match lb_type (ab_load_balancer b) with kApplication => "alb-" | kNetwork => "nlb-" end)
      +:+ id_service_name (ab_identity b)
  ∧ lb_target_group_name (ab_load_balancer b) = "tg-" +:+ id_service_name (ab_identity b)
  ∧ lb_kubernetes_service_name (ab_load_balancer b) = id_service_name (ab_identity b).
Proof.
  cbv zeta. unfold make_aws_pool_binding. cbn [ab_placement ab_load_balancer ab_identity region
    availability_zones lb_load_balancer_name lb_type lb_target_group_name lb_kubernetes_service_name id_service_name].
  split_and!; [done| | | |done|done].
  - intros Hz. by destruct (collect_prefixed_world_tag_values _ "az:").
  - by intros -> ->.
  - by destruct (match find_prefixed_world_tag_value _ "aws-lb-type:" with Some _ => _ | None => _ end).
Qed.
