(* ===== verification/Runtime.v ===== *)
(** * Realtime world runtime

    Model of [core/include/server/core/realtime/runtime.hpp],
    [simulation_phase.hpp] and [core/src/realtime/runtime.cpp]: the fixed-step
    driver and the authoritative world (inputs, actors, per-viewer replication,
    history).  The mutex makes every public operation atomic, so operations are
    functions on the whole state.  Signed arithmetic is exact: values outside
    the 32-bit range are undefined behaviour in the source. *)
From S2P Require Import Prelude Containers.
From stdpp Require Import list gmap sorting.
Open Scope Z_scope.

(** ** Fixed-step driver *)
Record FixedStepDriver := { step_duration_ : Z; accumulator_ : Z; max_catch_up_steps_ : Z }.
Definition fixed_step_driver_new (tick_rate_hz max_catch_up_steps : Z) : FixedStepDriver :=
  {| step_duration_ := 1000000000 / Z.max 1 tick_rate_hz; accumulator_ := 0;
     max_catch_up_steps_ := Z.max 1 max_catch_up_steps |}.
Definition driver_clear (d : FixedStepDriver) : FixedStepDriver :=
  {| step_duration_ := step_duration_ d; accumulator_ := 0; max_catch_up_steps_ := max_catch_up_steps_ d |}.
(** The [while] loop; [n] is [max_catch_up_steps_ - steps]. *)
Fixpoint consume_loop (n : nat) (step acc : Z) : Z * Z :=
  match n with
  | O => (0, acc)
  | S n =>
      if step <=? acc then let '(steps, acc) := consume_loop n step (acc - step) in (steps + 1, acc)
      else (0, acc)
  end.
Definition consume_elapsed (d : FixedStepDriver) (elapsed : Z) : FixedStepDriver * Z :=
  if elapsed <=? 0 then (d, 0)
  else
    let acc := accumulator_ d + elapsed in
    let max_accumulator := step_duration_ d * max_catch_up_steps_ d in
    let acc := if max_accumulator <? acc then max_accumulator else acc in
    let '(steps, acc) := consume_loop (Z.to_nat (max_catch_up_steps_ d)) (step_duration_ d) acc in
    ({| step_duration_ := step_duration_ d; accumulator_ := acc;
        max_catch_up_steps_ := max_catch_up_steps_ d |}, steps).

(** ** Data *)
Record RuntimeConfig := {
  tick_rate_hz : Z;
  snapshot_refresh_ticks : Z;
  interest_cell_size_mm : Z;
  interest_radius_cells : Z;
  max_interest_recipients_per_tick : Z;
  max_delta_actors_per_tick : Z;
  history_ticks : Z;
}.
Definition default_runtime_config : RuntimeConfig :=
  {| tick_rate_hz := 30; snapshot_refresh_ticks := 30; interest_cell_size_mm := 10000;
     interest_radius_cells := 1; max_interest_recipients_per_tick := 64;
     max_delta_actors_per_tick := 32; history_ticks := 64 |}.
Record InputCommand := { input_seq : Z; move_x_mm : Z; move_y_mm : Z; in_yaw_mdeg : Z }.
Record ActorTransformSample := {
  s_actor_id : Z;
  s_x_mm : Z;
  s_y_mm : Z;
  s_yaw_mdeg : Z;
  s_last_applied_input_seq : Z;
  s_server_tick : Z;
}.
Record RuntimeSnapshot := {
  sn_server_tick : Z;
  sn_tick_total : Z;
  sn_snapshot_total : Z;
  sn_delta_total : Z;
  sn_delta_budget_snapshot_total : Z;
  sn_stale_input_reject_total : Z;
  sn_actor_count : Z;
}.
Inductive StageInputDisposition := kAccepted | kRejectedStale.
Record StageInputResult := {
  disposition : StageInputDisposition;
  target_server_tick : Z;
  result_actor_id : option Z;
}.
Inductive ReplicationKind := kSnapshot | kDelta.
#[global] Instance ReplicationKind_eq_dec : EqDecision ReplicationKind.
Proof. solve_decision. Defined.
Record ReplicationUpdate := {
  u_session_id : Z;
  u_kind : ReplicationKind;
  u_server_tick : Z;
  u_self_actor_id : Z;
  u_actors : list ActorTransformSample;
  u_removed_actor_ids : list Z;
}.
Record RewindQuery := { q_actor_id : Z; q_server_tick : Z }.
Record RewindResult := { rw_sample : ActorTransformSample; rw_exact_tick : bool }.
Inductive SimulationPhase :=
  phTickBegin | phInputsApplied | phActorsAdvanced | phReplicationComputed | phTickEnd.
Record SimulationPhaseContext := {
  ctx_server_tick : Z;
  ctx_actor_count : Z;
  ctx_viewer_count : Z;
  ctx_staged_input_count : Z;
  ctx_replication_update_count : Z;
}.

Record StagedInput := { staged_input : InputCommand; staged_present : bool }.
Record ActorState := {
  a_actor_id : Z;
  a_session_id : Z;
  a_x_mm : Z;
  a_y_mm : Z;
  a_yaw_mdeg : Z;
  a_last_applied_input_seq : Z;
  a_cell_x : Z;
  a_cell_y : Z;
  a_dirty : bool;
  a_history : list ActorTransformSample;
}.
Record ViewerState := {
  v_actor_id : option Z;
  v_visible_actor_ids : gset Z;
  v_snapshot_pending : bool;
  v_last_snapshot_tick : Z;
}.
Record WorldRuntime := {
  wr_config : RuntimeConfig;
  next_actor_id_ : Z;
  server_tick_ : Z;
  tick_total_ : Z;
  snapshot_total_ : Z;
  delta_total_ : Z;
  delta_budget_snapshot_total_ : Z;
  stale_input_reject_total_ : Z;
  staged_inputs_ : gmap Z StagedInput;
  session_to_actor_ : gmap Z Z;
  actors_ : gmap Z ActorState;
  viewers_ : gmap Z ViewerState;
  removed_actor_ids_ : gset Z;
  simulation_phase_observer_ : bool;
}.

(** ** Helpers *)
Definition clamp_i32 (value : Z) : Z :=
  if value <? - 2 ^ 31 then - 2 ^ 31
  else if 2 ^ 31 - 1 <? value then 2 ^ 31 - 1
  else value.
(** Integer division of the source truncates; both operands are non-negative. *)
Definition cell_coord (value_mm cell_size_mm : Z) : Z :=
  if cell_size_mm <=? 0 then 0
  else if 0 <=? value_mm then Z.quot value_mm cell_size_mm
  else - (Z.quot (- value_mm + cell_size_mm - 1) cell_size_mm).

Definition sanitize_config (c : RuntimeConfig) : RuntimeConfig :=
  {| tick_rate_hz := if tick_rate_hz c =? 0 then 30 else tick_rate_hz c;
     snapshot_refresh_ticks := if snapshot_refresh_ticks c =? 0 then 30 else snapshot_refresh_ticks c;
     interest_cell_size_mm := if interest_cell_size_mm c <=? 0 then 10000 else interest_cell_size_mm c;
     interest_radius_cells := if interest_radius_cells c <? 0 then 0 else interest_radius_cells c;
     max_interest_recipients_per_tick :=
       if max_interest_recipients_per_tick c =? 0 then 64 else max_interest_recipients_per_tick c;
     max_delta_actors_per_tick :=
       if max_delta_actors_per_tick c =? 0 then 32 else max_delta_actors_per_tick c;
     history_ticks := if history_ticks c =? 0 then 64 else history_ticks c |}.
Definition world_runtime_new (config : RuntimeConfig) : WorldRuntime :=
  {| wr_config := sanitize_config config; next_actor_id_ := 1; server_tick_ := 0; tick_total_ := 0;
     snapshot_total_ := 0; delta_total_ := 0; delta_budget_snapshot_total_ := 0;
     stale_input_reject_total_ := 0; staged_inputs_ := ∅; session_to_actor_ := ∅; actors_ := ∅;
     viewers_ := ∅; removed_actor_ids_ := ∅; simulation_phase_observer_ := false |}.
Definition set_simulation_phase_observer (w : WorldRuntime) (observer : bool) : WorldRuntime :=
  {| wr_config := wr_config w; next_actor_id_ := next_actor_id_ w; server_tick_ := server_tick_ w;
     tick_total_ := tick_total_ w; snapshot_total_ := snapshot_total_ w; delta_total_ := delta_total_ w;
     delta_budget_snapshot_total_ := delta_budget_snapshot_total_ w;
     stale_input_reject_total_ := stale_input_reject_total_ w; staged_inputs_ := staged_inputs_ w;
     session_to_actor_ := session_to_actor_ w; actors_ := actors_ w; viewers_ := viewers_ w;
     removed_actor_ids_ := removed_actor_ids_ w; simulation_phase_observer_ := observer |}.

Definition update_actor_cells (c : RuntimeConfig) (a : ActorState) : ActorState :=
  {| a_actor_id := a_actor_id a; a_session_id := a_session_id a; a_x_mm := a_x_mm a; a_y_mm := a_y_mm a;
     a_yaw_mdeg := a_yaw_mdeg a; a_last_applied_input_seq := a_last_applied_input_seq a;
     a_cell_x := cell_coord (a_x_mm a) (interest_cell_size_mm c);
     a_cell_y := cell_coord (a_y_mm a) (interest_cell_size_mm c);
     a_dirty := a_dirty a; a_history := a_history a |}.

(** [ensure_actor_for_session] *)
Definition new_actor (c : RuntimeConfig) (actor_id session_id : Z) : ActorState :=
  let a := update_actor_cells c
    {| a_actor_id := actor_id; a_session_id := session_id; a_x_mm := 0; a_y_mm := 0; a_yaw_mdeg := 0;
       a_last_applied_input_seq := 0; a_cell_x := 0; a_cell_y := 0; a_dirty := false; a_history := [] |} in
  {| a_actor_id := a_actor_id a; a_session_id := a_session_id a; a_x_mm := a_x_mm a; a_y_mm := a_y_mm a;
     a_yaw_mdeg := a_yaw_mdeg a; a_last_applied_input_seq := a_last_applied_input_seq a;
     a_cell_x := a_cell_x a; a_cell_y := a_cell_y a; a_dirty := true; a_history := a_history a |}.
(** [viewers_[session_id]] creates a default viewer when there is none. *)
Definition viewer_new : ViewerState :=
  {| v_actor_id := None; v_visible_actor_ids := ∅; v_snapshot_pending := false; v_last_snapshot_tick := 0 |}.
Definition ensure_actor_for_session (w : WorldRuntime) (session_id : Z) : WorldRuntime * Z :=
  match session_to_actor_ w !! session_id with
  | Some actor_id => (w, actor_id)
  | None =>
      let actor_id := next_actor_id_ w in
      let actor := new_actor (wr_config w) actor_id session_id in
      let viewer := default viewer_new (viewers_ w !! session_id) in
      ({| wr_config := wr_config w; next_actor_id_ := next_actor_id_ w +₃₂ 1;
          server_tick_ := server_tick_ w; tick_total_ := tick_total_ w;
          snapshot_total_ := snapshot_total_ w; delta_total_ := delta_total_ w;
          delta_budget_snapshot_total_ := delta_budget_snapshot_total_ w;
          stale_input_reject_total_ := stale_input_reject_total_ w;
          staged_inputs_ := staged_inputs_ w;
          session_to_actor_ := <[session_id := actor_id]> (session_to_actor_ w);
          actors_ := match actors_ w !! actor_id with
                     | Some _ => actors_ w
                     | None => <[actor_id := actor]> (actors_ w)
                     end;
          viewers_ := <[session_id := {| v_actor_id := Some actor_id;
                                         v_visible_actor_ids := v_visible_actor_ids viewer;
                                         v_snapshot_pending := true;
                                         v_last_snapshot_tick := v_last_snapshot_tick viewer |}]> (viewers_ w);
          removed_actor_ids_ := removed_actor_ids_ w;
          simulation_phase_observer_ := simulation_phase_observer_ w |}, actor_id)
  end.

Definition set_staged (w : WorldRuntime) (staged : gmap Z StagedInput) (rejects : Z) : WorldRuntime :=
  {| wr_config := wr_config w; next_actor_id_ := next_actor_id_ w; server_tick_ := server_tick_ w;
     tick_total_ := tick_total_ w; snapshot_total_ := snapshot_total_ w; delta_total_ := delta_total_ w;
     delta_budget_snapshot_total_ := delta_budget_snapshot_total_ w;
     stale_input_reject_total_ := rejects; staged_inputs_ := staged;
     session_to_actor_ := session_to_actor_ w; actors_ := actors_ w; viewers_ := viewers_ w;
     removed_actor_ids_ := removed_actor_ids_ w;
     simulation_phase_observer_ := simulation_phase_observer_ w |}.
Definition no_input : InputCommand := {| input_seq := 0; move_x_mm := 0; move_y_mm := 0; in_yaw_mdeg := 0 |}.
Definition stage_input (w : WorldRuntime) (session_id : Z) (input : InputCommand)
    : WorldRuntime * StageInputResult :=
  let '(w, actor_id) := ensure_actor_for_session w session_id in
  let staged := default {| staged_input := no_input; staged_present := false |}
                        (staged_inputs_ w !! session_id) in
  let result d := {| disposition := d; target_server_tick := server_tick_ w +₃₂ 1;
                     result_actor_id := Some actor_id |} in
  if staged_present staged && (input_seq input <? input_seq (staged_input staged)) then
    (set_staged w (<[session_id := staged]> (staged_inputs_ w)) (stale_input_reject_total_ w +₆₄ 1),
     result kRejectedStale)
  else
    (set_staged w (<[session_id := {| staged_input := input; staged_present := true |}]> (staged_inputs_ w))
       (stale_input_reject_total_ w), result kAccepted).

Definition remove_session (w : WorldRuntime) (session_id : Z) : WorldRuntime :=
  let mk s2a actors removed :=
    {| wr_config := wr_config w; next_actor_id_ := next_actor_id_ w; server_tick_ := server_tick_ w;
       tick_total_ := tick_total_ w; snapshot_total_ := snapshot_total_ w; delta_total_ := delta_total_ w;
       delta_budget_snapshot_total_ := delta_budget_snapshot_total_ w;
       stale_input_reject_total_ := stale_input_reject_total_ w;
       staged_inputs_ := delete session_id (staged_inputs_ w);
       session_to_actor_ := s2a; actors_ := actors; viewers_ := delete session_id (viewers_ w);
       removed_actor_ids_ := removed; simulation_phase_observer_ := simulation_phase_observer_ w |} in
  match session_to_actor_ w !! session_id with
  | None => mk (session_to_actor_ w) (actors_ w) (removed_actor_ids_ w)
  | Some actor_id =>
      mk (delete session_id (session_to_actor_ w)) (delete actor_id (actors_ w))
         ({[actor_id]} ∪ removed_actor_ids_ w)
  end.

(** ** [tick] *)
(** First loop: one session's staged input applied to its actor. *)
Definition apply_input (a : ActorState) (input : InputCommand) : ActorState :=
  {| a_actor_id := a_actor_id a; a_session_id := a_session_id a;
     a_x_mm := clamp_i32 (a_x_mm a + move_x_mm input);
     a_y_mm := clamp_i32 (a_y_mm a + move_y_mm input);
     a_yaw_mdeg := in_yaw_mdeg input; a_last_applied_input_seq := input_seq input;
     a_cell_x := a_cell_x a; a_cell_y := a_cell_y a; a_dirty := true; a_history := a_history a |}.
Definition advance_actor (c : RuntimeConfig) (staged : option StagedInput) (a : ActorState) : ActorState :=
  let a := match staged with
           | Some s =>
               if staged_present s && (a_last_applied_input_seq a <? input_seq (staged_input s))
               then apply_input a (staged_input s) else a
           | None => a
           end in
  update_actor_cells c a.
Definition apply_session_input (c : RuntimeConfig) (staged : gmap Z StagedInput)
    (actors : gmap Z ActorState) (sa : Z * Z) : gmap Z ActorState :=
  alter (advance_actor c (staged !! sa.1)) sa.2 actors.

(** Second loop: one history sample per actor, the oldest dropped. *)
Definition sample_of (tick : Z) (a : ActorState) : ActorTransformSample :=
  {| s_actor_id := a_actor_id a; s_x_mm := a_x_mm a; s_y_mm := a_y_mm a; s_yaw_mdeg := a_yaw_mdeg a;
     s_last_applied_input_seq := a_last_applied_input_seq a; s_server_tick := tick |}.
Definition keep_last {A} (n : Z) (l : list A) : list A := drop (length l - Z.to_nat n) l.
Definition record_history (c : RuntimeConfig) (tick : Z) (a : ActorState) : ActorState :=
  {| a_actor_id := a_actor_id a; a_session_id := a_session_id a; a_x_mm := a_x_mm a; a_y_mm := a_y_mm a;
     a_yaw_mdeg := a_yaw_mdeg a; a_last_applied_input_seq := a_last_applied_input_seq a;
     a_cell_x := a_cell_x a; a_cell_y := a_cell_y a; a_dirty := a_dirty a;
     a_history := keep_last (history_ticks c) (a_history a ++ [sample_of tick a]) |}.
Definition clear_dirty (a : ActorState) : ActorState :=
  {| a_actor_id := a_actor_id a; a_session_id := a_session_id a; a_x_mm := a_x_mm a; a_y_mm := a_y_mm a;
     a_yaw_mdeg := a_yaw_mdeg a; a_last_applied_input_seq := a_last_applied_input_seq a;
     a_cell_x := a_cell_x a; a_cell_y := a_cell_y a; a_dirty := false; a_history := a_history a |}.

(** Third loop: interest of one viewer ... *)
Definition in_interest (c : RuntimeConfig) (viewer a : ActorState) : bool :=
  (Z.abs (a_cell_x a - a_cell_x viewer) <=? interest_radius_cells c)
  && (Z.abs (a_cell_y a - a_cell_y viewer) <=? interest_radius_cells c).
Definition interest_set (c : RuntimeConfig) (actors : gmap Z ActorState) (viewer : ActorState) : gset Z :=
  {[a_actor_id viewer]}
  ∪ dom (filter (λ ka, ka.1 ≠ a_actor_id viewer ∧ in_interest c viewer ka.2 = true) actors).
Definition limit_interest (limit : Z) (self : Z) (desired : gset Z) : gset Z :=
  if limit <? Z.of_nat (size desired) then
    foldl (λ limited actor_id,
      if limit <=? Z.of_nat (size limited) then limited else {[actor_id]} ∪ limited)
      {[self]} (ascending desired)
  else desired.
(** ... what it no longer sees ... *)
Definition removed_for (visible desired removed : gset Z) : list Z :=
  let gone := filter (λ id, id ∉ desired) (ascending visible) in
  foldl (λ acc id, if bool_decide (id ∈ visible) && negb (bool_decide (id ∈ acc)) then acc ++ [id] else acc)
    gone (ascending removed).
(** ... and its update. *)
Definition samples (tick : Z) (actors : gmap Z ActorState) (ids : gset Z) : list ActorTransformSample :=
  omap (λ id, sample_of tick <$> actors !! id) (ascending ids).
Definition dirty_samples (tick : Z) (actors : gmap Z ActorState) (ids : gset Z) : list ActorTransformSample :=
  omap (λ id, match actors !! id with
              | Some a => if a_dirty a then Some (sample_of tick a) else None
              | None => None
              end) (ascending ids).

(** Counters touched by the replication loop. *)
Record ReplicationCounters := { rc_snapshot : Z; rc_delta : Z; rc_budget : Z }.
Definition replicate_viewer (c : RuntimeConfig) (tick : Z) (actors : gmap Z ActorState)
    (removed : gset Z) (session_id : Z) (viewer : ViewerState) (n : ReplicationCounters)
    : ViewerState * option ReplicationUpdate * ReplicationCounters :=
  match viewer_actor ← v_actor_id viewer; actors !! viewer_actor with
  | None => (viewer, None, n)
  | Some viewer_actor =>
      let desired := limit_interest (max_interest_recipients_per_tick c) (a_actor_id viewer_actor)
                       (interest_set c actors viewer_actor) in
      let removed_ids := removed_for (v_visible_actor_ids viewer) desired removed in
      let pending := v_snapshot_pending viewer
        || negb (bool_decide (desired = v_visible_actor_ids viewer))
        || ((v_last_snapshot_tick viewer =? 0)
            || (snapshot_refresh_ticks c <=? tick -₃₂ v_last_snapshot_tick viewer)) in
      let dirty := dirty_samples tick actors desired in
      let over_budget := negb pending && (max_delta_actors_per_tick c <? Z.of_nat (length dirty)) in
      let budget := if over_budget then rc_budget n +₆₄ 1 else rc_budget n in
      if pending || over_budget then
        ({| v_actor_id := v_actor_id viewer; v_visible_actor_ids := desired;
            v_snapshot_pending := false; v_last_snapshot_tick := tick |},
         Some {| u_session_id := session_id; u_kind := kSnapshot; u_server_tick := tick;
                 u_self_actor_id := a_actor_id viewer_actor;
                 u_actors := samples tick actors desired; u_removed_actor_ids := removed_ids |},
         {| rc_snapshot := rc_snapshot n +₆₄ 1; rc_delta := rc_delta n; rc_budget := budget |})
      else
        let viewer' := {| v_actor_id := v_actor_id viewer; v_visible_actor_ids := desired;
                          v_snapshot_pending := false;
                          v_last_snapshot_tick := v_last_snapshot_tick viewer |} in
        if negb (length dirty =? 0)%nat || negb (length removed_ids =? 0)%nat then
          (viewer',
           Some {| u_session_id := session_id; u_kind := kDelta; u_server_tick := tick;
                   u_self_actor_id := a_actor_id viewer_actor;
                   u_actors := dirty; u_removed_actor_ids := removed_ids |},
           {| rc_snapshot := rc_snapshot n; rc_delta := rc_delta n +₆₄ 1; rc_budget := budget |})
        else (viewer', None, n)
  end.
Definition replicate_step (c : RuntimeConfig) (tick : Z) (actors : gmap Z ActorState) (removed : gset Z)
    (st : gmap Z ViewerState * list ReplicationUpdate * ReplicationCounters) (sv : Z * ViewerState)
    : gmap Z ViewerState * list ReplicationUpdate * ReplicationCounters :=
  let '(viewers, outbound, n) := st in
  let '(viewer, update, n) := replicate_viewer c tick actors removed sv.1 sv.2 n in
  (<[sv.1 := viewer]> viewers, outbound ++ option_list update, n).

(** The observer is called after the lock is released, with the captured events. *)
Definition phase_context (tick : Z) (actors : gmap Z ActorState) (w : WorldRuntime) (updates : Z)
    : SimulationPhaseContext :=
  {| ctx_server_tick := tick; ctx_actor_count := Z.of_nat (size actors);
     ctx_viewer_count := Z.of_nat (size (viewers_ w));
     ctx_staged_input_count := Z.of_nat (size (staged_inputs_ w));
     ctx_replication_update_count := updates |}.
Definition tick `{!MapIteration Z} (w : WorldRuntime)
    : WorldRuntime * list ReplicationUpdate * list (SimulationPhase * SimulationPhaseContext) :=
  let c := wr_config w in
  let now := server_tick_ w +₃₂ 1 in
  let actors1 :=
    foldl (apply_session_input c (staged_inputs_ w)) (actors_ w) (iterate (session_to_actor_ w)) in
  let actors2 := record_history c now <$> actors1 in
  let '(viewers, outbound, n) :=
    foldl (replicate_step c now actors2 (removed_actor_ids_ w))
      (viewers_ w, [], {| rc_snapshot := snapshot_total_ w; rc_delta := delta_total_ w;
                          rc_budget := delta_budget_snapshot_total_ w |})
      (iterate (viewers_ w)) in
  let actors3 := clear_dirty <$> actors2 in
  let updates := Z.of_nat (length outbound) in
  let events :=
    if simulation_phase_observer_ w then
      [(phTickBegin, phase_context now (actors_ w) w 0);
       (phInputsApplied, phase_context now actors1 w 0);
       (phActorsAdvanced, phase_context now actors2 w 0);
       (phReplicationComputed, phase_context now actors2 w updates);
       (phTickEnd, phase_context now actors3 w updates)]
    else [] in
  ({| wr_config := c; next_actor_id_ := next_actor_id_ w; server_tick_ := now;
      tick_total_ := tick_total_ w +₆₄ 1; snapshot_total_ := rc_snapshot n; delta_total_ := rc_delta n;
      delta_budget_snapshot_total_ := rc_budget n;
      stale_input_reject_total_ := stale_input_reject_total_ w; staged_inputs_ := staged_inputs_ w;
      session_to_actor_ := session_to_actor_ w; actors_ := actors3; viewers_ := viewers;
      removed_actor_ids_ := ∅; simulation_phase_observer_ := simulation_phase_observer_ w |},
   outbound, events).

(** ** Queries *)
Definition rewind_at_or_before (w : WorldRuntime) (query : RewindQuery) : option RewindResult :=
  match actors_ w !! q_actor_id query with
  | None => None
  | Some a =>
      match list_find (λ s, s_server_tick s ≤ q_server_tick query) (reverse (a_history a)) with
      | Some (_, s) => Some {| rw_sample := s; rw_exact_tick := s_server_tick s =? q_server_tick query |}
      | None => None
      end
  end.
Definition actor_id_for_session (w : WorldRuntime) (session_id : Z) : option Z :=
  session_to_actor_ w !! session_id.
Definition snapshot (w : WorldRuntime) : RuntimeSnapshot :=
  {| sn_server_tick := server_tick_ w; sn_tick_total := tick_total_ w;
     sn_snapshot_total := snapshot_total_ w; sn_delta_total := delta_total_ w;
     sn_delta_budget_snapshot_total := delta_budget_snapshot_total_ w;
     sn_stale_input_reject_total := stale_input_reject_total_ w;
     sn_actor_count := Z.of_nat (size (actors_ w)) |}.

(** ** Well-formed worlds *)
Record world_ok (w : WorldRuntime) : Prop := {
  wo_sessions : ∀ s a, session_to_actor_ w !! s = Some a →
    ∃ st, actors_ w !! a = Some st ∧ a_session_id st = s;
  wo_actors : ∀ a st, actors_ w !! a = Some st →
    a_actor_id st = a ∧ session_to_actor_ w !! a_session_id st = Some a ∧ a < next_actor_id_ w;
  wo_viewers : ∀ s v, viewers_ w !! s = Some v →
    ∃ a, v_actor_id v = Some a ∧ session_to_actor_ w !! s = Some a;
  wo_sessions_view : ∀ s a, session_to_actor_ w !! s = Some a → is_Some (viewers_ w !! s);
  wo_removed : ∀ a, a ∈ removed_actor_ids_ w → a < next_actor_id_ w ∧ actors_ w !! a = None;
  wo_visible : ∀ s v a, viewers_ w !! s = Some v → a ∈ v_visible_actor_ids v → a < next_actor_id_ w;
  wo_next : 1 ≤ next_actor_id_ w;
  wo_limit : 1 ≤ max_interest_recipients_per_tick (wr_config w);
}.

(** ** Operation sequences and client replicas *)
Inductive WorldOp :=
  | WStage (session_id : Z) (input : InputCommand)
  | WRemove (session_id : Z)
  | WTick.

(** What a client holds about an actor. *)
Definition Transform : Type := Z * Z * Z * Z.
Definition transform (a : ActorState) : Transform :=
  (a_x_mm a, a_y_mm a, a_yaw_mdeg a, a_last_applied_input_seq a).
Definition sample_transform (s : ActorTransformSample) : Transform :=
  (s_x_mm s, s_y_mm s, s_yaw_mdeg s, s_last_applied_input_seq s).
(** A snapshot replaces a client's replica; a delta drops the removed actors and
    overwrites the ones it carries. *)
Definition apply_samples (m : gmap Z Transform) (l : list ActorTransformSample) : gmap Z Transform :=
  foldl (λ m s, <[s_actor_id s := sample_transform s]> m) m l.
Definition apply_update (m : gmap Z Transform) (u : ReplicationUpdate) : gmap Z Transform :=
  match u_kind u with
  | kSnapshot => apply_samples ∅ (u_actors u)
  | kDelta => apply_samples (foldl (λ m id, delete id m) m (u_removed_actor_ids u)) (u_actors u)
  end.
Definition replica (cm : gmap Z (gmap Z Transform)) (session : Z) : gmap Z Transform :=
  default ∅ (cm !! session).
Definition deliver (cm : gmap Z (gmap Z Transform)) (u : ReplicationUpdate) : gmap Z (gmap Z Transform) :=
  <[u_session_id u := apply_update (replica cm (u_session_id u)) u]> cm.

Definition world_exec `{!MapIteration Z} (st : WorldRuntime * gmap Z (gmap Z Transform)) (op : WorldOp)
    : WorldRuntime * gmap Z (gmap Z Transform) :=
  let '(w, cm) := st in
  match op with
  | WStage s i => ((stage_input w s i).1, cm)
  | WRemove s => (remove_session w s, delete s cm)
  | WTick => let '(w', out, _) := tick w in (w', foldl deliver cm out)
  end.
Definition run_world `{!MapIteration Z} (config : RuntimeConfig) (ops : list WorldOp)
    : WorldRuntime * gmap Z (gmap Z Transform) :=
  foldl world_exec (world_runtime_new config, ∅) ops.

(** ** Lemmas: fixed-step driver *)
Lemma consume_loop_spec n step : 0 < step → ∀ acc, 0 ≤ acc →
  let '(steps, acc') := consume_loop n step acc in
  steps = Z.min (Z.of_nat n) (acc / step) ∧ acc = steps * step + acc'.
Proof.
  intros Hs. induction n as [|n IH]; intros acc Ha; cbn [consume_loop].
  { assert (0 ≤ acc / step) by (apply Z.div_pos; lia). split; lia. }
  destruct (Z.leb_spec step acc) as [Hle|Hgt].
  - specialize (IH (acc - step) ltac:(lia)). destruct (consume_loop n step (acc - step)) as [k acc'].
    destruct IH as [-> Heq].
    assert (Hd : (acc - step) / step = acc / step - 1).
    { replace (acc - step) with (acc + (-1) * step) by lia. rewrite Z.div_add by lia. lia. }
    rewrite Hd in *. split; lia.
  - rewrite Z.div_small by lia. split; lia.
Qed.

(** ** Lemmas: interest *)
Lemma cell_coord_floor v s : 0 < s → cell_coord v s = v / s.
Proof.
  intros Hs. unfold cell_coord. destruct (Z.leb_spec s 0); [lia|].
  destruct (Z.leb_spec 0 v); [by rewrite Z.quot_div_nonneg by lia|].
  rewrite Z.quot_div_nonneg by lia.
  rewrite <- (Z.opp_involutive (v / s)). f_equal.
  pose proof (Z.div_mod v s ltac:(lia)). pose proof (Z.mod_pos_bound v s ltac:(lia)).
  symmetry. apply (Z.div_unique _ _ _ (s - 1 - v mod s)); lia.
Qed.

Lemma interest_set_elem c actors v id : 
  id ∈ interest_set c actors v ↔ id = a_actor_id v
    ∨ (id ≠ a_actor_id v ∧ ∃ a, actors !! id = Some a ∧ in_interest c v a = true).
Proof.
  unfold interest_set. rewrite elem_of_union, elem_of_singleton, elem_of_dom. f_equiv. split.
  - intros [a Ha]. apply map_lookup_filter_Some in Ha as (? & ? & ?). eauto.
  - intros (? & a & Ha & ?). exists a. by apply map_lookup_filter_Some.
Qed.

Definition limit_step (limit : Z) (limited : gset Z) (id : Z) : gset Z :=
  if limit <=? Z.of_nat (size limited) then limited else {[id]} ∪ limited.
Lemma limit_fold_spec limit l : ∀ acc, Z.of_nat (size acc) ≤ limit →
  acc ⊆ foldl (limit_step limit) acc l ∧ foldl (limit_step limit) acc l ⊆ acc ∪ list_to_set l
  ∧ Z.of_nat (size (foldl (limit_step limit) acc l)) ≤ limit.
Proof.
  induction l as [|x l IH]; intros acc Hacc; simpl; [set_solver|].
  unfold limit_step at 2 4 6. destruct (Z.leb_spec limit (Z.of_nat (size acc))).
  - destruct (IH acc Hacc) as (? & ? & ?). split_and!; [done|set_solver|done].
  - destruct (IH ({[x]} ∪ acc)) as (? & ? & ?).
    + pose proof (size_union_alt {[x]} acc). pose proof (subseteq_size (acc ∖ {[x]}) acc ltac:(set_solver)).
      rewrite size_singleton in *. lia.
    + split_and!; [set_solver|set_solver|done].
Qed.
Lemma limit_interest_spec limit self desired : 1 ≤ limit → self ∈ desired →
  let r := limit_interest limit self desired in
  self ∈ r ∧ r ⊆ desired ∧ Z.of_nat (size r) ≤ limit ∧ (Z.of_nat (size desired) ≤ limit → r = desired).
Proof.
  intros Hl Hs. cbv zeta. unfold limit_interest. fold (limit_step limit).
  destruct (Z.ltb_spec limit (Z.of_nat (size desired))) as [Hlt|Hge]; [|by split_and!].
  destruct (limit_fold_spec limit (ascending desired) {[self]}) as (H1 & H2 & H3).
  { rewrite size_singleton. lia. }
  split_and!; [set_solver| |done|lia].
  intros x Hx. apply H2 in Hx. rewrite elem_of_union, elem_of_list_to_set, elem_of_ascending in Hx. set_solver.
Qed.

(** ** Lemmas: applying inputs *)
Lemma apply_inputs_other c staged l : ∀ m id, id ∉ l.*2 →
  foldl (apply_session_input c staged) m l !! id = m !! id.
Proof.
  induction l as [|[s a] l IH]; intros m id Hid; simpl; [done|].
  apply not_elem_of_cons in Hid as [Hne Hid]. rewrite IH by done.
  unfold apply_session_input. simpl. by rewrite lookup_alter_ne.
Qed.
Lemma apply_inputs_own c staged l : ∀ m s id, NoDup l.*2 → (s, id) ∈ l →
  foldl (apply_session_input c staged) m l !! id = advance_actor c (staged !! s) <$> m !! id.
Proof.
  induction l as [|[s' a] l IH]; intros m s id Hnd Hin; simpl; [by apply not_elem_of_nil in Hin|].
  apply NoDup_cons in Hnd as [Hni Hnd]. apply elem_of_cons in Hin as [[= -> ->]|Hin].
  - rewrite apply_inputs_other by done. unfold apply_session_input. simpl. by rewrite lookup_alter_eq.
  - rewrite (IH _ s) by done. unfold apply_session_input. simpl. rewrite lookup_alter_ne; [done|].
    intros ->. apply Hni. by apply (list_elem_of_fmap_2 snd _ (s, id)).
Qed.

Section Tick.
Context `{!MapIteration Z}.

(** Distinct sessions have distinct actors, so the order does not matter. *)
Lemma session_actors_nodup w : world_ok w → NoDup (iterate (session_to_actor_ w)).*2.
Proof.
  intros Hw. rewrite (iterate_perm _ (session_to_actor_ w)).
  apply NoDup_fmap_2_strong; [|apply NoDup_map_to_list].
  intros [s1 a1] [s2 a2] H1 H2 Heq. simpl in Heq. subst a2.
  apply elem_of_map_to_list in H1, H2.
  destruct (wo_sessions _ Hw _ _ H1) as (st1 & Hst1 & <-).
  destruct (wo_sessions _ Hw _ _ H2) as (st2 & Hst2 & <-). congruence.
Qed.

Definition advanced (w : WorldRuntime) : gmap Z ActorState :=
  foldl (apply_session_input (wr_config w) (staged_inputs_ w)) (actors_ w) (iterate (session_to_actor_ w)).
Lemma advanced_lookup w id : world_ok w →
  advanced w !! id = (λ a, advance_actor (wr_config w) (staged_inputs_ w !! a_session_id a) a) <$> actors_ w !! id.
Proof.
  intros Hw. unfold advanced. destruct (actors_ w !! id) as [st|] eqn:Hst.
  - destruct (wo_actors _ Hw _ _ Hst) as (Hid & Hs & _).
    rewrite (apply_inputs_own _ _ _ _ (a_session_id st)); [by rewrite Hst|by apply session_actors_nodup|].
    by apply elem_of_iterate.
  - rewrite apply_inputs_other; [done|]. intros Hin.
    apply list_elem_of_fmap in Hin as ([s a] & Heq & Hin). simpl in Heq. subst a.
    apply elem_of_iterate in Hin. apply (wo_sessions _ Hw) in Hin as (st & ? & _). congruence.
Qed.

(** The actors the replication loop works on. *)
Definition ticked (w : WorldRuntime) : gmap Z ActorState :=
  record_history (wr_config w) (server_tick_ w +₃₂ 1) <$> advanced w.
Definition tick_actor (w : WorldRuntime) (a : ActorState) : ActorState :=
  record_history (wr_config w) (server_tick_ w +₃₂ 1)
    (advance_actor (wr_config w) (staged_inputs_ w !! a_session_id a) a).
Lemma ticked_lookup w id : world_ok w → ticked w !! id = tick_actor w <$> actors_ w !! id.
Proof.
  intros Hw. unfold ticked. rewrite lookup_fmap, advanced_lookup by done. by destruct (actors_ w !! id).
Qed.
Lemma tick_actor_ids w a : a_actor_id (tick_actor w a) = a_actor_id a
  ∧ a_session_id (tick_actor w a) = a_session_id a.
Proof. unfold tick_actor, advance_actor. repeat case_match; done. Qed.
(** An actor that is not dirty has not moved since the previous tick. *)
Lemma tick_actor_clean w a : a_dirty (tick_actor w a) = false →
  transform (tick_actor w a) = transform a.
Proof. unfold tick_actor, advance_actor. repeat case_match; done. Qed.

(** The replication loop treats viewers independently. *)
Lemma replicate_viewer_counters c now actors removed s v n n' :
  (replicate_viewer c now actors removed s v n).1 = (replicate_viewer c now actors removed s v n').1.
Proof. unfold replicate_viewer. by repeat case_match. Qed.
Definition viewer_result (w : WorldRuntime) (s : Z) (v : ViewerState) : ViewerState * option ReplicationUpdate :=
  (replicate_viewer (wr_config w) (server_tick_ w +₃₂ 1) (ticked w) (removed_actor_ids_ w) s v
     {| rc_snapshot := 0; rc_delta := 0; rc_budget := 0 |}).1.

Definition put_viewer (w : WorldRuntime) (vs : gmap Z ViewerState) (sv : Z * ViewerState) : gmap Z ViewerState :=
  <[sv.1 := (viewer_result w sv.1 sv.2).1]> vs.
Lemma replicate_step_result w vs out n s v : ∃ n',
  replicate_step (wr_config w) (server_tick_ w +₃₂ 1) (ticked w) (removed_actor_ids_ w) (vs, out, n) (s, v)
  = (<[s := (viewer_result w s v).1]> vs, out ++ option_list (viewer_result w s v).2, n').
Proof.
  unfold viewer_result. rewrite (replicate_viewer_counters _ _ _ _ s v _ n).
  unfold replicate_step. simpl.
  destruct (replicate_viewer _ _ _ _ s v n) as [[v' u] n']. by exists n'.
Qed.
Lemma replicate_fold w l : ∀ vs out n,
  let r := foldl (replicate_step (wr_config w) (server_tick_ w +₃₂ 1) (ticked w) (removed_actor_ids_ w)) (vs, out, n) l in
  r.1.1 = foldl (put_viewer w) vs l
  ∧ r.1.2 = out ++ omap (λ sv, (viewer_result w sv.1 sv.2).2) l.
Proof.
  induction l as [|[s v] l IH]; intros vs out n; cbv zeta; cbn [foldl]; [by rewrite app_nil_r|].
  destruct (replicate_step_result w vs out n s v) as [n' ->].
  destruct (IH (<[s := (viewer_result w s v).1]> vs) (out ++ option_list (viewer_result w s v).2) n') as [-> ->].
  split; [done|]. rewrite <- app_assoc. simpl. by destruct (viewer_result w s v).2.
Qed.
Lemma put_viewers_other w l : ∀ vs s, s ∉ l.*1 → foldl (put_viewer w) vs l !! s = vs !! s.
Proof.
  induction l as [|[s' v] l IH]; intros vs s Hni; [done|]. cbn [foldl].
  apply not_elem_of_cons in Hni as [Hne Hni]. rewrite IH by done.
  unfold put_viewer. simpl in *. by rewrite lookup_insert_ne.
Qed.
Lemma put_viewers_own w l : ∀ vs s v, NoDup l.*1 → (s, v) ∈ l →
  foldl (put_viewer w) vs l !! s = Some (viewer_result w s v).1.
Proof.
  induction l as [|[s' v'] l IH]; intros vs s v Hnd Hin; [by apply not_elem_of_nil in Hin|].
  cbn [foldl]. rewrite fmap_cons in Hnd. apply NoDup_cons in Hnd as [Hni Hnd].
  apply elem_of_cons in Hin as [[= -> ->]|Hin]; [|by apply IH].
  rewrite put_viewers_other by done. unfold put_viewer. simpl. by rewrite lookup_insert_eq.
Qed.

(** ** Lemmas: the three results of a tick *)
Lemma tick_eq w : let r := tick w in
  r.1.1 = {| wr_config := wr_config w; next_actor_id_ := next_actor_id_ w; server_tick_ := server_tick_ w +₃₂ 1;
      tick_total_ := tick_total_ w +₆₄ 1; snapshot_total_ := snapshot_total_ r.1.1;
      delta_total_ := delta_total_ r.1.1;
      delta_budget_snapshot_total_ := delta_budget_snapshot_total_ r.1.1;
      stale_input_reject_total_ := stale_input_reject_total_ w; staged_inputs_ := staged_inputs_ w;
      session_to_actor_ := session_to_actor_ w; actors_ := clear_dirty <$> ticked w;
      viewers_ := foldl (put_viewer w) (viewers_ w) (iterate (viewers_ w));
      removed_actor_ids_ := ∅; simulation_phase_observer_ := simulation_phase_observer_ w |}
  ∧ r.1.2 = omap (λ sv, (viewer_result w sv.1 sv.2).2) (iterate (viewers_ w)).
Proof.
  cbv zeta. unfold tick. fold (advanced w). fold (ticked w).
  destruct (replicate_fold w (iterate (viewers_ w)) (viewers_ w) []
    {| rc_snapshot := snapshot_total_ w; rc_delta := delta_total_ w; rc_budget := delta_budget_snapshot_total_ w |})
    as [Hv Ho].
  destruct (foldl _ _ (iterate (viewers_ w))) as [[vs out] n]. simpl in *. subst. done.
Qed.
Definition ticked_world (w : WorldRuntime) : WorldRuntime := (tick w).1.1.
Lemma tick_actors w id : world_ok w →
  actors_ (ticked_world w) !! id = (λ a, clear_dirty (tick_actor w a)) <$> actors_ w !! id.
Proof.
  intros Hw. unfold ticked_world. rewrite (proj1 (tick_eq w)). simpl.
  rewrite lookup_fmap, ticked_lookup by done. by destruct (actors_ w !! id).
Qed.
Lemma tick_viewers w s :
  viewers_ (ticked_world w) !! s = (λ v, (viewer_result w s v).1) <$> viewers_ w !! s.
Proof.
  unfold ticked_world. rewrite (proj1 (tick_eq w)). simpl. destruct (viewers_ w !! s) as [v|] eqn:Hv.
  - apply put_viewers_own; [apply iterate_keys_nodup|by apply elem_of_iterate].
  - rewrite put_viewers_other; [done|]. intros Hin.
    apply list_elem_of_fmap in Hin as ([s' v] & Heq & Hin). simpl in Heq. subst s'.
    apply elem_of_iterate in Hin. congruence.
Qed.
Lemma viewer_result_session w s v u : (viewer_result w s v).2 = Some u → u_session_id u = s.
Proof.
  unfold viewer_result, replicate_viewer. intros H. repeat case_match; simpl in *; by simplify_eq.
Qed.
Definition receive (m : gmap Z Transform) (u : option ReplicationUpdate) : gmap Z Transform :=
  match u with Some u => apply_update m u | None => m end.
Lemma deliver_other w l : ∀ cm s, s ∉ l.*1 →
  foldl deliver cm (omap (λ sv, (viewer_result w sv.1 sv.2).2) l) !! s = cm !! s.
Proof.
  induction l as [|[s' v] l IH]; intros cm s Hni; [done|].
  apply not_elem_of_cons in Hni as [Hne Hni]. simpl in *.
  destruct ((viewer_result w s' v).2) as [u|] eqn:Hu; [|by apply IH].
  simpl. rewrite IH by done. unfold deliver. rewrite (viewer_result_session _ _ _ _ Hu).
  by rewrite lookup_insert_ne.
Qed.
Lemma deliver_own w l : ∀ cm s v, NoDup l.*1 → (s, v) ∈ l →
  replica (foldl deliver cm (omap (λ sv, (viewer_result w sv.1 sv.2).2) l)) s
  = receive (replica cm s) (viewer_result w s v).2.
Proof.
  induction l as [|[s' v'] l IH]; intros cm s v Hnd Hin; [by apply not_elem_of_nil in Hin|].
  rewrite fmap_cons in Hnd. apply NoDup_cons in Hnd as [Hni Hnd]. simpl in *.
  apply elem_of_cons in Hin as [[= -> ->]|Hin].
  - destruct ((viewer_result w s' v').2) as [u|] eqn:Hu; simpl; unfold replica at 1;
      rewrite deliver_other by done; [|done].
    unfold deliver. rewrite (viewer_result_session _ _ _ _ Hu). by rewrite lookup_insert_eq.
  - destruct ((viewer_result w s' v').2) as [u|] eqn:Hu; simpl; rewrite (IH _ s v) by done; [|done].
    f_equal. unfold deliver, replica. rewrite (viewer_result_session _ _ _ _ Hu).
    rewrite lookup_insert_ne; [done|]. intros ->. apply Hni.
    by apply (list_elem_of_fmap_2 fst _ (s, v)).
Qed.
Lemma tick_replica w cm s v : viewers_ w !! s = Some v →
  replica (foldl deliver cm (tick w).1.2) s = receive (replica cm s) (viewer_result w s v).2.
Proof.
  intros Hv. rewrite (proj2 (tick_eq w)). apply deliver_own; [apply iterate_keys_nodup|by apply elem_of_iterate].
Qed.

(** ** Lemmas: a viewer after its update *)
Lemma apply_samples_omap (f : Z → option ActorTransformSample) ids :
  (∀ i s, f i = Some s → s_actor_id s = i) → ∀ m id,
  apply_samples m (omap f ids) !! id
  = match (if decide (id ∈ ids) then f id else None) with
    | Some s => Some (sample_transform s)
    | None => m !! id
    end.
Proof.
  intros Hf. unfold apply_samples. induction ids as [|i ids IH]; intros m id; [done|]. simpl.
  destruct (f i) as [s|] eqn:Hi; simpl; rewrite IH.
  - apply Hf in Hi as Hsi. rewrite Hsi. destruct (decide (id = i)) as [->|Hne].
    + rewrite (decide_True (P := i ∈ i :: ids)) by set_solver. rewrite lookup_insert_eq.
      destruct (decide (i ∈ ids)); by rewrite Hi.
    + rewrite lookup_insert_ne by done. by rewrite (decide_ext (id ∈ i :: ids) (id ∈ ids)) by set_solver.
  - destruct (decide (id = i)) as [->|Hne].
    + rewrite Hi. by destruct (decide (i ∈ ids)), (decide (i ∈ i :: ids)).
    + by rewrite (decide_ext (id ∈ i :: ids) (id ∈ ids)) by set_solver.
Qed.

Section Viewer.
Context (w : WorldRuntime) (Hw : world_ok w).

Lemma ticked_id id a : ticked w !! id = Some a → a_actor_id a = id.
Proof.
  rewrite ticked_lookup by done. intros (a0 & Ha0 & ->)%fmap_Some.
  rewrite (proj1 (tick_actor_ids w a0)). by apply (wo_actors _ Hw) in Ha0 as (? & _).
Qed.
Lemma snapshot_lookup now ids id :
  apply_samples ∅ (samples now (ticked w) ids) !! id
  = if decide (id ∈ ids) then transform <$> ticked w !! id else None.
Proof.
  unfold samples. rewrite apply_samples_omap.
  - rewrite (decide_ext _ (id ∈ ids)) by apply elem_of_ascending.
    destruct (decide (id ∈ ids)); [|done]. by destruct (ticked w !! id).
  - intros i s (a & Ha & ->)%fmap_Some. simpl. by apply ticked_id.
Qed.
Lemma delta_lookup now ids m id :
  apply_samples m (dirty_samples now (ticked w) ids) !! id
  = match ticked w !! id with
    | Some a => if decide (id ∈ ids) then (if a_dirty a then Some (transform a) else m !! id) else m !! id
    | None => m !! id
    end.
Proof.
  unfold dirty_samples. rewrite apply_samples_omap.
  - rewrite (decide_ext _ (id ∈ ids)) by apply elem_of_ascending.
    destruct (decide (id ∈ ids)); destruct (ticked w !! id) as [a|]; try done. by destruct (a_dirty a).
  - intros i s Hs. destruct (ticked w !! i) as [a|] eqn:Ha; [|done].
    destruct (a_dirty a); simplify_eq. simpl. by apply ticked_id.
Qed.

(** The actors in view of an actor after the tick. *)
Definition desired_of (va : ActorState) : gset Z :=
  limit_interest (max_interest_recipients_per_tick (wr_config w)) (a_actor_id va)
    (interest_set (wr_config w) (ticked w) va).
Lemma desired_spec a va : ticked w !! a = Some va →
  a ∈ desired_of va ∧ desired_of va ⊆ dom (ticked w)
  ∧ Z.of_nat (size (desired_of va)) ≤ max_interest_recipients_per_tick (wr_config w).
Proof.
  intros Hva. pose proof (ticked_id _ _ Hva) as Hid.
  destruct (limit_interest_spec (max_interest_recipients_per_tick (wr_config w)) (a_actor_id va)
    (interest_set (wr_config w) (ticked w) va)) as (H1 & H2 & H3 & _);
    [apply (wo_limit _ Hw)|apply interest_set_elem; by left|].
  fold (desired_of va) in *. rewrite Hid in H1. split_and!; [done| |done].
  intros id Hin. apply H2, interest_set_elem in Hin. apply elem_of_dom.
  destruct Hin as [->|(_ & a' & Ha' & _)]; [rewrite Hid|]; eauto.
Qed.

Lemma removed_for_same visible removed : (∀ id, id ∈ removed → id ∉ visible) →
  removed_for visible visible removed = [].
Proof.
  intros Hr. unfold removed_for.
  assert (Hg : filter (λ id, id ∉ visible) (ascending visible) = []).
  { apply elem_of_nil_inv. intros x [Hn Hx%elem_of_ascending]%list_elem_of_filter. done. }
  rewrite Hg. assert (Ha : Forall (λ id, id ∉ visible) (ascending removed)).
  { apply Forall_forall. intros x Hx%elem_of_ascending. by apply Hr. }
  induction Ha as [|x l Hx _ IH]; simpl; [done|]. by rewrite (bool_decide_eq_false_2 (x ∈ visible)).
Qed.

(** What a session's client should hold after the tick. *)
Definition in_sync (visible : gset Z) (actors : gmap Z ActorState) (m : gmap Z Transform) : Prop :=
  ∀ id, m !! id = if decide (id ∈ visible) then transform <$> actors !! id else None.
(** What it holds between ticks: an actor in view that is gone may linger. *)
Definition replica_ok (v : ViewerState) (actors : gmap Z ActorState) (m : gmap Z Transform) : Prop :=
  v_snapshot_pending v = false → ∀ id,
  (id ∉ v_visible_actor_ids v → m !! id = None)
  ∧ (∀ a, id ∈ v_visible_actor_ids v → actors !! id = Some a → m !! id = Some (transform a)).

Lemma delta_in_sync now v m va : desired_of va = v_visible_actor_ids v → desired_of va ⊆ dom (ticked w) →
  v_snapshot_pending v = false → replica_ok v (actors_ w) m →
  in_sync (desired_of va) (ticked w) (apply_samples m (dirty_samples now (ticked w) (desired_of va))).
Proof.
  intros Hd Hdom Hp Hok id. destruct (Hok Hp id) as [Hout Hin]. rewrite delta_lookup. rewrite Hd in *.
  destruct (decide (id ∈ v_visible_actor_ids v)) as [Hv|Hv].
  - apply Hdom in Hv as Hl. apply elem_of_dom in Hl as [a Ha]. rewrite Ha. simpl.
    destruct (a_dirty a) eqn:Hdirty; [done|]. rewrite ticked_lookup in Ha by done.
    apply fmap_Some in Ha as (a0 & Ha0 & ->). rewrite tick_actor_clean by done. by apply Hin.
  - rewrite Hout by done. by destruct (ticked w !! id).
Qed.

Lemma viewer_in_sync s v m : viewers_ w !! s = Some v → replica_ok v (actors_ w) m →
  ∃ a va, v_actor_id v = Some a ∧ ticked w !! a = Some va
  ∧ v_actor_id (viewer_result w s v).1 = Some a ∧ v_snapshot_pending (viewer_result w s v).1 = false
  ∧ v_visible_actor_ids (viewer_result w s v).1 = desired_of va
  ∧ in_sync (desired_of va) (ticked w) (receive m (viewer_result w s v).2).
Proof.
  intros Hv Hok. destruct (wo_viewers _ Hw _ _ Hv) as (a & Ha & Hs).
  destruct (wo_sessions _ Hw _ _ Hs) as (a0 & Ha0 & _).
  assert (Hva : ticked w !! a = Some (tick_actor w a0)) by (rewrite ticked_lookup by done; by rewrite Ha0).
  destruct (desired_spec a _ Hva) as (_ & Hdom & _).
  exists a, (tick_actor w a0). unfold viewer_result, replicate_viewer.
  rewrite Ha. simpl. rewrite Hva. cbv zeta. fold (desired_of (tick_actor w a0)).
  set (d := desired_of (tick_actor w a0)) in *. set (now := server_tick_ w +₃₂ 1).
  destruct (v_snapshot_pending v || negb (bool_decide (d = v_visible_actor_ids v)) || _) eqn:Hp;
    [|destruct (negb false && (max_delta_actors_per_tick (wr_config w) <? _))]; simpl.
  1,2: split_and!; try done; intros id; apply snapshot_lookup.
  apply orb_false_iff in Hp as [[Hp Hd%negb_false_iff%bool_decide_eq_true]%orb_false_iff _].
  assert (Hr : removed_for (v_visible_actor_ids v) d (removed_actor_ids_ w) = []).
  { rewrite <- Hd. apply removed_for_same. intros id Hid Hin.
    apply (wo_removed _ Hw) in Hid as [_ Hn]. apply Hdom, elem_of_dom in Hin as [b Hb].
    rewrite ticked_lookup, Hn in Hb by done. done. }
  rewrite Hr. pose proof (delta_in_sync now v m _ Hd Hdom Hp Hok) as Hsync. fold d in Hsync.
  destruct (dirty_samples now (ticked w) d) eqn:Hds; simpl; split_and!; done.
Qed.
End Viewer.
End Tick.

(** ** Lemmas: every operation keeps worlds well-formed and replicas synchronised *)
Lemma world_ok_new config : 0 ≤ max_interest_recipients_per_tick config → world_ok (world_runtime_new config).
Proof.
  intros Hc. split; simpl; try set_solver; try lia.
  destruct (Z.eqb_spec (max_interest_recipients_per_tick config) 0); lia.
Qed.

Lemma ensure_actor_next w s : is_u32 (next_actor_id_ w + 1) → 0 ≤ next_actor_id_ w →
  next_actor_id_ w ≤ next_actor_id_ (ensure_actor_for_session w s).1 ≤ next_actor_id_ w + 1.
Proof. intros Hn H0. unfold ensure_actor_for_session. case_match; simpl; [lia|]. mach. Qed.
Lemma fresh_actor w : world_ok w → actors_ w !! next_actor_id_ w = None.
Proof.
  intros Hw. destruct (actors_ w !! next_actor_id_ w) as [st|] eqn:Hst; [|done].
  apply (wo_actors _ Hw) in Hst. lia.
Qed.
Lemma no_viewer w s : world_ok w → session_to_actor_ w !! s = None → viewers_ w !! s = None.
Proof.
  intros Hw Hs. destruct (viewers_ w !! s) as [v|] eqn:Hv; [|done].
  apply (wo_viewers _ Hw) in Hv as (a & _ & Ha). congruence.
Qed.
Lemma ensure_actor_ok w s : world_ok w → is_u32 (next_actor_id_ w + 1) →
  world_ok (ensure_actor_for_session w s).1.
Proof.
  intros Hw Hn. pose proof (fresh_actor w Hw) as Hf. pose proof (wo_next _ Hw) as H1.
  unfold ensure_actor_for_session. destruct (session_to_actor_ w !! s) as [a|] eqn:Hs; [done|].
  pose proof (no_viewer w s Hw Hs) as Hv. rewrite Hf, Hv. simpl.
  assert (Hnext : next_actor_id_ w +₃₂ 1 = next_actor_id_ w + 1) by mach.
  split; simpl; rewrite ?Hnext.
  - intros s' a [[<- <-]|[Hne Ha]]%lookup_insert_Some; [rewrite lookup_insert_eq; eauto|].
    destruct (wo_sessions _ Hw _ _ Ha) as (st & Hst & ?). exists st. split; [|done].
    apply lookup_insert_Some. right. split; [congruence|done].
  - intros a st [[<- <-]|[Hne Ha]]%lookup_insert_Some; simpl; [rewrite lookup_insert_eq; split_and!; [done..|lia]|].
    destruct (wo_actors _ Hw _ _ Ha) as (? & Hsa & ?). split_and!; [done| |lia].
    apply lookup_insert_Some. right. split; [congruence|done].
  - intros s' v [[<- <-]|[Hne Hsv]]%lookup_insert_Some; simpl.
    + exists (next_actor_id_ w). by rewrite lookup_insert_eq.
    + destruct (wo_viewers _ Hw _ _ Hsv) as (a & ? & ?). exists a. by rewrite lookup_insert_ne.
  - intros s' a [[<- <-]|[Hne Ha]]%lookup_insert_Some; [by rewrite lookup_insert_eq|].
    rewrite lookup_insert_ne by done. by apply (wo_sessions_view _ Hw) in Ha.
  - intros a Ha. apply (wo_removed _ Hw) in Ha as [? ?]. split; [lia|]. by rewrite lookup_insert_ne by lia.
  - intros s' v a [[<- <-]|[Hne Hsv]]%lookup_insert_Some Ha; simpl in Ha; [set_solver|].
    apply (wo_visible _ Hw _ _ _ Hsv) in Ha. lia.
  - lia.
  - apply (wo_limit _ Hw).
Qed.
Lemma set_staged_ok w staged n : world_ok w → world_ok (set_staged w staged n).
Proof. intros []. by split. Qed.
Lemma stage_input_world w s i : ∃ staged n,
  (stage_input w s i).1 = set_staged (ensure_actor_for_session w s).1 staged n.
Proof. unfold stage_input. destruct (ensure_actor_for_session w s) as [w' a]. case_match; simpl; eauto. Qed.

Lemma remove_session_ok w s : world_ok w → world_ok (remove_session w s).
Proof.
  intros Hw. unfold remove_session. destruct (session_to_actor_ w !! s) as [a0|] eqn:Hs.
  - destruct (wo_sessions _ Hw _ _ Hs) as (st0 & Hst0 & <-). destruct Hw as [W1 W2 W3 W4 W5 W6 W7 W8].
    split; simpl; try done.
    + intros s' a [Hne Ha]%lookup_delete_Some. destruct (W1 _ _ Ha) as (st & Hst & <-). exists st.
      split; [|done]. apply lookup_delete_Some. split; [congruence|done].
    + intros a st [Hne Ha]%lookup_delete_Some. destruct (W2 _ _ Ha) as (? & Hsa & ?). split_and!; try done.
      apply lookup_delete_Some. split; [congruence|done].
    + intros s' v [Hne Hv]%lookup_delete_Some. destruct (W3 _ _ Hv) as (a & ? & ?). exists a.
      by rewrite lookup_delete_ne.
    + intros s' a [Hne Ha]%lookup_delete_Some. rewrite lookup_delete_ne by done. by apply W4 in Ha.
    + intros a [->%elem_of_singleton|Ha]%elem_of_union.
      * rewrite lookup_delete_eq. split; [|done]. by apply W2 in Hst0 as (_ & _ & ?).
      * apply W5 in Ha as [? Hn]. split; [done|]. apply lookup_delete_None. by right.
    + intros s' v a [Hne Hv]%lookup_delete_Some. eauto.
  - pose proof (no_viewer w s Hw Hs) as Hv. destruct Hw as [W1 W2 W3 W4 W5 W6 W7 W8].
    rewrite (delete_id (viewers_ w)) by done. by split.
Qed.

Section Execution.
Context `{!MapIteration Z}.

Lemma tick_ok w : world_ok w → (∀ s v, viewers_ w !! s = Some v → ∃ m, replica_ok v (actors_ w) m) →
  world_ok (ticked_world w).
Proof.
  intros Hw Hrep. pose proof (λ id, tick_actors w id Hw) as Ha. pose proof (tick_viewers w) as Hv.
  unfold ticked_world in *. rewrite (proj1 (tick_eq w)) in *. simpl in *. split; simpl.
  - intros s a Hs. destruct (wo_sessions _ Hw _ _ Hs) as (st & Hst & <-). rewrite Ha, Hst. simpl.
    eexists. split; [done|]. apply tick_actor_ids.
  - intros a st. rewrite Ha. intros (st0 & Hst0 & ->)%fmap_Some.
    destruct (wo_actors _ Hw _ _ Hst0) as (<- & Hs & Hlt).
    cbn [clear_dirty a_actor_id a_session_id]. destruct (tick_actor_ids w st0) as [-> ->]. done.
  - intros s v. rewrite Hv. intros (v0 & Hv0 & ->)%fmap_Some. destruct (Hrep _ _ Hv0) as [m Hm].
    destruct (viewer_in_sync w Hw _ _ _ Hv0 Hm) as (a & va & Ha0 & _ & Hra & _). exists a.
    split; [done|]. destruct (wo_viewers _ Hw _ _ Hv0) as (a' & ? & ?). congruence.
  - intros s a Hs. rewrite Hv. apply (wo_sessions_view _ Hw) in Hs as [v ->]. eauto.
  - set_solver.
  - intros s v a. rewrite Hv. intros (v0 & Hv0 & ->)%fmap_Some. destruct (Hrep _ _ Hv0) as [m Hm].
    destruct (viewer_in_sync w Hw _ _ _ Hv0 Hm) as (a' & va & _ & Hva & _ & _ & -> & _).
    intros Hin. apply (desired_spec w Hw _ _ Hva), elem_of_dom in Hin as [b Hb].
    rewrite ticked_lookup in Hb by done. apply fmap_Some in Hb as (b0 & Hb0 & _).
    by apply (wo_actors _ Hw) in Hb0 as (_ & _ & ?).
  - apply (wo_next _ Hw).
  - apply (wo_limit _ Hw).
Qed.

(** After [k] operations. *)
Record run_ok (k : Z) (st : WorldRuntime * gmap Z (gmap Z Transform)) : Prop := {
  ro_world : world_ok st.1;
  ro_next : next_actor_id_ st.1 ≤ 1 + k;
  ro_replica : ∀ s v, viewers_ st.1 !! s = Some v → replica_ok v (actors_ st.1) (replica st.2 s);
}.
(** The state a tick leaves a viewer in. *)
Record viewer_synced (w : WorldRuntime) (cm : gmap Z (gmap Z Transform)) (s : Z) (v : ViewerState) : Prop := {
  vs_replica : in_sync (v_visible_actor_ids v) (actors_ w) (replica cm s);
  vs_live : v_visible_actor_ids v ⊆ dom (actors_ w);
  vs_self : ∃ a va, session_to_actor_ w !! s = Some a ∧ actors_ w !! a = Some va
    ∧ v_visible_actor_ids v = limit_interest (max_interest_recipients_per_tick (wr_config w)) a
        (interest_set (wr_config w) (actors_ w) va);
}.

Lemma transform_clear (actors : gmap Z ActorState) id : transform <$> (clear_dirty <$> actors) !! id = transform <$> (actors !! id).
Proof. rewrite lookup_fmap. by destruct (actors !! id). Qed.
Lemma interest_set_clear c actors va :
  interest_set c (clear_dirty <$> actors) (clear_dirty va) = interest_set c actors va.
Proof.
  apply set_eq. intros id. rewrite !interest_set_elem. simpl. f_equiv. f_equiv. setoid_rewrite lookup_fmap.
  split.
  - intros (a & (a0 & Ha0 & ->)%fmap_Some & ?). eauto.
  - intros (a & -> & ?). exists (clear_dirty a). done.
Qed.

Lemma tick_synced k w cm : run_ok k (w, cm) →
  let '(w', cm') := world_exec (w, cm) WTick in
  w' = ticked_world w ∧ ∀ s v, viewers_ w' !! s = Some v → v_snapshot_pending v = false ∧ viewer_synced w' cm' s v.
Proof.
  intros [Hw Hn Hrep]. simpl in *.
  assert (Hr : ∀ s v, viewers_ w !! s = Some v →
    replica (foldl deliver cm (tick w).1.2) s = receive (replica cm s) (viewer_result w s v).2)
    by (intros; by apply tick_replica).
  destruct (tick w) as [[w' out] evs] eqn:Ht. assert (Hw' : ticked_world w = w') by (unfold ticked_world; by rewrite Ht).
  split; [done|]. intros s v Hv. rewrite <- Hw', tick_viewers in Hv. apply fmap_Some in Hv as (v0 & Hv0 & ->).
  destruct (viewer_in_sync w Hw _ _ _ Hv0 (Hrep _ _ Hv0)) as (a & va & Ha & Hva & _ & Hp & Hvis & Hs).
  split; [done|]. rewrite <- Hr in Hs by done. simpl in Hs.
  assert (Heq : actors_ w' = clear_dirty <$> ticked w
    ∧ session_to_actor_ w' = session_to_actor_ w ∧ wr_config w' = wr_config w)
    by (rewrite <- Hw'; unfold ticked_world; rewrite (proj1 (tick_eq w)); done).
  destruct Heq as (Heqa & Heqs & Heqc). split; rewrite Hvis.
  - intros id. rewrite Heqa, transform_clear. apply Hs.
  - rewrite Heqa, dom_fmap_L. apply (desired_spec w Hw _ _ Hva).
  - exists a, (clear_dirty va). rewrite Heqs, Heqa, Heqc, lookup_fmap, Hva. split_and!; [|done|].
    + destruct (wo_viewers _ Hw _ _ Hv0) as (a' & ? & ?). congruence.
    + unfold desired_of. by rewrite interest_set_clear, (ticked_id w Hw _ _ Hva).
Qed.

Lemma run_ok_stage k w cm s i : 0 ≤ k → is_u32 (k + 2) → run_ok k (w, cm) →
  run_ok (k + 1) (world_exec (w, cm) (WStage s i)).
Proof.
  intros Hk Hb [Hw Hn Hrep]. simpl in *. pose proof (wo_next _ Hw) as H1.
  assert (Hnb : is_u32 (next_actor_id_ w + 1)) by (mach_unfold; lia).
  destruct (stage_input_world w s i) as (staged & n & Hst). rewrite Hst.
  split; simpl; [by apply set_staged_ok, ensure_actor_ok|pose proof (ensure_actor_next w s Hnb); lia|].
  intros s' v. unfold ensure_actor_for_session. destruct (session_to_actor_ w !! s) as [a|] eqn:Hs; [apply Hrep|].
  simpl. rewrite (fresh_actor w Hw), (no_viewer w s Hw Hs).
  intros [[<- <-]|[Hne Hv]]%lookup_insert_Some Hp id; [done|].
  destruct (Hrep _ _ Hv Hp id) as [Hout Hin]. split; [done|]. intros a Hvis.
  rewrite lookup_insert_ne; [by apply Hin|]. apply (wo_visible _ Hw _ _ _ Hv) in Hvis. lia.
Qed.
Lemma run_ok_remove k w cm s : run_ok k (w, cm) → run_ok (k + 1) (world_exec (w, cm) (WRemove s)).
Proof.
  intros [Hw Hn Hrep]. split; simpl in *; [by apply remove_session_ok| |].
  - unfold remove_session. case_match; simpl; lia.
  - intros s' v Hv.
    assert (Hv' : s ≠ s' ∧ viewers_ w !! s' = Some v).
    { unfold remove_session in Hv. case_match; simpl in Hv; by apply lookup_delete_Some in Hv. }
    destruct Hv' as [Hne Hv0]. unfold replica. rewrite lookup_delete_ne by done. intros Hp id.
    destruct (Hrep _ _ Hv0 Hp id) as [Hout Hin]. split; [done|]. intros a Hvis Ha. apply Hin; [done|].
    unfold remove_session in Ha. case_match; simpl in Ha; [|done]. by apply lookup_delete_Some in Ha as [_ ?].
Qed.
Lemma run_ok_tick k w cm : run_ok k (w, cm) → run_ok (k + 1) (world_exec (w, cm) WTick).
Proof.
  intros Hok. pose proof (tick_synced k w cm Hok) as Hs. destruct Hok as [Hw Hn Hrep].
  destruct (world_exec (w, cm) WTick) as [w' cm']. destruct Hs as [-> Hs]. simpl in *. split; simpl.
  - apply tick_ok; [done|]. intros s v Hv. exists (replica cm s). by apply Hrep.
  - unfold ticked_world. rewrite (proj1 (tick_eq w)). simpl. lia.
  - intros s v Hv _ id. destruct (Hs s v Hv) as [_ [Hsync _ _]]. rewrite (Hsync id). split.
    + intros Hni. by rewrite decide_False.
    + intros a Hin Ha. by rewrite decide_True, Ha.
Qed.

Lemma run_world_ok config ops : 0 ≤ max_interest_recipients_per_tick config →
  is_u32 (Z.of_nat (length ops) + 1) → run_ok (Z.of_nat (length ops)) (run_world config ops).
Proof.
  intros Hc. unfold run_world. induction ops as [|op ops IH] using rev_ind; intros Hlen; simpl.
  { split; simpl; [by apply world_ok_new|lia|set_solver]. }
  rewrite foldl_app, length_app in *. simpl in *.
  replace (Z.of_nat (length ops + 1)) with (Z.of_nat (length ops) + 1) in * by lia.
  assert (Hok : run_ok (Z.of_nat (length ops)) (foldl world_exec (world_runtime_new config, ∅) ops))
    by (apply IH; mach_unfold; lia).
  destruct (foldl world_exec _ ops) as [w cm]. destruct op as [s i|s|].
  - apply run_ok_stage; [lia| |done]. by replace (Z.of_nat (length ops) + 2) with (Z.of_nat (length ops) + 1 + 1) by lia.
  - by apply run_ok_remove.
  - by apply run_ok_tick.
Qed.

(** ** Lemmas: history *)
Fixpoint ticks (ops : list WorldOp) : Z :=
  match ops with
  | [] => 0
  | WTick :: ops => 1 + ticks ops
  | _ :: ops => ticks ops
  end.
Definition remembers (w : WorldRuntime) (a : Z) (smp : ActorTransformSample) (n : Z) : Prop :=
  a < next_actor_id_ w ∧ s_server_tick smp ≤ server_tick_ w
  ∧ ∀ st, actors_ w !! a = Some st → ∃ pre post,
      a_history st = pre ++ smp :: post ∧ Z.of_nat (length post) = n
      ∧ Forall (λ s, s_server_tick smp < s_server_tick s) post.

Lemma keep_last_app {A} (n : Z) (pre : list A) x post : Z.of_nat (length post) + 1 ≤ n →
  ∃ pre', keep_last n (pre ++ x :: post) = pre' ++ x :: post.
Proof.
  intros Hn. unfold keep_last. rewrite length_app. simpl.
  exists (drop (length pre + S (length post) - Z.to_nat n) pre). apply drop_app_le. lia.
Qed.
Lemma tick_actor_history w a : let a' := clear_dirty (tick_actor w a) in
  a_history a' = keep_last (history_ticks (wr_config w)) (a_history a ++ [sample_of (server_tick_ w +₃₂ 1) a']).
Proof.
  cbv zeta. unfold tick_actor. cbn [clear_dirty record_history a_history].
  unfold advance_actor. by repeat case_match.
Qed.
Lemma exec_frame w cm op : let w' := (world_exec (w, cm) op).1 in
  wr_config w' = wr_config w
  ∧ server_tick_ w' = match op with WTick => server_tick_ w +₃₂ 1 | _ => server_tick_ w end.
Proof.
  destruct op as [s i|s|]; cbv zeta; cbn [world_exec fst].
  - destruct (stage_input_world w s i) as (staged & n & ->).
    unfold ensure_actor_for_session. by case_match.
  - unfold remove_session. by case_match.
  - destruct (tick w) as [[w' out] evs] eqn:Ht. pose proof (proj1 (tick_eq w)) as Heq.
    rewrite Ht in Heq. simpl in *. by rewrite Heq.
Qed.
Lemma remembers_exec k w cm a smp n op : run_ok k (w, cm) → 0 ≤ k → is_u32 (k + 2) → 0 ≤ server_tick_ w ≤ k →
  n + 2 ≤ history_ticks (wr_config w) ∨ op ≠ WTick → remembers w a smp n →
  remembers (world_exec (w, cm) op).1 a smp (n + ticks [op]).
Proof.
  intros Hok Hk Hb Ht Hh (Ha & Hs & Hr). pose proof (ro_world _ _ Hok) as Hw. pose proof (ro_next _ _ Hok) as Hn.
  pose proof (wo_next _ Hw) as H1. simpl in Hw, Hn, H1. destruct op as [s i|s|]; cbn [world_exec fst].
  - destruct (stage_input_world w s i) as (staged & m & ->). replace (n + ticks [WStage s i]) with n by (simpl; lia).
    assert (Hnb : is_u32 (next_actor_id_ w + 1)) by (mach_unfold; lia).
    pose proof (ensure_actor_next w s Hnb ltac:(lia)) as Hen. split; [simpl; lia|].
    unfold ensure_actor_for_session. destruct (session_to_actor_ w !! s); [done|]. simpl.
    rewrite (fresh_actor w Hw). split; [done|]. intros st. rewrite lookup_insert_ne by lia. apply Hr.
  - replace (n + ticks [WRemove s]) with n by (simpl; lia).
    unfold remove_session. destruct (session_to_actor_ w !! s) as [a'|]; simpl; [|done].
    split; [done|]. split; [done|]. intros st Hst. simpl in Hst.
    apply lookup_delete_Some in Hst as [_ Hst]. by apply Hr.
  - destruct Hh as [Hh|]; [|done]. replace (n + ticks [WTick]) with (n + 1) by (simpl; lia).
    pose proof (tick_actors w a Hw) as Hta. unfold ticked_world in Hta. pose proof (proj1 (tick_eq w)) as Heq.
    destruct (tick w) as [[w' out] evs]. cbn [fst] in *.
    assert (Hnow : server_tick_ w +₃₂ 1 = server_tick_ w + 1) by mach.
    split; [by rewrite Heq|]. split; [rewrite Heq; simpl; lia|].
    intros st. rewrite Hta. intros (st0 & Hst0 & ->)%fmap_Some.
    destruct (Hr _ Hst0) as (pre & post & Hhist & Hlen & Hpost). rewrite tick_actor_history, Hhist, <- app_assoc.
    set (smp' := sample_of _ _). destruct (keep_last_app (history_ticks (wr_config w)) pre smp (post ++ [smp']))
      as [pre' Hp]; [rewrite length_app; simpl; lia|].
    exists pre'. eexists. split; [apply Hp|]. split; [rewrite length_app; simpl; lia|].
    apply Forall_app. split; [done|]. constructor; [simpl; lia|done].
Qed.

Lemma ticks_app ops ops' : ticks (ops ++ ops') = ticks ops + ticks ops'.
Proof. induction ops as [|[] ops IH]; simpl; lia. Qed.
Lemma ticks_nonneg ops : 0 ≤ ticks ops.
Proof. induction ops as [|[] ops IH]; simpl; lia. Qed.
Lemma run_world_snoc config ops op : run_world config (ops ++ [op]) = world_exec (run_world config ops) op.
Proof. unfold run_world. by rewrite foldl_app. Qed.
Lemma run_world_frame config ops : is_u32 (Z.of_nat (length ops) + 1) →
  wr_config (run_world config ops).1 = sanitize_config config
  ∧ 0 ≤ server_tick_ (run_world config ops).1 ≤ Z.of_nat (length ops).
Proof.
  induction ops as [|op ops IH] using rev_ind; intros Hb; [done|].
  rewrite run_world_snoc. rewrite length_app in *. simpl in *.
  destruct IH as [Hc Ht]; [mach_unfold; lia|]. destruct (run_world config ops) as [w cm]. simpl in Hc, Ht.
  destruct (exec_frame w cm op) as [-> ->]. split; [done|].
  destruct op; [lia..|]. assert (server_tick_ w +₃₂ 1 = server_tick_ w + 1) as -> by mach. lia.
Qed.
Lemma remembers_run config ops ops' a smp n : 0 ≤ max_interest_recipients_per_tick config →
  is_u32 (Z.of_nat (length (ops ++ ops')) + 1) → 0 ≤ n →
  n + ticks ops' + 1 ≤ history_ticks (sanitize_config config) →
  remembers (run_world config ops).1 a smp n →
  remembers (run_world config (ops ++ ops')).1 a smp (n + ticks ops').
Proof.
  intros Hc Hb Hn Hh Hr. revert Hb Hh. induction ops' as [|op ops' IH] using rev_ind; intros Hb Hh.
  { rewrite app_nil_r. simpl. by rewrite Z.add_0_r. }
  pose proof (ticks_nonneg [op]) as Hop. rewrite ticks_app in *. rewrite app_assoc in *. rewrite length_app in Hb.
  rewrite run_world_snoc. cbn [length] in Hb.
  specialize (IH ltac:(mach_unfold; lia) ltac:(lia)).
  pose proof (run_world_ok config (ops ++ ops') Hc ltac:(mach_unfold; lia)) as Hok.
  destruct (run_world_frame config (ops ++ ops')) as [Hcfg Ht]; [mach_unfold; lia|].
  destruct (run_world config (ops ++ ops')) as [w cm]. simpl in IH, Hcfg, Ht.
  rewrite Z.add_assoc. apply (remembers_exec (Z.of_nat (length (ops ++ ops')))); try done; [lia|mach_unfold; lia|].
  rewrite Hcfg. destruct op; [by right..|]. left. cbn [ticks] in Hh. lia.
Qed.
(** A tick records what it leaves. *)
Lemma remembers_tick config ops a st : 0 ≤ max_interest_recipients_per_tick config →
  is_u32 (Z.of_nat (length (ops ++ [WTick])) + 1) → 1 ≤ history_ticks (sanitize_config config) →
  let w := (run_world config (ops ++ [WTick])).1 in
  actors_ w !! a = Some st → remembers w a (sample_of (server_tick_ w) st) 0.
Proof.
  intros Hc Hb Hh. cbv zeta. intros Hst. pose proof (run_world_ok config _ Hc Hb) as Hok. rewrite length_app in Hb. simpl in Hb.
  pose proof (ro_world _ _ Hok) as Hw'. split; [by apply (wo_actors _ Hw') in Hst as (_ & _ & ?)|]. split; [simpl; lia|].
  revert Hst. rewrite run_world_snoc in *. clear Hw' Hok.
  pose proof (ro_world _ _ (run_world_ok config ops Hc ltac:(mach_unfold; lia))) as Hw.
  destruct (run_world_frame config ops) as [Hcfg _]; [mach_unfold; lia|].
  destruct (run_world config ops) as [w cm]. cbn [fst] in *.
  destruct (exec_frame w cm WTick) as [_ ->].
  pose proof (tick_actors w a Hw) as Hta. unfold ticked_world in Hta. cbn [world_exec].
  destruct (tick w) as [[w' out] evs]. cbn [fst] in *. rewrite Hta.
  intros (st0 & Hst0 & ->)%fmap_Some st'. rewrite Hst0. intros [= <-]. rewrite tick_actor_history, Hcfg.
  destruct (keep_last_app (history_ticks (sanitize_config config)) (a_history st0)
    (sample_of (server_tick_ w +₃₂ 1) (clear_dirty (tick_actor w st0))) []) as [pre' ->]; [cbn [length]; lia|].
  by exists pre', [].
Qed.
Lemma remembers_rewind w a smp n st : remembers w a smp n → actors_ w !! a = Some st →
  rewind_at_or_before w {| q_actor_id := a; q_server_tick := s_server_tick smp |}
  = Some {| rw_sample := smp; rw_exact_tick := true |}.
Proof.
  intros (_ & _ & Hr) Hst. destruct (Hr _ Hst) as (pre & post & Hh & _ & Hpost).
  unfold rewind_at_or_before. simpl. rewrite Hst, Hh, reverse_app, reverse_cons, <- app_assoc.
  rewrite list_find_app_r.
  - simpl. rewrite decide_True by lia. simpl. by rewrite Z.eqb_refl.
  - apply list_find_None, Forall_reverse. eapply Forall_impl; [done|]. simpl. lia.
Qed.

(** ** Lemmas: one input *)
Definition moved (st : ActorState) (i : InputCommand) : Transform :=
  (clamp_i32 (a_x_mm st + move_x_mm i), clamp_i32 (a_y_mm st + move_y_mm i), in_yaw_mdeg i, input_seq i).
(** Input [i] of session [s] has been consumed by actor [a], now at [t]. *)
Definition consumed (w : WorldRuntime) (s a : Z) (i : InputCommand) (t : Transform) : Prop :=
  staged_inputs_ w !! s = Some {| staged_input := i; staged_present := true |}
  ∧ ∃ st, actors_ w !! a = Some st ∧ a_session_id st = s ∧ transform st = t
    ∧ input_seq i ≤ a_last_applied_input_seq st.

Lemma stage_known w s a i : session_to_actor_ w !! s = Some a →
  disposition (stage_input w s i).2 = kAccepted →
  actors_ (stage_input w s i).1 = actors_ w
  ∧ staged_inputs_ (stage_input w s i).1 !! s = Some {| staged_input := i; staged_present := true |}.
Proof.
  intros Hs. unfold stage_input, ensure_actor_for_session. rewrite Hs.
  destruct (staged_present _ && _) eqn:Hp; simpl; [done|]. intros _. by rewrite lookup_insert_eq.
Qed.
Lemma stage_same w s i : staged_inputs_ w !! s = Some {| staged_input := i; staged_present := true |} →
  is_Some (session_to_actor_ w !! s) → disposition (stage_input w s i).2 = kAccepted.
Proof.
  intros Hi [a Hs]. unfold stage_input, ensure_actor_for_session. rewrite Hs, Hi. simpl.
  by rewrite Z.ltb_irrefl.
Qed.
Lemma consumed_exec w cm s a i t op : world_ok w → op = WTick ∨ op = WStage s i →
  consumed w s a i t → consumed (world_exec (w, cm) op).1 s a i t.
Proof.
  intros Hw Hop (Hi & st & Hst & Hs & Ht & Hseq).
  assert (Hsa : session_to_actor_ w !! s = Some a) by (apply (wo_actors _ Hw) in Hst as (_ & ? & _); congruence).
  destruct Hop as [-> | ->]; cbn [world_exec].
  - pose proof (tick_actors w a Hw) as Hta. unfold ticked_world in Hta. pose proof (proj1 (tick_eq w)) as Heq.
    destruct (tick w) as [[w' out] evs]. cbn [fst] in *. split; [by rewrite Heq|].
    rewrite Hta, Hst. simpl. eexists. split; [done|]. unfold tick_actor, advance_actor. rewrite Hs, Hi. simpl.
    by destruct (Z.ltb_spec (a_last_applied_input_seq st) (input_seq i)); [lia|].
  - cbn [fst]. destruct (stage_known w s a i Hsa) as [Ha Hst']; [by apply stage_same|].
    split; [done|]. rewrite Ha. eauto.
Qed.
Lemma tick_consumes w cm s a i st : world_ok w →
  staged_inputs_ w !! s = Some {| staged_input := i; staged_present := true |} →
  actors_ w !! a = Some st → a_session_id st = s → a_last_applied_input_seq st < input_seq i →
  consumed (world_exec (w, cm) WTick).1 s a i (moved st i).
Proof.
  intros Hw Hi Hst Hs Hseq. cbn [world_exec].
  pose proof (tick_actors w a Hw) as Hta. unfold ticked_world in Hta. pose proof (proj1 (tick_eq w)) as Heq.
  destruct (tick w) as [[w' out] evs]. cbn [fst] in *. split; [by rewrite Heq|].
  rewrite Hta, Hst. simpl. eexists. split; [done|]. unfold tick_actor, advance_actor. rewrite Hs, Hi. simpl.
  destruct (Z.ltb_spec (a_last_applied_input_seq st) (input_seq i)); [|lia]. simpl. by split_and!.
Qed.
Lemma consumed_run config ops ops' s a i t : 0 ≤ max_interest_recipients_per_tick config →
  is_u32 (Z.of_nat (length (ops ++ ops')) + 1) → Forall (λ op, op = WTick ∨ op = WStage s i) ops' →
  consumed (run_world config ops).1 s a i t → consumed (run_world config (ops ++ ops')).1 s a i t.
Proof.
  intros Hc Hb Hall Hcon. revert Hb Hall. induction ops' as [|op ops' IH] using rev_ind; intros Hb Hall.
  { by rewrite app_nil_r. }
  apply Forall_app in Hall as [Hall [Hop _]%Forall_cons]. rewrite app_assoc in *. rewrite length_app in Hb.
  simpl in Hb. rewrite run_world_snoc. specialize (IH ltac:(mach_unfold; lia) Hall).
  pose proof (ro_world _ _ (run_world_ok config (ops ++ ops') Hc ltac:(mach_unfold; lia))) as Hw.
  destruct (run_world config (ops ++ ops')) as [w cm]. by apply consumed_exec.
Qed.
End Execution.

(** ** Lemmas: a sequence of frames *)
Definition run_driver (d : FixedStepDriver) (frames : list Z) : FixedStepDriver * Z :=
  foldl (λ st e, let '(d, n) := consume_elapsed st.1 e in (d, st.2 + n)) (d, 0) frames.
Definition elapsed_total (frames : list Z) : Z := foldr (λ e acc, Z.max 0 e + acc) 0 frames.

Lemma consume_elapsed_spec d e : 0 < step_duration_ d → 1 ≤ max_catch_up_steps_ d →
  0 ≤ accumulator_ d < step_duration_ d →
  let '(d', n) := consume_elapsed d e in
  step_duration_ d' = step_duration_ d ∧ max_catch_up_steps_ d' = max_catch_up_steps_ d
  ∧ 0 ≤ accumulator_ d' < step_duration_ d ∧ 0 ≤ n ≤ max_catch_up_steps_ d
  ∧ (accumulator_ d + e ≤ step_duration_ d * max_catch_up_steps_ d →
     accumulator_ d + Z.max 0 e = n * step_duration_ d + accumulator_ d').
Proof.
  intros Hs Hm Ha. unfold consume_elapsed. destruct (Z.leb_spec e 0); [split_and!; lia|]. cbv zeta.
  set (acc := if _ <? _ then _ else _).
  assert (Hacc : 0 ≤ acc ≤ step_duration_ d * max_catch_up_steps_ d
    ∧ (accumulator_ d + e ≤ step_duration_ d * max_catch_up_steps_ d → acc = accumulator_ d + e))
    by (subst acc; destruct (Z.ltb_spec (step_duration_ d * max_catch_up_steps_ d) (accumulator_ d + e)); nia).
  destruct Hacc as [Hacc Heq]. clearbody acc.
  pose proof (consume_loop_spec (Z.to_nat (max_catch_up_steps_ d)) _ Hs acc ltac:(lia)) as Hl.
  destruct (consume_loop _ _ acc) as [n acc']. destruct Hl as [Hn Hl]. simpl.
  assert (Hq : acc / step_duration_ d ≤ max_catch_up_steps_ d) by (apply Z.div_le_upper_bound; lia).
  assert (Hn' : n = acc / step_duration_ d) by lia.
  pose proof (Z.div_mod acc (step_duration_ d) ltac:(lia)) as Hdm.
  pose proof (Z.mod_pos_bound acc (step_duration_ d) Hs). pose proof (Z.div_pos acc (step_duration_ d)).
  rewrite <- Hn' in *. split_and!; try lia. 
Qed.
Lemma run_driver_spec d frames : 0 < step_duration_ d → 1 ≤ max_catch_up_steps_ d →
  0 ≤ accumulator_ d < step_duration_ d →
  Forall (λ e, e ≤ step_duration_ d * (max_catch_up_steps_ d - 1)) frames →
  let '(d', n) := run_driver d frames in
  step_duration_ d' = step_duration_ d ∧ max_catch_up_steps_ d' = max_catch_up_steps_ d
  ∧ 0 ≤ accumulator_ d' < step_duration_ d
  ∧ accumulator_ d + elapsed_total frames = n * step_duration_ d + accumulator_ d'.
Proof.
  intros Hs Hm Ha. unfold run_driver. induction frames as [|e frames IH] using rev_ind; intros Hall; [simpl; lia|].
  apply Forall_app in Hall as [Hall [He _]%Forall_cons]. rewrite foldl_app. cbn [foldl]. specialize (IH Hall).
  destruct (foldl _ (d, 0) frames) as [d1 n1]. destruct IH as (Hs1 & Hm1 & Ha1 & Hsum). cbn [fst snd].
  pose proof (consume_elapsed_spec d1 e ltac:(lia) ltac:(lia) ltac:(lia)) as Hc.
  destruct (consume_elapsed d1 e) as [d2 n2]. destruct Hc as (Hs2 & Hm2 & Ha2 & Hn2 & Heq).
  assert (Htot : elapsed_total (frames ++ [e]) = elapsed_total frames + Z.max 0 e)
    by (unfold elapsed_total; clear; induction frames; simpl; lia).
  specialize (Heq ltac:(nia)). rewrite Htot. split_and!; try lia.
Qed.

(** ** Properties *)
(** C4: after any run of the runtime that ends with a tick, every session's client
    replica, which applies the snapshots and deltas sent to it, is exactly the
    authoritative transform of the actors in its view.  The view contains its
    own actor and only actors within the interest radius, never exceeds the
    configured limit, and contains every actor in the radius when they fit. *)
Theorem replica_convergence `{!MapIteration Z} (config : RuntimeConfig) (ops : list WorldOp) :
  is_u32 (max_interest_recipients_per_tick config) → is_u32 (Z.of_nat (length ops) + 2) →
  let '(w, cm) := run_world config (ops ++ [WTick]) in
  let limit := max_interest_recipients_per_tick (sanitize_config config) in
  ∀ s a, actor_id_for_session w s = Some a → ∃ v va,
    viewers_ w !! s = Some v ∧ actors_ w !! a = Some va
    ∧ replica cm s = transform <$> filter (λ ka, ka.1 ∈ v_visible_actor_ids v) (actors_ w)
    ∧ dom (replica cm s) = v_visible_actor_ids v
    ∧ a ∈ v_visible_actor_ids v ∧ Z.of_nat (size (v_visible_actor_ids v)) ≤ limit
    ∧ v_visible_actor_ids v ⊆ interest_set (sanitize_config config) (actors_ w) va
    ∧ (Z.of_nat (size (interest_set (sanitize_config config) (actors_ w) va)) ≤ limit →
       v_visible_actor_ids v = interest_set (sanitize_config config) (actors_ w) va).
Proof.
  intros Hc Hb. assert (Hc0 : 0 ≤ max_interest_recipients_per_tick config) by (mach_unfold; lia).
  pose proof (run_world_ok config ops Hc0 ltac:(mach_unfold; lia)) as Hok.
  assert (Hb' : is_u32 (Z.of_nat (length (ops ++ [WTick])) + 1)) by (rewrite length_app; simpl; mach_unfold; lia).
  pose proof (ro_world _ _ (run_world_ok config _ Hc0 Hb')) as Hw'. pose proof (run_world_frame config _ Hb') as [Hcfg _].
  rewrite run_world_snoc in *. destruct (run_world config ops) as [w0 cm0].
  pose proof (tick_synced _ w0 cm0 Hok) as Hs. destruct (world_exec (w0, cm0) WTick) as [w cm].
  destruct Hs as [_ Hs]. cbn [fst] in *. cbv zeta. intros s a Ha.
  destruct (wo_sessions_view _ Hw' _ _ Ha) as [v Hv]. destruct (Hs s v Hv) as [_ [Hrep Hlive (a' & va & Ha' & Hva & Hvis)]].
  assert (a' = a) as -> by (unfold actor_id_for_session in Ha; congruence).
  pose proof (proj1 (wo_actors _ Hw' _ _ Hva)) as Hid. rewrite Hcfg in Hvis. exists v, va.
  pose proof (limit_interest_spec (max_interest_recipients_per_tick (sanitize_config config)) a
    (interest_set (sanitize_config config) (actors_ w) va)) as Hl.
  cbv zeta in Hl. rewrite <- Hvis in Hl. destruct Hl as (H1 & H2 & H3 & H4).
  { rewrite <- Hcfg. apply (wo_limit _ Hw'). }
  { apply interest_set_elem. by left. }
  assert (Heq : replica cm s = transform <$> filter (λ ka, ka.1 ∈ v_visible_actor_ids v) (actors_ w)).
  { apply map_eq. intros id. rewrite (Hrep id), lookup_fmap, map_lookup_filter.
    destruct (actors_ w !! id) as [b|]; simpl; [|by case_decide].
    destruct (decide (id ∈ v_visible_actor_ids v)); [by rewrite option_guard_True|by rewrite option_guard_False]. }
  split_and!; try done. apply set_eq. intros id. rewrite elem_of_dom, (Hrep id). split.
  - destruct (decide (id ∈ v_visible_actor_ids v)); [done|]. by intros [? ?].
  - intros Hin. rewrite decide_True by done. apply Hlive, elem_of_dom in Hin as [b ->]. eauto.
Qed.
(** Two players, one of whom walks out of the other's sight. *)
Definition demo_walk : list WorldOp :=
  [WStage 7 {| input_seq := 1; move_x_mm := 10; move_y_mm := 0; in_yaw_mdeg := 90 |};
   WStage 8 {| input_seq := 1; move_x_mm := 5; move_y_mm := 5; in_yaw_mdeg := 0 |}; WTick;
   WStage 8 {| input_seq := 2; move_x_mm := 90000; move_y_mm := 0; in_yaw_mdeg := 0 |}].
Lemma replica_convergence_witness :
  let '(w, cm) := run_world default_runtime_config (demo_walk ++ [WTick]) in
  actor_id_for_session w 8 = Some 2 ∧ ∃ v va, viewers_ w !! 8 = Some v ∧ actors_ w !! 2 = Some va
    ∧ dom (replica cm 8) = v_visible_actor_ids v ∧ 2 ∈ v_visible_actor_ids v.
Proof.
  pose proof (replica_convergence default_runtime_config demo_walk) as H.
  assert (Ha : actor_id_for_session (run_world default_runtime_config (demo_walk ++ [WTick])).1 8 = Some 2)
    by (vm_compute; reflexivity).
  destruct (run_world default_runtime_config (demo_walk ++ [WTick])) as [w cm].
  split; [exact Ha|]. destruct (H ltac:(vm_compute; split; congruence) ltac:(vm_compute; split; congruence) 8 2 Ha)
    as (v & va & H1 & H2 & _ & H4 & H5 & _).
  exists v, va. by split_and!.
Defined.

(** Lag compensation is exact.  A rewind to the tick at which an actor had a
    given state returns precisely that state, marked exact, whatever happened
    since, as long as the actor is still in the world and fewer ticks than the
    configured history have passed. *)
Theorem rewind_exact `{!MapIteration Z} (config : RuntimeConfig) (ops ops' : list WorldOp) (a : Z) (st : ActorState) :
  is_u32 (max_interest_recipients_per_tick config) → is_u32 (history_ticks config) →
  is_u32 (Z.of_nat (length (ops ++ [WTick] ++ ops')) + 1) →
  let w1 := (run_world config (ops ++ [WTick])).1 in
  let w2 := (run_world config (ops ++ [WTick] ++ ops')).1 in
  actors_ w1 !! a = Some st → is_Some (actors_ w2 !! a) →
  ticks ops' < history_ticks (sanitize_config config) →
  rewind_at_or_before w2 {| q_actor_id := a; q_server_tick := server_tick_ w1 |}
  = Some {| rw_sample := sample_of (server_tick_ w1) st; rw_exact_tick := true |}.
Proof.
  intros Hm Hh Hb. cbv zeta. intros Hst [st2 Hst2] Ht.
  assert (Hm0 : 0 ≤ max_interest_recipients_per_tick config) by (mach_unfold; lia).
  rewrite app_assoc in *. pose proof Hb as Hb1. rewrite length_app in Hb1.
  pose proof (ticks_nonneg ops') as Hnn.
  pose proof (remembers_tick config ops a st Hm0 ltac:(mach_unfold; lia) ltac:(lia) Hst) as Hr.
  apply (remembers_run config _ ops') in Hr; [|done|done|lia|lia].
  by apply (remembers_rewind _ _ _ _ _ Hr) in Hst2.
Qed.
Definition demo_actor : ActorState := Eval vm_compute in
  default (new_actor default_runtime_config 0 0)
    (actors_ (run_world default_runtime_config (demo_walk ++ [WTick])).1 !! 2).
Lemma rewind_exact_witness :
  rewind_at_or_before (run_world default_runtime_config (demo_walk ++ [WTick] ++ [WRemove 7; WTick; WTick])).1
    {| q_actor_id := 2; q_server_tick := 2 |}
  = Some {| rw_sample := sample_of 2 demo_actor; rw_exact_tick := true |}
  ∧ a_x_mm demo_actor = 90005.
Proof.
  split; [|reflexivity].
  assert (Ht : server_tick_ (run_world default_runtime_config (demo_walk ++ [WTick])).1 = 2)
    by (vm_compute; reflexivity).
  pose proof (rewind_exact default_runtime_config demo_walk [WRemove 7; WTick; WTick] 2 demo_actor) as H.
  cbv zeta in H. rewrite Ht in H. apply H.
  all: try (vm_compute; reflexivity). all: try (vm_compute; split; congruence).
  vm_compute. eexists. reflexivity.
Defined.

(** An accepted input moves its actor exactly once.  A tick after the input is
    accepted moves the actor by the input, saturating at the 32-bit range, and
    records the input's sequence number; further ticks and repetitions of the
    same input change nothing. *)
Theorem input_applied_once `{!MapIteration Z} (config : RuntimeConfig) (ops ops' : list WorldOp)
    (s a : Z) (i : InputCommand) (st : ActorState) :
  is_u32 (max_interest_recipients_per_tick config) →
  is_u32 (Z.of_nat (length (ops ++ [WStage s i; WTick] ++ ops')) + 1) →
  let w := (run_world config ops).1 in
  actor_id_for_session w s = Some a → actors_ w !! a = Some st →
  disposition (stage_input w s i).2 = kAccepted → a_last_applied_input_seq st < input_seq i →
  Forall (λ op, op = WTick ∨ op = WStage s i) ops' →
  transform <$> actors_ (run_world config (ops ++ [WStage s i; WTick] ++ ops')).1 !! a = Some (moved st i).
Proof.
  intros Hm Hb. cbv zeta. intros Ha Hst Hacc Hseq Hall.
  assert (Hm0 : 0 ≤ max_interest_recipients_per_tick config) by (mach_unfold; lia).
  rewrite app_assoc in *. pose proof Hb as Hb'. rewrite !length_app in Hb'. cbn [length] in Hb'.
  assert (Hcon : consumed (run_world config (ops ++ [WStage s i; WTick])).1 s a i (moved st i)).
  { change [WStage s i; WTick] with ([WStage s i] ++ [WTick]). rewrite app_assoc, !run_world_snoc.
    pose proof (run_world_ok config ops Hm0 ltac:(mach_unfold; lia)) as Hok.
    destruct (run_world config ops) as [w cm]. cbn [fst] in *.
    pose proof (ro_world _ _ (run_ok_stage (Z.of_nat (length ops)) w cm s i ltac:(lia) ltac:(mach_unfold; lia) Hok)) as Hw'.
    destruct (stage_known w s a i Ha Hacc) as [Heq Hi]. cbn [world_exec] in *.
    apply tick_consumes; try done; cbn [fst] in *; [by rewrite Heq|].
    destruct (wo_sessions _ (ro_world _ _ Hok) _ _ Ha) as (st' & Hst' & <-). simpl in *. congruence. }
  apply (consumed_run config _ ops') in Hcon as (_ & st' & -> & _ & <- & _); done.
Qed.
Definition demo_input : InputCommand :=
  {| input_seq := 9; move_x_mm := 2147483647; move_y_mm := -1; in_yaw_mdeg := 45 |}.
Lemma input_applied_once_witness :
  transform <$> actors_ (run_world default_runtime_config
    (demo_walk ++ [WStage 7 demo_input; WTick] ++ [WTick; WStage 7 demo_input; WTick])).1 !! 1
  = Some (2147483647, -1, 45, 9).
Proof.
  rewrite (input_applied_once default_runtime_config demo_walk [WTick; WStage 7 demo_input; WTick] 7 1 demo_input
    (default (new_actor default_runtime_config 0 0) (actors_ (run_world default_runtime_config demo_walk).1 !! 1))).
  all: try (vm_compute; reflexivity). all: try (vm_compute; split; congruence).
  repeat constructor; (left; reflexivity) || (right; reflexivity).
Defined.

(** The fixed-step driver keeps time.  As long as no frame exceeds the
    catch-up budget less one step, the number of simulation steps released over
    any sequence of frames is the elapsed time divided by the step, whatever
    the frame boundaries: no time is lost or counted twice. *)
Theorem fixed_step_no_drift (tick_rate max_steps : Z) (frames : list Z) :
  let d := fixed_step_driver_new tick_rate max_steps in
  tick_rate ≤ 1000000000 →
  Forall (λ e, e ≤ step_duration_ d * (max_catch_up_steps_ d - 1)) frames →
  (run_driver d frames).2 = elapsed_total frames / step_duration_ d
  ∧ accumulator_ (run_driver d frames).1 = elapsed_total frames mod step_duration_ d.
Proof.
  cbv zeta. intros Hr Hall. set (d := fixed_step_driver_new tick_rate max_steps) in *.
  assert (Hs : 0 < step_duration_ d) by (subst d; simpl; apply Z.div_str_pos; lia).
  assert (Hm : 1 ≤ max_catch_up_steps_ d) by (subst d; simpl; lia).
  pose proof (run_driver_spec d frames Hs Hm ltac:(subst d; simpl in *; lia) Hall) as H.
  destruct (run_driver d frames) as [d' n]. destruct H as (_ & _ & Ha & Hsum). cbn [fst snd].
  replace (accumulator_ d) with 0 in Hsum by done. split.
  - apply (Z.div_unique _ _ _ (accumulator_ d')); lia.
  - apply (Z.mod_unique _ _ n); lia.
Qed.
Lemma fixed_step_no_drift_witness :
  (run_driver (fixed_step_driver_new 30 4) [16000000; 20000000; 70000000; 1000000; 0; -5]).2 = 3.
Proof.
  rewrite (proj1 (fixed_step_no_drift 30 4 [16000000; 20000000; 70000000; 1000000; 0; -5]
    ltac:(lia) ltac:(repeat constructor; vm_compute; congruence))).
  vm_compute. reflexivity.
Defined.
