(* ===== verification/Transport.v ===== *)
(** * Direct realtime transport

    Models of [core/realtime/direct_bind.hpp] (bind payload codecs),
    [transport_policy.hpp] (opcode allowlist, canary rollout),
    [direct_delivery.hpp] with the gateway's [direct_egress_route.hpp] (route of
    an outbound message) and [transport_quality.hpp] (sequenced UDP quality
    tracker).  Strings are byte lists.  A decoder that fails may leave part of
    its output written; the models return [None] and no caller reads it. *)
From S2P Require Import Prelude Packet.
From stdpp Require Import list gmap sorting.
Open Scope Z_scope.

(** ** Bind payloads *)
(** [DirectBindRequest] and [DirectBindTicket] have the same fields. *)
Record DirectBindTicket := {
  t_session_id : list Z;
  t_nonce : Z;
  t_expires_unix_ms : Z;
  t_token : list Z;
}.
Record DirectBindResponse := { r_code : Z; r_ticket : DirectBindTicket; r_message : list Z }.

Definition be64 (value : Z) : list Z :=
  [Z.land (Z.shiftr value 56) 255; Z.land (Z.shiftr value 48) 255; Z.land (Z.shiftr value 40) 255;
   Z.land (Z.shiftr value 32) 255; Z.land (Z.shiftr value 24) 255; Z.land (Z.shiftr value 16) 255;
   Z.land (Z.shiftr value 8) 255; Z.land value 255].
Definition write_be64 (value : Z) (out : list Z) : list Z := out ++ be64 value.
Definition read_be64 (inp : list Z) : option (Z * list Z) :=
  if (length inp <? 8)%nat then None
  else
    let b i := byte_at inp i in
    Some (Z.lor (Z.lor (Z.lor (Z.lor (Z.lor (Z.lor (Z.lor
            (b 0%nat <<₆₄ 56) (b 1%nat <<₆₄ 48)) (b 2%nat <<₆₄ 40)) (b 3%nat <<₆₄ 32))
            (b 4%nat <<₆₄ 24)) (b 5%nat <<₆₄ 16)) (b 6%nat <<₆₄ 8)) (b 7%nat),
          drop 8 inp).

Definition write_ticket (payload : list Z) (t : DirectBindTicket) : list Z :=
  let payload := write_lp_utf8 payload (t_session_id t) in
  let payload := write_be64 (t_nonce t) payload in
  let payload := write_be64 (t_expires_unix_ms t) payload in
  write_lp_utf8 payload (t_token t).
Definition read_ticket (inp : list Z) : option (DirectBindTicket * list Z) :=
  '(session_id, inp) ← read_lp_utf8 inp;
  '(nonce, inp) ← read_be64 inp;
  '(expires, inp) ← read_be64 inp;
  '(token, inp) ← read_lp_utf8 inp;
  Some ({| t_session_id := session_id; t_nonce := nonce; t_expires_unix_ms := expires; t_token := token |}, inp).

Definition encode_direct_bind_request_payload (request : DirectBindTicket) : list Z := write_ticket [] request.
Definition decode_direct_bind_request_payload (payload : list Z) : option DirectBindTicket :=
  '(out, inp) ← read_ticket payload;
  if (length inp =? 0)%nat then Some out else None.
Definition encode_direct_bind_response_payload (code : Z) (ticket : DirectBindTicket) (message : list Z) : list Z :=
  write_lp_utf8 (write_ticket (be16 code) ticket) message.
Definition decode_direct_bind_response_payload (payload : list Z) : option DirectBindResponse :=
  if (length payload <? 2)%nat then None
  else
    let code := read_be16 payload in
    '(ticket, inp) ← read_ticket (drop 2 payload);
    '(message, inp) ← read_lp_utf8 inp;
    if (length inp =? 0)%nat then Some {| r_code := code; r_ticket := ticket; r_message := message |} else None.

Definition ticket_ok (t : DirectBindTicket) : Prop :=
  lp_ok (t_session_id t) ∧ is_u64 (t_nonce t) ∧ is_u64 (t_expires_unix_ms t) ∧ lp_ok (t_token t).

(** ** Rollout policy *)
Definition is_ascii_space (c : Z) : bool := (c =? 32) || (c =? 9) || (c =? 13) || (c =? 10).
Fixpoint trim_front (value : list Z) : list Z :=
  match value with
  | c :: rest => if is_ascii_space c then trim_front rest else value
  | [] => []
  end.
Definition trim_ascii (value : list Z) : list Z := reverse (trim_front (reverse (trim_front value))).

(** [std::from_chars] on an [unsigned int]: the digits of the base, no sign;
    [None] when there is no digit, something follows, or the value overflows. *)
Definition digit_value (base c : Z) : option Z :=
  let v := if (48 <=? c) && (c <=? 57) then c - 48
           else if (97 <=? c) && (c <=? 122) then c - 87
           else if (65 <=? c) && (c <=? 90) then c - 55
           else base in
  if v <? base then Some v else None.
Fixpoint from_digits (base acc : Z) (s : list Z) : option Z :=
  match s with
  | [] => Some acc
  | c :: s => d ← digit_value base c; from_digits base (acc * base + d) s
  end.
Definition from_chars_u32 (base : Z) (s : list Z) : option Z :=
  match s with
  | [] => None
  | _ => v ← from_digits base 0 s; if v <? 2 ^ 32 then Some v else None
  end.
Definition parse_u16_token (token : list Z) : option Z :=
  let token := trim_ascii token in
  let hex := match token with
             | c0 :: c1 :: _ :: _ => (c0 =? 48) && ((c1 =? 120) || (c1 =? 88))
             | _ => false
             end in
  v ← (if hex then from_chars_u32 16 (drop 2 token) else from_chars_u32 10 token);
  if 0xFFFF <? v then None else Some v.

(** The [find(',', begin)] loop. *)
Fixpoint split_csv (csv : list Z) : list (list Z) :=
  match csv with
  | [] => [[]]
  | c :: rest =>
      if c =? 44 then [] :: split_csv rest
      else match split_csv rest with
           | token :: tokens => (c :: token) :: tokens
           | [] => [[c]]
           end
  end.
Definition parse_direct_opcode_allowlist (csv : list Z) : gset Z :=
  foldl (λ out token, match parse_u16_token token with Some opcode => {[opcode]} ∪ out | None => out end)
    ∅ (split_csv csv).

Definition kPrime : Z := 1099511628211.
Definition fnv_step (hash byte : Z) : Z := Z.lxor hash byte *₆₄ kPrime.
Definition fnv1a64 (session_id : list Z) (nonce : Z) : Z :=
  let hash := foldl fnv_step 1469598103934665603 session_id in
  foldl (λ hash shift, fnv_step hash (Z.land (Z.shiftr nonce shift) 255)) hash [0; 8; 16; 24; 32; 40; 48; 56].

Record DirectTransportRolloutPolicy := {
  p_enabled : bool;
  canary_percent : Z;
  opcode_allowlist : gset Z;
}.
Definition session_selected (p : DirectTransportRolloutPolicy) (session_id : list Z) (nonce : Z) : bool :=
  if negb (p_enabled p) || (canary_percent p =? 0) then false
  else if 100 <=? canary_percent p then true
  else u32 (fnv1a64 session_id nonce mod 100) <? canary_percent p.
Definition opcode_allowed (p : DirectTransportRolloutPolicy) (opcode : Z) : bool :=
  negb (bool_decide (opcode_allowlist p = ∅)) && bool_decide (opcode ∈ opcode_allowlist p).

Inductive DirectAttachMode := kUdpOnly | kRudpCanary.
Inductive DirectAttachReason := kRolloutDisabled | kAllowlistEmpty | kCanaryMiss | kCanarySelected.
Record DirectAttachDecision := { attach_mode : DirectAttachMode; attach_reason : DirectAttachReason }.
Definition evaluate_direct_attach (p : DirectTransportRolloutPolicy) (session_id : list Z) (nonce : Z)
    : DirectAttachDecision :=
  if negb (p_enabled p) then {| attach_mode := kUdpOnly; attach_reason := kRolloutDisabled |}
  else if bool_decide (opcode_allowlist p = ∅) then {| attach_mode := kUdpOnly; attach_reason := kAllowlistEmpty |}
  else if negb (session_selected p session_id nonce) then {| attach_mode := kUdpOnly; attach_reason := kCanaryMiss |}
  else {| attach_mode := kRudpCanary; attach_reason := kCanarySelected |}.

(** ** Route of an outbound message *)
Inductive DirectDeliveryRoute := kTcpFallback | kUdp | kRudp.
Inductive DirectDeliveryReason :=
  | kMessageNotEligible | kNotUdpBound | kUdpDirect | kRudpDirect | kRudpFallbackLatched | kRudpHandshakePendingUdp.
Record DirectDeliveryContext := {
  direct_path_enabled_for_message : bool;
  udp_bound : bool;
  rudp_selected : bool;
  rudp_fallback_to_tcp : bool;
  rudp_established : bool;
}.
Record DirectDeliveryDecision := { d_route : DirectDeliveryRoute; d_reason : DirectDeliveryReason }.
Definition evaluate_direct_delivery (c : DirectDeliveryContext) : DirectDeliveryDecision :=
  if negb (direct_path_enabled_for_message c) || negb (udp_bound c) then
    {| d_route := kTcpFallback;
       d_reason := if direct_path_enabled_for_message c then kNotUdpBound else kMessageNotEligible |}
  else if negb (rudp_selected c) then {| d_route := kUdp; d_reason := kUdpDirect |}
  else if rudp_fallback_to_tcp c then {| d_route := kTcpFallback; d_reason := kRudpFallbackLatched |}
  else if rudp_established c then {| d_route := kRudp; d_reason := kRudpDirect |}
  else {| d_route := kUdp; d_reason := kRudpHandshakePendingUdp |}.
Definition select_direct_delivery_route (c : DirectDeliveryContext) : DirectDeliveryRoute :=
  d_route (evaluate_direct_delivery c).

(** The gateway's instance: only FPS state deltas may leave TCP. *)
Definition MSG_FPS_STATE_DELTA : Z := 0x0208.
Record DirectEgressContext := {
  e_msg_id : Z;
  e_udp_bound : bool;
  e_rudp_selected : bool;
  e_rudp_fallback_to_tcp : bool;
  e_rudp_established : bool;
}.
Definition is_direct_egress_msg (msg_id : Z) : bool := msg_id =? MSG_FPS_STATE_DELTA.
Definition egress_delivery_context (c : DirectEgressContext) : DirectDeliveryContext :=
  {| direct_path_enabled_for_message := is_direct_egress_msg (e_msg_id c); udp_bound := e_udp_bound c;
     rudp_selected := e_rudp_selected c; rudp_fallback_to_tcp := e_rudp_fallback_to_tcp c;
     rudp_established := e_rudp_established c |}.
Definition select_direct_egress_route (c : DirectEgressContext) : DirectDeliveryRoute :=
  select_direct_delivery_route (egress_delivery_context c).
Definition evaluate_direct_egress (c : DirectEgressContext) : DirectDeliveryDecision :=
  evaluate_direct_delivery (egress_delivery_context c).

(** ** Sequenced UDP quality *)
Record UdpSequencedMetrics := {
  initialized_ : bool;
  last_seq_ : Z;
  last_recv_ms_ : Z;
  last_interarrival_ms_ : Z;
}.
Record UpdateResult := {
  accepted : bool;
  duplicate : bool;
  reordered : bool;
  estimated_lost_packets : Z;
  jitter_ms : Z;
}.
Definition udp_metrics_new : UdpSequencedMetrics :=
  {| initialized_ := false; last_seq_ := 0; last_recv_ms_ := 0; last_interarrival_ms_ := 0 |}.
Definition udp_metrics_reset (m : UdpSequencedMetrics) : UdpSequencedMetrics :=
  {| initialized_ := false; last_seq_ := 0; last_recv_ms_ := 0; last_interarrival_ms_ := 0 |}.
Definition on_packet (m : UdpSequencedMetrics) (seq recv_unix_ms : Z) : UdpSequencedMetrics * UpdateResult :=
  let result a d r lost jitter :=
    {| accepted := a; duplicate := d; reordered := r; estimated_lost_packets := lost; jitter_ms := jitter |} in
  if negb (initialized_ m) then
    ({| initialized_ := true; last_seq_ := seq; last_recv_ms_ := recv_unix_ms; last_interarrival_ms_ := 0 |},
     result true false false 0 0)
  else if seq =? last_seq_ m then (m, result false true false 0 0)
  else if seq <? last_seq_ m then (m, result false false true 0 0)
  else
    let lost := if last_seq_ m +₃₂ 1 <? seq then seq -₃₂ last_seq_ m -₃₂ 1 else 0 in
    let '(interarrival, jitter) :=
      if last_recv_ms_ m =? 0 then (last_interarrival_ms_ m, 0)
      else if last_recv_ms_ m <=? recv_unix_ms then
        let interarrival := recv_unix_ms - last_recv_ms_ m in
        (interarrival,
         if last_interarrival_ms_ m =? 0 then 0
         else if last_interarrival_ms_ m <=? interarrival then interarrival - last_interarrival_ms_ m
         else last_interarrival_ms_ m - interarrival)
      else (0, 0) in
    ({| initialized_ := true; last_seq_ := seq; last_recv_ms_ := recv_unix_ms;
        last_interarrival_ms_ := interarrival |}, result true false false lost jitter).

(** A stream of packets [(seq, recv_ms)] and the results, in order. *)
Definition observe_packet (st : UdpSequencedMetrics * list (Z * UpdateResult)) (p : Z * Z)
    : UdpSequencedMetrics * list (Z * UpdateResult) :=
  let '(m, r) := on_packet st.1 p.1 p.2 in (m, st.2 ++ [(p.1, r)]).
Definition observe_stream (packets : list (Z * Z)) : UdpSequencedMetrics * list (Z * UpdateResult) :=
  foldl observe_packet (udp_metrics_new, []) packets.
Definition accepted_seqs (rs : list (Z * UpdateResult)) : list Z :=
  (filter (λ r, accepted r.2 = true) rs).*1.
Definition lost_total (rs : list (Z * UpdateResult)) : Z := foldr (λ r n, estimated_lost_packets r.2 + n) 0 rs.

(** ** Lemmas: 64-bit fields *)
Lemma be64_alt v : be64 v =
  let q := v / 256 in let q2 := q / 256 in let q3 := q2 / 256 in let q4 := q3 / 256 in
  let q5 := q4 / 256 in let q6 := q5 / 256 in let q7 := q6 / 256 in
  [q7 mod 256; q6 mod 256; q5 mod 256; q4 mod 256; q3 mod 256; q2 mod 256; q mod 256; v mod 256].
Proof. unfold be64. rewrite !land_255, !shiftr_div by lia. cbv zeta. by rewrite !Z.div_div by lia. Qed.
Lemma shl64 x n : is_u8 x → 0 ≤ n ≤ 56 → x <<₆₄ n = Z.shiftl x n.
Proof.
  intros Hx Hn. apply u64_small. rewrite Z.shiftl_mul_pow2 by lia.
  assert (0 < 2 ^ n ≤ 2 ^ 56) by (split; [lia|apply Z.pow_le_mono_r; lia]).
  change (2 ^ 56) with 72057594037927936 in *. mach_unfold. nia.
Qed.
Lemma lor_byte x y m n : m = n + 8 → 0 ≤ n → is_u8 y → Z.lor (Z.shiftl x m) (Z.shiftl y n) = Z.shiftl (x * 256 + y) n.
Proof.
  intros -> Hn Hy. rewrite (Z.add_comm n 8), <- Z.shiftl_shiftl by lia.
  rewrite <- Z.shiftl_lor. f_equal. by rewrite lor_shiftl_add.
Qed.
Lemma read_be64_cons a b c d e f g h l :
  is_u8 a → is_u8 b → is_u8 c → is_u8 d → is_u8 e → is_u8 f → is_u8 g → is_u8 h →
  read_be64 (a :: b :: c :: d :: e :: f :: g :: h :: l)
  = Some (((((((a * 256 + b) * 256 + c) * 256 + d) * 256 + e) * 256 + f) * 256 + g) * 256 + h, l).
Proof.
  intros. unfold read_be64. cbn [length Nat.ltb Nat.leb]. rewrite !byte_at_S, !byte_at_0.
  rewrite !shl64 by (done || lia).
  rewrite (lor_byte a b 56 48), (lor_byte _ c 48 40), (lor_byte _ d 40 32), (lor_byte _ e 32 24),
    (lor_byte _ f 24 16), (lor_byte _ g 16 8), lor_shiftl_add by (done || lia || mach).
  done.
Qed.
Lemma be64_ok v : bytes_ok (be64 v).
Proof. rewrite be64_alt. cbv zeta. repeat constructor; mach. Qed.
Lemma read_be64_be64 v l : is_u64 v → read_be64 (be64 v ++ l) = Some (v, l).
Proof.
  intros Hv. rewrite be64_alt. cbv zeta. simpl. rewrite read_be64_cons by mach. do 2 f_equal.
  assert (Hs : ∀ x, x = 256 * (x / 256) + x mod 256 ∧ 0 ≤ x mod 256 < 256)
    by (intros x; pose proof (Z.div_mod x 256); pose proof (Z.mod_pos_bound x 256); lia).
  pose proof (Hs v) as H0. set (q := v / 256) in *. pose proof (Hs q) as H1. set (q2 := q / 256) in *.
  pose proof (Hs q2) as H2. set (q3 := q2 / 256) in *. pose proof (Hs q3) as H3. set (q4 := q3 / 256) in *.
  pose proof (Hs q4) as H4. set (q5 := q4 / 256) in *. pose proof (Hs q5) as H5. set (q6 := q5 / 256) in *.
  pose proof (Hs q6) as H6. set (q7 := q6 / 256) in *. clearbody q7 q6 q5 q4 q3 q2 q. clear Hs.
  rewrite (Z.mod_small q7); mach_unfold; lia.
Qed.
Lemma be64_read a b c d e f g h :
  is_u8 a → is_u8 b → is_u8 c → is_u8 d → is_u8 e → is_u8 f → is_u8 g → is_u8 h →
  be64 (((((((a * 256 + b) * 256 + c) * 256 + d) * 256 + e) * 256 + f) * 256 + g) * 256 + h)
  = [a; b; c; d; e; f; g; h].
Proof.
  intros. rewrite be64_alt. cbv zeta.
  assert (Hd : ∀ x y, is_u8 y → (x * 256 + y) / 256 = x ∧ (x * 256 + y) mod 256 = y) by (intros; mach).
  rewrite !(λ x y Hy, proj1 (Hd x y Hy)) by done. rewrite !(λ x y Hy, proj2 (Hd x y Hy)) by done.
  rewrite Z.mod_small by mach. done.
Qed.
Lemma read_be64_sound inp v l : bytes_ok inp → read_be64 inp = Some (v, l) →
  is_u64 v ∧ inp = be64 v ++ l.
Proof.
  intros Hok. destruct inp as [|a [|b [|c [|d [|e [|f [|g [|h inp]]]]]]]]; [done..|].
  repeat (apply Forall_cons in Hok as [? Hok]). rewrite read_be64_cons by done. intros [= <- <-].
  rewrite be64_read by done. split; [mach_unfold; lia|done].
Qed.

(** ** Lemmas: tickets *)
Lemma drop_be16 v l : drop 2 (be16 v ++ l) = l.  Proof. done. Qed.
Lemma write_ticket_app out t : ticket_ok t →
  write_ticket out t = out ++ be16 (Z.of_nat (length (t_session_id t))) ++ t_session_id t
    ++ be64 (t_nonce t) ++ be64 (t_expires_unix_ms t)
    ++ be16 (Z.of_nat (length (t_token t))) ++ t_token t.
Proof.
  intros ([Hs _] & _ & _ & [Ht _]). unfold write_ticket, write_be64.
  rewrite !write_lp_utf8_app by done. by rewrite <- !app_assoc.
Qed.
Lemma read_ticket_app t l : ticket_ok t → read_ticket (write_ticket [] t ++ l) = Some (t, l).
Proof.
  intros Hok. rewrite write_ticket_app by done. destruct Hok as (Hs & Hn & He & Ht).
  rewrite app_nil_l, <- !app_assoc. unfold read_ticket.
  rewrite read_lp_utf8_app by done. cbn [mbind option_bind]. rewrite read_be64_be64 by done.
  cbn [mbind option_bind]. rewrite read_be64_be64 by done. cbn [mbind option_bind].
  rewrite read_lp_utf8_app by done. by destruct t.
Qed.
Lemma read_ticket_sound inp t l : bytes_ok inp → read_ticket inp = Some (t, l) →
  ticket_ok t ∧ inp = write_ticket [] t ++ l.
Proof.
  intros Hok H. unfold read_ticket in H.
  apply bind_Some in H as ([s l1] & H1 & H). apply bind_Some in H as ([n l2] & H2 & H).
  apply bind_Some in H as ([e l3] & H3 & H). apply bind_Some in H as ([k l4] & H4 & H). injection H as <- <-.
  apply read_lp_utf8_sound in H1 as [Hs ->]; [|done].
  apply Forall_app in Hok as [_ Hok]. apply Forall_app in Hok as [_ Hok].
  apply read_be64_sound in H2 as [Hn ->]; [|done]. apply Forall_app in Hok as [_ Hok].
  apply read_be64_sound in H3 as [He ->]; [|done]. apply Forall_app in Hok as [_ Hok].
  apply read_lp_utf8_sound in H4 as [Hk ->]; [|done].
  assert (Ht : ticket_ok {| t_session_id := s; t_nonce := n; t_expires_unix_ms := e; t_token := k |}) by done.
  split; [done|]. rewrite write_ticket_app by done. simpl. by rewrite <- !app_assoc.
Qed.

(** ** Lemmas: quality *)
Lemma on_packet_spec m seq recv : is_u32 seq → is_u32 (last_seq_ m) →
  let '(m', r) := on_packet m seq recv in
  initialized_ m' = true ∧ is_u32 (last_seq_ m')
  ∧ last_seq_ m' = (if accepted r then seq else last_seq_ m)
  ∧ (accepted r = true ↔ (initialized_ m = true → last_seq_ m < seq))
  ∧ (initialized_ m = true → duplicate r = (seq =? last_seq_ m) ∧ reordered r = (seq <? last_seq_ m))
  ∧ (initialized_ m = false → duplicate r = false ∧ reordered r = false)
  ∧ estimated_lost_packets r
    = (if accepted r && initialized_ m then seq - last_seq_ m - 1 else 0).
Proof.
  intros Hs Hl. unfold on_packet. destruct (initialized_ m) eqn:Hi; simpl; [|by split_and!].
  destruct (Z.eqb_spec seq (last_seq_ m)) as [->|Hne].
  { rewrite Z.ltb_irrefl. split_and!; try done. split; [done|]. intros Hx. specialize (Hx eq_refl). lia. }
  destruct (Z.ltb_spec seq (last_seq_ m)) as [Hlt|Hge].
  { split_and!; try done. split; [done|]. intros Hx. specialize (Hx eq_refl). lia. }
  assert (Hlost : (if last_seq_ m +₃₂ 1 <? seq then seq -₃₂ last_seq_ m -₃₂ 1 else 0) = seq - last_seq_ m - 1).
  { assert (last_seq_ m +₃₂ 1 = last_seq_ m + 1) as -> by mach.
    destruct (Z.ltb_spec (last_seq_ m + 1) seq); mach. }
  rewrite Hlost. destruct (if last_recv_ms_ m =? 0 then _ else _) as [ia j]. simpl.
  split_and!; try done. split; [|done]. intros _ _. lia.
Qed.

(** The tracker's account of a non-empty stream whose first number is [first]. *)
Record quality_ok (first : Z) (st : UdpSequencedMetrics * list (Z * UpdateResult)) : Prop := {
  qk_init : initialized_ st.1 = true;
  qk_range : is_u32 (last_seq_ st.1);
  qk_last : last (accepted_seqs st.2) = Some (last_seq_ st.1);
  qk_sorted : StronglySorted Z.lt (accepted_seqs st.2);
  qk_count : Z.of_nat (length (accepted_seqs st.2)) + lost_total st.2 = last_seq_ st.1 - first + 1;
}.
Lemma strongly_sorted_snoc (l : list Z) x : StronglySorted Z.lt l → (∀ y, last l = Some y → y < x) →
  StronglySorted Z.lt (l ++ [x]).
Proof.
  intros Hs Hx. apply StronglySorted_app. split_and!; [|done|constructor; [constructor|by constructor]].
  intros y z Hy ->%list_elem_of_singleton.
  destruct l as [|l0 l _] using rev_ind; [by apply not_elem_of_nil in Hy|].
  specialize (Hx l0 (last_snoc _ _)). apply elem_of_app in Hy as [Hy| ->%list_elem_of_singleton]; [|done].
  apply StronglySorted_app in Hs as (Hlt & _). specialize (Hlt y l0 Hy ltac:(by apply list_elem_of_singleton)). lia.
Qed.
Lemma accepted_seqs_snoc rs p r :
  accepted_seqs (rs ++ [(p, r)]) = accepted_seqs rs ++ (if accepted r then [p] else []).
Proof. unfold accepted_seqs. rewrite filter_app, fmap_app. cbn. by destruct (accepted r). Qed.
Lemma lost_total_snoc rs p r : lost_total (rs ++ [(p, r)]) = lost_total rs + estimated_lost_packets r.
Proof. unfold lost_total. induction rs as [|x rs IH]; simpl in *; lia. Qed.
Lemma quality_step first st p : is_u32 p.1 → quality_ok first st → quality_ok first (observe_packet st p).
Proof.
  intros Hp [Hi Hr Hl Hs Hc]. unfold observe_packet. pose proof (on_packet_spec st.1 p.1 p.2 Hp Hr) as H.
  destruct (on_packet st.1 p.1 p.2) as [m r]. destruct H as (H1 & H2 & H3 & H4 & _ & _ & H5).
  rewrite Hi, andb_true_r in H5.
  split; simpl; rewrite ?accepted_seqs_snoc, ?lost_total_snoc; try done; destruct (accepted r).
  - by rewrite last_snoc, H3.
  - by rewrite app_nil_r, H3.
  - apply strongly_sorted_snoc; [done|]. intros y Hy. rewrite Hl in Hy. injection Hy as <-. tauto.
  - by rewrite app_nil_r.
  - rewrite length_app, H3, H5. simpl. lia.
  - rewrite app_nil_r, H3, H5. lia.
Qed.
Lemma quality_stream p packets : Forall (λ p, is_u32 p.1) (p :: packets) →
  quality_ok p.1 (observe_stream (p :: packets)).
Proof.
  intros Hall. unfold observe_stream. induction packets as [|x packets IH] using rev_ind.
  - apply Forall_cons in Hall as [Hp _]. split; simpl; try done; [by repeat constructor|lia].
  - change (p :: packets ++ [x]) with ((p :: packets) ++ [x]) in *. rewrite foldl_app.
    apply Forall_app in Hall as [Hall [Hx _]%Forall_cons]. by apply quality_step, IH.
Qed.

(** ** Lemmas: rollout *)
Lemma session_selected_bucket p s n : 0 ≤ canary_percent p →
  session_selected p s n = p_enabled p && (fnv1a64 s n mod 100 <? canary_percent p).
Proof.
  intros Hc. pose proof (Z.mod_pos_bound (fnv1a64 s n) 100 ltac:(lia)) as Hb. unfold session_selected.
  rewrite u32_small by (mach_unfold; lia). destruct (p_enabled p); simpl; [|done].
  destruct (Z.eqb_spec (canary_percent p) 0) as [->|]; [by destruct (Z.ltb_spec (fnv1a64 s n mod 100) 0); [lia|]|].
  destruct (Z.leb_spec 100 (canary_percent p)); [|done]. symmetry. apply Z.ltb_lt. lia.
Qed.
(** A decimal list, as an operator writes it. *)
Definition print_digit_bytes (v : Z) : list Z :=
  if v <? 10 then [48 + v]
  else if v <? 100 then [48 + v / 10; 48 + v mod 10]
  else if v <? 1000 then [48 + v / 100; 48 + v / 10 mod 10; 48 + v mod 10]
  else if v <? 10000 then [48 + v / 1000; 48 + v / 100 mod 10; 48 + v / 10 mod 10; 48 + v mod 10]
  else [48 + v / 10000; 48 + v / 1000 mod 10; 48 + v / 100 mod 10; 48 + v / 10 mod 10; 48 + v mod 10].
Fixpoint join_csv (tokens : list (list Z)) : list Z :=
  match tokens with
  | [] => []
  | [t] => t
  | t :: tokens => t ++ 44 :: join_csv tokens
  end.
Definition is_dec_digit (c : Z) : Prop := 48 ≤ c ≤ 57.

Lemma print_digit_bytes_ok v : is_u16 v → Forall is_dec_digit (print_digit_bytes v) ∧ print_digit_bytes v ≠ [].
Proof.
  intros Hv. unfold print_digit_bytes. repeat case_match; split; try done;
    repeat constructor; unfold is_dec_digit; mach.
Qed.
Lemma digit_value_dec d : 0 ≤ d < 10 → digit_value 10 (48 + d) = Some d.
Proof.
  intros Hd. unfold digit_value. destruct (Z.leb_spec 48 (48 + d)); [|lia].
  destruct (Z.leb_spec (48 + d) 57); [|lia]. simpl. replace (48 + d - 48) with d by lia.
  by destruct (Z.ltb_spec d 10); [|lia].
Qed.
Lemma from_digits_print v : is_u16 v → from_digits 10 0 (print_digit_bytes v) = Some v.
Proof.
  intros Hv. unfold print_digit_bytes. repeat case_match; cbn [from_digits];
    repeat (rewrite digit_value_dec by mach; cbn [mbind option_bind]); f_equal; mach.
Qed.
Lemma trim_front_digits l : Forall is_dec_digit l → trim_front l = l.
Proof.
  intros [|c l' Hc _]; [done|]. simpl. unfold is_ascii_space, is_dec_digit in *.
  destruct (Z.eqb_spec c 32), (Z.eqb_spec c 9), (Z.eqb_spec c 13), (Z.eqb_spec c 10); (done || lia).
Qed.
Lemma parse_token_print v : is_u16 v → parse_u16_token (print_digit_bytes v) = Some v.
Proof.
  intros Hv. destruct (print_digit_bytes_ok v Hv) as [Hd Hne]. unfold parse_u16_token.
  assert (trim_ascii (print_digit_bytes v) = print_digit_bytes v) as ->.
  { unfold trim_ascii. rewrite (trim_front_digits (print_digit_bytes v)) by done.
    rewrite trim_front_digits by (by apply Forall_reverse). by rewrite reverse_involutive. }
  pose proof (from_digits_print v Hv) as Hf.
  assert (Hx : match print_digit_bytes v with
    | c0 :: c1 :: _ :: _ => (c0 =? 48) && ((c1 =? 120) || (c1 =? 88)) | _ => false end = false).
  { destruct Hd as [|c0 ? _ [|c1 ? Hc1 [|]]]; try done. unfold is_dec_digit in Hc1.
    destruct (Z.eqb_spec c1 120), (Z.eqb_spec c1 88); lia. }
  cbv zeta. rewrite Hx. unfold from_chars_u32. destruct (print_digit_bytes v) as [|c l]; [done|].
  rewrite Hf. cbn [mbind option_bind]. destruct (Z.ltb_spec v (2 ^ 32)); [|mach]. cbn [mbind option_bind].
  by destruct (Z.ltb_spec 0xFFFF v); [mach|].
Qed.
Lemma split_csv_token t : Forall is_dec_digit t → split_csv t = [t].
Proof.
  induction 1 as [|c t Hc _ IH]; [done|]. simpl. rewrite IH. unfold is_dec_digit in Hc.
  by destruct (Z.eqb_spec c 44); [lia|].
Qed.
Lemma split_csv_app t rest : Forall is_dec_digit t → split_csv (t ++ 44 :: rest) = t :: split_csv rest.
Proof.
  induction 1 as [|c t Hc _ IH]; [done|]. simpl. rewrite IH. unfold is_dec_digit in Hc.
  by destruct (Z.eqb_spec c 44); [lia|].
Qed.
Lemma split_join tokens : tokens ≠ [] → Forall (Forall is_dec_digit) tokens → split_csv (join_csv tokens) = tokens.
Proof.
  intros Hne Hall. induction Hall as [|t tokens Ht Hall IH]; [done|]. destruct tokens as [|t2 tokens].
  - by apply split_csv_token.
  - change (join_csv (t :: t2 :: tokens)) with (t ++ 44 :: join_csv (t2 :: tokens)).
    rewrite split_csv_app by done. by rewrite IH.
Qed.
Lemma allowlist_fold tokens : ∀ acc : gset Z, Forall is_u16 tokens →
  foldl (λ out token, match parse_u16_token token with Some opcode => {[opcode]} ∪ out | None => out end)
    acc (print_digit_bytes <$> tokens) = list_to_set tokens ∪ acc.
Proof.
  induction tokens as [|v tokens IH]; intros acc Hall; simpl; [set_solver|].
  apply Forall_cons in Hall as [Hv Hall]. rewrite parse_token_print by done. rewrite IH by done. set_solver.
Qed.

(** ** Properties *)
(** Bind payloads survive the wire.  A request or a response with valid
    strings decodes to itself, and a payload that decodes is byte for byte the
    encoding of what was decoded: there is one representation per message. *)
Theorem direct_bind_roundtrip (t : DirectBindTicket) (code : Z) (message : list Z) :
  ticket_ok t → is_u16 code → lp_ok message →
  decode_direct_bind_request_payload (encode_direct_bind_request_payload t) = Some t
  ∧ decode_direct_bind_response_payload (encode_direct_bind_response_payload code t message)
    = Some {| r_code := code; r_ticket := t; r_message := message |}
  ∧ (∀ p, bytes_ok p → decode_direct_bind_request_payload p = Some t → p = encode_direct_bind_request_payload t)
  ∧ (∀ p, bytes_ok p →
     decode_direct_bind_response_payload p = Some {| r_code := code; r_ticket := t; r_message := message |} →
     p = encode_direct_bind_response_payload code t message).
Proof.
  intros Ht Hc Hm. unfold encode_direct_bind_response_payload, encode_direct_bind_request_payload.
  rewrite (write_lp_utf8_app _ message) by apply Hm.
  assert (Hw : write_ticket (be16 code) t = be16 code ++ write_ticket [] t) by (by rewrite !write_ticket_app).
  rewrite Hw, <- app_assoc. split_and!.
  - unfold decode_direct_bind_request_payload. rewrite <- (app_nil_r (write_ticket [] t)). by rewrite read_ticket_app.
  - unfold decode_direct_bind_response_payload. rewrite read_be16_be16 by done. rewrite length_app.
    change (length (be16 code)) with 2%nat. cbn [Nat.add Nat.ltb Nat.leb]. rewrite drop_be16, read_ticket_app by done. cbn [mbind option_bind].
    rewrite <- (app_nil_r message) at 2. by rewrite read_lp_utf8_app.
  - intros p Hp H. unfold decode_direct_bind_request_payload in H.
    apply bind_Some in H as ([t' l] & H1 & H2). apply read_ticket_sound in H1 as [_ ->]; [|done].
    destruct l; [|done]. injection H2 as ->. by rewrite app_nil_r.
  - intros p Hp H. unfold decode_direct_bind_response_payload in H.
    destruct p as [|a [|b p]]; [done..|]. cbn [length Nat.ltb Nat.leb drop] in H. rewrite drop_0 in H.
    apply bind_Some in H as ([t' l] & H1 & H). apply bind_Some in H as ([m l2] & H2 & H).
    pose proof Hp as Hp'. apply Forall_cons in Hp' as [Ha Hp']. apply Forall_cons in Hp' as [Hb Hp'].
    apply read_ticket_sound in H1 as [_ ->]; [|done]. apply Forall_app in Hp' as [_ Hl].
    apply read_lp_utf8_sound in H2 as [_ ->]; [|done]. destruct l2; [|done]. injection H as <- -> ->.
    rewrite be16_read by done. by rewrite app_nil_r.
Qed.
Definition demo_ticket : DirectBindTicket :=
  {| t_session_id := [115; 49]; t_nonce := 2 ^ 63 + 5; t_expires_unix_ms := 1700000000000; t_token := [195; 169] |}.
Lemma direct_bind_roundtrip_witness :
  decode_direct_bind_request_payload (encode_direct_bind_request_payload demo_ticket) = Some demo_ticket.
Proof.
  refine (proj1 (direct_bind_roundtrip demo_ticket 7 [111; 107] _ _ _)).
  - unfold ticket_ok, lp_ok. split_and!; vm_compute; first [congruence | split; congruence].
  - split; vm_compute; congruence.
  - split; vm_compute; congruence.
Defined.

(** The rollout is a fixed partition of sessions.  A session is attached to
    RUDP exactly when the rollout is on, some opcode is allowed and the session's
    hash bucket (0..99) lies below the canary percentage, so raising the
    percentage only adds sessions, 0 selects none and 100 all; and an allowlist
    written as a decimal list allows exactly the opcodes listed. *)
Theorem rollout_exact (p : DirectTransportRolloutPolicy) (s : list Z) (n : Z) (opcodes : list Z) :
  is_u32 (canary_percent p) → Forall is_u16 opcodes →
  (attach_mode (evaluate_direct_attach p s n) = kRudpCanary ↔
     p_enabled p = true ∧ opcode_allowlist p ≠ ∅ ∧ fnv1a64 s n mod 100 < canary_percent p)
  ∧ parse_direct_opcode_allowlist (join_csv (print_digit_bytes <$> opcodes)) = list_to_set opcodes.
Proof.
  intros Hp Hall. split.
  - unfold evaluate_direct_attach. rewrite session_selected_bucket by (mach_unfold; lia).
    generalize (fnv1a64 s n mod 100). intros bucket. destruct (p_enabled p); simpl; [|by split; [|intros [? _]]].
    destruct (bool_decide (opcode_allowlist p = ∅)) eqn:He; simpl.
    { apply bool_decide_eq_true in He. split; [done|]. by intros (_ & ? & _). }
    apply bool_decide_eq_false in He.
    destruct (Z.ltb_spec bucket (canary_percent p)); simpl; split; try done; intros; lia.
  - unfold parse_direct_opcode_allowlist. destruct opcodes as [|v opcodes]; [by vm_compute|].
    rewrite split_join; [|done|].
    + rewrite allowlist_fold by done. set_solver.
    + apply Forall_fmap. eapply Forall_impl; [exact Hall|]. intros x Hx. by apply print_digit_bytes_ok.
Qed.
Lemma rollout_exact_witness :
  parse_direct_opcode_allowlist (join_csv (print_digit_bytes <$> [512; 65535; 7])) = list_to_set [512; 65535; 7].
Proof.
  refine (proj2 (rollout_exact {| p_enabled := true; canary_percent := 50; opcode_allowlist := {[ 512 ]} |}
    [115; 49] 3 [512; 65535; 7] _ _)).
  - vm_compute; split; congruence.
  - repeat constructor; vm_compute; congruence.
Defined.

(** Loss accounting of a sequenced UDP stream is exact.  Whatever packets
    arrive, the accepted sequence numbers are strictly increasing and end at the
    tracker's position, and the accepted packets together with the packets
    estimated lost are exactly the numbers from the first to the last. *)
Theorem sequenced_accounting (p : Z * Z) (packets : list (Z * Z)) :
  Forall (λ p, is_u32 p.1) (p :: packets) →
  let '(m, rs) := observe_stream (p :: packets) in
  StronglySorted Z.lt (accepted_seqs rs) ∧ last (accepted_seqs rs) = Some (last_seq_ m)
  ∧ Z.of_nat (length (accepted_seqs rs)) + lost_total rs = last_seq_ m - p.1 + 1.
Proof.
  intros Hall. pose proof (quality_stream p packets Hall) as H.
  destruct (observe_stream (p :: packets)) as [m rs]. destruct H. by split_and!.
Qed.
Definition demo_stream : list (Z * Z) := [(11, 1010); (14, 1030); (12, 1031); (14, 1032); (15, 1050)].
Lemma sequenced_accounting_witness :
  let '(m, rs) := observe_stream ((10, 1000) :: demo_stream) in
  accepted_seqs rs = [10; 11; 14; 15] ∧ Z.of_nat (length (accepted_seqs rs)) + lost_total rs = last_seq_ m - 10 + 1.
Proof.
  assert (H : Forall (λ p : Z * Z, is_u32 p.1) ((10, 1000) :: demo_stream))
    by (repeat constructor; vm_compute; congruence).
  pose proof (sequenced_accounting (10, 1000) demo_stream H) as Hs.
  assert (Ha : accepted_seqs (observe_stream ((10, 1000) :: demo_stream)).2 = [10; 11; 14; 15])
    by (vm_compute; reflexivity).
  destruct (observe_stream ((10, 1000) :: demo_stream)) as [m rs].
  split; [exact Ha|exact (proj2 (proj2 Hs))].
Defined.
