(* ===== verification/Resilience.v ===== *)
(** * Resilience controls

    Models of [RetryBudget] and [CircuitBreaker]
    (core/net/resilience_controls.hpp), of the gateway's [UdpBindAbuseGuard]
    (gateway/udp_bind_abuse_guard.hpp) and of the retry backoff
    (core/storage_execution/retry_backoff.hpp).  [now_ms] is the caller's clock.
    [TokenBucket] computes in floating point and is not modelled. *)
From S2P Require Import Prelude Containers.
From stdpp Require Import list gmap strings sorting.
Open Scope Z_scope.

(** ** Retry budget *)
Record RetryBudget := {
  budget_per_window_ : Z;
  window_ms_ : Z;
  window_start_ms_ : Z;
  used_in_window_ : Z;
}.
Definition retry_budget_new : RetryBudget :=
  {| budget_per_window_ := 0; window_ms_ := 60000; window_start_ms_ := 0; used_in_window_ := 0 |}.
Definition budget_configure (b : RetryBudget) (budget_per_window window_ms : Z) : RetryBudget :=
  {| budget_per_window_ := budget_per_window; window_ms_ := Z.max 1 window_ms; window_start_ms_ := 0;
     used_in_window_ := 0 |}.
Definition set_budget_window (b : RetryBudget) (start used : Z) : RetryBudget :=
  {| budget_per_window_ := budget_per_window_ b; window_ms_ := window_ms_ b;
     window_start_ms_ := start; used_in_window_ := used |}.
Definition roll_window_locked (b : RetryBudget) (now_ms : Z) : RetryBudget :=
  if window_start_ms_ b =? 0 then set_budget_window b now_ms (used_in_window_ b)
  else if now_ms <? window_start_ms_ b then set_budget_window b now_ms 0
  else
    let elapsed := now_ms - window_start_ms_ b in
    if window_ms_ b <=? elapsed then set_budget_window b now_ms 0 else b.
Definition budget_consume (b : RetryBudget) (now_ms : Z) : RetryBudget * bool :=
  let b := roll_window_locked b now_ms in
  if budget_per_window_ b <=? used_in_window_ b then (b, false)
  else (set_budget_window b (window_start_ms_ b) (used_in_window_ b +₃₂ 1), true).
Definition budget_remaining (b : RetryBudget) (now_ms : Z) : RetryBudget * Z :=
  let b := roll_window_locked b now_ms in
  (b, if budget_per_window_ b <=? used_in_window_ b then 0 else budget_per_window_ b - used_in_window_ b).

(** ** Circuit breaker *)
Record CircuitBreaker := {
  enabled_ : bool;
  failure_threshold_ : Z;
  open_window_ms_ : Z;
  consecutive_failures_ : Z;
  open_until_ms_ : Z;
}.
Definition circuit_breaker_new : CircuitBreaker :=
  {| enabled_ := true; failure_threshold_ := 5; open_window_ms_ := 10000; consecutive_failures_ := 0;
     open_until_ms_ := 0 |}.
Definition breaker_configure (c : CircuitBreaker) (enabled : bool) (failure_threshold open_window_ms : Z)
    : CircuitBreaker :=
  {| enabled_ := enabled; failure_threshold_ := Z.max 1 failure_threshold;
     open_window_ms_ := Z.max 1 open_window_ms; consecutive_failures_ := 0; open_until_ms_ := 0 |}.
Definition set_breaker (c : CircuitBreaker) (failures until : Z) : CircuitBreaker :=
  {| enabled_ := enabled_ c; failure_threshold_ := failure_threshold_ c; open_window_ms_ := open_window_ms_ c;
     consecutive_failures_ := failures; open_until_ms_ := until |}.
Definition breaker_allow (c : CircuitBreaker) (now_ms : Z) : CircuitBreaker * bool :=
  if negb (enabled_ c) then (c, true)
  else if open_until_ms_ c =? 0 then (c, true)
  else if open_until_ms_ c <=? now_ms then (set_breaker c 0 0, true)
  else (c, false).
Definition breaker_record_failure (c : CircuitBreaker) (now_ms : Z) : CircuitBreaker * bool :=
  if negb (enabled_ c) then (c, false)
  else if negb (open_until_ms_ c =? 0) && (now_ms <? open_until_ms_ c) then (c, false)
  else
    let c := if negb (open_until_ms_ c =? 0) && (open_until_ms_ c <=? now_ms) then set_breaker c 0 0 else c in
    let failures := consecutive_failures_ c +₃₂ 1 in
    if failure_threshold_ c <=? failures
    then (set_breaker c 0 (now_ms +₆₄ open_window_ms_ c), true)
    else (set_breaker c failures (open_until_ms_ c), false).
Definition breaker_record_success (c : CircuitBreaker) : CircuitBreaker :=
  if negb (enabled_ c) then c else set_breaker c 0 0.
Definition breaker_is_open (c : CircuitBreaker) (now_ms : Z) : CircuitBreaker * bool :=
  if negb (enabled_ c) then (c, false)
  else if open_until_ms_ c =? 0 then (c, false)
  else if open_until_ms_ c <=? now_ms then (set_breaker c 0 0, false)
  else (c, true).

(** ** UDP bind abuse guard *)
Record GuardEntry := { window_started_ms : Z; failures_in_window : Z; blocked_until_ms : Z }.
Definition guard_entry_new : GuardEntry :=
  {| window_started_ms := 0; failures_in_window := 0; blocked_until_ms := 0 |}.
Record UdpBindAbuseGuard := {
  fail_window_ms_ : Z;
  fail_limit_ : Z;
  block_ms_ : Z;
  entries_ : gmap string GuardEntry;
}.
Record BlockState := { blocked : bool; retry_after_ms : Z }.
Definition not_blocked : BlockState := {| blocked := false; retry_after_ms := 0 |}.
Definition abuse_guard_new : UdpBindAbuseGuard :=
  {| fail_window_ms_ := 10000; fail_limit_ := 5; block_ms_ := 60000; entries_ := ∅ |}.
Definition guard_configure (g : UdpBindAbuseGuard) (fail_window_ms fail_limit block_ms : Z) : UdpBindAbuseGuard :=
  {| fail_window_ms_ := fail_window_ms; fail_limit_ := fail_limit; block_ms_ := block_ms; entries_ := entries_ g |}.
Definition set_entries (g : UdpBindAbuseGuard) (m : gmap string GuardEntry) : UdpBindAbuseGuard :=
  {| fail_window_ms_ := fail_window_ms_ g; fail_limit_ := fail_limit_ g; block_ms_ := block_ms_ g; entries_ := m |}.

(** The effect on one endpoint's entry. *)
Definition entry_block_state (e : GuardEntry) (now_ms : Z) : GuardEntry * BlockState :=
  if blocked_until_ms e <=? now_ms then
    ({| window_started_ms := window_started_ms e; failures_in_window := failures_in_window e;
        blocked_until_ms := 0 |}, not_blocked)
  else (e, {| blocked := true; retry_after_ms := blocked_until_ms e - now_ms |}).
Definition entry_record_failure (window limit block : Z) (e : GuardEntry) (now_ms : Z) : GuardEntry * bool :=
  if now_ms <? blocked_until_ms e then (e, false)
  else
    let e := if (window_started_ms e =? 0) || (now_ms <? window_started_ms e)
                || (window <? now_ms - window_started_ms e)
             then {| window_started_ms := now_ms; failures_in_window := 0; blocked_until_ms := blocked_until_ms e |}
             else e in
    let failures := failures_in_window e +₃₂ 1 in
    if failures <? limit
    then ({| window_started_ms := window_started_ms e; failures_in_window := failures;
             blocked_until_ms := blocked_until_ms e |}, false)
    else ({| window_started_ms := 0; failures_in_window := 0; blocked_until_ms := now_ms +₆₄ block |}, true).

Definition guard_block_state (g : UdpBindAbuseGuard) (endpoint_key : string) (now_ms : Z)
    : UdpBindAbuseGuard * BlockState :=
  match entries_ g !! endpoint_key with
  | None => (g, not_blocked)
  | Some e => let '(e, b) := entry_block_state e now_ms in (set_entries g (<[endpoint_key := e]> (entries_ g)), b)
  end.
Definition guard_record_failure (g : UdpBindAbuseGuard) (endpoint_key : string) (now_ms : Z)
    : UdpBindAbuseGuard * bool :=
  let e := default guard_entry_new (entries_ g !! endpoint_key) in
  let '(e, b) := entry_record_failure (fail_window_ms_ g) (fail_limit_ g) (block_ms_ g) e now_ms in
  (set_entries g (<[endpoint_key := e]> (entries_ g)), b).
Definition guard_record_success (g : UdpBindAbuseGuard) (endpoint_key : string) : UdpBindAbuseGuard :=
  match entries_ g !! endpoint_key with
  | None => g
  | Some e =>
      set_entries g (<[endpoint_key := {| window_started_ms := 0; failures_in_window := 0;
                                          blocked_until_ms := blocked_until_ms e |}]> (entries_ g))
  end.

(** ** Retry backoff *)
Inductive RetryBackoffMode := kLinear | kExponentialFullJitter.
Record RetryBackoffPolicy := { bo_mode : RetryBackoffMode; base_delay_ms : Z; max_delay_ms : Z }.
Definition k_max_shift : Z := 16.
Definition retry_backoff_upper_bound_ms (p : RetryBackoffPolicy) (attempt : Z) : Z :=
  let base := if base_delay_ms p =? 0 then 1 else base_delay_ms p in
  let max_delay := Z.max base (max_delay_ms p) in
  match bo_mode p with
  | kLinear =>
      if attempt =? 0 then 0
      else if (2 ^ 64 - 1) / base <? attempt then max_delay
      else Z.min max_delay (base *₆₄ attempt)
  | kExponentialFullJitter =>
      let capped_attempt := Z.min attempt k_max_shift in
      let multiplier := 1 <<₆₄ capped_attempt in
      if (2 ^ 64 - 1) / base <? multiplier then max_delay
      else Z.min max_delay (base *₆₄ multiplier)
  end.
(** [uniform n] is the draw of [std::uniform_int_distribution(0, n)]. *)
Definition sample_retry_backoff_delay_ms (uniform : Z → Z) (p : RetryBackoffPolicy) (attempt : Z) : Z :=
  let upper := retry_backoff_upper_bound_ms p attempt in
  if (upper =? 0) || match bo_mode p with kLinear => true | _ => false end then upper
  else uniform upper.

(** ** Retry budget: a run of requests *)
Definition budget_request (st : RetryBudget * Z) (now_ms : Z) : RetryBudget * Z :=
  let '(b, granted) := budget_consume st.1 now_ms in (b, if granted then st.2 + 1 else st.2).
Definition run_budget (b : RetryBudget) (times : list Z) : RetryBudget * Z := foldl budget_request (b, 0) times.

(** After requests from [first] to [now]: the grants before the current window
    fit one budget per elapsed window. *)
Record budget_ok (budget window first now : Z) (st : RetryBudget * Z) : Prop := {
  bk_budget : budget_per_window_ st.1 = budget;
  bk_window : window_ms_ st.1 = window;
  bk_start : 0 < first ≤ window_start_ms_ st.1 ∧ window_start_ms_ st.1 ≤ now;
  bk_used : 0 ≤ used_in_window_ st.1 ≤ budget;
  bk_grants : st.2 ≤ budget * ((window_start_ms_ st.1 - first) / window) + used_in_window_ st.1;
}.
Lemma budget_request_ok budget window first now t st : is_u32 budget → 1 ≤ window → now ≤ t →
  budget_ok budget window first now st → budget_ok budget window first t (budget_request st t).
Proof.
  intros Hb Hw Ht [H1 H2 H3 H4 H5]. destruct st as [b n]. simpl in *.
  assert (Hroll : budget_ok budget window first t (roll_window_locked b t, n)).
  { unfold roll_window_locked. destruct (Z.eqb_spec (window_start_ms_ b) 0); [lia|].
    destruct (Z.ltb_spec t (window_start_ms_ b)); [lia|].
    destruct (Z.leb_spec (window_ms_ b) (t - window_start_ms_ b)) as [Hle|Hgt]; [|split; simpl; (done || lia)].
    split; simpl; try done; try lia.
    assert (Hd : (window_start_ms_ b - first) / window + 1 ≤ (t - first) / window).
    { rewrite <- Z.div_add by lia. apply Z.div_le_mono; lia. }
    nia. }
  destruct Hroll as [R1 R2 R3 R4 R5]. unfold budget_request, budget_consume. simpl in *.
  destruct (Z.leb_spec (budget_per_window_ (roll_window_locked b t)) (used_in_window_ (roll_window_locked b t))) as [Hle|Hgt].
  - split; simpl; (done || lia).
  - assert (Hu : used_in_window_ (roll_window_locked b t) +₃₂ 1 = used_in_window_ (roll_window_locked b t) + 1)
      by (mach_unfold; rewrite Z.mod_small; lia).
    split; simpl; rewrite ?Hu; (done || lia).
Qed.
Lemma run_budget_ok budget window first times : is_u32 budget → 1 ≤ window → 0 < first →
  Sorted Z.le (first :: times) →
  budget_ok budget window first (List.last times first)
    (run_budget (budget_configure retry_budget_new budget window) (first :: times)).
Proof.
  intros Hb Hw Hf. unfold run_budget. induction times as [|t times IH] using rev_ind; intros Hs.
  - simpl. unfold budget_request, budget_consume, roll_window_locked. simpl.
    replace (Z.max 1 window) with window by lia.
    destruct (Z.leb_spec budget 0); split; simpl; rewrite ?Z.sub_diag, ?Z.div_0_l by lia; try done; change (0 +₃₂ 1) with 1; mach_unfold; lia.
  - rewrite app_comm_cons, foldl_app, List.last_last. cbn [foldl].
    pose proof Hs as Hs'. apply Sorted_StronglySorted in Hs'; [|exact _].
    change (first :: times ++ [t]) with ((first :: times) ++ [t]) in Hs'. apply StronglySorted_app in Hs' as (Hlt & Hs1 & _).
    apply (budget_request_ok _ _ _ (List.last times first)); [done..| |by apply IH, StronglySorted_Sorted].
    apply Hlt; [|by apply list_elem_of_singleton].
    destruct times as [|x times _] using rev_ind; [simpl; left|]. rewrite List.last_last. set_solver.
Qed.

(** ** Circuit breaker: specification *)
Inductive BreakerOp := BAllow (now : Z) | BIsOpen (now : Z) | BFail (now : Z) | BSuccess.
Definition breaker_exec (c : CircuitBreaker) (op : BreakerOp) : CircuitBreaker * bool :=
  match op with
  | BAllow t => breaker_allow c t
  | BIsOpen t => breaker_is_open c t
  | BFail t => breaker_record_failure c t
  | BSuccess => (breaker_record_success c, true)
  end.
(** Closed with a number of consecutive failures, or open until a time. *)
Inductive BreakerSpec := BClosed (failures : Z) | BOpen (until : Z).
Definition cooled (s : BreakerSpec) (now : Z) : BreakerSpec :=
  match s with BOpen u => if u <=? now then BClosed 0 else s | BClosed _ => s end.
Definition is_closed (s : BreakerSpec) : bool := match s with BClosed _ => true | BOpen _ => false end.
Definition spec_exec (threshold window : Z) (s : BreakerSpec) (op : BreakerOp) : BreakerSpec * bool :=
  match op with
  | BAllow t => (cooled s t, is_closed (cooled s t))
  | BIsOpen t => (cooled s t, negb (is_closed (cooled s t)))
  | BFail t =>
      match cooled s t with
      | BOpen u => (BOpen u, false)
      | BClosed k => if k + 1 =? threshold then (BOpen (t + window), true) else (BClosed (k + 1), false)
      end
  | BSuccess => (BClosed 0, true)
  end.
Fixpoint run_ops {S} (exec : S → BreakerOp → S * bool) (s : S) (ops : list BreakerOp) : list bool :=
  match ops with
  | [] => []
  | op :: ops => let '(s, b) := exec s op in b :: run_ops exec s ops
  end.
Definition op_time_ok (window : Z) (op : BreakerOp) : Prop :=
  match op with BFail t => 0 ≤ t ∧ is_u64 (t + window) | _ => True end.

(** Simulation between the breaker and its specification. *)
Record breaker_sim (threshold window : Z) (c : CircuitBreaker) (s : BreakerSpec) : Prop := {
  bs_enabled : enabled_ c = true;
  bs_threshold : failure_threshold_ c = threshold;
  bs_window : open_window_ms_ c = window;
  bs_state : match s with
    | BClosed k => open_until_ms_ c = 0 ∧ consecutive_failures_ c = k ∧ 0 ≤ k < threshold
    | BOpen u => open_until_ms_ c = u ∧ 0 < u
    end;
}.
Lemma breaker_sim_reset threshold window c s f u : breaker_sim threshold window c s →
  (u = 0 → 0 ≤ f < threshold) → 0 ≤ u →
  breaker_sim threshold window (set_breaker c f u) (if u =? 0 then BClosed f else BOpen u).
Proof.
  intros [H1 H2 H3 _] Hf Hu. split; simpl; [done..|]. destruct (Z.eqb_spec u 0) as [->|]; [auto|lia].
Qed.
Lemma breaker_step threshold window c s op : is_u32 threshold → 1 ≤ threshold → 1 ≤ window →
  op_time_ok window op → breaker_sim threshold window c s →
  (breaker_exec c op).2 = (spec_exec threshold window s op).2
  ∧ breaker_sim threshold window (breaker_exec c op).1 (spec_exec threshold window s op).1.
Proof.
  intros Ht H1 Hw Hop Hsim. pose proof Hsim as [He Hth Hwin Hst].
  assert (Hzero : breaker_sim threshold window (set_breaker c 0 0) (BClosed 0))
    by (apply (breaker_sim_reset _ _ _ _ 0 0 Hsim); lia).
  destruct op as [t|t|t|]; simpl; unfold breaker_allow, breaker_is_open, breaker_record_failure, breaker_record_success;
    rewrite He; simpl; [..|by split].
  1,2: destruct s as [k|u]; destruct Hst as [Hu Hk]; rewrite Hu; simpl; [by split|];
    destruct (Z.eqb_spec u 0); [lia|]; destruct (Z.leb_spec u t); simpl; by split.
  destruct Hop as [Ht0 Hop].
  assert (Hfail : ∀ k c', breaker_sim threshold window c' (BClosed k) →
    (if failure_threshold_ c' <=? consecutive_failures_ c' +₃₂ 1
     then (set_breaker c' 0 (t +₆₄ open_window_ms_ c'), true)
     else (set_breaker c' (consecutive_failures_ c' +₃₂ 1) (open_until_ms_ c'), false)).2
    = (if k + 1 =? threshold then (BOpen (t + window), true) else (BClosed (k + 1), false)).2
    ∧ breaker_sim threshold window
        (if failure_threshold_ c' <=? consecutive_failures_ c' +₃₂ 1
         then (set_breaker c' 0 (t +₆₄ open_window_ms_ c'), true)
         else (set_breaker c' (consecutive_failures_ c' +₃₂ 1) (open_until_ms_ c'), false)).1
        (if k + 1 =? threshold then (BOpen (t + window), true) else (BClosed (k + 1), false)).1).
  { intros k c' Hc. pose proof Hc as [_ -> -> (-> & -> & Hk)].
    assert (k +₃₂ 1 = k + 1) as -> by (mach_unfold; rewrite Z.mod_small; lia).
    rewrite u64_small by done. destruct (Z.leb_spec threshold (k + 1)), (Z.eqb_spec (k + 1) threshold); try lia; simpl.
    - pose proof (breaker_sim_reset _ _ _ _ 0 (t + window) Hc) as Hr.
      destruct (Z.eqb_spec (t + window) 0); [lia|]. split; [done|]. apply Hr; lia.
    - split; [done|]. by apply (breaker_sim_reset _ _ _ _ (k + 1) 0 Hc); lia. }
  destruct s as [k|u]; destruct Hst as [Hu Hk]; rewrite Hu; simpl.
  - exact (Hfail k c Hsim).
  - destruct (Z.eqb_spec u 0); [lia|]. destruct (Z.ltb_spec t u), (Z.leb_spec u t); try lia; simpl; [by split|].
    by apply (Hfail 0 (set_breaker c 0 0)).
Qed.
Lemma run_breaker_refines threshold window ops : ∀ c s, is_u32 threshold → 1 ≤ threshold → 1 ≤ window →
  Forall (op_time_ok window) ops → breaker_sim threshold window c s →
  run_ops breaker_exec c ops = run_ops (spec_exec threshold window) s ops.
Proof.
  induction ops as [|op ops IH]; intros c s Ht H1 Hw Hall Hsim; [done|].
  apply Forall_cons in Hall as [Hop Hall]. destruct (breaker_step threshold window c s op) as [Hb Hs]; [done..|].
  simpl. destruct (breaker_exec c op) as [c' b], (spec_exec threshold window s op) as [s' b']. simpl in *.
  subst b'. f_equal. by apply IH.
Qed.

(** ** Abuse guard: endpoints are independent *)
Inductive GuardOp := GBlockState (key : string) (now : Z) | GFailure (key : string) (now : Z) | GSuccess (key : string).
Definition op_key (op : GuardOp) : string :=
  match op with GBlockState k _ | GFailure k _ | GSuccess k => k end.
Definition guard_exec (g : UdpBindAbuseGuard) (op : GuardOp) : UdpBindAbuseGuard :=
  match op with
  | GBlockState k t => (guard_block_state g k t).1
  | GFailure k t => (guard_record_failure g k t).1
  | GSuccess k => guard_record_success g k
  end.
Definition run_guard (g : UdpBindAbuseGuard) (ops : list GuardOp) : UdpBindAbuseGuard := foldl guard_exec g ops.

Lemma guard_exec_frame g op : fail_window_ms_ (guard_exec g op) = fail_window_ms_ g
  ∧ fail_limit_ (guard_exec g op) = fail_limit_ g ∧ block_ms_ (guard_exec g op) = block_ms_ g.
Proof.
  destruct op; simpl; unfold guard_block_state, guard_record_failure, guard_record_success;
    repeat case_match; done.
Qed.
Lemma guard_exec_other g op k : op_key op ≠ k → entries_ (guard_exec g op) !! k = entries_ g !! k.
Proof.
  intros Hk. destruct op as [k' t|k' t|k']; simpl in *;
    unfold guard_block_state, guard_record_failure, guard_record_success; repeat case_match; simpl;
    try rewrite lookup_insert_ne; done.
Qed.
Lemma guard_exec_same g g' op k : entries_ g !! k = entries_ g' !! k → op_key op = k →
  fail_window_ms_ g = fail_window_ms_ g' → fail_limit_ g = fail_limit_ g' → block_ms_ g = block_ms_ g' →
  entries_ (guard_exec g op) !! k = entries_ (guard_exec g' op) !! k.
Proof.
  intros He <- Hw Hl Hb. destruct op as [k t|k t|k]; simpl in *;
    unfold guard_block_state, guard_record_failure, guard_record_success; rewrite He, ?Hw, ?Hl, ?Hb;
    repeat case_match; simpl; rewrite ?lookup_insert_eq; congruence.
Qed.
Lemma run_guard_frame g ops : fail_window_ms_ (run_guard g ops) = fail_window_ms_ g
  ∧ fail_limit_ (run_guard g ops) = fail_limit_ g ∧ block_ms_ (run_guard g ops) = block_ms_ g.
Proof.
  unfold run_guard. induction ops as [|op ops IH] using rev_ind; [done|]. rewrite foldl_app. simpl.
  destruct IH as (<- & <- & <-). apply guard_exec_frame.
Qed.
Lemma run_guard_independent g ops k :
  entries_ (run_guard g ops) !! k = entries_ (run_guard g (filter (λ op, op_key op = k) ops)) !! k.
Proof.
  unfold run_guard. induction ops as [|op ops IH] using rev_ind; [done|].
  rewrite filter_app, !foldl_app. cbn [foldl]. rewrite filter_cons, filter_nil.
  destruct (decide (op_key op = k)) as [Hk|Hk]; cbn [foldl]; [|by rewrite guard_exec_other].
  destruct (run_guard_frame g ops) as (H1 & H2 & H3).
  destruct (run_guard_frame g (filter (λ op, op_key op = k) ops)) as (H4 & H5 & H6).
  unfold run_guard in *. apply guard_exec_same; congruence.
Qed.

(** A failure of an endpoint that is not blocked, within its window. *)
Lemma entry_failure_in_window window limit block e t : blocked_until_ms e ≤ t → 0 < window_started_ms e ≤ t →
  t - window_started_ms e ≤ window → 0 ≤ failures_in_window e → is_u32 (failures_in_window e + 1) →
  entry_record_failure window limit block e t
  = if failures_in_window e + 1 <? limit
    then ({| window_started_ms := window_started_ms e; failures_in_window := failures_in_window e + 1;
             blocked_until_ms := blocked_until_ms e |}, false)
    else ({| window_started_ms := 0; failures_in_window := 0; blocked_until_ms := t +₆₄ block |}, true).
Proof.
  intros Hb Hs Hw Hf Hu. unfold entry_record_failure. destruct (Z.ltb_spec t (blocked_until_ms e)); [lia|].
  destruct (Z.eqb_spec (window_started_ms e) 0); [lia|]. destruct (Z.ltb_spec t (window_started_ms e)); [lia|].
  destruct (Z.ltb_spec window (t - window_started_ms e)); [lia|]. simpl. by rewrite u32_small.
Qed.
Lemma entry_failure_blocked window limit block e t : t < blocked_until_ms e →
  entry_record_failure window limit block e t = (e, false).
Proof. intros Hb. unfold entry_record_failure. by destruct (Z.ltb_spec t (blocked_until_ms e)); [|lia]. Qed.
(** Failures of one endpoint within the window, below the limit. *)
Lemma failures_accumulate g k first times : entries_ g !! k = None → 0 < first →
  Sorted Z.le (first :: times) → List.last times first - first ≤ fail_window_ms_ g →
  Z.of_nat (length times) + 1 < fail_limit_ g → is_u32 (fail_limit_ g) →
  entries_ (run_guard g (GFailure k <$> first :: times)) !! k
  = Some {| window_started_ms := first; failures_in_window := Z.of_nat (length times) + 1; blocked_until_ms := 0 |}.
Proof.
  intros Hg Hf. unfold run_guard. induction times as [|t times IH] using rev_ind; intros Hs Hl Hn Hu.
  - simpl. unfold guard_record_failure. rewrite Hg. simpl. unfold entry_record_failure. simpl.
    destruct (Z.ltb_spec first 0); [lia|]. simpl. change (0 +₃₂ 1) with 1. simpl in Hn.
    destruct (Z.ltb_spec 1 (fail_limit_ g)); [|lia]. simpl. by rewrite lookup_insert_eq.
  - rewrite List.last_last in Hl. rewrite length_app in Hn. cbn [length] in Hn.
    pose proof Hs as Hss. apply Sorted_StronglySorted in Hss; [|exact _].
    rewrite app_comm_cons in Hss. apply StronglySorted_app in Hss as (Hlt & Hs1 & _).
    assert (Hle : ∀ y, y ∈ first :: times → y ≤ t) by (intros y Hy; apply Hlt; set_solver).
    assert (Hlast : List.last times first ≤ t).
    { apply Hle. destruct times as [|x times _] using rev_ind; [simpl; left|]. rewrite List.last_last. set_solver. }
    assert (Hft : first ≤ t) by (apply Hle; left).
    specialize (IH ltac:(by apply StronglySorted_Sorted) ltac:(lia) ltac:(lia) Hu).
    rewrite app_comm_cons, fmap_app, foldl_app. set (pre := GFailure k <$> first :: times) in *.
    cbn [foldl fmap list_fmap guard_exec].
    destruct (run_guard_frame g pre) as (H1 & H2 & H3). unfold run_guard in *. clearbody pre.
    unfold guard_record_failure. rewrite IH, H1, H2, H3. cbn [default].
    rewrite entry_failure_in_window by (simpl; lia || (mach_unfold; lia)). simpl.
    destruct (Z.ltb_spec (Z.of_nat (length times) + 1 + 1) (fail_limit_ g)); [|lia]. simpl.
    rewrite lookup_insert_eq, length_app. simpl. do 2 f_equal. lia.
Qed.

(** ** Properties *)
(** The retry budget bounds the retry rate.  From a configured budget, over
    any run of requests at non-decreasing times, no more retries are granted than
    one budget per started window of the elapsed time. *)
Theorem retry_budget_rate (budget window first : Z) (times : list Z) :
  is_u32 budget → 1 ≤ window → 0 < first → Sorted Z.le (first :: times) →
  (run_budget (budget_configure retry_budget_new budget window) (first :: times)).2
  ≤ budget * ((List.last times first - first) / window + 1).
Proof.
  intros Hb Hw Hf Hs. destruct (run_budget_ok budget window first times Hb Hw Hf Hs) as [_ _ [H3 H4] H5 H6].
  set (st := run_budget _ _) in *.
  assert ((window_start_ms_ st.1 - first) / window ≤ (List.last times first - first) / window)
    by (apply Z.div_le_mono; lia).
  mach_unfold. nia.
Qed.
Lemma retry_budget_rate_witness :
  (run_budget (budget_configure retry_budget_new 2 100) [5; 6; 7; 50; 110; 111; 112]).2 ≤ 2 * ((112 - 5) / 100 + 1)
  ∧ (run_budget (budget_configure retry_budget_new 2 100) [5; 6; 7; 50; 110; 111; 112]).2 = 4.
Proof.
  split; [|vm_compute; reflexivity].
  apply (retry_budget_rate 2 100 5 [6; 7; 50; 110; 111; 112]); [vm_compute; split; congruence|lia|lia|].
  repeat constructor; lia.
Defined.

(** C26: the circuit breaker implements its specification.  On every sequence of
    calls the enabled breaker answers as the two-state machine that opens for
    the configured window at the threshold-th consecutive failure, refuses while
    open, and closes afresh on success or when the window has passed. *)
Theorem breaker_refines (threshold window : Z) (ops : list BreakerOp) :
  is_u32 threshold → Forall (op_time_ok (Z.max 1 window)) ops →
  run_ops breaker_exec (breaker_configure circuit_breaker_new true threshold window) ops
  = run_ops (spec_exec (Z.max 1 threshold) (Z.max 1 window)) (BClosed 0) ops.
Proof.
  intros Ht Hall. apply run_breaker_refines; [mach_unfold; lia|lia|lia|done|]. split; simpl; (done || lia).
Qed.
Lemma breaker_refines_witness :
  run_ops breaker_exec (breaker_configure circuit_breaker_new true 2 10)
    [BFail 1; BAllow 1; BFail 5; BAllow 14; BFail 14; BAllow 15; BFail 16; BSuccess; BFail 17; BAllow 17]
  = [false; true; true; false; false; true; false; true; false; true].
Proof.
  rewrite (breaker_refines 2 10); [vm_compute; reflexivity|vm_compute; split; congruence|].
  repeat constructor; vm_compute; congruence.
Defined.

(** Repeated bind failures block their endpoint and no other.  Whatever the
    other endpoints do, an endpoint below its limit is not blocked, the failure
    that reaches the limit within the window blocks it for exactly the
    configured time, and failures while blocked do not extend the block. *)
Theorem abuse_guard_blocks (g : UdpBindAbuseGuard) (ops : list GuardOp) (k : string) (first t now : Z) (times : list Z) :
  entries_ g !! k = None → filter (λ op, op_key op = k) ops = (GFailure k <$> first :: times) →
  0 < first → Sorted Z.le (first :: times ++ [t]) → t - first ≤ fail_window_ms_ g →
  Z.of_nat (length times) + 2 = fail_limit_ g → is_u32 (fail_limit_ g) → is_u64 (t + block_ms_ g) → t ≤ now →
  let g1 := run_guard g ops in
  let '(g2, opened) := guard_record_failure g1 k t in
  let '(g3, state) := guard_block_state g2 k now in
  (guard_block_state g1 k t).2 = not_blocked
  ∧ opened = true
  ∧ (now < t + block_ms_ g →
     state = {| blocked := true; retry_after_ms := t + block_ms_ g - now |}
     ∧ (guard_block_state (guard_record_failure g2 k now).1 k now).2 = state)
  ∧ (t + block_ms_ g ≤ now → state = not_blocked).
Proof.
  intros Hg Hops Hf Hs Hw Hn Hu Hb Hnow. cbv zeta.
  destruct (run_guard_frame g ops) as (H1 & H2 & H3). pose proof (run_guard_independent g ops k) as Hk.
  pose proof Hs as Hss. rewrite app_comm_cons in Hss. apply Sorted_StronglySorted in Hss; [|exact _].
  apply StronglySorted_app in Hss as (Hlt & Hs1 & _).
  assert (Hle : ∀ y, y ∈ first :: times → y ≤ t) by (intros y Hy; apply Hlt; set_solver).
  assert (Hft : first ≤ t) by (apply Hle; left).
  assert (Hlast : List.last times first ≤ t).
  { apply Hle. destruct times as [|x times _] using rev_ind; [simpl; left|]. rewrite List.last_last. set_solver. }
  rewrite Hops, failures_accumulate in Hk; [|done|done|by apply StronglySorted_Sorted|lia|lia|done].
  set (g1 := run_guard g ops) in *. unfold guard_record_failure at 1. rewrite Hk, H1, H2, H3. cbn [default].
  rewrite entry_failure_in_window by (simpl; lia || (mach_unfold; lia)). simpl.
  destruct (Z.ltb_spec (Z.of_nat (length times) + 1 + 1) (fail_limit_ g)); [lia|].
  rewrite (u64_small (t + block_ms_ g)) by done.
  set (e := {| window_started_ms := 0; failures_in_window := 0; blocked_until_ms := t + block_ms_ g |}).
  unfold guard_block_state at 1. cbn [set_entries entries_]. rewrite lookup_insert_eq.
  destruct (entry_block_state e now) as [e' b] eqn:He. split_and!.
  - unfold guard_block_state. rewrite Hk. unfold entry_block_state. cbn [blocked_until_ms].
    by destruct (Z.leb_spec 0 t); [|lia].
  - done.
  - intros Hlt2. unfold entry_block_state in He. simpl in He.
    destruct (Z.leb_spec (t + block_ms_ g) now); [lia|]. injection He as <- <-. split; [done|].
    unfold guard_record_failure. cbn [set_entries entries_]. rewrite lookup_insert_eq. cbn [default from_option].
    rewrite entry_failure_blocked by done. cbn [fst]. unfold guard_block_state. cbn [set_entries entries_].
    rewrite lookup_insert_eq. unfold entry_block_state. simpl.
    by destruct (Z.leb_spec (t + block_ms_ g) now); [lia|].
  - intros Hge. unfold entry_block_state in He. simpl in He.
    destruct (Z.leb_spec (t + block_ms_ g) now); [|lia]. by injection He as <- <-.
Qed.
Lemma abuse_guard_blocks_witness :
  let g := run_guard (guard_configure abuse_guard_new 1000 3 500)
    [GFailure "a" 10; GFailure "b" 11; GSuccess "b"; GFailure "a" 12] in
  (guard_block_state g "a" 20).2 = not_blocked ∧ (guard_record_failure g "a" 20).2 = true.
Proof.
  pose proof (abuse_guard_blocks (guard_configure abuse_guard_new 1000 3 500)
    [GFailure "a" 10; GFailure "b" 11; GSuccess "b"; GFailure "a" 12] "a" 10 20 30 [12]) as H.
  cbv zeta in *. destruct (guard_record_failure _ "a" 20) as [g2 opened].
  destruct (guard_block_state g2 "a" 30) as [g3 st].
  destruct H as (H1 & H2 & _); [vm_compute; reflexivity|vm_compute; reflexivity|lia| |simpl; lia|vm_compute; reflexivity| | |lia|].
  - repeat constructor; lia.
  - vm_compute; split; congruence.
  - vm_compute; split; congruence.
  - split; [exact H1|exact H2].
Defined.

(** The backoff bound is the textbook one, with no overflow.  It equals the
    smaller of the maximum delay and base times attempt (linear) or base times
    two to the attempt, capped at 16 (exponential), computed without bounds on
    the integers, and a sampled delay never exceeds it. *)
Theorem retry_backoff_exact (uniform : Z → Z) (p : RetryBackoffPolicy) (attempt : Z) :
  (∀ n, 0 ≤ n → 0 ≤ uniform n ≤ n) → is_u64 (base_delay_ms p) → is_u64 (max_delay_ms p) → is_u32 attempt →
  let base := Z.max 1 (base_delay_ms p) in
  let max_delay := Z.max base (max_delay_ms p) in
  retry_backoff_upper_bound_ms p attempt
  = match bo_mode p with
    | kLinear => Z.min max_delay (base * attempt)
    | kExponentialFullJitter => Z.min max_delay (base * 2 ^ Z.min attempt 16)
    end
  ∧ 0 ≤ sample_retry_backoff_delay_ms uniform p attempt ≤ retry_backoff_upper_bound_ms p attempt ≤ max_delay.
Proof.
  intros Hr Hb Hm Ha. cbv zeta.
  set (base := Z.max 1 (base_delay_ms p)). set (max_delay := Z.max base (max_delay_ms p)).
  assert (Hbase : (if base_delay_ms p =? 0 then 1 else base_delay_ms p) = base)
    by (subst base; destruct (Z.eqb_spec (base_delay_ms p) 0); mach_unfold; lia).
  assert (Hcap : ∀ k, 0 ≤ k → (if (2 ^ 64 - 1) / base <? k then max_delay else Z.min max_delay (base *₆₄ k))
                      = Z.min max_delay (base * k)).
  { intros k Hk. assert (H1 : 1 ≤ base) by lia. destruct (Z.ltb_spec ((2 ^ 64 - 1) / base) k) as [Hlt|Hge].
    - assert (2 ^ 64 - 1 < base * k).
      { apply Z.div_lt_upper_bound in Hlt || (pose proof (Z.mul_succ_div_gt (2 ^ 64 - 1) base ltac:(lia)); nia). }
      mach_unfold. lia.
    - rewrite u64_small; [done|]. pose proof (Z.mul_div_le (2 ^ 64 - 1) base ltac:(lia)). split; nia. }
  assert (Heq : retry_backoff_upper_bound_ms p attempt
    = match bo_mode p with
      | kLinear => Z.min max_delay (base * attempt)
      | kExponentialFullJitter => Z.min max_delay (base * 2 ^ Z.min attempt 16)
      end).
  { unfold retry_backoff_upper_bound_ms. rewrite Hbase. cbv zeta. fold max_delay. destruct (bo_mode p).
    - destruct (Z.eqb_spec attempt 0) as [->|]; [lia|]. apply Hcap. mach_unfold; lia.
    - unfold k_max_shift. assert (Hp : 0 < 2 ^ Z.min attempt 16 ≤ 2 ^ 16)
        by (destruct Ha; split; [apply Z.pow_pos_nonneg; lia|apply Z.pow_le_mono_r; lia]).
      rewrite (u64_small (Z.shiftl 1 _)), Z.shiftl_1_l by (rewrite ?Z.shiftl_1_l; mach_unfold; lia).
      apply Hcap. lia. }
  split; [done|]. unfold sample_retry_backoff_delay_ms. cbv zeta.
  assert (Hup : 0 ≤ retry_backoff_upper_bound_ms p attempt ≤ max_delay).
  { rewrite Heq. assert (0 ≤ attempt) by (mach_unfold; lia).
    assert (0 ≤ 2 ^ Z.min attempt 16) by lia. destruct (bo_mode p); nia. }
  destruct (_ || _); [lia|]. specialize (Hr (retry_backoff_upper_bound_ms p attempt) ltac:(lia)). lia.
Qed.
Lemma retry_backoff_exact_witness :
  retry_backoff_upper_bound_ms {| bo_mode := kExponentialFullJitter; base_delay_ms := 100; max_delay_ms := 1000 |} 40 = 1000.
Proof.
  rewrite (proj1 (retry_backoff_exact (λ n, n / 2)
    {| bo_mode := kExponentialFullJitter; base_delay_ms := 100; max_delay_ms := 1000 |} 40
    ltac:(intros; mach) ltac:(vm_compute; split; congruence) ltac:(vm_compute; split; congruence)
    ltac:(vm_compute; split; congruence))).
  vm_compute. reflexivity.
Defined.
