(* ===== verification/InstanceRegistry.v ===== *)
(** * Instance registry

    Models of [core/state/instance_registry.hpp] / [instance_registry.cpp]
    (records, selectors, the in-memory backend) and of
    [redis_instance_registry.cpp] (the record's text form and the Redis backend
    with its cache).  Strings are in the "C" locale; clock readings are
    arguments. *)
From S2P Require Import Prelude Containers Text Redis.
From stdpp Require Import list gmap strings.
Open Scope Z_scope.

Record InstanceRecord := {
  instance_id : string;
  ir_host : string;
  ir_port : Z;
  ir_role : string;
  ir_game_mode : string;
  ir_region : string;
  ir_shard : string;
  ir_tags : list string;
  ir_capacity : Z;
  ir_active_sessions : Z;
  ir_ready : bool;
  last_heartbeat_ms : Z;
}.
Definition empty_record : InstanceRecord :=
  {| instance_id := EmptyString; ir_host := EmptyString; ir_port := 0; ir_role := EmptyString;
     ir_game_mode := EmptyString; ir_region := EmptyString; ir_shard := EmptyString; ir_tags := [];
     ir_capacity := 0; ir_active_sessions := 0; ir_ready := true; last_heartbeat_ms := 0 |}.
Record InstanceSelector := {
  sel_all : bool;
  sel_server_ids : list string;
  sel_roles : list string;
  sel_game_modes : list string;
  sel_regions : list string;
  sel_shards : list string;
  sel_tags : list string;
}.
Definition empty_selector : InstanceSelector :=
  {| sel_all := false; sel_server_ids := []; sel_roles := []; sel_game_modes := []; sel_regions := [];
     sel_shards := []; sel_tags := [] |}.
Inductive SelectorPolicyLayer := plGlobal | plGameMode | plRegion | plShard | plServer.
Record SelectorMatchStats := { st_scanned : Z; st_matched : Z; selector_mismatch : Z }.

(** ** Selection *)
Definition normalize_token (value : string) : string := lower (trim value).
Definition normalize_token_set (values : list string) : gset string :=
  foldl (λ out value, let token := normalize_token value in
                      if bool_decide (token = EmptyString) then out else {[token]} ∪ out) ∅ values.
Definition matches_field (value : string) (filters : list string) : bool :=
  match filters with
  | [] => true
  | _ =>
      let normalized_filters := normalize_token_set filters in
      if bool_decide (normalized_filters = ∅) then false
      else bool_decide (normalize_token value ∈ normalized_filters)
  end.
Definition matches_tags (record_tags selector_tags : list string) : bool :=
  match selector_tags with
  | [] => true
  | _ =>
      let normalized_selector_tags := normalize_token_set selector_tags in
      if bool_decide (normalized_selector_tags = ∅) then false
      else existsb (λ tag, bool_decide (normalize_token tag ∈ normalized_selector_tags)) record_tags
  end.
Definition is_nil {A} (l : list A) : bool := match l with [] => true | _ => false end.
Definition has_at_least_one_selector_field (s : InstanceSelector) : bool :=
  sel_all s || negb (is_nil (sel_server_ids s)) || negb (is_nil (sel_roles s))
  || negb (is_nil (sel_game_modes s)) || negb (is_nil (sel_regions s))
  || negb (is_nil (sel_shards s)) || negb (is_nil (sel_tags s)).
Definition matches_selector (r : InstanceRecord) (s : InstanceSelector) : bool :=
  if sel_all s then true
  else if negb (has_at_least_one_selector_field s) then false
  else if negb (matches_field (instance_id r) (sel_server_ids s)) then false
  else if negb (matches_field (ir_role r) (sel_roles s)) then false
  else if negb (matches_field (ir_game_mode r) (sel_game_modes s)) then false
  else if negb (matches_field (ir_region r) (sel_regions s)) then false
  else if negb (matches_field (ir_shard r) (sel_shards s)) then false
  else if negb (matches_tags (ir_tags r) (sel_tags s)) then false
  else true.
Definition classify_selector_policy_layer (s : InstanceSelector) : SelectorPolicyLayer :=
  if sel_all s then plGlobal
  else if negb (is_nil (sel_server_ids s)) then plServer
  else if negb (is_nil (sel_shards s)) then plShard
  else if negb (is_nil (sel_regions s)) then plRegion
  else if negb (is_nil (sel_game_modes s)) then plGameMode
  else plGlobal.
Definition selector_policy_layer_name (l : SelectorPolicyLayer) : string :=
  match l with
  | plGlobal => "global" | plGameMode => "game_mode" | plRegion => "region" | plShard => "shard"
  | plServer => "server"
  end.
Definition select_instances (instances : list InstanceRecord) (s : InstanceSelector)
    : list InstanceRecord * SelectorMatchStats :=
  foldl (λ st r,
    let '(matched, n) := st in
    if matches_selector r s
    then (matched ++ [r], {| st_scanned := st_scanned n +₆₄ 1; st_matched := st_matched n +₆₄ 1;
                             selector_mismatch := selector_mismatch n |})
    else (matched, {| st_scanned := st_scanned n +₆₄ 1; st_matched := st_matched n;
                      selector_mismatch := selector_mismatch n +₆₄ 1 |}))
    ([], {| st_scanned := 0; st_matched := 0; selector_mismatch := 0 |}) instances.

(** ** In-memory backend *)
Definition set_heartbeat (t : Z) (r : InstanceRecord) : InstanceRecord :=
  {| instance_id := instance_id r; ir_host := ir_host r; ir_port := ir_port r; ir_role := ir_role r;
     ir_game_mode := ir_game_mode r; ir_region := ir_region r; ir_shard := ir_shard r; ir_tags := ir_tags r;
     ir_capacity := ir_capacity r; ir_active_sessions := ir_active_sessions r; ir_ready := ir_ready r;
     last_heartbeat_ms := t |}.
Definition InMemoryStateBackend : Type := gmap string InstanceRecord.
Definition memory_upsert (m : InMemoryStateBackend) (r : InstanceRecord) : InMemoryStateBackend * bool :=
  (<[instance_id r := r]> m, true).
Definition memory_remove (m : InMemoryStateBackend) (id : string) : InMemoryStateBackend * bool :=
  (delete id m, bool_decide (is_Some (m !! id))).
Definition memory_touch (m : InMemoryStateBackend) (id : string) (heartbeat_ms : Z) : InMemoryStateBackend * bool :=
  match m !! id with
  | None => (m, false)
  | Some r => (<[id := set_heartbeat heartbeat_ms r]> m, true)
  end.
Definition memory_list_instances `{!MapIteration string} (m : InMemoryStateBackend) : list InstanceRecord :=
  (iterate m).*2.

(** ** The record's text form *)
Definition quote : char := of_code 34.
Definition comma : char := of_code 44.
Definition colon : char := of_code 58.
Definition pipe : char := of_code 124.
Definition open_brace : char := of_code 123.
Definition close_brace : char := of_code 125.
Definition space : char := of_code 32.

(** The pieces between the occurrences of a separator. *)
Fixpoint split_on (c : char) (s : string) : list string :=
  match s with
  | EmptyString => [EmptyString]
  | String c' s' =>
      if bool_decide (c' = c) then EmptyString :: split_on c s'
      else match split_on c s' with
           | l :: ls => String c' l :: ls
           | [] => []
           end
  end.
Definition split_pipe_tokens (value : string) : list string :=
  filter (λ token, token ≠ EmptyString) (trim <$> split_on pipe value).
Definition join_pipe_tokens (values : list string) : string :=
  (foldl (λ (st : string * bool) value,
    if bool_decide (value = EmptyString) then st
    else (st.1 +:+ (if st.2 then EmptyString else String pipe EmptyString) +:+ value, false))
    (EmptyString, true) values).1.

(** [std::stoul] / [std::stoull] (64 bits): [None] is the exception. *)
Definition leading_digits (s : string) : bool :=
  match s with String c _ => is_digit c | EmptyString => false end.
Definition stoull (s : string) : option Z :=
  let t := ltrim s in
  let '(neg, digits) :=
    match t with
    | String c t' => if code c =? 45 then (true, t') else if code c =? 43 then (false, t') else (false, t)
    | EmptyString => (false, t)
    end in
  if negb (leading_digits digits) then None
  else
    let n := digits_value digits 0 in
    if n <? 2 ^ 64 then Some (if neg then u64 (- n) else n) else None.

(** One field of the record overwritten; an exception leaves it. *)
Definition set_field (key value : string) (r : InstanceRecord) : InstanceRecord :=
  let mk id host port role mode region shard tags cap act ready hb :=
    {| instance_id := id; ir_host := host; ir_port := port; ir_role := role; ir_game_mode := mode;
       ir_region := region; ir_shard := shard; ir_tags := tags; ir_capacity := cap;
       ir_active_sessions := act; ir_ready := ready; last_heartbeat_ms := hb |} in
  let '{| instance_id := id; ir_host := host; ir_port := port; ir_role := role; ir_game_mode := mode;
          ir_region := region; ir_shard := shard; ir_tags := tags; ir_capacity := cap;
          ir_active_sessions := act; ir_ready := ready; last_heartbeat_ms := hb |} := r in
  let named k := bool_decide (key = k) in
  if named "instance_id" then mk value host port role mode region shard tags cap act ready hb
  else if named "host" then mk id value port role mode region shard tags cap act ready hb
  else if named "role" then mk id host port value mode region shard tags cap act ready hb
  else if named "game_mode" then mk id host port role value region shard tags cap act ready hb
  else if named "region" then mk id host port role mode value shard tags cap act ready hb
  else if named "shard" then mk id host port role mode region value tags cap act ready hb
  else if named "tags" then mk id host port role mode region shard (split_pipe_tokens value) cap act ready hb
  else if named "port" then mk id host (from_option u16 port (stoull value)) role mode region shard tags cap act ready hb
  else if named "capacity" then mk id host port role mode region shard tags (from_option u32 cap (stoull value)) act ready hb
  else if named "active_sessions" then mk id host port role mode region shard tags cap (from_option u32 act (stoull value)) ready hb
  else if named "ready" then
    mk id host port role mode region shard tags cap act
      (if bool_decide (value = "true") || bool_decide (value = "1") then true
       else if bool_decide (value = "false") || bool_decide (value = "0") then false else ready) hb
  else if named "last_heartbeat_ms" then
    mk id host port role mode region shard tags cap act ready (default hb (stoull value))
  else r.

Definition quoted (s : string) : string := String quote (s +:+ String quote EmptyString).
Definition text_field (key value : string) : string := quoted key +:+ String colon (quoted value).
Definition raw_field (key value : string) : string := quoted key +:+ String colon value.
Fixpoint join_with (c : char) (l : list string) : string :=
  match l with
  | [] => EmptyString
  | [s] => s
  | s :: l => s +:+ String c (join_with c l)
  end.
Definition record_fields (r : InstanceRecord) : list string :=
  [text_field "instance_id" (instance_id r); text_field "host" (ir_host r); raw_field "port" (print_u64 (ir_port r));
   text_field "role" (ir_role r); text_field "game_mode" (ir_game_mode r); text_field "region" (ir_region r);
   text_field "shard" (ir_shard r); text_field "tags" (join_pipe_tokens (ir_tags r));
   raw_field "capacity" (print_u64 (ir_capacity r)); raw_field "active_sessions" (print_u64 (ir_active_sessions r));
   raw_field "ready" (if ir_ready r then "true" else "false");
   raw_field "last_heartbeat_ms" (print_u64 (last_heartbeat_ms r))].
Definition serialize_json (r : InstanceRecord) : string :=
  String open_brace (join_with comma (record_fields r) +:+ String close_brace EmptyString).

Definition blank_brace (c : char) : char :=
  if bool_decide (c = open_brace) || bool_decide (c = close_brace) then space else c.
(** [std::getline] with a delimiter yields no item after a final delimiter. *)
Definition getline_items (c : char) (s : string) : list string :=
  let l := split_on c s in
  if bool_decide (List.last l EmptyString = EmptyString) then removelast l else l.
Definition drop_front_quote (s : string) : string :=
  match s with String c s' => if bool_decide (c = quote) then s' else s | EmptyString => s end.
Fixpoint drop_back_quote (s : string) : string :=
  match s with
  | String c EmptyString => if bool_decide (c = quote) then EmptyString else s
  | String c s' => String c (drop_back_quote s')
  | EmptyString => EmptyString
  end.
Definition unquote (s : string) : string := drop_back_quote (drop_front_quote s).
Definition apply_item (r : InstanceRecord) (item : string) : InstanceRecord :=
  match cut colon item with
  | None => r
  | Some (k, v) => set_field (unquote (trim k)) (unquote (trim v)) r
  end.
(** The source's result is never [nullopt]. *)
Definition deserialize_json (payload : string) : InstanceRecord :=
  foldl apply_item empty_record (getline_items comma (map_string blank_brace payload)).

(** ** Redis backend *)
Record RedisInstanceStateBackend := {
  rb_client : bool;
  rb_key_prefix : string;
  rb_ttl : Z;
  rb_reload_min_interval : Z;
  rb_last_reload_attempt : Z;
  rb_last_reload_ok : Z;
  rb_cache : gmap string InstanceRecord;
}.
Fixpoint last_char (s : string) : option char :=
  match s with
  | EmptyString => None
  | String c EmptyString => Some c
  | String _ s' => last_char s'
  end.
Definition slash : char := of_code 47.
Definition with_slash (s : string) : string :=
  if bool_decide (last_char s = Some slash) then s else s +:+ String slash EmptyString.
Definition redis_backend_new (client : bool) (key_prefix : string) (ttl : Z) : RedisInstanceStateBackend :=
  {| rb_client := client;
     rb_key_prefix := with_slash (if bool_decide (key_prefix = EmptyString) then "gateway/instances/" else key_prefix);
     rb_ttl := if ttl <=? 0 then 10 else ttl; rb_reload_min_interval := 500; rb_last_reload_attempt := 0;
     rb_last_reload_ok := 0; rb_cache := ∅ |}.
Definition set_cache (b : RedisInstanceStateBackend) (cache : gmap string InstanceRecord) : RedisInstanceStateBackend :=
  {| rb_client := rb_client b; rb_key_prefix := rb_key_prefix b; rb_ttl := rb_ttl b;
     rb_reload_min_interval := rb_reload_min_interval b; rb_last_reload_attempt := rb_last_reload_attempt b;
     rb_last_reload_ok := rb_last_reload_ok b; rb_cache := cache |}.
Definition set_reload_times (b : RedisInstanceStateBackend) (attempt ok : Z) : RedisInstanceStateBackend :=
  {| rb_client := rb_client b; rb_key_prefix := rb_key_prefix b; rb_ttl := rb_ttl b;
     rb_reload_min_interval := rb_reload_min_interval b; rb_last_reload_attempt := attempt;
     rb_last_reload_ok := ok; rb_cache := rb_cache b |}.

Section RedisBackend.
Context {R : Type} `{!RedisClient R}.
Implicit Types (b : RedisInstanceStateBackend) (r : R).

Definition write_record b r (record : InstanceRecord) : R * bool :=
  if negb (rb_client b) then (r, true)
  else redis_setex r (rb_key_prefix b +:+ instance_id record) (serialize_json record) (u32 (rb_ttl b)).
Definition redis_upsert b r (record : InstanceRecord) : RedisInstanceStateBackend * R * bool :=
  let b := set_cache b (<[instance_id record := record]> (rb_cache b)) in
  let '(r, ok) := write_record b r record in (b, r, ok).
Definition redis_remove b r (id : string) : RedisInstanceStateBackend * R * bool :=
  let b := set_cache b (delete id (rb_cache b)) in
  if negb (rb_client b) then (b, r, true)
  else let '(r, ok) := redis_del r (rb_key_prefix b +:+ id) in (b, r, ok).
Definition redis_touch b r (id : string) (heartbeat_ms : Z) : RedisInstanceStateBackend * R * bool :=
  match rb_cache b !! id with
  | None => (b, r, false)
  | Some record =>
      let record := set_heartbeat heartbeat_ms record in
      let b := set_cache b (<[id := record]> (rb_cache b)) in
      let '(r, ok) := write_record b r record in (b, r, ok)
  end.

(** One key of a reload. *)
Fixpoint drop_chars (n : nat) (s : string) : string :=
  match n, s with
  | S n, String _ s => drop_chars n s
  | _, _ => s
  end.
Definition set_instance_id (id : string) (record : InstanceRecord) : InstanceRecord :=
  set_field "instance_id" id record.
Definition load_key (prefix : string) (next : gmap string InstanceRecord) (kp : string * option string)
    : gmap string InstanceRecord :=
  match kp.2 with
  | None => next
  | Some payload =>
      if bool_decide (payload = EmptyString) then next
      else
        let record := deserialize_json payload in
        let record :=
          if bool_decide (instance_id record = EmptyString) && (String.length prefix <? String.length kp.1)%nat
          then set_instance_id (drop_chars (String.length prefix) kp.1) record else record in
        <[instance_id record := record]> next
  end.
Definition reload_cache_from_backend b r : option (gmap string InstanceRecord) :=
  if negb (rb_client b) then None
  else
    match redis_scan_keys r (rb_key_prefix b +:+ "*") with
    | None => None
    | Some keys =>
        let fallback := (λ k, redis_get r k) <$> keys in
        let payloads :=
          match keys with
          | [] => fallback
          | _ => match redis_mget r keys with
                 | Some ps => if (length ps =? length keys)%nat then ps else fallback
                 | None => fallback
                 end
          end in
        Some (foldl (load_key (rb_key_prefix b)) ∅ (zip keys payloads))
    end.
Definition redis_list_instances `{!MapIteration string} b r (now : Z)
    : RedisInstanceStateBackend * list InstanceRecord :=
  let b :=
    if rb_client b && (rb_reload_min_interval b <=? now - rb_last_reload_attempt b) then
      let b := set_reload_times b now (rb_last_reload_ok b) in
      match reload_cache_from_backend b r with
      | Some cache => set_reload_times (set_cache b cache) now now
      | None => b
      end
    else b in
  (b, (iterate (rb_cache b)).*2).
End RedisBackend.

(** ** Lemmas: normal forms *)
Lemma normalize_token_set_elem values t :
  t ∈ normalize_token_set values ↔ t ≠ EmptyString ∧ ∃ v, v ∈ values ∧ normalize_token v = t.
Proof.
  unfold normalize_token_set. assert (Hg : ∀ acc : gset string, t ∈ foldl (λ out value, let token := normalize_token value in
    if bool_decide (token = EmptyString) then out else {[token]} ∪ out) acc values
    ↔ t ∈ acc ∨ (t ≠ EmptyString ∧ ∃ v, v ∈ values ∧ normalize_token v = t)).
  { induction values as [|v values IH]; intros acc; simpl.
    - split; [by left|]. intros [?|(_ & v & Hv & _)]; [done|by apply not_elem_of_nil in Hv].
    - rewrite IH. case_bool_decide as Hv; rewrite ?elem_of_union, ?elem_of_singleton; set_solver. }
  rewrite Hg. set_solver.
Qed.
(** A list of filters accepts a value: no filter, or one equal up to case and
    outer spaces, the empty token excepted. *)
Definition accepts (filters : list string) (value : string) : Prop :=
  filters = [] ∨ (normalize_token value ≠ EmptyString ∧ ∃ f, f ∈ filters ∧ normalize_token f = normalize_token value).
Lemma matches_field_spec value filters : matches_field value filters = true ↔ accepts filters value.
Proof.
  unfold matches_field, accepts. destruct filters as [|f filters]; [by split; [left|]|].
  rewrite <- normalize_token_set_elem. case_bool_decide as He.
  - rewrite He. split; [done|]. intros [?|H]; [done|]. by apply not_elem_of_empty in H.
  - rewrite bool_decide_eq_true. split; [by right|]. by intros [?|?].
Qed.
Lemma matches_tags_spec tags filters : matches_tags tags filters = true ↔
  filters = [] ∨ ∃ t, t ∈ tags ∧ filters ≠ [] ∧ accepts filters t.
Proof.
  unfold matches_tags, accepts. destruct filters as [|f filters]; [by split; [left|]|].
  case_bool_decide as He.
  - split; [done|]. intros [?|(t & _ & _ & [?|H])]; [done..|]. apply normalize_token_set_elem in H. rewrite He in H.
    by apply not_elem_of_empty in H.
  - rewrite existsb_exists. split.
    + intros (t & Ht & Hb%bool_decide_eq_true). right. exists t. apply list_elem_of_In in Ht.
      split; [done|]. split; [done|]. right. by apply normalize_token_set_elem.
    + intros [?|(t & Ht & _ & [?|H])]; [done..|]. exists t. apply list_elem_of_In in Ht. split; [done|].
      apply bool_decide_eq_true. by apply normalize_token_set_elem.
Qed.

(** ** Lemmas: separators and quotes *)
Lemma split_on_none c s : has_char c s = false → split_on c s = [s].
Proof.
  induction s as [|c' s IH]; simpl; [done|]. intros [Hc Hs]%orb_false_iff.
  apply bool_decide_eq_false in Hc. rewrite bool_decide_eq_false_2 by done. by rewrite IH.
Qed.
Lemma split_on_app c l s : has_char c l = false → split_on c (l +:+ String c s) = l :: split_on c s.
Proof.
  induction l as [|c' l IH]; simpl.
  - intros _. by rewrite bool_decide_eq_true_2.
  - intros [Hc Hl]%orb_false_iff. rewrite Hc. by rewrite IH.
Qed.
Lemma split_join_with c l : l ≠ [] → Forall (λ s, has_char c s = false) l → split_on c (join_with c l) = l.
Proof.
  intros Hne Hall. induction Hall as [|s l Hs Hall IH]; [done|]. destruct l as [|s2 l]; [by apply split_on_none|].
  change (join_with c (s :: s2 :: l)) with (s +:+ String c (join_with c (s2 :: l))).
  rewrite split_on_app by done. by rewrite IH.
Qed.
Lemma string_app_assoc (a b c : string) : (a +:+ b) +:+ c = a +:+ (b +:+ c).
Proof. induction a as [|x a IH]; [done|]. exact (f_equal (String x) IH). Qed.
Lemma join_with_last c l x s : join_with c (l ++ [x]) +:+ s = join_with c (l ++ [x +:+ s]).
Proof.
  induction l as [|y l IH]; [done|]. destruct l as [|z l]; [apply string_app_assoc|].
  change (join_with c ((y :: z :: l) ++ [x])) with (y +:+ String c (join_with c ((z :: l) ++ [x]))).
  rewrite string_app_assoc. exact (f_equal (λ t, y +:+ String c t) IH).
Qed.
Lemma join_with_first c x f l : String x (join_with c (f :: l)) = join_with c (String x f :: l).
Proof. by destruct l. Qed.
Lemma has_char_join c d l : c ≠ d → Forall (λ s, has_char c s = false) l → has_char c (join_with d l) = false.
Proof.
  intros Hne. induction 1 as [|s l Hs Hall IH]; [done|]. destruct l as [|s2 l]; [done|].
  change (join_with d (s :: s2 :: l)) with (s +:+ String d (join_with d (s2 :: l))).
  rewrite has_char_app, Hs. cbn [has_char orb]. by rewrite bool_decide_eq_false_2, IH by congruence.
Qed.
Lemma map_string_app f (a b : string) : map_string f (a +:+ b) = map_string f a +:+ map_string f b.
Proof. induction a as [|x a IH]; simpl; [done|]. by rewrite IH. Qed.
Lemma blank_brace_id s : has_char open_brace s = false → has_char close_brace s = false →
  map_string blank_brace s = s.
Proof.
  induction s as [|c s IH]; simpl; [done|]. intros [Ho Hs]%orb_false_iff [Hc Hs']%orb_false_iff.
  rewrite IH by done. unfold blank_brace. by rewrite Ho, Hc.
Qed.
Lemma rtrim_quote s : rtrim (s +:+ String quote EmptyString) = s +:+ String quote EmptyString.
Proof.
  induction s as [|c s IH]; [done|]. simpl. rewrite IH.
  rewrite bool_decide_eq_false_2; [done|]. by destruct s.
Qed.
Lemma trim_quoted s : trim (quoted s) = quoted s.
Proof. unfold trim, quoted. simpl. by rewrite rtrim_quote, bool_decide_eq_false_2 by (by destruct s). Qed.
Lemma drop_back_quoted s : drop_back_quote (s +:+ String quote EmptyString) = s.
Proof.
  induction s as [|c s IH]; [done|]. simpl. rewrite IH.
  by destruct (s +:+ String quote EmptyString) eqn:E; [destruct s|].
Qed.
Lemma unquote_quoted s : unquote (quoted s) = s.
Proof. unfold unquote, quoted. simpl. apply drop_back_quoted. Qed.

(** ** Lemmas: numbers, tags and fields *)
Lemma print_u64_digits n : is_u64 n → all_chars is_digit (print_u64 n) = true.
Proof. intros Hn. apply print_digits_all; [apply Hn|done]. Qed.
Lemma stoull_print n : is_u64 n → stoull (print_u64 n) = Some n.
Proof.
  intros Hn. pose proof (print_u64_digits n Hn) as Hd. pose proof (digits_value_print_u64 n Hn) as Hs.
  pose proof (print_u64_nonempty n) as Hne. destruct (print_u64 n) as [|c s]; [done|].
  pose proof Hd as Hd'. simpl in Hd'. apply andb_true_iff in Hd' as [Hc _].
  unfold stoull. cbn [ltrim]. rewrite (digit_not_space _ Hc).
  pose proof (is_digit_code _ Hc). destruct (Z.eqb_spec (code c) 45); [lia|].
  destruct (Z.eqb_spec (code c) 43); [lia|]. cbn [leading_digits]. rewrite Hc. cbn [negb].
  rewrite Hs. destruct (Z.ltb_spec n (2 ^ 64)); [done|]. unfold in_u in Hn. lia.
Qed.
Lemma digits_no_char c s : is_digit c = false → all_chars is_digit s = true → has_char c s = false.
Proof.
  intros Hc. induction s as [|c' s IH]; simpl; [done|]. intros [Hd Hs]%andb_true_iff. rewrite IH, orb_false_r by done.
  apply bool_decide_eq_false. intros ->. congruence.
Qed.

Definition tag_ok (t : string) : Prop := t ≠ EmptyString ∧ has_char pipe t = false ∧ trim t = t.
Definition join_step (st : string * bool) (value : string) : string * bool :=
  if bool_decide (value = EmptyString) then st
  else (st.1 +:+ (if st.2 then EmptyString else String pipe EmptyString) +:+ value, false).
Lemma join_fold l : l ≠ [] → ∀ acc, Forall tag_ok l →
  (foldl join_step (acc, false) l).1 = acc +:+ String pipe (join_with pipe l).
Proof.
  induction l as [|t l IH]; intros Hne acc Hall; [done|]. apply Forall_cons in Hall as [(Ht & _ & _) Hall].
  cbn [foldl]. unfold join_step at 2. rewrite bool_decide_eq_false_2 by done. cbn [fst snd].
  destruct l as [|t2 l]; [done|]. rewrite IH by done.
  change (join_with pipe (t :: t2 :: l)) with (t +:+ String pipe (join_with pipe (t2 :: l))).
  by rewrite !string_app_assoc.
Qed.
Lemma join_pipe_eq l : Forall tag_ok l → join_pipe_tokens l = join_with pipe l.
Proof.
  intros Hall. unfold join_pipe_tokens. fold join_step. destruct l as [|t l]; [done|].
  apply Forall_cons in Hall as [(Ht & _ & _) Hall]. cbn [foldl]. unfold join_step at 2.
  rewrite bool_decide_eq_false_2 by done. cbn [fst snd]. destruct l as [|t2 l]; [done|]. by rewrite join_fold.
Qed.
Lemma split_join_pipe l : Forall tag_ok l → split_pipe_tokens (join_pipe_tokens l) = l.
Proof.
  intros Hall. rewrite join_pipe_eq by done. unfold split_pipe_tokens. destruct l as [|t l]; [done|].
  rewrite split_join_with; [|done|by eapply Forall_impl; [done|]; intros x (_ & ? & _)].
  induction Hall as [|x l' (Hne & _ & Htr) Hall IH]; [done|]. rewrite fmap_cons, Htr, filter_cons_True by done.
  by rewrite IH.
Qed.

(** A string the text form can carry. *)
Definition field_ok (s : string) : Prop :=
  has_char comma s = false ∧ has_char open_brace s = false ∧ has_char close_brace s = false.
Record record_ok (r : InstanceRecord) : Prop := {
  ok_id : field_ok (instance_id r);
  ok_host : field_ok (ir_host r);
  ok_port : is_u16 (ir_port r);
  ok_role : field_ok (ir_role r);
  ok_mode : field_ok (ir_game_mode r);
  ok_region : field_ok (ir_region r);
  ok_shard : field_ok (ir_shard r);
  ok_tags : Forall (λ t, tag_ok t ∧ field_ok t) (ir_tags r);
  ok_capacity : is_u32 (ir_capacity r);
  ok_sessions : is_u32 (ir_active_sessions r);
  ok_heartbeat : is_u64 (last_heartbeat_ms r);
}.
Lemma field_ok_app a b : field_ok a → field_ok b → field_ok (a +:+ b).
Proof. intros (?&?&?) (?&?&?). unfold field_ok. rewrite !has_char_app. by split_and!; apply orb_false_iff. Qed.
Lemma field_ok_quoted s : field_ok s → field_ok (quoted s).
Proof.
  intros H. change (quoted s) with (String quote EmptyString +:+ (s +:+ String quote EmptyString)).
  by repeat apply field_ok_app.
Qed.
Lemma field_ok_text k v : field_ok k → field_ok v → field_ok (text_field k v).
Proof.
  intros Hk Hv. unfold text_field. apply field_ok_app; [by apply field_ok_quoted|].
  change (String colon (quoted v)) with (String colon EmptyString +:+ quoted v).
  by apply field_ok_app, field_ok_quoted.
Qed.
Lemma field_ok_raw k v : field_ok k → field_ok v → field_ok (raw_field k v).
Proof.
  intros Hk Hv. unfold raw_field. apply field_ok_app; [by apply field_ok_quoted|].
  change (String colon v) with (String colon EmptyString +:+ v). by apply field_ok_app.
Qed.
Lemma field_ok_print n : is_u64 n → field_ok (print_u64 n).
Proof. intros Hn. pose proof (print_u64_digits n Hn). split_and!; by apply digits_no_char. Qed.
Lemma field_ok_join l : Forall field_ok l → field_ok (join_with pipe l).
Proof.
  intros Hall. split_and!; (apply has_char_join; [by vm_compute|]); eapply Forall_impl; [done| |done| |done|];
    intros s (?&?&?); done.
Qed.

(** ** Lemmas: reading the text form back *)
Definition key_ok (k : string) : Prop := has_char colon (quoted k) = false.
Lemma apply_text r k v : key_ok k → apply_item r (text_field k v) = set_field k v r.
Proof.
  intros Hk. unfold apply_item, text_field. rewrite cut_app by done. by rewrite !trim_quoted, !unquote_quoted.
Qed.
Lemma apply_raw r k v w : key_ok k → trim w = v → unquote v = v →
  apply_item r (raw_field k w) = set_field k v r.
Proof.
  intros Hk Hw Hv. unfold apply_item, raw_field. rewrite cut_app by done.
  by rewrite trim_quoted, unquote_quoted, Hw, Hv.
Qed.
Lemma drop_back_quote_none s : has_char quote s = false → drop_back_quote s = s.
Proof.
  induction s as [|c s IH]; [done|]. simpl. intros [Hc Hs]%orb_false_iff. rewrite IH by done. rewrite Hc.
  by destruct s.
Qed.
Lemma unquote_none s : has_char quote s = false → unquote s = s.
Proof.
  intros H. unfold unquote. assert (drop_front_quote s = s) as ->; [|by apply drop_back_quote_none].
  destruct s as [|c s]; [done|]. simpl in *. apply orb_false_iff in H as [-> _]. done.
Qed.
Lemma rtrim_space s : rtrim (s +:+ String space EmptyString) = rtrim s.
Proof. induction s as [|c s IH]; [done|]. simpl. by rewrite IH. Qed.
Lemma trim_digits_space s : all_chars is_digit s = true → s ≠ EmptyString →
  trim (s +:+ String space EmptyString) = s.
Proof.
  intros Hd Hne. assert (Hp : trim s = s).
  { apply plain_no_space. eapply all_chars_impl; [|done]. intros c Hc. by rewrite digit_not_space. }
  destruct s as [|c s]; [done|]. simpl in Hd. apply andb_true_iff in Hd as [Hc _].
  unfold trim in *. cbn [String.append ltrim] in *. rewrite (digit_not_space _ Hc) in *.
  assert (Hl : ltrim (String c s +:+ String space EmptyString) = String c s +:+ String space EmptyString)
    by (simpl; by rewrite (digit_not_space _ Hc)).
  rewrite Hl, rtrim_space. exact Hp.
Qed.
Lemma apply_number r k n : key_ok k → is_u64 n → apply_item r (raw_field k (print_u64 n)) = set_field k (print_u64 n) r.
Proof.
  intros Hk Hn. apply apply_raw; [done|apply plain_print_u64, Hn|].
  apply unquote_none, digits_no_char; [done|]. by apply print_u64_digits.
Qed.
(** The first item carries the blank of the opening brace, the last one the
    blank of the closing brace. *)
Lemma apply_first r k v : key_ok k → apply_item r (String space (text_field k v)) = set_field k v r.
Proof.
  intros Hk. unfold apply_item, text_field.
  change (String space (quoted k +:+ String colon (quoted v))) with ((String space (quoted k)) +:+ String colon (quoted v)).
  rewrite cut_app; [|unfold key_ok in Hk; simpl in *; by rewrite Hk].
  change (trim (String space (quoted k))) with (trim (quoted k)). by rewrite !trim_quoted, !unquote_quoted.
Qed.
Lemma apply_last r k n : key_ok k → is_u64 n →
  apply_item r (raw_field k (print_u64 n) +:+ String space EmptyString) = set_field k (print_u64 n) r.
Proof.
  intros Hk Hn. pose proof (print_u64_digits n Hn) as Hd.
  assert (Heq : raw_field k (print_u64 n) +:+ String space EmptyString = raw_field k (print_u64 n +:+ String space EmptyString))
    by (unfold raw_field; by rewrite string_app_assoc).
  rewrite Heq. apply apply_raw; [done| |by apply unquote_none, digits_no_char].
  apply trim_digits_space; [done|apply print_u64_nonempty].
Qed.

Lemma u64_of_u16 n : is_u16 n → is_u64 n.  Proof. mach_unfold. lia. Qed.
Lemma u64_of_u32 n : is_u32 n → is_u64 n.  Proof. mach_unfold. lia. Qed.
Lemma record_fields_ok r : record_ok r → Forall field_ok (record_fields r).
Proof.
  intros [? ? ? ? ? ? ? Htags ? ? ?]. unfold record_fields.
  assert (Hj : field_ok (join_pipe_tokens (ir_tags r))).
  { rewrite join_pipe_eq by (eapply Forall_impl; [exact Htags|]; by intros ? [? _]).
    apply field_ok_join. eapply Forall_impl; [exact Htags|]. by intros ? [_ ?]. }
  repeat (apply Forall_cons; split); try (apply field_ok_text || apply field_ok_raw); try done;
    try (apply field_ok_print; first [done | by apply u64_of_u16 | by apply u64_of_u32]).
  - by destruct (ir_ready r).
Qed.
Lemma items_of_braces f mid g : Forall field_ok (f :: mid ++ [g]) →
  getline_items comma (map_string blank_brace
    (String open_brace (join_with comma (f :: mid ++ [g]) +:+ String close_brace EmptyString)))
  = String space f :: mid ++ [g +:+ String space EmptyString].
Proof.
  intros Hf. cbn [map_string]. change (blank_brace open_brace) with space. rewrite map_string_app.
  change (map_string blank_brace (String close_brace EmptyString)) with (String space EmptyString).
  rewrite blank_brace_id.
  2, 3: apply has_char_join; [by vm_compute|]; eapply Forall_impl; [exact Hf|]; by intros s (?&?&?).
  change (f :: mid ++ [g]) with ((f :: mid) ++ [g]). rewrite join_with_last. cbn [app]. rewrite join_with_first.
  unfold getline_items. rewrite split_join_with; [|done|].
  - rewrite app_comm_cons, List.last_last, bool_decide_eq_false_2; [done|]. by destruct g.
  - apply Forall_cons in Hf as [(Hf & _) Hl]. apply Forall_app in Hl as [Hm [(Hg & _) _]%Forall_cons].
    apply Forall_cons. split; [done|]. apply Forall_app. split; [eapply Forall_impl; [exact Hm|]; by intros s (?&?&?)|].
    repeat constructor. by rewrite has_char_app, Hg.
Qed.
Lemma deserialize_serialize r : record_ok r → deserialize_json (serialize_json r) = r.
Proof.
  intros Hok. pose proof (record_fields_ok r Hok) as Hf. destruct Hok as [? ? ? ? ? ? ? Htags ? ? ?].
  unfold deserialize_json, serialize_json. unfold record_fields in *.
  match type of Hf with Forall _ [?f; ?a1; ?a2; ?a3; ?a4; ?a5; ?a6; ?a7; ?a8; ?a9; ?a10; ?g] =>
    change [f; a1; a2; a3; a4; a5; a6; a7; a8; a9; a10; g] with (f :: [a1; a2; a3; a4; a5; a6; a7; a8; a9; a10] ++ [g]) in *
  end.
  rewrite items_of_braces by done. clear Hf. cbn [app foldl].
  rewrite apply_first by done. rewrite apply_text by done.
  rewrite (apply_number _ "port") by first [done | by apply u64_of_u16]. rewrite !apply_text by done.
  rewrite (apply_number _ "capacity"), (apply_number _ "active_sessions") by first [done | by apply u64_of_u32].
  rewrite (apply_raw _ "ready" (if ir_ready r then "true" else "false")) by first [done | by destruct (ir_ready r)].
  rewrite apply_last by done.
  assert (Hsp : split_pipe_tokens (join_pipe_tokens (ir_tags r)) = ir_tags r).
  { apply split_join_pipe. eapply Forall_impl; [exact Htags|]. by intros ? [? _]. }
  destruct r as [id host port role mode region shard tags cap act ready hb].
  cbn [instance_id ir_host ir_port ir_role ir_game_mode ir_region ir_shard ir_tags ir_capacity ir_active_sessions
    ir_ready last_heartbeat_ms] in *.
  transitivity {| instance_id := id; ir_host := host; ir_port := from_option u16 0 (stoull (print_u64 port));
    ir_role := role; ir_game_mode := mode; ir_region := region; ir_shard := shard;
    ir_tags := split_pipe_tokens (join_pipe_tokens tags); ir_capacity := from_option u32 0 (stoull (print_u64 cap));
    ir_active_sessions := from_option u32 0 (stoull (print_u64 act)); ir_ready := ready;
    last_heartbeat_ms := default 0 (stoull (print_u64 hb)) |}; [by destruct ready|].
  rewrite Hsp, !stoull_print by first [done | by apply u64_of_u16 | by apply u64_of_u32].
  cbn [from_option]. by rewrite u16_small, !u32_small.
Qed.

(** ** Lemmas: the shared store *)
Lemma prefix_app (p s : string) : String.prefix p (p +:+ s) = true.
Proof. induction p as [|c p IH]; [by destruct s|]. simpl. by destruct (Ascii.ascii_dec c c). Qed.
Lemma string_app_inj (p a b : string) : p +:+ a = p +:+ b → a = b.
Proof. induction p as [|c p IH]; [done|]. intros [= H]. by apply IH. Qed.
Lemma serialize_nonempty record : serialize_json record ≠ EmptyString.
Proof. done. Qed.

Section Store.
Context {R : Type} `{!RedisClient R, !RedisLaws R} `{!MapIteration string}.

(** The keys under [p] hold exactly the records of [m]. *)
Record represents (p : string) (r : R) (m : gmap string InstanceRecord) : Prop := {
  rp_records : ∀ id record, m !! id = Some record → instance_id record = id ∧ id ≠ EmptyString ∧ record_ok record;
  rp_keys : ∀ id, contents r !! (p +:+ id) = serialize_json <$> m !! id;
  rp_only : ∀ k, String.prefix p k = true → is_Some (contents r !! k) → ∃ id, k = p +:+ id;
}.
Lemma load_keys p r m ks : represents p r m →
  (∀ k, k ∈ ks → is_Some (contents r !! k) ∧ String.prefix p k = true) → ∀ acc id,
  foldl (load_key p) acc (zip ks ((λ k, contents r !! k) <$> ks)) !! id
  = if decide ((p +:+ id) ∈ ks) then m !! id else acc !! id.
Proof.
  intros Hrep. induction ks as [|k ks IH]; intros Hks acc id; [done|]. cbn [fmap list_fmap zip zip_with foldl].
  rewrite IH by (intros k' Hk'; apply Hks; by right).
  destruct (Hks k ltac:(by left)) as [Hk Hp]. destruct (rp_only _ _ _ Hrep k Hp Hk) as [i ->].
  destruct Hk as [payload Hk]. pose proof Hk as Hm. rewrite (rp_keys _ _ _ Hrep) in Hm.
  apply fmap_Some in Hm as (record & Hm & ->). destruct (rp_records _ _ _ Hrep _ _ Hm) as (Hid & Hne & Hok).
  assert (Hload : load_key p acc (p +:+ i, contents r !! (p +:+ i)) = <[i := record]> acc).
  { unfold load_key. cbn [snd fst]. rewrite Hk. rewrite bool_decide_eq_false_2 by apply serialize_nonempty.
    rewrite deserialize_serialize by done. rewrite Hid, bool_decide_eq_false_2 by done. cbn [andb]. by rewrite Hid. }
  rewrite Hload. destruct (decide (id = i)) as [->|Hni].
  - rewrite lookup_insert_eq, (decide_True (P := (p +:+ i) ∈ (p +:+ i) :: ks)) by (by left). by case_decide; rewrite Hm.
  - rewrite lookup_insert_ne by done.
    rewrite (decide_ext ((p +:+ id) ∈ (p +:+ i) :: ks) ((p +:+ id) ∈ ks)); [done|].
    rewrite elem_of_cons. split; [|by right]. by intros [?%string_app_inj|].
Qed.
Lemma reload_exact b r m : rb_client b = true → literal (rb_key_prefix b) = true →
  represents (rb_key_prefix b) r m → reload_cache_from_backend b r = Some m.
Proof.
  intros Hc Hl Hrep. unfold reload_cache_from_backend. rewrite Hc. cbn [negb].
  destruct (scan_contents r (rb_key_prefix b) Hl) as (ks & -> & Hks).
  assert (Hpay : match ks with [] => (λ k, redis_get r k) <$> ks
    | _ => match redis_mget r ks with
           | Some ps => if (length ps =? length ks)%nat then ps else (λ k, redis_get r k) <$> ks
           | None => (λ k, redis_get r k) <$> ks end end = (λ k, contents r !! k) <$> ks).
  { destruct ks as [|k ks]; [done|]. rewrite mget_contents, length_fmap, Nat.eqb_refl. done. }
  rewrite Hpay. f_equal. apply map_eq. intros id.
  rewrite (load_keys _ r m ks Hrep) by (intros k Hk; by apply Hks).
  case_decide as Hin; [done|]. rewrite lookup_empty. destruct (m !! id) as [record|] eqn:Hm; [|done].
  exfalso. apply Hin, Hks. rewrite (rp_keys _ _ _ Hrep), Hm. split; [eauto|apply prefix_app].
Qed.
Lemma represents_upsert p r m record ttl : record_ok record → instance_id record ≠ EmptyString →
  represents p r m →
  represents p (redis_setex r (p +:+ instance_id record) (serialize_json record) ttl).1 (<[instance_id record := record]> m).
Proof.
  intros Hok Hne [H1 H2 H3]. destruct (setex_contents r (p +:+ instance_id record) (serialize_json record) ttl) as [Hs _].
  split.
  - intros id record' [[<- <-]|[_ Hm]]%lookup_insert_Some; [done|by apply H1].
  - intros id. rewrite Hs. destruct (decide (id = instance_id record)) as [->|Hni].
    + by rewrite !lookup_insert_eq.
    + rewrite !lookup_insert_ne; [apply H2|done|]. intros ?%string_app_inj. congruence.
  - intros k Hp Hk. rewrite Hs in Hk. destruct (decide (k = p +:+ instance_id record)) as [->|Hnk]; [eauto|].
    rewrite lookup_insert_ne in Hk by done. by apply H3.
Qed.
Lemma represents_remove p r m id : represents p r m → represents p (redis_del r (p +:+ id)).1 (delete id m).
Proof.
  intros [H1 H2 H3]. pose proof (del_contents r (p +:+ id)) as Hs. split.
  - intros id' record' [_ Hm]%lookup_delete_Some. by apply H1.
  - intros id'. rewrite Hs. destruct (decide (id' = id)) as [->|Hni]; [by rewrite !lookup_delete_eq|].
    rewrite !lookup_delete_ne; [apply H2|done|]. intros ?%string_app_inj. congruence.
  - intros k Hp Hk. rewrite Hs in Hk. apply H3; [done|]. destruct Hk as [v [_ Hv]%lookup_delete_Some]. eauto.
Qed.
End Store.

(** ** Several processes sharing one registry *)
Inductive RegistryOp := RegUpsert (record : InstanceRecord) | RegRemove (id : string) | RegList (now : Z).
Definition registry_exec {R} `{!RedisClient R} `{!MapIteration string}
    (st : list RedisInstanceStateBackend * R) (who_op : nat * RegistryOp) : list RedisInstanceStateBackend * R :=
  let '(bs, r) := st in
  let '(who, op) := who_op in
  match bs !! who with
  | None => (bs, r)
  | Some b =>
      match op with
      | RegUpsert record => let '(b, r, _) := redis_upsert b r record in (<[who := b]> bs, r)
      | RegRemove id => let '(b, r, _) := redis_remove b r id in (<[who := b]> bs, r)
      | RegList now => let '(b, _) := redis_list_instances b r now in (<[who := b]> bs, r)
      end
  end.
(** The contract: one map of records. *)
Definition registry_spec (n : nat) (m : gmap string InstanceRecord) (who_op : nat * RegistryOp)
    : gmap string InstanceRecord :=
  if (who_op.1 <? n)%nat then
    match who_op.2 with
    | RegUpsert record => <[instance_id record := record]> m
    | RegRemove id => delete id m
    | RegList _ => m
    end
  else m.
Definition registry_op_ok (op : RegistryOp) : Prop :=
  match op with
  | RegUpsert record => record_ok record ∧ instance_id record ≠ EmptyString
  | _ => True
  end.

Section Shared.
Context {R : Type} `{!RedisClient R, !RedisLaws R} `{!MapIteration string}.

Record shared_ok (p : string) (n : nat) (st : list RedisInstanceStateBackend * R) (m : gmap string InstanceRecord) : Prop := {
  sh_len : length st.1 = n;
  sh_backends : Forall (λ b, rb_client b = true ∧ rb_key_prefix b = p) st.1;
  sh_store : represents p st.2 m;
}.
Lemma list_instances_frame b (r : R) now : rb_client (redis_list_instances b r now).1 = rb_client b
  ∧ rb_key_prefix (redis_list_instances b r now).1 = rb_key_prefix b.
Proof. unfold redis_list_instances. cbn [fst]. repeat case_match; done. Qed.
Lemma shared_step p n st m who_op : registry_op_ok who_op.2 → shared_ok p n st m →
  shared_ok p n (registry_exec st who_op) (registry_spec n m who_op).
Proof.
  intros Hop [Hlen Hbs Hst]. destruct st as [bs r], who_op as [who op]. simpl in *.
  unfold registry_spec. simpl. destruct (bs !! who) as [b|] eqn:Hb.
  - pose proof (lookup_lt_Some _ _ _ Hb) as Hlt. rewrite <- Hlen. destruct (Nat.ltb_spec who (length bs)); [|lia].
    pose proof (Forall_lookup_1 _ _ _ _ Hbs Hb) as [Hc Hp].
    assert (Hins : ∀ b', rb_client b' = true ∧ rb_key_prefix b' = p → Forall (λ b, rb_client b = true ∧ rb_key_prefix b = p) (<[who := b']> bs))
      by (intros b' Hb'; by apply Forall_insert).
    destruct op as [record|id|now].
    + unfold redis_upsert, write_record. simpl. rewrite Hc, Hp. simpl.
      destruct (redis_setex r _ _ _) as [r' ok] eqn:Hr. split; simpl; [by rewrite length_insert|by apply Hins|].
      replace r' with (redis_setex r (p +:+ instance_id record) (serialize_json record) (u32 (rb_ttl b))).1 by (by rewrite Hr).
      destruct Hop. by apply represents_upsert.
    + unfold redis_remove. simpl. rewrite Hc, Hp. simpl. destruct (redis_del r _) as [r' ok] eqn:Hr.
      split; simpl; [by rewrite length_insert|by apply Hins|].
      replace r' with (redis_del r (p +:+ id)).1 by (by rewrite Hr). by apply represents_remove.
    + pose proof (list_instances_frame b r now) as [H1 H2]. unfold redis_list_instances in H1, H2.
      split; simpl in *; [by rewrite length_insert| |done]. apply Hins. by rewrite H1, H2.
  - apply lookup_ge_None in Hb. destruct (Nat.ltb_spec who n); [lia|]. by split.
Qed.
End Shared.

(** ** Properties *)
(** C25: The Redis registry is one shared map of records.  Whatever sequence of
    registrations, removals and listings any number of processes perform (not
    [touch], which writes a process's cached record back), with records the text
    form carries ([record_ok]: no commas or braces, tags trimmed and without bars,
    numbers within their width) and keys that do not expire: a process that lists
    the instances when its cache is due sees exactly the records registered and
    not removed, each one read back from its text form unchanged. *)
Theorem registry_refines_map {R} `{!RedisClient R, !RedisLaws R} `{!MapIteration string}
  (n : nat) (p : string) (ttl : Z) (r : R) (ops : list (nat * RegistryOp)) (who : nat) (b : RedisInstanceStateBackend) (now : Z) :
  let backends := replicate n (redis_backend_new true p ttl) in
  let key := rb_key_prefix (redis_backend_new true p ttl) in
  literal key = true → (∀ k, String.prefix key k = true → contents r !! k = None) →
  Forall (λ wo, registry_op_ok wo.2) ops →
  let '(bs, r') := foldl registry_exec (backends, r) ops in
  bs !! who = Some b → rb_reload_min_interval b <= now - rb_last_reload_attempt b →
  (redis_list_instances b r' now).2 ≡ₚ (map_to_list (foldl (registry_spec n) ∅ ops)).*2.
Proof.
  cbv zeta. set (b0 := redis_backend_new true p ttl). intros Hl Hempty Hops.
  assert (Hinv : shared_ok (rb_key_prefix b0) n (foldl registry_exec (replicate n b0, r) ops) (foldl (registry_spec n) ∅ ops)).
  { induction ops as [|op ops IH] using rev_ind.
    - split; simpl; [by rewrite length_replicate|by apply Forall_replicate|].
      split; [set_solver| |].
      + intros id. rewrite lookup_empty. apply Hempty, prefix_app.
      + intros k Hp Hk. rewrite Hempty in Hk by done. by destruct Hk.
    - rewrite !foldl_app. apply Forall_app in Hops as [Hops [Hop _]%Forall_cons]. by apply shared_step, IH. }
  destruct (foldl registry_exec _ ops) as [bs r']. intros Hb Hnow. destruct Hinv as [_ Hbs Hst]. simpl in *.
  pose proof (Forall_lookup_1 _ _ _ _ Hbs Hb) as [Hc Hp].
  unfold redis_list_instances. rewrite Hc. destruct (Z.leb_spec (rb_reload_min_interval b) (now - rb_last_reload_attempt b)); [|lia].
  cbn [andb snd]. rewrite (reload_exact _ r' (foldl (registry_spec n) ∅ ops)); [|done|by rewrite <- Hp in Hl|by rewrite <- Hp in Hst].
  simpl. by rewrite (iterate_perm _ (foldl (registry_spec n) ∅ ops)).
Qed.
Definition demo_record (id : string) : InstanceRecord :=
  {| instance_id := id; ir_host := "10.0.0.1"; ir_port := 7777; ir_role := "server"; ir_game_mode := "fps";
     ir_region := "kr"; ir_shard := "s1"; ir_tags := ["world:w1"; "blue"]; ir_capacity := 64;
     ir_active_sessions := 3; ir_ready := true; last_heartbeat_ms := 1700000000000 |}.
Definition demo_registry_ops : list (nat * RegistryOp) :=
  [(0%nat, RegUpsert (demo_record "a")); (1%nat, RegUpsert (demo_record "b")); (0%nat, RegRemove "b")].
Lemma registry_refines_map_witness :
  let '(bs, r') := foldl registry_exec (replicate 2 (redis_backend_new true "reg" 30), ∅ : gmap string string) demo_registry_ops in
  ∃ b, bs !! 1%nat = Some b
  ∧ (redis_list_instances b r' 1000).2 ≡ₚ (map_to_list (foldl (registry_spec 2) ∅ demo_registry_ops)).*2.
Proof.
  pose proof (λ b, registry_refines_map 2 "reg" 30 (∅ : gmap string string) demo_registry_ops 1 b 1000
    ltac:(vm_compute; reflexivity) ltac:(intros; exact (lookup_empty (M := gmap string) _))
    ltac:(repeat constructor; simpl; try done; vm_compute; congruence)) as H.
  assert (Hb : (foldl registry_exec (replicate 2 (redis_backend_new true "reg" 30), ∅ : gmap string string) demo_registry_ops).1
    !! 1%nat = Some (set_cache (redis_backend_new true "reg" 30) {["b" := demo_record "b"]})) by (vm_compute; reflexivity).
  destruct (foldl registry_exec _ demo_registry_ops) as [bs r'].
  eexists. split; [exact Hb|]. apply H; [exact Hb|vm_compute; congruence].
Defined.

(** Selection keeps exactly the matching records, in order, and counts them.
    A record matches when the selector is universal, or names at least one
    criterion and every criterion it names accepts the record's field up to case
    and outer spaces. *)
Theorem selection_exact (l : list InstanceRecord) (s : InstanceSelector) :
  is_u64 (Z.of_nat (length l)) →
  let '(matched, n) := select_instances l s in
  matched = filter (λ r, matches_selector r s = true) l
  ∧ st_scanned n = Z.of_nat (length l) ∧ st_matched n = Z.of_nat (length matched)
  ∧ st_matched n + selector_mismatch n = st_scanned n
  ∧ ∀ r, matches_selector r s = true ↔
      sel_all s = true
      ∨ (has_at_least_one_selector_field s = true
         ∧ accepts (sel_server_ids s) (instance_id r) ∧ accepts (sel_roles s) (ir_role r)
         ∧ accepts (sel_game_modes s) (ir_game_mode r) ∧ accepts (sel_regions s) (ir_region r)
         ∧ accepts (sel_shards s) (ir_shard r)
         ∧ (sel_tags s = [] ∨ ∃ t, t ∈ ir_tags r ∧ sel_tags s ≠ [] ∧ accepts (sel_tags s) t)).
Proof.
  intros Hlen. assert (Hfold : let '(matched, n) := select_instances l s in
    matched = filter (λ r, matches_selector r s = true) l ∧ st_scanned n = Z.of_nat (length l)
    ∧ st_matched n = Z.of_nat (length matched) ∧ st_matched n + selector_mismatch n = st_scanned n ∧ 0 ≤ selector_mismatch n).
  { unfold select_instances. induction l as [|r l IH] using rev_ind; [done|].
    rewrite foldl_app, filter_app, length_app in *. cbn [foldl length] in *.
    specialize (IH ltac:(mach_unfold; lia)). destruct (foldl _ _ l) as [matched n].
    destruct IH as (-> & H1 & H2 & H3 & H4). rewrite filter_cons, filter_nil.
    pose proof (length_filter (λ r, matches_selector r s = true) l).
    destruct (matches_selector r s) eqn:Hm; [rewrite decide_True by done|rewrite decide_False by done];
      rewrite ?app_nil_r, ?length_app; cbn [st_scanned st_matched selector_mismatch length];
      rewrite ?u64_small by (mach_unfold; lia); split_and!; try done; lia. }
  destruct (select_instances l s) as [matched n]. destruct Hfold as (H1 & H2 & H3 & H4 & _). split_and!; try done.
  intros r. unfold matches_selector. rewrite <- !matches_field_spec, <- matches_tags_spec.
  destruct (sel_all s); [split; [by left|done]|].
  destruct (has_at_least_one_selector_field s), (matches_field (instance_id r) (sel_server_ids s)),
    (matches_field (ir_role r) (sel_roles s)), (matches_field (ir_game_mode r) (sel_game_modes s)),
    (matches_field (ir_region r) (sel_regions s)), (matches_field (ir_shard r) (sel_shards s)),
    (matches_tags (ir_tags r) (sel_tags s)); simpl; split; try done; intros; try (right; by split_and!); intuition done.
Qed.
Lemma selection_exact_witness :
  (select_instances [demo_record "a"; demo_record "b"]
    {| sel_all := false; sel_server_ids := [" A "]; sel_roles := []; sel_game_modes := ["FPS"]; sel_regions := [];
       sel_shards := []; sel_tags := [] |}).1
  = filter (λ r, matches_selector r {| sel_all := false; sel_server_ids := [" A "]; sel_roles := []; sel_game_modes := ["FPS"];
      sel_regions := []; sel_shards := []; sel_tags := [] |} = true) [demo_record "a"; demo_record "b"].
Proof.
  pose proof (selection_exact [demo_record "a"; demo_record "b"]
    {| sel_all := false; sel_server_ids := [" A "]; sel_roles := []; sel_game_modes := ["FPS"]; sel_regions := [];
       sel_shards := []; sel_tags := [] |} ltac:(vm_compute; split; congruence)) as H.
  destruct (select_instances _ _) as [matched n]. exact (proj1 H).
Defined.
