(* ===== verification/SessionDirectory.v ===== *)
(** * Gateway session directory

    Model of [gateway/session_directory.hpp] / [session_directory.cpp]: the
    sticky mapping from client to backend, a local cache over Redis.  The
    mutex covers the cache only; between two Redis commands other gateways may
    run, so an operation is a program over Redis commands ([RedisProg]) and is
    run either on its own ([run_prog]) or interleaved with others
    ([pool_step]).  [now] is the clock reading of the operation, in
    milliseconds. *)
From S2P Require Import Prelude Redis InstanceRegistry.
From stdpp Require Import list gmap strings.
Open Scope Z_scope.

(** ** Programs over Redis *)
Inductive RedisProg (A : Type) :=
  | PRet (a : A)
  | PGet (key : string) (next : option string → RedisProg A)
  | PSetIfNotExists (key value : string) (ttl : Z) (next : bool → RedisProg A)
  | PSetIfEquals (key expected value : string) (ttl : Z) (next : bool → RedisProg A)
  | PDelIfEquals (key expected : string) (next : bool → RedisProg A).
Arguments PRet {A} _.
Arguments PGet {A} _ _.
Arguments PSetIfNotExists {A} _ _ _ _.
Arguments PSetIfEquals {A} _ _ _ _ _.
Arguments PDelIfEquals {A} _ _ _.

Fixpoint prog_bind {A B} (p : RedisProg A) (f : A → RedisProg B) : RedisProg B :=
  match p with
  | PRet a => f a
  | PGet k next => PGet k (λ v, prog_bind (next v) f)
  | PSetIfNotExists k v t next => PSetIfNotExists k v t (λ b, prog_bind (next b) f)
  | PSetIfEquals k e v t next => PSetIfEquals k e v t (λ b, prog_bind (next b) f)
  | PDelIfEquals k e next => PDelIfEquals k e (λ b, prog_bind (next b) f)
  end.
(** One command. *)
Definition prog_step {R} `{!RedisClient R} {A} (r : R) (p : RedisProg A) : R * RedisProg A :=
  match p with
  | PRet a => (r, PRet a)
  | PGet k next => (r, next (redis_get r k))
  | PSetIfNotExists k v t next => let '(r, b) := redis_set_if_not_exists r k v t in (r, next b)
  | PSetIfEquals k e v t next => let '(r, b) := redis_set_if_equals r k e v t in (r, next b)
  | PDelIfEquals k e next => let '(r, b) := redis_del_if_equals r k e in (r, next b)
  end.
(** The whole program, undisturbed. *)
Fixpoint run_prog {R} `{!RedisClient R} {A} (r : R) (p : RedisProg A) : R * A :=
  match p with
  | PRet a => (r, a)
  | PGet k next => run_prog r (next (redis_get r k))
  | PSetIfNotExists k v t next => let '(r, b) := redis_set_if_not_exists r k v t in run_prog r (next b)
  | PSetIfEquals k e v t next => let '(r, b) := redis_set_if_equals r k e v t in run_prog r (next b)
  | PDelIfEquals k e next => let '(r, b) := redis_del_if_equals r k e in run_prog r (next b)
  end.
(** Program [i] of a pool takes a step. *)
Definition pool_step {R} `{!RedisClient R} {A} (st : R * list (RedisProg A)) (i : nat) : R * list (RedisProg A) :=
  match st.2 !! i with
  | None => st
  | Some p => let '(r, p') := prog_step st.1 p in (r, <[i := p']> st.2)
  end.

(** ** The directory *)
Record CacheEntry := { ce_backend : string; ce_expires : Z }.
Record SessionDirectory := {
  sd_redis : bool;
  sd_key_prefix : string;
  sd_ttl : Z;
  sd_cache : gmap string CacheEntry;
}.
Definition session_directory_new (redis : bool) (key_prefix : string) (ttl : Z) : SessionDirectory :=
  {| sd_redis := redis;
     sd_key_prefix := with_slash (if bool_decide (key_prefix = EmptyString) then "gateway/session/" else key_prefix);
     sd_ttl := if ttl <=? 0 then 30 else ttl; sd_cache := ∅ |}.
Definition make_key (d : SessionDirectory) (client_id : string) : string := sd_key_prefix d +:+ client_id.
Definition set_sd_cache (d : SessionDirectory) (cache : gmap string CacheEntry) : SessionDirectory :=
  {| sd_redis := sd_redis d; sd_key_prefix := sd_key_prefix d; sd_ttl := sd_ttl d; sd_cache := cache |}.
Definition cache_backend (d : SessionDirectory) (client_id backend : string) (now : Z) : SessionDirectory :=
  set_sd_cache d (<[client_id := {| ce_backend := backend; ce_expires := now + sd_ttl d * 1000 |}]> (sd_cache d)).

Definition find_backend (d : SessionDirectory) (client_id : string) (now : Z)
    : RedisProg (SessionDirectory * option string) :=
  if bool_decide (client_id = EmptyString) then PRet (d, None)
  else
    let from_redis (d : SessionDirectory) :=
      if negb (sd_redis d) then PRet (d, None)
      else PGet (make_key d client_id) (λ value,
        match value with
        | Some v => if bool_decide (v = EmptyString) then PRet (d, None)
                    else PRet (cache_backend d client_id v now, Some v)
        | None => PRet (d, None)
        end) in
    match sd_cache d !! client_id with
    | Some e => if now <? ce_expires e then PRet (d, Some (ce_backend e))
                else from_redis (set_sd_cache d (delete client_id (sd_cache d)))
    | None => from_redis d
    end.
Definition ensure_backend (d : SessionDirectory) (client_id desired_backend : string) (now : Z)
    : RedisProg (SessionDirectory * option string) :=
  if bool_decide (client_id = EmptyString) || bool_decide (desired_backend = EmptyString) then PRet (d, None)
  else if negb (sd_redis d) then PRet (cache_backend d client_id desired_backend now, Some desired_backend)
  else
    prog_bind (find_backend d client_id now) (λ '(d, existing),
      let key := make_key d client_id in
      let ttl := u32 (sd_ttl d) in
      match existing with
      | Some e =>
          if bool_decide (e = desired_backend)
          then PSetIfEquals key desired_backend desired_backend ttl (λ _, PRet (d, Some e))
          else PRet (d, Some e)
      | None =>
          PSetIfNotExists key desired_backend ttl (λ won,
            if won : bool then PRet (cache_backend d client_id desired_backend now, Some desired_backend)
            else PGet key (λ current,
              match current with
              | Some c =>
                  if bool_decide (c = EmptyString)
                  then PRet (cache_backend d client_id desired_backend now, Some desired_backend)
                  else PRet (cache_backend d client_id c now, Some c)
              | None => PRet (cache_backend d client_id desired_backend now, Some desired_backend)
              end))
      end).
Definition refresh_backend (d : SessionDirectory) (client_id backend_id : string) (now : Z)
    : RedisProg SessionDirectory :=
  if bool_decide (client_id = EmptyString) || bool_decide (backend_id = EmptyString) then PRet d
  else
    let done := PRet (cache_backend d client_id backend_id now) in
    if sd_redis d then PSetIfEquals (make_key d client_id) backend_id backend_id (u32 (sd_ttl d)) (λ _, done)
    else done.
Definition release_backend (d : SessionDirectory) (client_id backend_id : string) : RedisProg SessionDirectory :=
  if bool_decide (client_id = EmptyString) || bool_decide (backend_id = EmptyString) then PRet d
  else
    let d := match sd_cache d !! client_id with
             | Some e => if bool_decide (ce_backend e = backend_id)
                         then set_sd_cache d (delete client_id (sd_cache d)) else d
             | None => d
             end in
    if sd_redis d then PDelIfEquals (make_key d client_id) backend_id (λ _, PRet d) else PRet d.

(** ** Agreement: programs that settle on the value of one key *)
Section Agreement.
Context {R : Type} `{!RedisClient R, !RedisLaws R} (key : string).

(** [agree cv n p]: when the key holds [cv], program [p] returns the key's
    value within [n] commands, whatever value other programs store meanwhile. *)
Inductive agree : option string → nat → RedisProg (SessionDirectory * option string) → Prop :=
  | agree_ret cv n d b : cv = Some b → b ≠ EmptyString → agree cv n (PRet (d, Some b))
  | agree_get cv n next :
      (∀ v, v ≠ EmptyString → agree (Some v) n (next (Some v))) → (cv = None → agree None n (next None)) →
      agree cv (S n) (PGet key next)
  | agree_set_if_not_exists cv n desired ttl next : desired ≠ EmptyString →
      agree (Some desired) n (next true) → (∀ v, v ≠ EmptyString → agree (Some v) n (next false)) →
      agree cv (S n) (PSetIfNotExists key desired ttl next)
  | agree_set_if_equals cv n e ttl next : cv = Some e → e ≠ EmptyString →
      (∀ b, agree (Some e) n (next b)) → agree cv (S n) (PSetIfEquals key e e ttl next).

Lemma agree_mono n p v : v ≠ EmptyString → agree None n p → agree (Some v) n p.
Proof.
  intros Hv H. inversion H as [| |? ? ? ? ? ? H1 H2|]; subst; [done| | |done].
  - by apply agree_get.
  - by apply agree_set_if_not_exists.
Qed.
(** A step of one program: the key is kept once set, the program gets closer. *)
Lemma agree_step r n p : contents r !! key ≠ Some EmptyString → agree (contents r !! key) n p →
  let '(r', p') := prog_step r p in
  (contents r' !! key = contents r !! key ∨ (contents r !! key = None ∧ ∃ v, contents r' !! key = Some v ∧ v ≠ EmptyString))
  ∧ agree (contents r' !! key) (pred n) p'.
Proof.
  intros Hne H. inversion H as [cv m d b Hcv Hb|cv m next Hs Hn|cv m desired ttl next Hd Ht Hf|cv m e ttl next Hcv He Hn]; subst; simpl.
  - split; [by left|]. by apply agree_ret.
  - split; [by left|]. rewrite get_contents. destruct (contents r !! key) as [v|]; [apply Hs; congruence|by apply Hn].
  - pose proof (set_if_not_exists_contents r key desired ttl) as Hl.
    destruct (redis_set_if_not_exists r key desired ttl) as [r' ok]. destruct (contents r !! key) as [v|] eqn:Hc.
    + destruct Hl as [Hl ->]. rewrite Hl, Hc. split; [by left|]. apply Hf. congruence.
    + destruct Hl as [Hl ->]. rewrite Hl, lookup_insert_eq. split; [right; eauto|done].
  - pose proof (set_if_equals_contents r key e e ttl) as Hl.
    destruct (redis_set_if_equals r key e e ttl) as [r' ok]. rewrite bool_decide_eq_true_2 in Hl by done.
    destruct Hl as [Hl ->]. rewrite Hl, lookup_insert_eq. split; [left; congruence|apply Hn].
Qed.

(** A pool of programs, each with a bound on its remaining commands. *)
Record pool_ok (st : R * list (RedisProg (SessionDirectory * option string))) (bounds : list nat) : Prop := {
  po_key : contents st.1 !! key ≠ Some EmptyString;
  po_progs : Forall2 (agree (contents st.1 !! key)) bounds st.2;
}.
Lemma pool_step_ok st bounds i : pool_ok st bounds → pool_ok (pool_step st i) (alter pred i bounds).
Proof.
  intros [Hk Hp]. destruct st as [r ps]. simpl in *. unfold pool_step. simpl. destruct (ps !! i) as [p|] eqn:Hi.
  - destruct (Forall2_lookup_r _ _ _ _ _ Hp Hi) as (n & Hn & Ha). pose proof (agree_step r n p Hk Ha) as Hs.
    destruct (prog_step r p) as [r' p']. destruct Hs as [Hkeep Hp']. split; simpl.
    + destruct Hkeep as [->|(_ & v & -> & Hv)]; [done|congruence].
    + assert (Hall : Forall2 (agree (contents r' !! key)) bounds ps).
      { eapply Forall2_impl; [exact Hp|]. intros m q Hq. destruct Hkeep as [->|(Hnone & v & -> & Hv)]; [done|].
        rewrite Hnone in Hq. by apply agree_mono. }
      rewrite list_insert_alter. apply Forall2_alter; [done|]. intros m q Hm Hq _.
      rewrite Hn in Hm. by injection Hm as <-.
  - split; [done|]. simpl. apply Forall2_alter_l; [done|]. intros; congruence.
Qed.
Lemma agree_zero cv p : agree cv 0 p → ∃ d b, p = PRet (d, Some b) ∧ cv = Some b.
Proof. intros H. inversion H; subst; eauto. Qed.
Lemma agree_result cv n d res : agree cv n (PRet (d, res)) → res = cv ∧ is_Some cv.
Proof. intros H. inversion H; subst; eauto. Qed.
Lemma pool_run_ok st bounds schedule : pool_ok st bounds →
  pool_ok (foldl pool_step st schedule) (foldl (λ b i, alter pred i b) bounds schedule).
Proof.
  revert st bounds. induction schedule as [|i schedule IH]; intros st bounds H; [done|]. by apply IH, pool_step_ok.
Qed.
Lemma bounds_run schedule : ∀ (bounds : list nat) i n, bounds !! i = Some n →
  foldl (λ b i, alter pred i b) bounds schedule !! i
  = Some (n - length (filter (λ j, j = i) schedule))%nat.
Proof.
  induction schedule as [|j schedule IH]; intros bounds i n Hi; cbn [foldl].
  - rewrite filter_nil. simpl. by rewrite Nat.sub_0_r.
  - rewrite filter_cons. destruct (decide (j = i)) as [->|Hne].
    + rewrite (IH _ _ (pred n)) by (by rewrite list_lookup_alter_eq, Hi). simpl. f_equal. lia.
    + by rewrite (IH _ _ n) by (by rewrite list_lookup_alter_ne).
Qed.
End Agreement.

(** [ensure_backend] takes at most three commands.  What the gateway has cached for
    the client, unless it has expired, is what Redis holds. *)
Definition cache_fresh (d : SessionDirectory) (client : string) (now : Z) (cv : option string) : Prop :=
  ∀ e, sd_cache d !! client = Some e → now < ce_expires e → cv = Some (ce_backend e).
Lemma ensure_agrees d client desired now cv : sd_redis d = true → cache_fresh d client now cv → cv ≠ Some EmptyString →
  client ≠ EmptyString → desired ≠ EmptyString →
  agree (make_key d client) cv 3 (ensure_backend d client desired now).
Proof.
  intros Hr Hc Hcv Hcl Hd. unfold ensure_backend. rewrite !bool_decide_eq_false_2 by done. cbn [orb]. rewrite Hr. cbn [negb].
  match goal with |- agree _ _ _ (prog_bind _ ?K) => set (settle := K) end.
  assert (Hask : ∀ d', sd_redis d' = true → make_key d' client = make_key d client → agree (make_key d client) cv 3
    (prog_bind (PGet (make_key d' client) (λ value, match value with
      | Some v => if bool_decide (v = EmptyString) then PRet (d', None) else PRet (cache_backend d' client v now, Some v)
      | None => PRet (d', None) end)) settle)).
  { intros d' Hr' Hk. cbn [prog_bind]. rewrite Hk. apply agree_get.
    - intros v Hv. rewrite bool_decide_eq_false_2 by done. cbn [prog_bind]. unfold settle. change (make_key (cache_backend _ _ _ _) client) with (make_key d' client).
      rewrite Hk. cbv zeta. case_bool_decide as He; [subst v; by apply agree_set_if_equals; [..|intros b; apply agree_ret]|by apply agree_ret].
    - intros _. cbn [prog_bind]. unfold settle. rewrite Hk. apply agree_set_if_not_exists; [done|by apply agree_ret|].
      intros v Hv. apply agree_get; [|done]. intros w Hw. rewrite bool_decide_eq_false_2 by done. by apply agree_ret. }
  unfold find_backend. rewrite bool_decide_eq_false_2 by done.
  destruct (sd_cache d !! client) as [e|] eqn:E; [destruct (now <? ce_expires e) eqn:Ht|].
  - rewrite (Hc e E) in Hcv |- * by lia. cbn [prog_bind]. unfold settle. assert (ce_backend e ≠ EmptyString) by congruence.
    case_bool_decide as He; [rewrite <- He; by apply agree_set_if_equals; [..|intros b; apply agree_ret]|by apply agree_ret].
  - cbn [set_sd_cache sd_redis]. rewrite Hr. cbn [negb]. by apply Hask.
  - rewrite Hr. cbn [negb]. by apply Hask.
Qed.

(** ** Properties *)
(** C16: concurrent gateways agree on a client's backend.  However the Redis
    commands of any number of gateways binding the same client interleave, every
    call finishes within three commands of its own, all finished calls return
    the same backend, and that backend is the one Redis holds.  A gateway may have
    the client cached, as long as the entry has expired or says what Redis says;
    Redis answers every command, and no key expires during the calls. *)
Theorem sticky_agreement {R} `{!RedisClient R, !RedisLaws R} (r : R) (client prefix : string)
  (gateways : list (SessionDirectory * string * Z)) (schedule : list nat) :
  client ≠ EmptyString → contents r !! (prefix +:+ client) ≠ Some EmptyString →
  Forall (λ g, sd_redis g.1.1 = true ∧ sd_key_prefix g.1.1 = prefix ∧ cache_fresh g.1.1 client g.2 (contents r !! (prefix +:+ client))
               ∧ g.1.2 ≠ EmptyString) gateways →
  let pool := (λ g, ensure_backend g.1.1 client g.1.2 g.2) <$> gateways in
  let '(r', final) := foldl pool_step (r, pool) schedule in
  (∀ i d res, final !! i = Some (PRet (d, res)) → res = contents r' !! (prefix +:+ client) ∧ is_Some res)
  ∧ (∀ i, (i < length gateways)%nat → (3 ≤ length (filter (λ j, j = i) schedule))%nat →
     ∃ d res, final !! i = Some (PRet (d, Some res))).
Proof.
  intros Hcl Hr Hg. cbv zeta. set (pool := _ <$> gateways). set (key := prefix +:+ client).
  assert (Hok : pool_ok key (r, pool) (replicate (length gateways) 3%nat)).
  { split; [done|]. simpl. subst pool. apply Forall2_same_length_lookup_2; [by rewrite length_replicate, length_fmap|].
    intros i n p [-> _]%lookup_replicate. rewrite list_lookup_fmap. intros (g & Hi & ->)%fmap_Some.
    destruct (Forall_lookup_1 _ _ _ _ Hg Hi) as (H1 & H2 & H3 & H4). subst key. rewrite <- H2 in Hr, H3 |- *.
    by apply ensure_agrees. }
  pose proof (pool_run_ok key _ _ schedule Hok) as Hrun.
  destruct (foldl pool_step (r, pool) schedule) as [r' final]. destruct Hrun as [_ Hf]. simpl in Hf. split.
  - intros i d res Hi. destruct (Forall2_lookup_r _ _ _ _ _ Hf Hi) as (n & _ & Ha).
    apply agree_result in Ha as [-> ?]. done.
  - intros i Hi Hc. destruct (lookup_lt_is_Some_2 (replicate (length gateways) 3%nat) i) as [n Hn]; [by rewrite length_replicate|].
    pose proof Hn as [-> _]%lookup_replicate. apply (bounds_run schedule) in Hn.
    destruct (Forall2_lookup_l _ _ _ _ _ Hf Hn) as (p & Hp & Ha).
    replace (3 - length (filter (λ j, j = i) schedule))%nat with 0%nat in Ha by lia.
    apply agree_zero in Ha as (d & b & -> & _). eauto.
Qed.
Definition demo_gateway : SessionDirectory := session_directory_new true EmptyString 30.
Lemma sticky_agreement_witness :
  let '(r', final) := foldl pool_step (∅ : gmap string string,
      (λ g : SessionDirectory * string * Z, ensure_backend g.1.1 "alice" g.1.2 g.2)
        <$> [(demo_gateway, "s1", 10); (demo_gateway, "s2", 11)]) [0; 1; 1; 0; 0; 1]%nat in
  r' !! "gateway/session/alice" = Some "s2" ∧ ∀ i d res, final !! i = Some (PRet (d, res)) → res = Some "s2".
Proof.
  pose proof (sticky_agreement (∅ : gmap string string) "alice" "gateway/session/"
    [(demo_gateway, "s1", 10); (demo_gateway, "s2", 11)] [0; 1; 1; 0; 0; 1]%nat) as H. cbv zeta in H.
  assert (Hr : (foldl pool_step (∅ : gmap string string,
      (λ g : SessionDirectory * string * Z, ensure_backend g.1.1 "alice" g.1.2 g.2)
        <$> [(demo_gateway, "s1", 10); (demo_gateway, "s2", 11)]) [0; 1; 1; 0; 0; 1]%nat).1 !! "gateway/session/alice" = Some "s2")
    by (vm_compute; reflexivity).
  destruct (foldl pool_step _ [0; 1; 1; 0; 0; 1]%nat) as [r' final]. split; [exact Hr|].
  intros i d res Hi. destruct H as [H _]; [done|done| |].
  - repeat constructor; try reflexivity; done.
  - destruct (H i d res Hi) as [-> _]. exact Hr.
Defined.
