(* ===== verification/Opcodes.v ===== *)
(** * Opcode tables

    [core/protocol/opcode_policy.hpp] and the header generator
    [tools/gen_opcodes.py] with the two specifications it is run on.  The
    generated headers hold an [opcode_name] and an [opcode_policy] switch; a
    switch is modelled by the list of its cases.  Descriptions and directions
    only reach C++ comments and are left out.  JSON values are integers,
    strings and null; text is ASCII. *)
From S2P Require Import Prelude Text Packet.
From stdpp Require Import list gmap strings sorting.
Open Scope Z_scope.

(** ** Policy types *)
Inductive SessionStatus := ssAny | ssAuthenticated | ssInRoom | ssAdmin.
Inductive ProcessingPlace := ppInline | ppWorker | ppRoomStrand.
Inductive TransportMask := tmNone | tmTcp | tmUdp | tmBoth.
Inductive DeliveryClass := dcReliableOrdered | dcReliable | dcUnreliableSequenced.
Inductive TransportKind := tkTcp | tkUdp.
#[export] Instance session_status_eq : EqDecision SessionStatus.
Proof. solve_decision. Defined.
#[export] Instance processing_place_eq : EqDecision ProcessingPlace.
Proof. solve_decision. Defined.
#[export] Instance delivery_class_eq : EqDecision DeliveryClass.
Proof. solve_decision. Defined.
Record OpcodePolicy := {
  required_state : SessionStatus;
  processing_place : ProcessingPlace;
  op_transport : TransportMask;
  op_delivery : DeliveryClass;
  op_channel : Z;
}.
Definition default_opcode_policy : OpcodePolicy :=
  {| required_state := ssAny; processing_place := ppInline; op_transport := tmTcp;
     op_delivery := dcReliableOrdered; op_channel := 0 |}.
Definition transport_allows (mask : TransportMask) (transport : TransportKind) : bool :=
  match mask, transport with
  | tmBoth, _ => true
  | tmNone, _ => false
  | tmTcp, tkTcp => true
  | tmUdp, tkUdp => true
  | _, _ => false
  end.

(** ** Python values *)
Inductive Json := JInt (n : Z) | JStr (s : string) | JNull.
(** [str.strip()] on ASCII text. *)
Definition py_space (c : char) : bool :=
  (code c =? 32) || ((9 <=? code c) && (code c <=? 13)) || ((28 <=? code c) && (code c <=? 31)).
Fixpoint py_lstrip (s : string) : string :=
  match s with
  | String c s' => if py_space c then py_lstrip s' else s
  | EmptyString => s
  end.
Fixpoint py_rstrip (s : string) : string :=
  match s with
  | String c s' =>
      let r := py_rstrip s' in
      if bool_decide (r = EmptyString) && py_space c then EmptyString else String c r
  | EmptyString => EmptyString
  end.
Definition py_strip (s : string) : string := py_rstrip (py_lstrip s).
(** Decimal digits of a natural number, as many as its bit length. *)
Definition py_decimal (n : Z) : string := print_digits (S (Z.to_nat (Z.log2 n))) n EmptyString.
Definition py_str (j : Json) : string :=
  match j with
  | JInt n => if n <? 0 then String (of_code 45) (py_decimal (- n)) else py_decimal n
  | JStr s => s
  | JNull => "None"
  end.
(** [int(s, base)]: digits with single underscores between them. *)
Definition digit_of (base : Z) (c : char) : option Z :=
  let c := code (to_lower c) in
  let d := if (48 <=? c) && (c <=? 57) then c - 48 else if (97 <=? c) && (c <=? 122) then c - 87 else base in
  if d <? base then Some d else None.
Definition underscore : char := of_code 95.
Fixpoint py_digits (base : Z) (s : string) (acc : Z) (need_digit : bool) : option Z :=
  match s with
  | EmptyString => if need_digit then None else Some acc
  | String c s' =>
      if bool_decide (c = underscore) then (if need_digit then None else py_digits base s' acc true)
      else match digit_of base c with
           | Some d => py_digits base s' (acc * base + d) false
           | None => None
           end
  end.
Definition starts_0x (s : string) : option string :=
  match s with
  | String a (String b rest) => if (code a =? 48) && (code (to_lower b) =? 120) then Some rest else None
  | _ => None
  end.
Definition py_unsigned (base : Z) (s : string) : option Z :=
  match (if base =? 16 then starts_0x s else None) with
  | Some (String c rest) => py_digits base (if bool_decide (c = underscore) then rest else String c rest) 0 true
  | Some EmptyString => None
  | None => py_digits base s 0 true
  end.
Definition py_int (base : Z) (s : string) : option Z :=
  match py_strip s with
  | String c rest =>
      if code c =? 45 then Z.opp <$> py_unsigned base rest
      else if code c =? 43 then py_unsigned base rest
      else py_unsigned base (String c rest)
  | EmptyString => None
  end.

(** ** Errors *)
Inductive GenError :=
  | eNotAnInteger
  | eGroupNameRequired
  | eDuplicateGroup (name : string)
  | eGroupRange (name : string)
  | eGroupOverlap (prev name : string)
  | eGroupsNeeded
  | eUnknownSelectedGroup (name : string)
  | eOpcodeNameRequired
  | eOpcodeRange (name : string)
  | eGroupMissing (name : string)
  | eUnknownGroup (name : string)
  | eOutsideGroup (name : string)
  | eToken (field name : string)
  | eChannelRange (name : string)
  | eDuplicateName (name : string)
  | eDuplicateId (id : Z).
(** [raise] and statement sequencing. *)
Definition GenResult (A : Type) : Type := GenError + A.
Definition gen_bind {A B} (m : GenResult A) (f : A → GenResult B) : GenResult B :=
  match m with inl e => inl e | inr a => f a end.
Notation "'let!' x ':=' m 'in' k" := (gen_bind m (λ x, k)) (at level 200, x pattern, m at level 100, k at level 200).
Definition raise_if {A} (b : bool) (e : GenError) (k : GenResult A) : GenResult A := if b then inl e else k.
Definition is_empty (s : string) : bool := bool_decide (s = EmptyString).
Definition in_range (lo x hi : Z) : bool := (lo <=? x) && (x <=? hi).

(** ** The generator *)
Definition parse_id (v : Json) : GenResult Z :=
  match v with
  | JInt n => inr n
  | _ =>
      let s := py_strip (py_str v) in
      match (match starts_0x s with Some _ => py_int 16 s | None => py_int 10 s end) with
      | Some n => inr n
      | None => inl eNotAnInteger
      end
  end.
Record RawGroup := { rg_name : option Json; rg_id_min : option Json; rg_id_max : option Json }.
Record GroupRange := { g_min : Z; g_max : Z }.
Definition get_or (j : option Json) (d : Json) : Json := default d j.

Definition parse_group (st : list (string * GroupRange)) (g : RawGroup) : GenResult (list (string * GroupRange)) :=
  let name := py_strip (py_str (get_or (rg_name g) (JStr EmptyString))) in
  raise_if (is_empty name) eGroupNameRequired (
  raise_if (bool_decide (name ∈ st.*1)) (eDuplicateGroup name) (
  let! id_min := parse_id (get_or (rg_id_min g) JNull) in
  let! id_max := parse_id (get_or (rg_id_max g) JNull) in
  raise_if (negb (in_range 0 id_min 0xFFFF && in_range 0 id_max 0xFFFF && (id_min <=? id_max))) (eGroupRange name) (
  inr (st ++ [(name, {| g_min := id_min; g_max := id_max |})])))).
Fixpoint fold_result {A B} (f : B → A → GenResult B) (st : B) (l : list A) : GenResult B :=
  match l with
  | [] => inr st
  | a :: l => let! st := f st a in fold_result f st l
  end.
(** The sorted ranges; names decide only between equal ranges, which overlap. *)
Definition range_le (a b : string * GroupRange) : Prop :=
  g_min a.2 < g_min b.2 ∨ (g_min a.2 = g_min b.2 ∧ g_max a.2 ≤ g_max b.2).
#[export] Instance range_le_dec a b : Decision (range_le a b).
Proof. unfold range_le. apply _. Defined.
Definition check_overlap (prev : option (string * GroupRange)) (g : string * GroupRange)
    : GenResult (option (string * GroupRange)) :=
  match prev with
  | Some p => raise_if (g_min g.2 <=? g_max p.2) (eGroupOverlap p.1 g.1) (inr (Some g))
  | None => inr (Some g)
  end.
Definition parse_groups (raw : list RawGroup) : GenResult (list (string * GroupRange)) :=
  let! groups := fold_result parse_group [] raw in
  let! _ := fold_result check_overlap None (merge_sort range_le groups) in
  inr groups.

Definition session_status_map : list (string * SessionStatus) :=
  [("any", ssAny); ("authenticated", ssAuthenticated); ("in_room", ssInRoom); ("admin", ssAdmin)].
Definition processing_place_map : list (string * ProcessingPlace) :=
  [("inline", ppInline); ("worker", ppWorker); ("room_strand", ppRoomStrand)].
Definition transport_mask_map : list (string * TransportMask) :=
  [("none", tmNone); ("tcp", tmTcp); ("udp", tmUdp); ("both", tmBoth)].
Definition delivery_class_map : list (string * DeliveryClass) :=
  [("reliable_ordered", dcReliableOrdered); ("reliable", dcReliable); ("unreliable_sequenced", dcUnreliableSequenced)].
Fixpoint assoc {A} (k : string) (l : list (string * A)) : option A :=
  match l with
  | [] => None
  | (k', a) :: l => if bool_decide (k = k') then Some a else assoc k l
  end.
Definition parse_policy_token {A} (raw : option Json) (default_value : string) (mapping : list (string * A))
    (field_name opcode_name : string) : GenResult A :=
  let token := lower (py_strip (py_str (match raw with None | Some JNull => JStr default_value | Some j => j end))) in
  match assoc token mapping with
  | Some a => inr a
  | None => inl (eToken field_name opcode_name)
  end.

Record RawOpcode := {
  ro_name : option Json; ro_id : option Json; ro_group : option Json; ro_required_state : option Json;
  ro_processing_place : option Json; ro_transport : option Json; ro_delivery : option Json; ro_channel : option Json;
}.
Record ParsedOpcode := { po_id : Z; po_name : string; po_group : string; po_policy : OpcodePolicy }.

(** The group checks; [false] is the [continue] of an unselected group. *)
Definition check_group (groups : list (string * GroupRange)) (selected : option string) (name group : string) (val : Z)
    : GenResult bool :=
  match groups with
  | [] => inr true
  | _ =>
      raise_if (is_empty group) (eGroupMissing name) (
      match assoc group groups with
      | None => inl (eUnknownGroup name)
      | Some g =>
          raise_if (negb (in_range (g_min g) val (g_max g))) (eOutsideGroup name) (
          inr (match selected with Some s => bool_decide (group = s) | None => true end))
      end)
  end.
Definition parse_policy (it : RawOpcode) (name : string) : GenResult OpcodePolicy :=
  let! rs := parse_policy_token (ro_required_state it) "any" session_status_map "required_state" name in
  let! pp := parse_policy_token (ro_processing_place it) "inline" processing_place_map "processing_place" name in
  let! tm := parse_policy_token (ro_transport it) "tcp" transport_mask_map "transport" name in
  let! dc := parse_policy_token (ro_delivery it) "reliable_ordered" delivery_class_map "delivery" name in
  let! channel := parse_id (get_or (ro_channel it) (JInt 0)) in
  raise_if (negb (in_range 0 channel 0xFF)) (eChannelRange name) (
  inr {| required_state := rs; processing_place := pp; op_transport := tm; op_delivery := dc; op_channel := channel |}).
Definition parse_opcode (groups : list (string * GroupRange)) (selected : option string)
    (parsed : list ParsedOpcode) (it : RawOpcode) : GenResult (list ParsedOpcode) :=
  let name := py_strip (py_str (get_or (ro_name it) (JStr EmptyString))) in
  raise_if (is_empty name) eOpcodeNameRequired (
  let! val := parse_id (get_or (ro_id it) JNull) in
  raise_if (negb (in_range 0 val 0xFFFF)) (eOpcodeRange name) (
  let group := py_strip (py_str (get_or (ro_group it) (JStr EmptyString))) in
  let! keep := check_group groups selected name group val in
  if negb keep then inr parsed
  else
    let! policy := parse_policy it name in
    raise_if (bool_decide (name ∈ po_name <$> parsed)) (eDuplicateName name) (
    raise_if (bool_decide (val ∈ po_id <$> parsed)) (eDuplicateId val) (
    inr (parsed ++ [{| po_id := val; po_name := name; po_group := group; po_policy := policy |}]))))).

Record Spec := { sp_groups : list RawGroup; sp_opcodes : list RawOpcode }.
Definition id_le (a b : ParsedOpcode) : Prop := po_id a ≤ po_id b.
#[export] Instance id_le_dec a b : Decision (id_le a b).
Proof. unfold id_le. apply _. Defined.
(** [main] up to the text: the cases of the two switches, by id. *)
Definition gen_opcodes (spec : Spec) (selected : option string) : GenResult (list ParsedOpcode) :=
  let! groups := parse_groups (sp_groups spec) in
  match selected with
  | Some s =>
      raise_if (bool_decide (groups = [])) eGroupsNeeded (
      raise_if (negb (bool_decide (s ∈ groups.*1))) (eUnknownSelectedGroup s) (
      let! parsed := fold_result (parse_opcode groups selected) [] (sp_opcodes spec) in
      inr (merge_sort id_le parsed)))
  | None =>
      let! parsed := fold_result (parse_opcode groups selected) [] (sp_opcodes spec) in
      inr (merge_sort id_le parsed)
  end.

(** The generated switches. *)
Fixpoint find_case (cases : list ParsedOpcode) (id : Z) : option ParsedOpcode :=
  match cases with
  | [] => None
  | p :: cases => if po_id p =? id then Some p else find_case cases id
  end.
Definition opcode_name (cases : list ParsedOpcode) (id : Z) : string :=
  match find_case cases id with Some p => po_name p | None => EmptyString end.
Definition opcode_policy (cases : list ParsedOpcode) (id : Z) : OpcodePolicy :=
  match find_case cases id with Some p => po_policy p | None => default_opcode_policy end.
Definition opcode_constant (cases : list ParsedOpcode) (name : string) : option Z :=
  match list_find (λ p, po_name p = name) cases with Some (_, p) => Some (po_id p) | None => None end.

(** ** The two specifications *)
Definition raw_group (name id_min id_max : string) : RawGroup :=
  {| rg_name := Some (JStr name); rg_id_min := Some (JStr id_min); rg_id_max := Some (JStr id_max) |}.
Definition raw_opcode (group name id state place transport delivery : string) (channel : Z) : RawOpcode :=
  {| ro_name := Some (JStr name); ro_id := Some (JStr id); ro_group := Some (JStr group);
     ro_required_state := Some (JStr state); ro_processing_place := Some (JStr place);
     ro_transport := Some (JStr transport); ro_delivery := Some (JStr delivery); ro_channel := Some (JInt channel) |}.
Definition system_opcodes_json : Spec := {|
  sp_groups := [raw_group "system" "0x0001" "0x000F"];
  sp_opcodes := [
    raw_opcode "system" "MSG_HELLO" "0x0001" "any" "inline" "tcp" "reliable_ordered" 0;
    raw_opcode "system" "MSG_PING" "0x0002" "any" "inline" "both" "reliable" 0;
    raw_opcode "system" "MSG_PONG" "0x0003" "any" "inline" "tcp" "reliable_ordered" 0;
    raw_opcode "system" "MSG_ERR" "0x0004" "any" "inline" "tcp" "reliable_ordered" 0] |}.
Definition game_opcodes_json : Spec := {|
  sp_groups := [raw_group "auth" "0x0010" "0x001F";
    raw_group "chat" "0x0100" "0x01FF";
    raw_group "state" "0x0200" "0x02FF"];
  sp_opcodes := [
    raw_opcode "auth" "MSG_LOGIN_REQ" "0x0010" "any" "inline" "tcp" "reliable_ordered" 0;
    raw_opcode "auth" "MSG_LOGIN_RES" "0x0011" "any" "inline" "tcp" "reliable_ordered" 0;
    raw_opcode "auth" "MSG_UDP_BIND_REQ" "0x0012" "any" "inline" "udp" "reliable" 0;
    raw_opcode "auth" "MSG_UDP_BIND_RES" "0x0013" "any" "inline" "both" "reliable" 0;
    raw_opcode "chat" "MSG_CHAT_SEND" "0x0100" "authenticated" "inline" "tcp" "reliable_ordered" 0;
    raw_opcode "chat" "MSG_CHAT_BROADCAST" "0x0101" "any" "inline" "tcp" "reliable_ordered" 0;
    raw_opcode "chat" "MSG_JOIN_ROOM" "0x0102" "authenticated" "inline" "tcp" "reliable_ordered" 0;
    raw_opcode "chat" "MSG_LEAVE_ROOM" "0x0103" "authenticated" "inline" "tcp" "reliable_ordered" 0;
    raw_opcode "chat" "MSG_WHISPER_REQ" "0x0104" "authenticated" "inline" "tcp" "reliable_ordered" 0;
    raw_opcode "chat" "MSG_WHISPER_RES" "0x0105" "any" "inline" "tcp" "reliable_ordered" 0;
    raw_opcode "chat" "MSG_WHISPER_BROADCAST" "0x0106" "any" "inline" "tcp" "reliable_ordered" 0;
    raw_opcode "state" "MSG_STATE_SNAPSHOT" "0x0200" "any" "inline" "tcp" "reliable_ordered" 0;
    raw_opcode "state" "MSG_ROOM_USERS" "0x0201" "any" "inline" "tcp" "reliable_ordered" 0;
    raw_opcode "state" "MSG_ROOMS_REQ" "0x0202" "authenticated" "inline" "tcp" "reliable_ordered" 0;
    raw_opcode "state" "MSG_ROOM_USERS_REQ" "0x0203" "authenticated" "inline" "tcp" "reliable_ordered" 0;
    raw_opcode "state" "MSG_REFRESH_REQ" "0x0204" "authenticated" "inline" "tcp" "reliable_ordered" 0;
    raw_opcode "state" "MSG_REFRESH_NOTIFY" "0x0205" "any" "inline" "tcp" "reliable_ordered" 0;
    raw_opcode "state" "MSG_FPS_INPUT" "0x0206" "authenticated" "inline" "both" "unreliable_sequenced" 1;
    raw_opcode "state" "MSG_FPS_STATE_SNAPSHOT" "0x0207" "any" "inline" "tcp" "reliable_ordered" 1;
    raw_opcode "state" "MSG_FPS_STATE_DELTA" "0x0208" "any" "inline" "both" "unreliable_sequenced" 1] |}.
(** The headers the build generates from them. *)
Definition generated (r : GenResult (list ParsedOpcode)) : list ParsedOpcode := match r with inr l => l | inl _ => [] end.
Definition core_opcodes : list ParsedOpcode := generated (gen_opcodes system_opcodes_json None).
Definition game_opcodes : list ParsedOpcode := generated (gen_opcodes game_opcodes_json None).

(** ** Lemmas *)
Lemma gen_bind_inr {A B} (m : GenResult A) (f : A → GenResult B) b :
  gen_bind m f = inr b → ∃ a, m = inr a ∧ f a = inr b.
Proof. destruct m as [e|a]; simpl; [done|eauto]. Qed.
Lemma raise_if_inr {A} c e (k : GenResult A) a : raise_if c e k = inr a → c = false ∧ k = inr a.
Proof. destruct c; simpl; [done|eauto]. Qed.
(** Peels one statement off a successful run. *)
Ltac gen_inv H :=
  repeat first
    [ apply raise_if_inr in H as [? H]
    | let a := fresh "a" in let Ha := fresh "Ha" in apply gen_bind_inr in H as (a & Ha & H) ].
Lemma fold_result_inv {A B} (P : B → Prop) (f : B → A → GenResult B) l : ∀ st st',
  (∀ st a st', P st → f st a = inr st' → P st') → P st → fold_result f st l = inr st' → P st'.
Proof.
  induction l as [|a l IH]; intros st st' Hf Hst H; simpl in H; [by injection H as <-|].
  apply gen_bind_inr in H as (st1 & H1 & H). eauto.
Qed.

(** What the generator guarantees of a case. *)
Record case_ok (groups : list (string * GroupRange)) (p : ParsedOpcode) : Prop := {
  co_id : is_u16 (po_id p);
  co_channel : is_u8 (op_channel (po_policy p));
  co_name : po_name p ≠ EmptyString;
  co_group : groups ≠ [] → ∃ g, assoc (po_group p) groups = Some g ∧ g_min g ≤ po_id p ≤ g_max g;
}.
Record cases_ok (groups : list (string * GroupRange)) (l : list ParsedOpcode) : Prop := {
  cs_cases : Forall (case_ok groups) l;
  cs_ids : NoDup (po_id <$> l);
  cs_names : NoDup (po_name <$> l);
}.
Lemma in_range_spec lo x hi : negb (in_range lo x hi) = false → lo ≤ x ≤ hi.
Proof. unfold in_range. rewrite negb_false_iff, andb_true_iff. lia. Qed.
Lemma check_group_keep groups selected name group val :
  check_group groups selected name group val = inr true →
  groups ≠ [] → ∃ g, assoc group groups = Some g ∧ g_min g ≤ val ≤ g_max g.
Proof.
  unfold check_group. destruct groups as [|g0 groups]; [done|]. intros H _.
  apply raise_if_inr in H as [_ H]. destruct (assoc group (g0 :: groups)) as [g|]; [|done].
  apply raise_if_inr in H as [Hr%in_range_spec _]. eauto.
Qed.
Lemma parse_opcode_ok groups selected parsed it parsed' :
  cases_ok groups parsed → parse_opcode groups selected parsed it = inr parsed' → cases_ok groups parsed'.
Proof.
  intros [Hc Hi Hn] H. unfold parse_opcode in H. set (name := py_strip _) in *. set (group := py_strip _) in *.
  apply raise_if_inr in H as [Hname H]. apply gen_bind_inr in H as (val & _ & H).
  apply raise_if_inr in H as [Hval%in_range_spec H]. apply gen_bind_inr in H as ([] & Hg & H);
    simpl in H; [|by injection H as <-].
  apply gen_bind_inr in H as (policy & Hp & H). apply raise_if_inr in H as [Hdn H]. apply raise_if_inr in H as [Hdi H].
  injection H as <-. unfold parse_policy in Hp. gen_inv Hp. injection Hp as <-.
  match goal with Hch : negb (in_range 0 _ 255) = false |- _ => apply in_range_spec in Hch end.
  apply bool_decide_eq_false in Hdn, Hdi. unfold is_empty in Hname. apply bool_decide_eq_false in Hname.
  split.
  - apply Forall_app; split; [done|]. apply Forall_singleton. split; simpl; [mach|mach|done|].
    exact (check_group_keep _ _ _ _ _ Hg).
  - rewrite fmap_app. apply NoDup_app. split_and!; [done| |apply NoDup_singleton].
    intros x Hx ->%list_elem_of_singleton. done.
  - rewrite fmap_app. apply NoDup_app. split_and!; [done| |apply NoDup_singleton].
    intros x Hx ->%list_elem_of_singleton. done.
Qed.
Lemma cases_ok_perm groups l l' : l ≡ₚ l' → cases_ok groups l → cases_ok groups l'.
Proof. intros Hl [Hc Hi Hn]. split; by rewrite <- Hl. Qed.
Lemma parse_all_ok groups selected items parsed :
  fold_result (parse_opcode groups selected) [] items = inr parsed → cases_ok groups (merge_sort id_le parsed).
Proof.
  intros H. apply (cases_ok_perm _ parsed); [symmetry; apply merge_sort_Permutation|].
  eapply (fold_result_inv (cases_ok groups)); [|split; constructor|exact H]. intros st a st'. apply parse_opcode_ok.
Qed.
Lemma gen_opcodes_ok spec selected cases : gen_opcodes spec selected = inr cases →
  ∃ groups, parse_groups (sp_groups spec) = inr groups ∧ cases_ok groups cases.
Proof.
  unfold gen_opcodes. intros H. apply gen_bind_inr in H as (groups & Hg & H). exists groups. split; [done|].
  destruct selected as [s|]; gen_inv H; injection H as <-; by eapply parse_all_ok.
Qed.
Lemma find_case_elem cases id p : find_case cases id = Some p → p ∈ cases ∧ po_id p = id.
Proof.
  induction cases as [|q cases IH]; simpl; [done|]. destruct (Z.eqb_spec (po_id q) id) as [Hq|].
  - intros [= ->]. by split; [left|].
  - intros [H1 H2]%IH. by split; [right|].
Qed.
Lemma find_case_unique cases p : NoDup (po_id <$> cases) → p ∈ cases → find_case cases (po_id p) = Some p.
Proof.
  induction cases as [|q cases IH]; [by intros _ []%not_elem_of_nil|]. intros [Hq Hn]%NoDup_cons Hp. simpl.
  apply elem_of_cons in Hp as [->|Hp]; [by rewrite Z.eqb_refl|].
  destruct (Z.eqb_spec (po_id q) (po_id p)) as [He|]; [|auto].
  exfalso. apply Hq. rewrite He. by apply list_elem_of_fmap_2.
Qed.
Lemma opcode_name_elem cases id : opcode_name cases id ≠ EmptyString → ∃ p, p ∈ cases ∧ po_id p = id.
Proof.
  unfold opcode_name. destruct (find_case cases id) as [p|] eqn:Hp; [|done]. intros _. apply find_case_elem in Hp. eauto.
Qed.

(** The case an opcode entry turns into. *)
Definition item_name (it : RawOpcode) : string := py_strip (py_str (get_or (ro_name it) (JStr EmptyString))).
Definition case_of (it : RawOpcode) (p : ParsedOpcode) : Prop :=
  po_name p = item_name it ∧ parse_id (get_or (ro_id it) JNull) = inr (po_id p)
  ∧ parse_policy it (po_name p) = inr (po_policy p).
Lemma check_group_all groups name group val b : check_group groups None name group val = inr b → b = true.
Proof.
  unfold check_group. destruct groups; [congruence|]. intros H. apply raise_if_inr in H as [_ H].
  destruct (assoc _ _); [|done]. apply raise_if_inr in H as [_ H]. congruence.
Qed.
Lemma parse_opcode_case groups parsed it parsed' : parse_opcode groups None parsed it = inr parsed' →
  ∃ p, parsed' = parsed ++ [p] ∧ case_of it p.
Proof.
  unfold parse_opcode. intros H. apply raise_if_inr in H as [_ H]. apply gen_bind_inr in H as (val & Hval & H).
  apply raise_if_inr in H as [_ H]. apply gen_bind_inr in H as (b & Hb%check_group_all & H). subst b. simpl in H.
  apply gen_bind_inr in H as (policy & Hp & H). apply raise_if_inr in H as [_ H]. apply raise_if_inr in H as [_ H].
  injection H as <-. eexists. split; [done|]. by split_and!.
Qed.
Lemma parse_all_cases groups items : ∀ st parsed,
  fold_result (parse_opcode groups None) st items = inr parsed → ∃ added, parsed = st ++ added ∧ Forall2 case_of items added.
Proof.
  induction items as [|it items IH]; intros st parsed H; simpl in H.
  - injection H as <-. exists []. by rewrite app_nil_r.
  - apply gen_bind_inr in H as (st1 & (p & -> & Hp)%parse_opcode_case & H).
    apply IH in H as (added & -> & Hall). exists (p :: added). split; [by rewrite <- app_assoc|by constructor].
Qed.
Lemma gen_opcodes_cases spec cases : gen_opcodes spec None = inr cases →
  ∃ parsed, cases ≡ₚ parsed ∧ Forall2 case_of (sp_opcodes spec) parsed.
Proof.
  unfold gen_opcodes. intros H. gen_inv H. injection H as <-.
  match goal with Hf : fold_result _ [] _ = inr ?l |- _ => exists l; apply parse_all_cases in Hf as (l' & -> & Hf) end.
  split; [apply merge_sort_Permutation|done].
Qed.
Lemma opcode_constant_unique cases p : NoDup (po_name <$> cases) → p ∈ cases →
  opcode_constant cases (po_name p) = Some (po_id p).
Proof.
  intros Hn Hp. unfold opcode_constant. destruct (list_find _ cases) as [[i q]|] eqn:Hf.
  - apply list_find_Some in Hf as (Hi & Hq & _). apply list_elem_of_lookup in Hp as [j Hj].
    assert (Hij : i = j).
    { eapply (NoDup_lookup (po_name <$> cases)); [done|by rewrite list_lookup_fmap, Hi|].
      rewrite list_lookup_fmap, Hj. simpl. by rewrite Hq. }
    subst j. rewrite Hi in Hj. by injection Hj as ->.
  - apply list_find_None in Hf. rewrite Forall_forall in Hf. by destruct (Hf p Hp).
Qed.

(** ** Properties *)
(** A header that is generated at all is a faithful table of its
    specification.  Every opcode entry becomes one case with the entry's name,
    id and policy, the two switches and the constant find it, ids and names are
    distinct, ids fit 16 bits and their group's range, channels fit 8 bits, and
    [opcode_name] is empty exactly for the ids of no entry. *)
Theorem generated_tables_exact (spec : Spec) (cases : list ParsedOpcode) :
  gen_opcodes spec None = inr cases →
  Forall (λ it, ∃ p, p ∈ cases ∧ case_of it p) (sp_opcodes spec)
  ∧ length cases = length (sp_opcodes spec)
  ∧ (∀ p, p ∈ cases →
       opcode_name cases (po_id p) = po_name p ∧ opcode_policy cases (po_id p) = po_policy p
       ∧ opcode_constant cases (po_name p) = Some (po_id p) ∧ is_u16 (po_id p) ∧ is_u8 (op_channel (po_policy p))
       ∧ ∀ groups, parse_groups (sp_groups spec) = inr groups → groups ≠ [] →
           ∃ g, assoc (po_group p) groups = Some g ∧ g_min g ≤ po_id p ≤ g_max g)
  ∧ ∀ id, opcode_name cases id = EmptyString ↔ id ∉ po_id <$> cases.
Proof.
  intros H. destruct (gen_opcodes_ok _ _ _ H) as (groups & Hg & [Hc Hi Hn]).
  destruct (gen_opcodes_cases _ _ H) as (parsed & Hp & Hall). rewrite Forall_forall in Hc. split_and!.
  - apply Forall_forall. intros it Hit. apply list_elem_of_lookup in Hit as [i Hit].
    destruct (Forall2_lookup_l _ _ _ _ _ Hall Hit) as (p & Hl & Hco). exists p. rewrite Hp.
    split; [by eapply list_elem_of_lookup_2|done].
  - rewrite Hp. symmetry. by eapply Forall2_length.
  - intros p Hin. destruct (Hc p Hin) as [H1 H2 H3 H4]. unfold opcode_name, opcode_policy.
    rewrite (find_case_unique _ _ Hi Hin). split_and!; try done; [by apply opcode_constant_unique|].
    intros groups' Hg'. rewrite Hg in Hg'. by injection Hg' as <-.
  - intros id. unfold opcode_name. split.
    + intros He [p [-> Hin]]%list_elem_of_fmap. rewrite (find_case_unique _ _ Hi Hin) in He. by destruct (Hc p Hin).
    + intros Hnin. destruct (find_case cases id) as [p|] eqn:Hf; [|done]. apply find_case_elem in Hf as [Hin <-].
      destruct Hnin. by apply list_elem_of_fmap_2.
Qed.
Lemma generated_tables_exact_witness :
  opcode_name game_opcodes 0x0206 = "MSG_FPS_INPUT" ∧ opcode_constant game_opcodes "MSG_UDP_BIND_REQ" = Some 0x0012
  ∧ length game_opcodes = 20%nat.
Proof.
  assert (Hg : gen_opcodes game_opcodes_json None = inr game_opcodes) by (vm_compute; reflexivity).
  destruct (generated_tables_exact game_opcodes_json game_opcodes Hg) as (_ & Hl & _).
  split_and!; [vm_compute; reflexivity|vm_compute; reflexivity|]. rewrite Hl. reflexivity.
Defined.

(** The generator stops with an error on a specification in which two
    entries share an id or a name. *)
Theorem generator_rejects_collisions (spec : Spec) (i j : nat) (a b : RawOpcode) :
  i ≠ j → sp_opcodes spec !! i = Some a → sp_opcodes spec !! j = Some b →
  parse_id (get_or (ro_id a) JNull) = parse_id (get_or (ro_id b) JNull) ∨ item_name a = item_name b →
  ∃ e, gen_opcodes spec None = inl e.
Proof.
  intros Hij Ha Hb Hcol. destruct (gen_opcodes spec None) as [e|cases] eqn:H; [eauto|]. exfalso.
  destruct (gen_opcodes_ok _ _ _ H) as (groups & _ & [_ Hi Hn]).
  destruct (gen_opcodes_cases _ _ H) as (parsed & Hp & Hall). rewrite Hp in Hi, Hn.
  destruct (Forall2_lookup_l _ _ _ _ _ Hall Ha) as (pa & Hpa & Hna & Hia & _).
  destruct (Forall2_lookup_l _ _ _ _ _ Hall Hb) as (pb & Hpb & Hnb & Hib & _).
  apply Hij. destruct Hcol as [Hcol|Hcol].
  - eapply (NoDup_lookup (po_id <$> parsed)); [done|by rewrite list_lookup_fmap, Hpa|].
    rewrite list_lookup_fmap, Hpb. simpl. congruence.
  - eapply (NoDup_lookup (po_name <$> parsed)); [done|by rewrite list_lookup_fmap, Hpa|].
    rewrite list_lookup_fmap, Hpb. simpl. congruence.
Qed.
Definition colliding_spec : Spec := {|
  sp_groups := [];
  sp_opcodes := [raw_opcode "g" "MSG_A" "0x0010" "any" "inline" "tcp" "reliable" 0;
                 raw_opcode "g" "MSG_B" " 16 " "any" "inline" "tcp" "reliable" 0] |}.
Lemma generator_rejects_collisions_witness : ∃ e, gen_opcodes colliding_spec None = inl e.
Proof.
  apply (generator_rejects_collisions colliding_spec 0 1
    (raw_opcode "g" "MSG_A" "0x0010" "any" "inline" "tcp" "reliable" 0)
    (raw_opcode "g" "MSG_B" " 16 " "any" "inline" "tcp" "reliable" 0)); [lia|reflexivity|reflexivity|].
  left. vm_compute. reflexivity.
Defined.

(** The two generated tables share no id, and agree with
    [classify_segment_type]: system opcodes are exactly in the control range,
    game opcodes outside it. *)
Theorem opcode_spaces_disjoint (id : Z) :
  (opcode_name core_opcodes id ≠ EmptyString →
     opcode_name game_opcodes id = EmptyString ∧ classify_segment_type id = SegSystemControl)
  ∧ (opcode_name game_opcodes id ≠ EmptyString → classify_segment_type id = SegApplicationPayload).
Proof.
  assert (Hc : Forall (λ p, opcode_name game_opcodes (po_id p) = EmptyString ∧ classify_segment_type (po_id p) = SegSystemControl)
    core_opcodes) by (vm_compute; repeat constructor).
  assert (Hg : Forall (λ p, classify_segment_type (po_id p) = SegApplicationPayload) game_opcodes)
    by (vm_compute; repeat constructor).
  rewrite Forall_forall in Hc, Hg. split; intros (p & Hp & <-)%opcode_name_elem; auto.
Qed.
