(* ===== verification/GatewayConfig.v ===== *)
(** * Gateway configuration

    [gateway/src/gateway_configuration.cpp] and the constructor part of
    [gateway_lifecycle.cpp]: environment variables to settings.  [env] is
    [std::getenv]; logging is left out.  [unsigned long] has 64 bits. *)
From S2P Require Import Prelude Text InstanceRegistry SessionDirectory Transport RudpEngine Resilience Opcodes.
From stdpp Require Import list gmap strings.
Open Scope Z_scope.

(** ** Reading the environment *)
Definition Env : Type := gmap string string.
(** [value && *value] *)
Definition getenv_nonempty (env : Env) (key : string) : option string :=
  match env !! key with
  | Some v => if bool_decide (v = EmptyString) then None else Some v
  | None => None
  end.
Definition parse_env_bool (env : Env) (key : string) (fallback : bool) : bool :=
  match getenv_nonempty env key with
  | Some text =>
      if bool_decide (text ∈ ["1"; "true"; "TRUE"; "on"; "ON"]) then true
      else if bool_decide (text ∈ ["0"; "false"; "FALSE"; "off"; "OFF"]) then false
      else fallback
  | None => fallback
  end.
Definition parse_env_integral_bounded (env : Env) (key : string) (fallback min_value max_value : Z) : Z :=
  match getenv_nonempty env key with
  | Some value =>
      match stoull value with
      | Some parsed => if (min_value <=? parsed) && (parsed <=? max_value) then parsed else fallback
      | None => fallback
      end
  | None => fallback
  end.
Definition parse_listen (value : string) (fallback_port : Z) : string * Z :=
  if bool_decide (value = EmptyString) then ("0.0.0.0", fallback_port)
  else
    match cut colon value with
    | None => (value, fallback_port)
    | Some (host, port_view) =>
        (host, if bool_decide (port_view = EmptyString) then fallback_port
               else from_option u16 fallback_port (stoull port_view))
    end.

(** ** Settings *)
Record GatewayConfig := {
  listen_host_ : string;
  listen_port_ : Z;
  gateway_id_ : string;
  backend_connect_timeout_ms_ : Z;
  backend_send_queue_max_bytes_ : Z;
  backend_circuit_breaker_enabled_ : bool;
  backend_circuit_fail_threshold_ : Z;
  backend_circuit_open_ms_ : Z;
  backend_connect_retry_budget_per_min_ : Z;
  backend_connect_retry_backoff_ms_ : Z;
  backend_connect_retry_backoff_max_ms_ : Z;
  ingress_tokens_per_sec_ : Z;
  ingress_burst_tokens_ : Z;
  ingress_max_active_sessions_ : Z;
  udp_listen_host_ : string;
  udp_listen_port_ : Z;
  udp_bind_secret_ : list Z;
  udp_bind_ttl_ms_ : Z;
  udp_bind_fail_window_ms_ : Z;
  udp_bind_fail_limit_ : Z;
  udp_bind_block_ms_ : Z;
  udp_bind_retry_backoff_ms_ : Z;
  udp_bind_retry_backoff_max_ms_ : Z;
  udp_bind_retry_max_attempts_ : Z;
  udp_opcode_allowlist_ : gset Z;
  rudp_rollout_policy_ : DirectTransportRolloutPolicy;
  rudp_config_ : RudpConfig;
  allow_anonymous_ : bool;
}.
Definition MSG_UDP_BIND_REQ : Z := 0x0012.
Definition allowlist_env (env : Env) (key : string) : gset Z :=
  match getenv_nonempty env key with Some v => parse_direct_opcode_allowlist (bytes v) | None => ∅ end.

Definition configure_rollout (env : Env) : DirectTransportRolloutPolicy :=
  let enabled := parse_env_bool env "GATEWAY_RUDP_ENABLE" false in
  let percent := parse_env_integral_bounded env "GATEWAY_RUDP_CANARY_PERCENT" 0 0 100 in
  {| p_enabled := enabled; canary_percent := if enabled then percent else 0;
     opcode_allowlist := allowlist_env env "GATEWAY_RUDP_OPCODE_ALLOWLIST" |}.
Definition configure_rudp (env : Env) : RudpConfig :=
  let get := parse_env_integral_bounded env in
  let rto_min := get "GATEWAY_RUDP_RTO_MIN_MS" 50 1 10000 in
  let rto_max := get "GATEWAY_RUDP_RTO_MAX_MS" 2000 1 60000 in
  {| handshake_timeout_ms := get "GATEWAY_RUDP_HANDSHAKE_TIMEOUT_MS" 1500 100 60000;
     idle_timeout_ms := get "GATEWAY_RUDP_IDLE_TIMEOUT_MS" 10000 1000 300000;
     cfg_ack_delay_ms := get "GATEWAY_RUDP_ACK_DELAY_MS" 10 1 200;
     rto_min_ms := rto_min;
     rto_max_ms := if rto_max <? rto_min then rto_min else rto_max;
     max_inflight_packets := get "GATEWAY_RUDP_MAX_INFLIGHT_PACKETS" 256 1 4096;
     max_inflight_bytes := get "GATEWAY_RUDP_MAX_INFLIGHT_BYTES" (256 * 1024) 1024 (16 * 1024 * 1024);
     mtu_payload_bytes := get "GATEWAY_RUDP_MTU_PAYLOAD_BYTES" 1200 256 1400 |}.
Definition configure_gateway (env : Env) : GatewayConfig :=
  let get := parse_env_integral_bounded env in
  let '(host, port) := parse_listen (default "0.0.0.0:6000" (env !! "GATEWAY_LISTEN")) 6000 in
  let '(udp_host, udp_port) := match getenv_nonempty env "GATEWAY_UDP_LISTEN" with
                               | Some v => parse_listen v 0 | None => (EmptyString, 0) end in
  let connect_backoff := get "GATEWAY_BACKEND_CONNECT_RETRY_BACKOFF_MS" 200 10 60000 in
  let connect_backoff_max := get "GATEWAY_BACKEND_CONNECT_RETRY_BACKOFF_MAX_MS" 2000 10 300000 in
  let tokens := get "GATEWAY_INGRESS_TOKENS_PER_SEC" 200 1 100000 in
  let burst := get "GATEWAY_INGRESS_BURST_TOKENS" 400 1 200000 in
  let bind_backoff := get "GATEWAY_UDP_BIND_RETRY_BACKOFF_MS" 200 10 60000 in
  let bind_backoff_max := get "GATEWAY_UDP_BIND_RETRY_BACKOFF_MAX_MS" 2000 10 300000 in
  let allowlist := allowlist_env env "GATEWAY_UDP_OPCODE_ALLOWLIST" in
  {| listen_host_ := host; listen_port_ := port;
     gateway_id_ := default "gateway-default" (getenv_nonempty env "GATEWAY_ID");
     backend_connect_timeout_ms_ := get "GATEWAY_BACKEND_CONNECT_TIMEOUT_MS" 5000 100 60000;
     backend_send_queue_max_bytes_ :=
       get "GATEWAY_BACKEND_SEND_QUEUE_MAX_BYTES" (256 * 1024) 1024 (16 * 1024 * 1024);
     backend_circuit_breaker_enabled_ := parse_env_bool env "GATEWAY_BACKEND_CIRCUIT_BREAKER_ENABLED" true;
     backend_circuit_fail_threshold_ := get "GATEWAY_BACKEND_CIRCUIT_FAIL_THRESHOLD" 5 1 100;
     backend_circuit_open_ms_ := get "GATEWAY_BACKEND_CIRCUIT_OPEN_MS" 10000 100 300000;
     backend_connect_retry_budget_per_min_ := get "GATEWAY_BACKEND_CONNECT_RETRY_BUDGET_PER_MIN" 120 0 60000;
     backend_connect_retry_backoff_ms_ := connect_backoff;
     backend_connect_retry_backoff_max_ms_ :=
       if connect_backoff_max <? connect_backoff then connect_backoff else connect_backoff_max;
     ingress_tokens_per_sec_ := tokens;
     ingress_burst_tokens_ := if burst <? tokens then tokens else burst;
     ingress_max_active_sessions_ := get "GATEWAY_INGRESS_MAX_ACTIVE_SESSIONS" 50000 1 500000;
     udp_listen_host_ := udp_host; udp_listen_port_ := udp_port;
     udp_bind_secret_ := bytes (default EmptyString (getenv_nonempty env "GATEWAY_UDP_BIND_SECRET"));
     udp_bind_ttl_ms_ := get "GATEWAY_UDP_BIND_TTL_MS" 5000 1000 120000;
     udp_bind_fail_window_ms_ := get "GATEWAY_UDP_BIND_FAIL_WINDOW_MS" 10000 1000 120000;
     udp_bind_fail_limit_ := get "GATEWAY_UDP_BIND_FAIL_LIMIT" 5 2 100;
     udp_bind_block_ms_ := get "GATEWAY_UDP_BIND_BLOCK_MS" 60000 1000 300000;
     udp_bind_retry_backoff_ms_ := bind_backoff;
     udp_bind_retry_backoff_max_ms_ := if bind_backoff_max <? bind_backoff then bind_backoff else bind_backoff_max;
     udp_bind_retry_max_attempts_ := get "GATEWAY_UDP_BIND_RETRY_MAX_ATTEMPTS" 6 1 32;
     udp_opcode_allowlist_ := if bool_decide (allowlist = ∅) then {[MSG_UDP_BIND_REQ]} else allowlist;
     rudp_rollout_policy_ := configure_rollout env;
     rudp_config_ := configure_rudp env;
     allow_anonymous_ := match getenv_nonempty env "ALLOW_ANONYMOUS" with
                         | Some v => negb (bool_decide (v = "0")) | None => true end |}.
(** The constructor's fallback for a missing secret. *)
Definition derive_secret (c : GatewayConfig) (boot_id : string) : list Z :=
  if negb (udp_listen_port_ c =? 0) && bool_decide (udp_bind_secret_ c = []) then bytes boot_id
  else udp_bind_secret_ c.
(** The objects [configure_gateway] configures. *)
Definition configured_budget (c : GatewayConfig) : RetryBudget :=
  budget_configure retry_budget_new (backend_connect_retry_budget_per_min_ c) 60000.
Definition configured_breaker (c : GatewayConfig) : CircuitBreaker :=
  breaker_configure circuit_breaker_new (backend_circuit_breaker_enabled_ c) (backend_circuit_fail_threshold_ c)
    (backend_circuit_open_ms_ c).
Definition configured_guard (c : GatewayConfig) : UdpBindAbuseGuard :=
  guard_configure abuse_guard_new (udp_bind_fail_window_ms_ c) (udp_bind_fail_limit_ c) (udp_bind_block_ms_ c).

(** ** Infrastructure *)
Record GatewayInfra := {
  redis_uri_ : string;
  continuity_prefix_ : string;
  session_directory_prefix_ : string;
  resume_locator_prefix_ : string;
  resume_locator_ttl_sec_ : Z;
  backend_registry_ : option RedisInstanceStateBackend;
  session_directory_ : option SessionDirectory;
}.
Definition with_colon (s : string) : string :=
  if bool_decide (s = EmptyString) || bool_decide (last_char s = Some colon) then s else s +:+ ":".
(** [static_cast<long long>] *)
Definition i64 (x : Z) : Z := if x <? 2 ^ 63 then x else x - 2 ^ 64.
(** [client]: whether [make_redis_client] gave a client. *)
Definition configure_infrastructure (env : Env) (client : bool) : GatewayInfra :=
  let prefix := match getenv_nonempty env "SESSION_CONTINUITY_REDIS_PREFIX" with
                | Some p => p
                | None => default EmptyString (getenv_nonempty env "REDIS_CHANNEL_PREFIX")
                end in
  let directory_prefix := "gateway/session/" in
  let registry_ttl := match getenv_nonempty env "SERVER_REGISTRY_TTL" with
                      | Some v => match stoull v with Some p => if 0 <? p then i64 p else 30 | None => 30 end
                      | None => 30
                      end in
  {| redis_uri_ := default "tcp://127.0.0.1:6379" (env !! "REDIS_URI");
     continuity_prefix_ := with_colon prefix +:+ "continuity:";
     session_directory_prefix_ := directory_prefix;
     resume_locator_prefix_ := directory_prefix +:+ "locator/";
     resume_locator_ttl_sec_ :=
       match getenv_nonempty env "SESSION_CONTINUITY_LEASE_TTL_SEC" with
       | Some v => match stoull v with Some p => if 0 <? p then u32 p else 900 | None => 900 end
       | None => 900
       end;
     backend_registry_ :=
       if client then Some (redis_backend_new true
         (default "gateway/instances/" (getenv_nonempty env "SERVER_REGISTRY_PREFIX")) registry_ttl)
       else None;
     session_directory_ := if client then Some (session_directory_new true directory_prefix 600) else None |}.

(** ** Lemmas *)
Lemma bounded_range env key fallback lo hi : lo ≤ fallback ≤ hi →
  lo ≤ parse_env_integral_bounded env key fallback lo hi ≤ hi.
Proof.
  intros H. unfold parse_env_integral_bounded. destruct (getenv_nonempty env key) as [v|]; [|done].
  destruct (stoull v) as [n|]; [|done]. destruct ((lo <=? n) && (n <=? hi)) eqn:E; [|done]. lia.
Qed.
Lemma from_digits_nonneg base s : ∀ acc v, 0 ≤ base → 0 ≤ acc → from_digits base acc s = Some v → 0 ≤ v.
Proof.
  induction s as [|c s IH]; intros acc v Hb Ha; cbn [from_digits]; [congruence|]. intros H.
  apply bind_Some in H as (d & Hd & H). unfold digit_value in Hd.
  destruct ((48 <=? c) && (c <=? 57)) eqn:E1; [|destruct ((97 <=? c) && (c <=? 122)) eqn:E2;
    [|destruct ((65 <=? c) && (c <=? 90)) eqn:E3; [|by rewrite Z.ltb_irrefl in Hd]]];
  destruct (_ <? base) in Hd; try done; injection Hd as <-; apply (IH _ _ Hb) in H; [done|nia..].
Qed.
Lemma from_chars_nonneg base s v : 0 ≤ base → from_chars_u32 base s = Some v → 0 ≤ v.
Proof.
  intros Hb. unfold from_chars_u32. destruct s as [|c s]; [done|]. intros (w & Hw & H)%bind_Some.
  apply from_digits_nonneg in Hw; [|lia..]. destruct (w <? 2 ^ 32); [by injection H as <-|done].
Qed.
Lemma parse_u16_token_range token v : parse_u16_token token = Some v → is_u16 v.
Proof.
  unfold parse_u16_token. intros H. apply bind_Some in H as (n & Hn & H).
  assert (0 ≤ n) by (destruct (match trim_ascii token with c0 :: c1 :: _ :: _ => _ | _ => _ end);
    by apply from_chars_nonneg in Hn).
  destruct (Z.ltb_spec 65535 n); [done|]. injection H as <-. mach.
Qed.
Lemma allowlist_range csv x : x ∈ parse_direct_opcode_allowlist csv → is_u16 x.
Proof.
  unfold parse_direct_opcode_allowlist.
  assert (Hg : ∀ l (acc : gset Z), (∀ x, x ∈ acc → is_u16 x) →
    x ∈ foldl (λ out token, match parse_u16_token token with Some opcode => {[opcode]} ∪ out | None => out end) acc l → is_u16 x).
  { induction l as [|t l IH]; intros acc Hacc; simpl; [apply Hacc|]. apply IH.
    destruct (parse_u16_token t) as [v|] eqn:Hv; [|done]. apply parse_u16_token_range in Hv.
    intros y [->%elem_of_singleton|Hy]%elem_of_union; auto. }
  apply Hg. by intros y []%elem_of_empty.
Qed.
Lemma allowlist_env_range env key x : x ∈ allowlist_env env key → is_u16 x.
Proof. unfold allowlist_env. destruct (getenv_nonempty env key); [apply allowlist_range|by intros []%elem_of_empty]. Qed.
Lemma raise_to_min lo a b hi : lo ≤ a ≤ hi → lo ≤ b ≤ hi → a ≤ (if b <? a then a else b) ≤ hi.
Proof. intros Ha Hb. destruct (Z.ltb_spec b a); lia. Qed.

(** ** Properties *)
(** The numbers an operator can set: variable, default, range, and the setting. *)
Definition number_settings : list (string * Z * Z * Z * (GatewayConfig → Z)) :=
  [("GATEWAY_BACKEND_CONNECT_TIMEOUT_MS", 5000, 100, 60000, backend_connect_timeout_ms_);
   ("GATEWAY_BACKEND_SEND_QUEUE_MAX_BYTES", 262144, 1024, 16777216, backend_send_queue_max_bytes_);
   ("GATEWAY_BACKEND_CIRCUIT_FAIL_THRESHOLD", 5, 1, 100, backend_circuit_fail_threshold_);
   ("GATEWAY_BACKEND_CIRCUIT_OPEN_MS", 10000, 100, 300000, backend_circuit_open_ms_);
   ("GATEWAY_BACKEND_CONNECT_RETRY_BUDGET_PER_MIN", 120, 0, 60000, backend_connect_retry_budget_per_min_);
   ("GATEWAY_BACKEND_CONNECT_RETRY_BACKOFF_MS", 200, 10, 60000, backend_connect_retry_backoff_ms_);
   ("GATEWAY_INGRESS_TOKENS_PER_SEC", 200, 1, 100000, ingress_tokens_per_sec_);
   ("GATEWAY_INGRESS_MAX_ACTIVE_SESSIONS", 50000, 1, 500000, ingress_max_active_sessions_);
   ("GATEWAY_UDP_BIND_TTL_MS", 5000, 1000, 120000, udp_bind_ttl_ms_);
   ("GATEWAY_UDP_BIND_FAIL_WINDOW_MS", 10000, 1000, 120000, udp_bind_fail_window_ms_);
   ("GATEWAY_UDP_BIND_FAIL_LIMIT", 5, 2, 100, udp_bind_fail_limit_);
   ("GATEWAY_UDP_BIND_BLOCK_MS", 60000, 1000, 300000, udp_bind_block_ms_);
   ("GATEWAY_UDP_BIND_RETRY_BACKOFF_MS", 200, 10, 60000, udp_bind_retry_backoff_ms_);
   ("GATEWAY_UDP_BIND_RETRY_MAX_ATTEMPTS", 6, 1, 32, udp_bind_retry_max_attempts_);
   ("GATEWAY_RUDP_HANDSHAKE_TIMEOUT_MS", 1500, 100, 60000, λ c, handshake_timeout_ms (rudp_config_ c));
   ("GATEWAY_RUDP_IDLE_TIMEOUT_MS", 10000, 1000, 300000, λ c, idle_timeout_ms (rudp_config_ c));
   ("GATEWAY_RUDP_ACK_DELAY_MS", 10, 1, 200, λ c, cfg_ack_delay_ms (rudp_config_ c));
   ("GATEWAY_RUDP_RTO_MIN_MS", 50, 1, 10000, λ c, rto_min_ms (rudp_config_ c));
   ("GATEWAY_RUDP_MAX_INFLIGHT_PACKETS", 256, 1, 4096, λ c, max_inflight_packets (rudp_config_ c));
   ("GATEWAY_RUDP_MAX_INFLIGHT_BYTES", 262144, 1024, 16777216, λ c, max_inflight_bytes (rudp_config_ c));
   ("GATEWAY_RUDP_MTU_PAYLOAD_BYTES", 1200, 256, 1400, λ c, mtu_payload_bytes (rudp_config_ c))].
(** The maxima, which are at least the setting they go with. *)
Definition raised_settings : list (string * Z * Z * Z * (GatewayConfig → Z) * (GatewayConfig → Z)) :=
  [("GATEWAY_BACKEND_CONNECT_RETRY_BACKOFF_MAX_MS", 2000, 10, 300000, backend_connect_retry_backoff_ms_, backend_connect_retry_backoff_max_ms_);
   ("GATEWAY_INGRESS_BURST_TOKENS", 400, 1, 200000, ingress_tokens_per_sec_, ingress_burst_tokens_);
   ("GATEWAY_UDP_BIND_RETRY_BACKOFF_MAX_MS", 2000, 10, 300000, udp_bind_retry_backoff_ms_, udp_bind_retry_backoff_max_ms_);
   ("GATEWAY_RUDP_RTO_MAX_MS", 2000, 1, 60000, λ c, rto_min_ms (rudp_config_ c), λ c, rto_max_ms (rudp_config_ c))].
(** The number a variable holds. *)
Definition holds (env : Env) (key : string) (n : Z) : Prop := ∃ text, env !! key = Some text ∧ text ≠ EmptyString ∧ stoull text = Some n.
(** A value taken from the variable when that is a number in the range, else the default. *)
Definition taken (env : Env) (key : string) (fallback lo hi v : Z) : Prop :=
  lo ≤ v ≤ hi ∧ (∀ n, holds env key n → lo ≤ n ≤ hi → v = n) ∧ ((∀ n, holds env key n → ¬ lo ≤ n ≤ hi) → v = fallback).
Lemma taken_bounded env key fallback lo hi : lo ≤ fallback ≤ hi → taken env key fallback lo hi (parse_env_integral_bounded env key fallback lo hi).
Proof.
  intros Hf. split; [by apply bounded_range|]. unfold parse_env_integral_bounded, getenv_nonempty, holds. destruct (env !! key) as [t|]; [|by split; [intros n (? & ? & _)|]].
  case_bool_decide as Ht; [by split; [intros n (? & [= <-] & ? & _)|]|].
  destruct (stoull t) as [m|] eqn:Em; [|split; [intros n (? & [= <-] & _ & ?); congruence|done]].
  destruct ((lo <=? m) && (m <=? hi)) eqn:Er; split; try done.
  - intros n (? & [= <-] & _ & ?) _. congruence.
  - intros H. exfalso. apply (H m); [by exists t|lia].
  - intros n (? & [= <-] & _ & ?) Hn. assert (m = n) by congruence. lia.
Qed.
Lemma parse_listen_port value fallback : is_u16 fallback → is_u16 (parse_listen value fallback).2.
Proof.
  intros Hf. unfold parse_listen. case_bool_decide; [done|]. destruct (cut colon value) as [[host port]|]; [|done]. cbn.
  case_bool_decide; [done|]. destruct (stoull port); cbn; [apply u16_range|done].
Qed.
Ltac configured env := unfold configure_gateway; destruct (parse_listen _ 6000) as [? ?];
  destruct (match getenv_nonempty env "GATEWAY_UDP_LISTEN" with Some v => parse_listen v 0 | None => (EmptyString, 0) end) as [? ?]; cbn.
Lemma numbers_taken env : Forall (λ '(key, fallback, lo, hi, get), taken env key fallback lo hi (get (configure_gateway env))) number_settings.
Proof.
  unfold number_settings. configured env. repeat (apply Forall_cons; split; [apply (taken_bounded env); lia|]).
  done.
Qed.
Lemma maxima_taken env : Forall (λ '(key, fallback, lo, hi, least, get), let c := configure_gateway env in
  ∃ v, taken env key fallback lo hi v ∧ get c = Z.max (least c) v ∧ lo ≤ least c ≤ hi) raised_settings.
Proof.
  unfold raised_settings. configured env.
  repeat (apply Forall_cons; split; [eexists; split; [apply (taken_bounded env); lia|]; cbn;
    match goal with |- (if ?b <? ?a then _ else _) = _ ∧ _ => split; [destruct (Z.ltb_spec b a); lia|] end;
    match goal with |- context [parse_env_integral_bounded env ?k ?f ?lo ?hi] => pose proof (bounded_range env k f lo hi ltac:(lia)) end; lia|]).
  done.
Qed.
Lemma canary_range env : 0 ≤ canary_percent (rudp_rollout_policy_ (configure_gateway env)) ≤ 100.
Proof.
  assert (H : 0 ≤ canary_percent (configure_rollout env) ≤ 100).
  { unfold configure_rollout. pose proof (bounded_range env "GATEWAY_RUDP_CANARY_PERCENT" 0 0 100 ltac:(lia)).
    destruct (parse_env_bool _ _ _); cbn [canary_percent]; lia. }
  unfold configure_gateway. destruct (parse_listen _ 6000). by destruct (match getenv_nonempty env "GATEWAY_UDP_LISTEN" with Some v => _ | None => _ end).
Qed.
(** C39: whatever the environment holds, every number the gateway is configured
    with is in its declared range: it is the value of its variable when that is a
    number in the range and the default otherwise; a maximum is raised to the
    setting it belongs to and stays in its range; the ports have 16 bits.  A
    disabled RUDP rollout selects nobody, the canary percentage is at most 100,
    the opcode allowlists hold 16-bit ids and the one of plain UDP is not empty,
    and the RUDP settings satisfy what the engine's theorems require. *)
Theorem configuration_in_bounds (env : Env) :
  let c := configure_gateway env in
  Forall (λ '(key, fallback, lo, hi, get), taken env key fallback lo hi (get c)) number_settings
  ∧ Forall (λ '(key, fallback, lo, hi, least, get), (∃ v, taken env key fallback lo hi v ∧ get c = Z.max (least c) v)
                                                    ∧ least c ≤ get c ≤ hi) raised_settings
  ∧ is_u16 (listen_port_ c) ∧ is_u16 (udp_listen_port_ c)
  ∧ udp_opcode_allowlist_ c ≠ ∅ ∧ (∀ x, x ∈ udp_opcode_allowlist_ c → is_u16 x)
  ∧ (∀ x, x ∈ opcode_allowlist (rudp_rollout_policy_ c) → is_u16 x)
  ∧ 0 ≤ canary_percent (rudp_rollout_policy_ c) ≤ 100
  ∧ (p_enabled (rudp_rollout_policy_ c) = false → ∀ sid nonce, session_selected (rudp_rollout_policy_ c) sid nonce = false)
  ∧ config_ok (rudp_config_ c).
Proof.
  cbv zeta. split; [apply numbers_taken|]. split.
  { eapply Forall_impl; [apply maxima_taken|]. intros [[[[[key fallback] lo] hi] least] get] (v & Hv & He & Hl). split; [by exists v|]. destruct Hv as [Hv _]. rewrite He. lia. }
  split_and!.
  - unfold configure_gateway. pose proof (parse_listen_port (default "0.0.0.0:6000" (env !! "GATEWAY_LISTEN")) 6000 ltac:(mach)) as H.
    destruct (parse_listen _ 6000). cbn in H.
    by destruct (match getenv_nonempty env "GATEWAY_UDP_LISTEN" with Some v => parse_listen v 0 | None => (EmptyString, 0) end).
  - unfold configure_gateway. destruct (parse_listen _ 6000).
    assert (H : is_u16 (match getenv_nonempty env "GATEWAY_UDP_LISTEN" with Some v => parse_listen v 0 | None => (EmptyString, 0) end).2)
      by (destruct (getenv_nonempty env "GATEWAY_UDP_LISTEN"); [by apply parse_listen_port|done]).
    by destruct (match getenv_nonempty env "GATEWAY_UDP_LISTEN" with Some v => parse_listen v 0 | None => (EmptyString, 0) end).
  - configured env. case_bool_decide; [set_solver|done].
  - configured env. intros x. case_bool_decide; [intros ->%elem_of_singleton; by vm_compute|apply allowlist_env_range].
  - configured env. apply allowlist_env_range.
  - apply canary_range.
  - apply canary_range.
  - configured env. unfold session_selected, configure_rollout. cbn. by intros ->.
  - configured env. unfold config_ok, configure_rudp. cbn.
    repeat match goal with |- context [parse_env_integral_bounded env ?k ?f ?lo ?hi] =>
      let H := fresh in assert (H : lo ≤ parse_env_integral_bounded env k f lo hi ≤ hi) by (apply bounded_range; lia);
      generalize dependent (parse_env_integral_bounded env k f lo hi); intros ? ? end. split_and!; lia.
Qed.
(** A lease of 2^32 seconds turns into 0, which switches the locator off. *)
Lemma locator_ttl_can_wrap :
  resume_locator_ttl_sec_ (configure_infrastructure {["SESSION_CONTINUITY_LEASE_TTL_SEC" := "4294967296"]} true) = 0.
Proof. vm_compute. reflexivity. Qed.
