(* ===== verification/Gateway.v ===== *)
(** * Gateway state and routing

    [gateway/src/gateway_app_state.hpp] and [gateway_routing_policy.cpp]:
    ingress admission, choice of a backend, resume routing.  The registry, the
    sticky directory, the breaker and the retry budget are those of the
    component files.  [std::hash] is the parameter [hash]; the result of the
    floating-point token bucket and the [AppHost] flags are arguments. *)
From S2P Require Import Prelude Containers Text Redis Packet Transport RudpEngine Resilience WorldDocuments.
From S2P Require Import InstanceRegistry SessionDirectory Opcodes GatewayConfig.
From stdpp Require Import list gmap strings.
Open Scope Z_scope.

(** ** State *)
(** The atomic members of [GatewayApp::Impl]; the last two hold a reading. *)
Inductive Counter :=
  | connections_total | backend_resolve_fail_total | backend_connect_fail_total | backend_connect_timeout_total
  | backend_write_error_total | backend_send_queue_overflow_total | backend_circuit_open_total
  | backend_circuit_reject_total | backend_connect_retry_total | backend_retry_budget_exhausted_total
  | resume_routing_bind_total | resume_routing_hit_total | resume_locator_bind_total
  | resume_locator_lookup_hit_total | resume_locator_lookup_miss_total | resume_locator_selector_hit_total
  | resume_locator_selector_fallback_total | world_policy_filtered_sticky_total
  | world_policy_filtered_candidate_total | world_policy_replacement_selected_total
  | ingress_reject_not_ready_total | ingress_reject_rate_limit_total | ingress_reject_session_limit_total
  | ingress_reject_circuit_open_total
  | udp_packets_total | udp_receive_error_total | udp_bind_ticket_issued_total | udp_bind_success_total
  | udp_bind_reject_total | udp_bind_block_total | udp_bind_rate_limit_reject_total | udp_bind_retry_backoff_total
  | udp_bind_retry_reject_total | udp_opcode_allowlist_reject_total | udp_forward_total
  | udp_forward_reliable_ordered_total | udp_forward_reliable_total | udp_forward_unreliable_sequenced_total
  | udp_direct_state_delta_total | udp_replay_drop_total | udp_reorder_drop_total | udp_duplicate_drop_total
  | udp_retransmit_total | udp_loss_estimated_total | rudp_packets_total | rudp_packets_reject_total
  | rudp_inner_forward_total | rudp_fallback_total | rudp_direct_state_delta_total
  | direct_state_delta_tcp_fallback_total | udp_jitter_ms_last | udp_rtt_ms_last.
#[export] Instance counter_eq : EqDecision Counter.
Proof. solve_decision. Defined.
Definition Counters : Type := Counter → Z.
Definition store_counter (c : Counter) (v : Z) (m : Counters) : Counters :=
  λ c', if bool_decide (c' = c) then v else m c'.
Definition add_counter (c : Counter) (n : Z) (m : Counters) : Counters := store_counter c (m c +₆₄ n) m.

(** An IPv4 endpoint; the UDP socket is opened with [udp::v4()]. *)
Record UdpEndpoint := { ep_address : Z; ep_port : Z }.
#[export] Instance udp_endpoint_eq : EqDecision UdpEndpoint.
Proof. solve_decision. Defined.
Definition no_endpoint : UdpEndpoint := {| ep_address := 0; ep_port := 0 |}.
Record SessionState := {
  s_client_id : string;
  s_backend_instance_id : string;
  s_udp_bound : bool;
  s_udp_endpoint : UdpEndpoint;
  s_udp_nonce : Z;
  s_udp_expires_unix_ms : Z;
  s_udp_ticket_issued_unix_ms : Z;
  s_udp_bind_fail_attempts : Z;
  s_udp_bind_retry_after_unix_ms : Z;
  s_udp_token : list Z;
  s_udp_sequenced_metrics : UdpSequencedMetrics;
  s_rudp_selected : bool;
  s_rudp_fallback_to_tcp : bool;
  s_rudp_engine : option RudpEngine;
}.
Definition session_state_new (client_id backend_instance_id : string) : SessionState :=
  {| s_client_id := client_id; s_backend_instance_id := backend_instance_id; s_udp_bound := false;
     s_udp_endpoint := no_endpoint; s_udp_nonce := 0; s_udp_expires_unix_ms := 0; s_udp_ticket_issued_unix_ms := 0;
     s_udp_bind_fail_attempts := 0; s_udp_bind_retry_after_unix_ms := 0; s_udp_token := [];
     s_udp_sequenced_metrics := udp_metrics_new; s_rudp_selected := false; s_rudp_fallback_to_tcp := false;
     s_rudp_engine := None |}.

(** [gw_redis]: [redis_client_] is set; [gw_socket]: [udp_socket_] is set. *)
Record Gateway := {
  gw_cfg : GatewayConfig;
  gw_secret : list Z;
  gw_infra : GatewayInfra;
  gw_boot_id : string;
  gw_redis : bool;
  gw_socket : bool;
  gw_sessions : gmap (list Z) SessionState;
  gw_counters : Counters;
  gw_breaker : CircuitBreaker;
  gw_budget : RetryBudget;
  gw_guard : UdpBindAbuseGuard;
  gw_registry : option RedisInstanceStateBackend;
  gw_directory : option SessionDirectory;
  gw_session_seq : Z;
  gw_rr_counter : Z;
}.
Definition gateway_new (env : Env) (boot_id : string) (client : bool) : Gateway :=
  let c := configure_gateway env in
  let i := configure_infrastructure env client in
  {| gw_cfg := c; gw_secret := derive_secret c boot_id; gw_infra := i; gw_boot_id := boot_id; gw_redis := client;
     gw_socket := false; gw_sessions := ∅; gw_counters := (λ _, 0); gw_breaker := configured_breaker c;
     gw_budget := configured_budget c; gw_guard := configured_guard c; gw_registry := backend_registry_ i;
     gw_directory := session_directory_ i; gw_session_seq := 0; gw_rr_counter := 0 |}.

(** Assignments to members, in groups. *)
Definition set_sessions (m : gmap (list Z) SessionState) (g : Gateway) : Gateway :=
  {| gw_cfg := gw_cfg g; gw_secret := gw_secret g; gw_infra := gw_infra g; gw_boot_id := gw_boot_id g;
     gw_redis := gw_redis g; gw_socket := gw_socket g; gw_sessions := m; gw_counters := gw_counters g;
     gw_breaker := gw_breaker g; gw_budget := gw_budget g; gw_guard := gw_guard g; gw_registry := gw_registry g;
     gw_directory := gw_directory g; gw_session_seq := gw_session_seq g; gw_rr_counter := gw_rr_counter g |}.
Definition upd_counters (f : Counters → Counters) (g : Gateway) : Gateway :=
  {| gw_cfg := gw_cfg g; gw_secret := gw_secret g; gw_infra := gw_infra g; gw_boot_id := gw_boot_id g;
     gw_redis := gw_redis g; gw_socket := gw_socket g; gw_sessions := gw_sessions g; gw_counters := f (gw_counters g);
     gw_breaker := gw_breaker g; gw_budget := gw_budget g; gw_guard := gw_guard g; gw_registry := gw_registry g;
     gw_directory := gw_directory g; gw_session_seq := gw_session_seq g; gw_rr_counter := gw_rr_counter g |}.
Definition set_controls (b : CircuitBreaker) (bu : RetryBudget) (gu : UdpBindAbuseGuard) (g : Gateway) : Gateway :=
  {| gw_cfg := gw_cfg g; gw_secret := gw_secret g; gw_infra := gw_infra g; gw_boot_id := gw_boot_id g;
     gw_redis := gw_redis g; gw_socket := gw_socket g; gw_sessions := gw_sessions g; gw_counters := gw_counters g;
     gw_breaker := b; gw_budget := bu; gw_guard := gu; gw_registry := gw_registry g;
     gw_directory := gw_directory g; gw_session_seq := gw_session_seq g; gw_rr_counter := gw_rr_counter g |}.
Definition set_stores (reg : option RedisInstanceStateBackend) (dir : option SessionDirectory) (g : Gateway) : Gateway :=
  {| gw_cfg := gw_cfg g; gw_secret := gw_secret g; gw_infra := gw_infra g; gw_boot_id := gw_boot_id g;
     gw_redis := gw_redis g; gw_socket := gw_socket g; gw_sessions := gw_sessions g; gw_counters := gw_counters g;
     gw_breaker := gw_breaker g; gw_budget := gw_budget g; gw_guard := gw_guard g; gw_registry := reg;
     gw_directory := dir; gw_session_seq := gw_session_seq g; gw_rr_counter := gw_rr_counter g |}.
Definition set_sequences (session_seq rr : Z) (g : Gateway) : Gateway :=
  {| gw_cfg := gw_cfg g; gw_secret := gw_secret g; gw_infra := gw_infra g; gw_boot_id := gw_boot_id g;
     gw_redis := gw_redis g; gw_socket := gw_socket g; gw_sessions := gw_sessions g; gw_counters := gw_counters g;
     gw_breaker := gw_breaker g; gw_budget := gw_budget g; gw_guard := gw_guard g; gw_registry := gw_registry g;
     gw_directory := gw_directory g; gw_session_seq := session_seq; gw_rr_counter := rr |}.
Definition set_breaker_of (b : CircuitBreaker) (g : Gateway) : Gateway := set_controls b (gw_budget g) (gw_guard g) g.
Definition set_budget_of (b : RetryBudget) (g : Gateway) : Gateway := set_controls (gw_breaker g) b (gw_guard g) g.
Definition set_guard_of (u : UdpBindAbuseGuard) (g : Gateway) : Gateway := set_controls (gw_breaker g) (gw_budget g) u g.
Definition set_registry (b : RedisInstanceStateBackend) (g : Gateway) : Gateway := set_stores (Some b) (gw_directory g) g.
Definition set_directory (d : SessionDirectory) (g : Gateway) : Gateway := set_stores (gw_registry g) (Some d) g.
(** [c.fetch_add(n)] and [c.fetch_add(1)] *)
Definition count_by (c : Counter) (n : Z) (g : Gateway) : Gateway := upd_counters (add_counter c n) g.
Definition count (c : Counter) (g : Gateway) : Gateway := count_by c 1 g.
Definition count_if (b : bool) (c : Counter) (g : Gateway) : Gateway := if b then count c g else g.

(** ** Ingress and circuit *)
Inductive IngressAdmission := kAccept | kRejectNotReady | kRejectRateLimited | kRejectSessionLimit | kRejectCircuitOpen.
Definition admit_ingress_connection (g : Gateway) (ready healthy stop_requested token : bool) (now_ms : Z)
    : Gateway * IngressAdmission :=
  if negb ready || negb healthy || stop_requested then (count ingress_reject_not_ready_total g, kRejectNotReady)
  else
    let '(b, is_open) := breaker_is_open (gw_breaker g) now_ms in
    let g := set_breaker_of b g in
    if is_open then (count ingress_reject_circuit_open_total g, kRejectCircuitOpen)
    else if (0 <? ingress_max_active_sessions_ (gw_cfg g))
            && (ingress_max_active_sessions_ (gw_cfg g) <=? Z.of_nat (size (gw_sessions g)))
    then (count ingress_reject_session_limit_total g, kRejectSessionLimit)
    else if negb token then (count ingress_reject_rate_limit_total g, kRejectRateLimited)
    else (g, kAccept).
Definition ingress_admission_name (a : IngressAdmission) : string :=
  match a with
  | kAccept => "accept" | kRejectNotReady => "not_ready" | kRejectRateLimited => "rate_limited"
  | kRejectSessionLimit => "session_limit" | kRejectCircuitOpen => "circuit_open"
  end.
Definition backend_circuit_allows_connect (g : Gateway) (now_ms : Z) : Gateway * bool :=
  let '(b, ok) := breaker_allow (gw_breaker g) now_ms in
  let g := set_breaker_of b g in
  if ok then (g, true) else (count backend_circuit_reject_total g, false).
Definition record_backend_connect_success_event (g : Gateway) : Gateway :=
  set_breaker_of (breaker_record_success (gw_breaker g)) g.
Definition record_backend_connect_failure_event (g : Gateway) (now_ms : Z) : Gateway :=
  let '(b, opened) := breaker_record_failure (gw_breaker g) now_ms in
  count_if opened backend_circuit_open_total (set_breaker_of b g).
Definition consume_backend_retry_budget (g : Gateway) (now_ms : Z) : Gateway * bool :=
  let '(b, ok) := budget_consume (gw_budget g) now_ms in (set_budget_of b g, ok).
(** [backend_retry_delay] and [udp_bind_retry_delay_ms] share their formula. *)
Definition retry_delay (backoff_ms backoff_max_ms attempt : Z) : Z :=
  let capped_attempt := Z.min attempt 8 in
  let factor := 1 <<₆₄ (if capped_attempt =? 0 then 0 else capped_attempt - 1) in
  Z.min (backoff_ms *₆₄ factor) backoff_max_ms.
Definition backend_retry_delay (g : Gateway) (attempt : Z) : Z :=
  retry_delay (backend_connect_retry_backoff_ms_ (gw_cfg g)) (backend_connect_retry_backoff_max_ms_ (gw_cfg g)) attempt.

(** ** World policy *)
Definition resume_routing_prefix : string := "resume-hash:".
Definition is_resume_routing_key (value : string) : bool := String.prefix resume_routing_prefix value.
Definition world_prefix : string := "world:".
Fixpoint extract_world_id_from_tags (tags : list string) : option string :=
  match tags with
  | [] => None
  | tag :: tags =>
      if String.prefix world_prefix tag && (String.length world_prefix <? String.length tag)%nat
      then Some (drop_chars (String.length world_prefix) tag)
      else extract_world_id_from_tags tags
  end.
Definition make_world_policy_key (continuity_prefix world_id : string) : string :=
  continuity_prefix +:+ "world-policy:" +:+ world_id.
Definition empty_policy : WorldLifecyclePolicy :=
  {| lp_draining := false; lp_replacement_owner_instance_id := EmptyString |}.
(** The distinct worlds of the instances, in order of first appearance. *)
Definition collect_worlds (items : list InstanceRecord) : list string :=
  foldl (λ ids item, match extract_world_id_from_tags (ir_tags item) with
                     | Some w => if bool_decide (w ∈ ids) then ids else ids ++ [w]
                     | None => ids
                     end) [] items.
Definition index_policy (out : gmap string WorldLifecyclePolicy) (wp : string * option string)
    : gmap string WorldLifecyclePolicy :=
  match wp.2 with
  | Some payload =>
      if bool_decide (payload = EmptyString) then out
      else match parse_world_lifecycle_policy payload with Some p => <[wp.1 := p]> out | None => out end
  | None => out
  end.
Record WorldPolicyBackendDecision := {
  wd_allowed : bool;
  draining_filtered : bool;
  replacement_match : bool;
  wd_world_id : option string;
}.
Definition evaluate_world_policy_backend (record : InstanceRecord) (index : gmap string WorldLifecyclePolicy)
    : WorldPolicyBackendDecision :=
  let plain w := {| wd_allowed := true; draining_filtered := false; replacement_match := false; wd_world_id := w |} in
  match extract_world_id_from_tags (ir_tags record) with
  | None => plain None
  | Some w =>
      match index !! w with
      | Some p =>
          if negb (lp_draining p) then plain (Some w)
          else
            let owner := lp_replacement_owner_instance_id p in
            let matched := negb (bool_decide (owner = EmptyString)) && bool_decide (owner = instance_id record) in
            {| wd_allowed := matched; draining_filtered := true; replacement_match := matched; wd_world_id := Some w |}
      | None => plain (Some w)
      end
  end.

(** ** Resume locator hint *)
Record ResumeLocatorHint := {
  h_backend_instance_id : string;
  h_world_id : string;
  h_role : string;
  h_game_mode : string;
  h_region : string;
  h_shard : string;
}.
Definition empty_hint : ResumeLocatorHint :=
  {| h_backend_instance_id := EmptyString; h_world_id := EmptyString; h_role := EmptyString;
     h_game_mode := EmptyString; h_region := EmptyString; h_shard := EmptyString |}.
Definition serialize_resume_locator_hint (h : ResumeLocatorHint) : string :=
  kv_line "backend" (h_backend_instance_id h)
  (kv_line "world_id" (h_world_id h)
  (kv_line "role" (h_role h)
  (kv_line "game_mode" (h_game_mode h)
  (kv_line "region" (h_region h)
  (kv_line "shard" (h_shard h) EmptyString))))).
Definition set_hint_field (key value : string) (h : ResumeLocatorHint) : ResumeLocatorHint :=
  let mk b w ro g re s := {| h_backend_instance_id := b; h_world_id := w; h_role := ro; h_game_mode := g;
                             h_region := re; h_shard := s |} in
  let '{| h_backend_instance_id := b; h_world_id := w; h_role := ro; h_game_mode := g; h_region := re; h_shard := s |} := h in
  let named k := bool_decide (key = k) in
  if named "backend" then mk value w ro g re s
  else if named "world_id" then mk b value ro g re s
  else if named "role" then mk b w value g re s
  else if named "game_mode" then mk b w ro value re s
  else if named "region" then mk b w ro g value s
  else if named "shard" then mk b w ro g re value
  else h.
Definition carriage_return : char := of_code 13.
(** [if (value.back() == '\r') value.pop_back()] *)
Fixpoint drop_back_cr (s : string) : string :=
  match s with
  | String c EmptyString => if bool_decide (c = carriage_return) then EmptyString else s
  | String c s' => String c (drop_back_cr s')
  | EmptyString => EmptyString
  end.
Definition hint_line (h : ResumeLocatorHint) (line : string) : ResumeLocatorHint :=
  match cut equals_sign line with
  | Some (key, value) => set_hint_field key (drop_back_cr value) h
  | None => h
  end.
Definition hint_empty (h : ResumeLocatorHint) : bool :=
  is_empty (h_backend_instance_id h) && is_empty (h_world_id h) && is_empty (h_role h)
  && is_empty (h_game_mode h) && is_empty (h_region h) && is_empty (h_shard h).
Definition parse_resume_locator_hint (payload : string) : option ResumeLocatorHint :=
  let h := foldl hint_line empty_hint (lines payload) in
  if hint_empty h then None else Some h.
Definition hint_of_record (r : InstanceRecord) : ResumeLocatorHint :=
  {| h_backend_instance_id := instance_id r;
     h_world_id := default EmptyString (extract_world_id_from_tags (ir_tags r));
     h_role := ir_role r; h_game_mode := ir_game_mode r; h_region := ir_region r; h_shard := ir_shard r |}.
Definition one_unless_empty (s : string) : list string := if is_empty s then [] else [s].
Definition selector_of_hint (h : ResumeLocatorHint) : option InstanceSelector :=
  let s := {| sel_all := false; sel_server_ids := []; sel_roles := one_unless_empty (h_role h);
              sel_game_modes := one_unless_empty (h_game_mode h); sel_regions := one_unless_empty (h_region h);
              sel_shards := one_unless_empty (h_shard h);
              sel_tags := if is_empty (h_world_id h) then [] else [world_prefix +:+ h_world_id h] |} in
  if is_nil (sel_roles s) && is_nil (sel_tags s) && is_nil (sel_game_modes s) && is_nil (sel_regions s)
     && is_nil (sel_shards s)
  then None else Some s.

(** ** Routing *)
Record SelectedBackend := { sb_record : InstanceRecord; sb_sticky_hit : bool }.
(** [!client_id.empty() && client_id != "anonymous"] *)
Definition identified (client_id : string) : bool :=
  negb (is_empty client_id) && negb (bool_decide (client_id = "anonymous")).

Section Routing.
Context {R : Type} `{!RedisClient R} `{!MapIteration string} `{!MapIteration (list Z)} (hash : string → Z).
Implicit Types (g : Gateway) (r : R).

(** A failing [mget] is replaced by single reads. *)
Definition load_world_policy_index g r (items : list InstanceRecord) : gmap string WorldLifecyclePolicy :=
  let prefix := continuity_prefix_ (gw_infra g) in
  if negb (gw_redis g) || is_empty prefix then ∅
  else
    let world_ids := collect_worlds items in
    let keys := make_world_policy_key prefix <$> world_ids in
    let out := foldl (λ m w, emplace w empty_policy m) ∅ world_ids in
    match keys with
    | [] => out
    | _ =>
        let single := redis_get r <$> keys in
        let payloads := match redis_mget r keys with
                        | Some ps => if (length ps =? length keys)%nat then ps else single
                        | None => single
                        end in
        foldl index_policy out (zip world_ids payloads)
    end.
Definition make_resume_locator_key g (routing_key : string) : string :=
  if is_empty routing_key then EmptyString else resume_locator_prefix_ (gw_infra g) +:+ routing_key.
Definition load_resume_locator_selector g r (routing_key : string) : Gateway * option InstanceSelector :=
  if negb (gw_redis g) || is_empty routing_key || negb (is_resume_routing_key routing_key) then (g, None)
  else
    match redis_get r (make_resume_locator_key g routing_key) with
    | None => (count resume_locator_lookup_miss_total g, None)
    | Some payload =>
        if is_empty payload then (count resume_locator_lookup_miss_total g, None)
        else
          (count resume_locator_lookup_hit_total g,
           match parse_resume_locator_hint payload with Some h => selector_of_hint h | None => None end)
    end.
Definition persist_resume_locator_hint g r (routing_key : string) (record : InstanceRecord) : Gateway * R :=
  if negb (gw_redis g) || is_empty routing_key || negb (is_resume_routing_key routing_key)
     || (resume_locator_ttl_sec_ (gw_infra g) =? 0) then (g, r)
  else
    let '(r, ok) := redis_setex r (make_resume_locator_key g routing_key)
                      (serialize_resume_locator_hint (hint_of_record record)) (resume_locator_ttl_sec_ (gw_infra g)) in
    (count_if ok resume_locator_bind_total g, r).

Definition local_backend_load g : gmap string Z :=
  foldl (λ m s, if is_empty (s_backend_instance_id s) then m
                else <[s_backend_instance_id s := default 0 (m !! s_backend_instance_id s) +₆₄ 1]> m)
    ∅ (iterate (gw_sessions g)).*2.
Definition effective_load (loads : gmap string Z) (rec : InstanceRecord) : Z :=
  ir_active_sessions rec +₆₄ default 0 (loads !! instance_id rec).
(** What the candidate loop carries. *)
Record CandidateScan := {
  cs_candidates : list InstanceRecord;
  cs_filtered_world_ids : gset string;
  cs_min_effective_load : Z;
  cs_filtered_candidates : Z;
}.
Definition connectable (rec : InstanceRecord) : bool :=
  ir_ready rec && negb (is_empty (instance_id rec)) && negb (is_empty (ir_host rec)) && negb (ir_port rec =? 0).
Definition scan_candidate (index : gmap string WorldLifecyclePolicy) (loads : gmap string Z)
    (selector : option InstanceSelector) (st : CandidateScan) (rec : InstanceRecord) : CandidateScan :=
  if negb (connectable rec) then st
  else if (match selector with Some s => negb (matches_selector rec s) | None => false end) then st
  else
    let decision := evaluate_world_policy_backend rec index in
    if negb (wd_allowed decision) then
      if draining_filtered decision then
        {| cs_candidates := cs_candidates st;
           cs_filtered_world_ids := match wd_world_id decision with
                                    | Some w => {[w]} ∪ cs_filtered_world_ids st
                                    | None => cs_filtered_world_ids st
                                    end;
           cs_min_effective_load := cs_min_effective_load st;
           cs_filtered_candidates := cs_filtered_candidates st + 1 |}
      else st
    else
      let load := effective_load loads rec in
      if load <? cs_min_effective_load st then
        {| cs_candidates := [rec]; cs_filtered_world_ids := cs_filtered_world_ids st; cs_min_effective_load := load;
           cs_filtered_candidates := cs_filtered_candidates st |}
      else if load =? cs_min_effective_load st then
        {| cs_candidates := cs_candidates st ++ [rec]; cs_filtered_world_ids := cs_filtered_world_ids st;
           cs_min_effective_load := cs_min_effective_load st; cs_filtered_candidates := cs_filtered_candidates st |}
      else st.
Definition build_candidates (instances : list InstanceRecord) (index : gmap string WorldLifecyclePolicy)
    (loads : gmap string Z) (selector : option InstanceSelector) : CandidateScan :=
  foldl (scan_candidate index loads selector)
    {| cs_candidates := []; cs_filtered_world_ids := ∅; cs_min_effective_load := 2 ^ 64 - 1;
       cs_filtered_candidates := 0 |} instances.

(** The sticky lookup; a binding that cannot be used is released. *)
Definition select_sticky g r (client_id : string) (now : Z) (instances : list InstanceRecord)
    (index : gmap string WorldLifecyclePolicy) : Gateway * R * option SelectedBackend :=
  match gw_directory g with
  | Some d =>
      if negb (identified client_id) then (g, r, None)
      else
        let '(r, (d, found)) := run_prog r (find_backend d client_id now) in
        let g := set_directory d g in
        let release g backend_id :=
          let '(r, d) := run_prog r (release_backend d client_id backend_id) in (set_directory d g, r, None) in
        match found with
        | None => (g, r, None)
        | Some backend_id =>
            match list_find (λ rec, instance_id rec = backend_id ∧ ir_ready rec = true) instances with
            | Some (_, rec) =>
                let decision := evaluate_world_policy_backend rec index in
                if wd_allowed decision
                then (count_if (is_resume_routing_key client_id) resume_routing_hit_total g, r,
                      Some {| sb_record := rec; sb_sticky_hit := true |})
                else release (count_if (draining_filtered decision) world_policy_filtered_sticky_total g) backend_id
            | None => release g backend_id
            end
        end
  | None => (g, r, None)
  end.
Definition candidate_index g (client_id : string) (n : nat) : Gateway * nat :=
  if (1 <? n)%nat then
    if identified client_id then (g, Z.to_nat (hash client_id mod Z.of_nat n))
    else (set_sequences (gw_session_seq g) (gw_rr_counter g +₆₄ 1) g, Z.to_nat (gw_rr_counter g mod Z.of_nat n))
  else (g, 0%nat).
(** The candidates under the hint's selector, or all when that leaves none. *)
Definition scan_with_fallback g (instances : list InstanceRecord) (index : gmap string WorldLifecyclePolicy)
    (selector : option InstanceSelector) : Gateway * CandidateScan :=
  let loads := local_backend_load g in
  let scan := build_candidates instances index loads selector in
  let g := count_by world_policy_filtered_candidate_total (cs_filtered_candidates scan) g in
  match selector with
  | Some _ =>
      if is_nil (cs_candidates scan) then
        let scan := build_candidates instances index loads None in
        (count_by world_policy_filtered_candidate_total (cs_filtered_candidates scan)
           (count resume_locator_selector_fallback_total g), scan)
      else (count resume_locator_selector_hit_total g, scan)
  | None => (g, scan)
  end.
(** The choice among the least loaded candidates. *)
Definition select_least_loaded g r (client_id : string) (instances : list InstanceRecord)
    (index : gmap string WorldLifecyclePolicy) : Gateway * option SelectedBackend :=
  let '(g, selector) :=
    if is_resume_routing_key client_id then load_resume_locator_selector g r client_id else (g, None) in
  let '(g, scan) := scan_with_fallback g instances index selector in
  if is_nil (cs_candidates scan) then (g, None)
  else
    let '(g, i) := candidate_index g client_id (length (cs_candidates scan)) in
    match cs_candidates scan !! i with
    | None => (g, None)
    | Some selected =>
        let decision := evaluate_world_policy_backend selected index in
        let replaced := replacement_match decision
                        && match wd_world_id decision with
                           | Some w => bool_decide (w ∈ cs_filtered_world_ids scan) | None => false end in
        (count_if replaced world_policy_replacement_selected_total g,
         Some {| sb_record := selected; sb_sticky_hit := false |})
    end.
Definition select_best_server g r (client_id : string) (now : Z) : Gateway * R * option SelectedBackend :=
  match gw_registry g with
  | None => (g, r, None)
  | Some b =>
      let '(b, instances) := redis_list_instances b r now in
      let g := set_registry b g in
      if is_nil instances then (g, r, None)
      else
        let index := load_world_policy_index g r instances in
        match select_sticky g r client_id now instances index with
        | (g, r, Some s) => (g, r, Some s)
        | (g, r, None) => let '(g, s) := select_least_loaded g r client_id instances index in (g, r, s)
        end
  end.

(** ** Sessions and resume bindings *)
Record CreatedBackendSession := { cb_session_id : list Z; cb_backend_instance_id : string }.
(** The connection attempt itself is started towards the selected address. *)
Definition create_backend_connection g r (client_id : string) (now : Z)
    : Gateway * R * option (CreatedBackendSession * SelectedBackend) :=
  let '(g, allowed) := backend_circuit_allows_connect g now in
  if negb allowed then (g, r, None)
  else
    let '(g, r, selected) := select_best_server g r client_id now in
    match selected with
    | None => (g, r, None)
    | Some s =>
        let seq := gw_session_seq g +₆₄ 1 in
        let session_id := bytes (gateway_id_ (gw_cfg g) +:+ "-" +:+ gw_boot_id g +:+ "-" +:+ print_u64 seq) in
        let g := set_sequences seq (gw_rr_counter g) g in
        let g := set_sessions (<[session_id := session_state_new client_id (instance_id (sb_record s))]> (gw_sessions g)) g in
        (g, r, Some ({| cb_session_id := session_id; cb_backend_instance_id := instance_id (sb_record s) |}, s))
    end.
(** The flag says whether a backend session is closed. *)
Definition close_backend_connection g (session_id : list Z) : Gateway * bool :=
  match gw_sessions g !! session_id with
  | Some _ => (set_sessions (delete session_id (gw_sessions g)) g, true)
  | None => (g, false)
  end.
Definition register_resume_routing_key g r (routing_key backend_instance_id : string) (now : Z) : Gateway * R :=
  match gw_directory g with
  | None => (g, r)
  | Some d =>
      if is_empty routing_key || is_empty backend_instance_id || negb (is_resume_routing_key routing_key) then (g, r)
      else
        let '(r, (d, bound)) := run_prog r (ensure_backend d routing_key backend_instance_id now) in
        let g := set_directory d g in
        if (match bound with Some b => negb (bool_decide (b = backend_instance_id)) | None => false end) then (g, r)
        else
          let g := count resume_routing_bind_total g in
          match gw_registry g with
          | None => (g, r)
          | Some b =>
              let '(b, instances) := redis_list_instances b r now in
              let g := set_registry b g in
              match list_find (λ rec, instance_id rec = backend_instance_id) instances with
              | Some (_, rec) => persist_resume_locator_hint g r routing_key rec
              | None => (g, r)
              end
          end
  end.
Definition on_backend_connected g r (client_id backend_instance_id : string) (now : Z) : Gateway * R :=
  match gw_directory g with
  | None => (g, r)
  | Some d =>
      if negb (identified client_id) || is_empty backend_instance_id then (g, r)
      else
        let '(r, (d, _)) := run_prog r (ensure_backend d client_id backend_instance_id now) in
        (set_directory d g, r)
  end.
End Routing.

(** ** Lemmas: candidates *)
Definition selected_by (selector : option InstanceSelector) (rec : InstanceRecord) : bool :=
  match selector with Some s => matches_selector rec s | None => true end.
(** A record the candidate loop accepts. *)
Definition eligible (index : gmap string WorldLifecyclePolicy) (selector : option InstanceSelector)
    (rec : InstanceRecord) : bool :=
  connectable rec && selected_by selector rec && wd_allowed (evaluate_world_policy_backend rec index).
Lemma effective_load_range loads rec : 0 ≤ effective_load loads rec ≤ 2 ^ 64 - 1.
Proof. unfold effective_load. mach. Qed.

Section Candidates.
Context (index : gmap string WorldLifecyclePolicy) (loads : gmap string Z) (selector : option InstanceSelector).
Record scan_ok (seen : list InstanceRecord) (st : CandidateScan) : Prop := {
  sc_sound : ∀ rec, rec ∈ cs_candidates st →
    rec ∈ seen ∧ eligible index selector rec = true ∧ effective_load loads rec = cs_min_effective_load st;
  sc_min : ∀ rec, rec ∈ seen → eligible index selector rec = true →
    cs_candidates st ≠ [] ∧ cs_min_effective_load st ≤ effective_load loads rec;
  sc_init : cs_candidates st = [] → cs_min_effective_load st = 2 ^ 64 - 1;
}.
Lemma scan_keep seen st rec : scan_ok seen st →
  (eligible index selector rec = true → cs_candidates st ≠ [] ∧ cs_min_effective_load st ≤ effective_load loads rec) →
  scan_ok (seen ++ [rec]) st.
Proof.
  intros [H1 H2 H3] Hrec. split; [|intros x [Hx|Hx]%elem_of_app Hel; [by apply H2|] |done].
  - intros x Hx. destruct (H1 x Hx) as (? & ? & ?). split_and!; [apply elem_of_app; by left|done|done].
  - apply list_elem_of_singleton in Hx as ->. auto.
Qed.
Lemma scan_candidate_ok seen st rec : scan_ok seen st →
  scan_ok (seen ++ [rec]) (scan_candidate index loads selector st rec).
Proof.
  intros Hst. unfold scan_candidate.
  destruct (connectable rec) eqn:Hc; simpl; [|apply scan_keep; [done|]; unfold eligible; by rewrite Hc].
  destruct (match selector with Some s => negb (matches_selector rec s) | None => false end) eqn:Hs.
  { apply scan_keep; [done|]. unfold eligible, selected_by. destruct selector; [|done].
    apply negb_true_iff in Hs. by rewrite Hs, andb_false_r. }
  destruct (wd_allowed (evaluate_world_policy_backend rec index)) eqn:Ha; simpl.
  2:{ assert (Hno : eligible index selector rec = false) by (unfold eligible; by rewrite Ha, andb_false_r).
      destruct (draining_filtered _); [|apply scan_keep; [done|congruence]].
      apply (scan_keep seen _ rec) in Hst as [H1 H2 H3]; [by split|congruence]. }
  assert (Hel : eligible index selector rec = true).
  { unfold eligible, selected_by. rewrite Hc, Ha. destruct selector; [|done]. apply negb_false_iff in Hs. by rewrite Hs. }
  pose proof (effective_load_range loads rec) as Hr. destruct Hst as [H1 H2 H3].
  destruct (Z.ltb_spec (effective_load loads rec) (cs_min_effective_load st)) as [Hlt|Hge];
    [|destruct (Z.eqb_spec (effective_load loads rec) (cs_min_effective_load st)) as [He|Hne]].
  - split; simpl; [|intros x Hx Hex; split; [done|] |done].
    + intros x ->%list_elem_of_singleton. split_and!; [apply elem_of_app; right; by left|done|done].
    + apply elem_of_app in Hx as [Hx| ->%list_elem_of_singleton]; [|done]. destruct (H2 x Hx Hex). lia.
  - split; simpl; [|intros x Hx Hex; split; [by destruct (cs_candidates st)|] |by destruct (cs_candidates st)].
    + intros x [Hx| ->%list_elem_of_singleton]%elem_of_app.
      * destruct (H1 x Hx) as (? & ? & ?). split_and!; [apply elem_of_app; by left|done|done].
      * split_and!; [apply elem_of_app; right; by left|done|done].
    + apply elem_of_app in Hx as [Hx| ->%list_elem_of_singleton]; [by apply H2|lia].
  - apply scan_keep; [by split|]. intros _. split; [|lia]. intros Hnil. rewrite (H3 Hnil) in Hge, Hne. lia.
Qed.
Lemma build_candidates_ok instances : scan_ok instances (build_candidates instances index loads selector).
Proof.
  unfold build_candidates. rewrite <- (app_nil_l instances) at 1.
  set (st := Build_CandidateScan _ _ _ _).
  assert (Hst : scan_ok [] st) by (split; [by intros ? []%not_elem_of_nil|by intros ? []%not_elem_of_nil|done]).
  clearbody st. revert st Hst. generalize (@nil InstanceRecord) as seen.
  induction instances as [|rec l IH]; intros seen st Hst; simpl; [by rewrite app_nil_r|].
  replace (seen ++ rec :: l) with ((seen ++ [rec]) ++ l) by by rewrite <- app_assoc.
  apply IH. by apply scan_candidate_ok.
Qed.
End Candidates.

(** ** Lemmas: selection *)
Section SelectionLemmas.
Context {R : Type} `{!RedisClient R} `{!MapIteration string} `{!MapIteration (list Z)} (hash : string → Z).
Implicit Types (g : Gateway) (r : R).

Lemma candidate_index_lt g client n : (0 < n)%nat → ((candidate_index hash g client n).2 < n)%nat.
Proof.
  intros Hn. unfold candidate_index. destruct (1 <? n)%nat; [|done].
  destruct (identified client); cbn [snd];
    match goal with |- (Z.to_nat (?x mod _) < _)%nat => pose proof (Z.mod_pos_bound x (Z.of_nat n) ltac:(lia)) end; lia.
Qed.
Lemma load_selector_sessions g r client : gw_sessions (load_resume_locator_selector g r client).1 = gw_sessions g.
Proof.
  unfold load_resume_locator_selector. destruct (negb _ || _ || _); [done|].
  destruct (redis_get r _) as [p|]; [|done]. by destruct (is_empty p).
Qed.
Definition scan_choice (instances : list InstanceRecord) (index : gmap string WorldLifecyclePolicy)
    (hint sel : option InstanceSelector) : Prop :=
  sel = hint ∨ (sel = None ∧ ∀ rec, rec ∈ instances → eligible index hint rec = false).
Lemma scan_with_fallback_ok g instances index hint :
  let '(_, scan) := scan_with_fallback g instances index hint in
  ∃ sel, scan_ok index (local_backend_load g) sel instances scan ∧ scan_choice instances index hint sel
    ∧ (cs_candidates scan = [] → sel = None).
Proof.
  unfold scan_with_fallback. set (loads := local_backend_load g).
  pose proof (build_candidates_ok index loads hint instances) as H1.
  pose proof (build_candidates_ok index loads None instances) as H2.
  destruct hint as [s|]; [|exists None; split_and!; [done|by left|done]].
  destruct (cs_candidates (build_candidates instances index loads (Some s))) as [|c cs] eqn:Hc; simpl.
  - exists None. split_and!; [done| |done]. right. split; [done|]. intros rec Hrec.
    destruct (eligible index (Some s) rec) eqn:E; [|done]. by destruct (sc_min _ _ _ _ _ H1 rec Hrec E).
  - exists (Some s). split_and!; [done|by left|]. by rewrite Hc.
Qed.
(** The choice is a least loaded eligible record, under the hint's selector if
    that leaves anyone, and fails only when nobody is eligible. *)
Lemma select_least_loaded_ok g r client instances index :
  let hint := if is_resume_routing_key client then (load_resume_locator_selector g r client).2 else None in
  match (select_least_loaded hash g r client instances index).2 with
  | Some s =>
      sb_record s ∈ instances ∧ sb_sticky_hit s = false
      ∧ ∃ sel, scan_choice instances index hint sel ∧ eligible index sel (sb_record s) = true
        ∧ ∀ rec, rec ∈ instances → eligible index sel rec = true →
            effective_load (local_backend_load g) (sb_record s) ≤ effective_load (local_backend_load g) rec
  | None => ∀ rec, rec ∈ instances → eligible index None rec = false
  end.
Proof.
  cbv zeta. unfold select_least_loaded.
  assert (Hg : ∃ g1 hint, (if is_resume_routing_key client then load_resume_locator_selector g r client else (g, None)) = (g1, hint)
    ∧ gw_sessions g1 = gw_sessions g
    ∧ (if is_resume_routing_key client then (load_resume_locator_selector g r client).2 else None) = hint).
  { destruct (is_resume_routing_key client); [|eauto]. pose proof (load_selector_sessions g r client).
    destruct (load_resume_locator_selector g r client) as [g1 h]. eauto. }
  destruct Hg as (g1 & hint & -> & Hsess & ->).
  replace (local_backend_load g) with (local_backend_load g1) by (unfold local_backend_load; by rewrite Hsess).
  pose proof (scan_with_fallback_ok g1 instances index hint) as Hok.
  destruct (scan_with_fallback g1 instances index hint) as [g2 scan]. destruct Hok as (sel & Hok & Hsel & Hnil).
  destruct (cs_candidates scan) as [|c cs] eqn:Hc; cbn [is_nil].
  - intros rec Hrec. rewrite (Hnil eq_refl) in Hok. destruct (eligible index None rec) eqn:E; [|done].
    by destruct (sc_min _ _ _ _ _ Hok rec Hrec E).
  - pose proof (candidate_index_lt g2 client (length (c :: cs)) ltac:(simpl; lia)) as Hi.
    destruct (candidate_index hash g2 client (length (c :: cs))) as [g3 i].
    destruct ((c :: cs) !! i) as [x|] eqn:Hx; [|apply lookup_ge_None in Hx; simpl in *; lia]. cbn [snd sb_record sb_sticky_hit].
    apply list_elem_of_lookup_2 in Hx. rewrite <- Hc in Hx. destruct (sc_sound _ _ _ _ _ Hok x Hx) as (Hin & Hel & Hmin).
    split_and!; [done|done|]. exists sel. split_and!; [done|done|]. intros rec Hrec Hrel.
    rewrite Hmin. by apply (sc_min _ _ _ _ _ Hok).
Qed.
Lemma select_sticky_ok g r client now instances index :
  let '(g', r', found) := select_sticky g r client now instances index in
  gw_sessions g' = gw_sessions g
  ∧ match found with
    | Some s => sb_record s ∈ instances ∧ ir_ready (sb_record s) = true ∧ sb_sticky_hit s = true
                ∧ wd_allowed (evaluate_world_policy_backend (sb_record s) index) = true
    | None => True
    end.
Proof.
  unfold select_sticky. destruct (gw_directory g) as [d|]; [|done]. destruct (negb (identified client)); [done|].
  destruct (run_prog r (find_backend d client now)) as [r1 [d1 found]]. destruct found as [id|]; [|done].
  destruct (list_find _ instances) as [[i rec]|] eqn:Hf.
  - apply list_find_Some in Hf as (Hi & [_ Hr] & _). destruct (wd_allowed _) eqn:Ha.
    + split; [by destruct (is_resume_routing_key client)|]. simpl. split_and!; try done. by eapply list_elem_of_lookup_2.
    + destruct (run_prog r1 _) as [r2 d2]. split; [by destruct (draining_filtered _)|done].
  - by destruct (run_prog r1 _) as [r2 d2].
Qed.
(** The whole selection: what [backend_choice_sound] states. *)
Lemma select_best_server_ok g r client now b : gw_registry g = Some b →
  let instances := (redis_list_instances b r now).2 in
  let index := load_world_policy_index g r instances in
  let load := effective_load (local_backend_load g) in
  match (select_best_server hash g r client now).2 with
  | Some s =>
      sb_record s ∈ instances ∧ ir_ready (sb_record s) = true
      ∧ wd_allowed (evaluate_world_policy_backend (sb_record s) index) = true
      ∧ (sb_sticky_hit s = false → ∃ sel, (is_resume_routing_key client = false → sel = None)
           ∧ eligible index sel (sb_record s) = true
           ∧ ∀ rec, rec ∈ instances → eligible index sel rec = true → load (sb_record s) ≤ load rec)
  | None => ∀ rec, rec ∈ instances → eligible index None rec = false
  end.
Proof.
  intros Hb. cbv zeta. unfold select_best_server. rewrite Hb.
  destruct (redis_list_instances b r now) as [b' instances]. cbn [snd].
  change (load_world_policy_index (set_registry b' g) r instances) with (load_world_policy_index g r instances).
  set (index := load_world_policy_index g r instances).
  destruct instances as [|i0 instances']; cbn [is_nil]; [by intros ? []%not_elem_of_nil|].
  set (instances := i0 :: instances') in *. clearbody instances index.
  pose proof (select_sticky_ok (set_registry b' g) r client now instances index) as Hs.
  destruct (select_sticky _ r client now instances index) as [[g1 r1] [s|]]; destruct Hs as [Hsess Hs].
  { cbn [snd]. destruct Hs as (? & ? & Hst & ?). split_and!; [done|done|done|]. by rewrite Hst. }
  pose proof (select_least_loaded_ok g1 r1 client instances index) as Hl. cbv zeta in Hl.
  replace (local_backend_load g1) with (local_backend_load g) in Hl by (unfold local_backend_load; by rewrite Hsess).
  destruct (select_least_loaded hash g1 r1 client instances index) as [g2 [s|]]; cbn [snd] in *; [|done].
  destruct Hl as (Hin & Hst & sel & Hsel & Hel & Hmin). pose proof Hel as Hel'. unfold eligible in Hel.
  apply andb_true_iff in Hel as [[Hc _]%andb_true_iff Ha]. unfold connectable in Hc.
  repeat (apply andb_true_iff in Hc as [Hc _]).
  split_and!; [done|done|done|]. intros _. exists sel. split_and!; [|done|done].
  intros Hn. rewrite Hn in Hsel. by destruct Hsel as [->|[-> _]].
Qed.
End SelectionLemmas.

(** ** Lemmas: world policies *)
Lemma collect_worlds_ok items :
  NoDup (collect_worlds items)
  ∧ ∀ w, w ∈ collect_worlds items ↔ ∃ item, item ∈ items ∧ extract_world_id_from_tags (ir_tags item) = Some w.
Proof.
  unfold collect_worlds. set (step := λ _ _, _).
  assert (Hg : ∀ l ids, NoDup ids → NoDup (foldl step ids l) ∧ ∀ w, w ∈ foldl step ids l ↔
    w ∈ ids ∨ ∃ item, item ∈ l ∧ extract_world_id_from_tags (ir_tags item) = Some w).
  { induction l as [|it l IH]; intros ids Hn; cbn [foldl].
    - split; [done|]. intros w. split; [by left|]. intros [?|(? & []%not_elem_of_nil & _)]. done.
    - assert (Hs : NoDup (step ids it) ∧ ∀ w, w ∈ step ids it ↔ w ∈ ids ∨ extract_world_id_from_tags (ir_tags it) = Some w).
      { unfold step. destruct (extract_world_id_from_tags (ir_tags it)) as [v|]; [|by split; [|intros w; split; [left|intros [?|?]]]].
        case_bool_decide as Hv; [split; [done|intros w; split; [by left|intros [?|[= ->]]; done]]|].
        split.
        - apply NoDup_app. split_and!; [done| |apply NoDup_singleton]. intros x Hx ->%list_elem_of_singleton. done.
        - intros w. rewrite elem_of_app, list_elem_of_singleton. split; (intros [?|?]; [by left|right; congruence]). }
      destruct Hs as [Hn1 Hs]. destruct (IH _ Hn1) as [Hn2 H2]. split; [done|]. intros w. rewrite H2, Hs. split.
      + intros [[?|?]|(x & ? & ?)]; [by left|right; exists it; split; [left|done]|right; exists x; split; [by right|done]].
      + intros [?|(x & [->|?]%elem_of_cons & ?)]; [by left; left|by left; right|right; eauto]. }
  destruct (Hg items [] (NoDup_nil_2)) as [H1 H2]. split; [done|]. intros w. rewrite H2. split; [|by right].
  by intros [[]%not_elem_of_nil|?].
Qed.
(** The policy a stored document stands for. *)
Definition stored_policy (payload : option string) : option WorldLifecyclePolicy :=
  match payload with
  | Some p => if bool_decide (p = EmptyString) then None else parse_world_lifecycle_policy p
  | None => None
  end.
Lemma index_policies_lookup (f : string → option string) ids : ∀ out w, NoDup ids →
  foldl index_policy out ((λ w, (w, f w)) <$> ids) !! w
  = if bool_decide (w ∈ ids) then match stored_policy (f w) with Some p => Some p | None => out !! w end else out !! w.
Proof.
  induction ids as [|v ids IH]; intros out w Hn; [done|]. apply NoDup_cons in Hn as [Hv Hn]. simpl. rewrite IH by done.
  assert (Hs : index_policy out (v, f v) !! w
    = if bool_decide (w = v) then match stored_policy (f v) with Some p => Some p | None => out !! v end else out !! w).
  { unfold index_policy, stored_policy. simpl.
    destruct (f v) as [p|]; [case_bool_decide; [|destruct (parse_world_lifecycle_policy p) as [q|]]|];
      case_bool_decide as Hw; try (by subst); simplify_map_eq; done. }
  rewrite Hs. destruct (decide (w = v)) as [->|Hne].
  - rewrite (bool_decide_eq_false_2 (v ∈ ids)), !bool_decide_eq_true_2 by (done || by left). done.
  - rewrite (bool_decide_eq_false_2 (w = v)) by done.
    destruct (decide (w ∈ ids)); [rewrite !bool_decide_eq_true_2 by (done || by right)|rewrite !bool_decide_eq_false_2 by (set_solver)]; done.
Qed.
Lemma zip_fmap_r {A B} (f : A → B) l : zip l (f <$> l) = (λ a, (a, f a)) <$> l.
Proof. induction l as [|a l IH]; [done|]. cbn. f_equal. exact IH. Qed.
Lemma foldl_emplace_other ids : ∀ (m : gmap string WorldLifecyclePolicy) w, m !! w = Some empty_policy →
  foldl (λ m w, emplace w empty_policy m) m ids !! w = Some empty_policy.
Proof.
  induction ids as [|v ids IH]; intros m w Hm; simpl; [done|]. apply IH. destruct (decide (v = w)) as [->|Hne].
  - by rewrite emplace_lookup_same, Hm.
  - by rewrite emplace_lookup_other.
Qed.
Lemma foldl_emplace_elem ids : ∀ (m : gmap string WorldLifecyclePolicy) w, w ∈ ids → m !! w = None →
  foldl (λ m w, emplace w empty_policy m) m ids !! w = Some empty_policy.
Proof.
  induction ids as [|v ids IH]; intros m w Hw Hm; [by apply not_elem_of_nil in Hw|]. simpl.
  destruct (decide (v = w)) as [->|Hne].
  - apply foldl_emplace_other. by rewrite emplace_lookup_same, Hm.
  - apply elem_of_cons in Hw as [->|Hw]; [done|]. apply IH; [done|by rewrite emplace_lookup_other].
Qed.
Section PolicyIndex.
Context {R : Type} `{!RedisClient R, !RedisLaws R}.
Lemma policy_index_lookup g (r : R) items w :
  gw_redis g = true → continuity_prefix_ (gw_infra g) ≠ EmptyString →
  (∃ item, item ∈ items ∧ extract_world_id_from_tags (ir_tags item) = Some w) →
  load_world_policy_index g r items !! w
  = Some (default empty_policy (stored_policy (contents r !! make_world_policy_key (continuity_prefix_ (gw_infra g)) w))).
Proof.
  intros Hr Hp Hw. destruct (collect_worlds_ok items) as [Hn Hin]. apply Hin in Hw. unfold load_world_policy_index.
  rewrite Hr. unfold is_empty. rewrite bool_decide_eq_false_2 by done. simpl.
  set (prefix := continuity_prefix_ (gw_infra g)). set (ids := collect_worlds items) in *. clearbody ids.
  rewrite mget_contents, !length_fmap, Nat.eqb_refl.
  replace ((λ k, contents r !! k) <$> (make_world_policy_key prefix <$> ids))
    with ((λ w, contents r !! make_world_policy_key prefix w) <$> ids) by by rewrite <- list_fmap_compose.
  rewrite zip_fmap_r.
  destruct (make_world_policy_key prefix <$> ids) as [|k ks] eqn:Hk.
  { apply fmap_nil_inv in Hk. subst. by apply not_elem_of_nil in Hw. }
  rewrite index_policies_lookup, bool_decide_eq_true_2 by done.
  rewrite (foldl_emplace_elem ids ∅ w) by (done || apply lookup_empty).
  by destruct (stored_policy _).
Qed.
End PolicyIndex.

(** ** Lemmas: hints *)
(** A value the hint carries unchanged. *)
Definition hint_value (s : string) : Prop := has_char newline s = false ∧ drop_back_cr s = s.
Definition hint_ok (h : ResumeLocatorHint) : Prop :=
  hint_value (h_backend_instance_id h) ∧ hint_value (h_world_id h) ∧ hint_value (h_role h)
  ∧ hint_value (h_game_mode h) ∧ hint_value (h_region h) ∧ hint_value (h_shard h).
Lemma hint_line_kv key value h : has_char equals_sign key = false → drop_back_cr value = value →
  hint_line h (key +:+ String equals_sign value) = set_hint_field key value h.
Proof. intros Hk Hv. unfold hint_line. by rewrite cut_app, Hv. Qed.
Lemma parse_serialize_hint h : hint_ok h → hint_empty h = false →
  parse_resume_locator_hint (serialize_resume_locator_hint h) = Some h.
Proof.
  intros ([H1 H1'] & [H2 H2'] & [H3 H3'] & [H4 H4'] & [H5 H5'] & [H6 H6']) He.
  unfold parse_resume_locator_hint, serialize_resume_locator_hint. rewrite !lines_kv by done.
  cbn [lines foldl]. rewrite !hint_line_kv by done. destruct h as [b w ro gm re s].
  match goal with |- context [hint_empty ?x] => change x with (Build_ResumeLocatorHint b w ro gm re s) end. by rewrite He.
Qed.
Lemma drop_chars_app p s : drop_chars (String.length p) (p +:+ s) = s.
Proof. induction p as [|c p IH]; [by destruct s|exact IH]. Qed.
Lemma prefix_split p : ∀ s, String.prefix p s = true → s = p +:+ drop_chars (String.length p) s.
Proof.
  induction p as [|c p IH]; intros s H; [by destruct s|]. destruct s as [|c' s]; [done|]. simpl in H.
  destruct (Ascii.ascii_dec c c') as [->|]; [|done]. exact (f_equal (String c') (IH s H)).
Qed.
Lemma extract_world_tag tags w : extract_world_id_from_tags tags = Some w → (world_prefix +:+ w) ∈ tags.
Proof.
  induction tags as [|t tags IH]; [done|]. cbn [extract_world_id_from_tags].
  destruct (String.prefix world_prefix t) eqn:Hp; [|intros H; right; auto].
  destruct (_ <? _)%nat; [|intros H; right; auto]. intros Hw. apply (inj Some) in Hw. rewrite <- Hw, <- prefix_split by done. left.
Qed.
(** A criterion that is absent or has a visible character. *)
Definition visible (s : string) : Prop := s = EmptyString ∨ normalize_token s ≠ EmptyString.
Lemma accepts_own s : visible s → accepts (one_unless_empty s) s.
Proof.
  unfold one_unless_empty, is_empty, accepts. intros [->|Hn]; [by left|]. case_bool_decide; [by left|]. right.
  split; [done|]. exists s. by split; [left|].
Qed.
Lemma matches_selector_spec r s : sel_all s = false → has_at_least_one_selector_field s = true →
  matches_selector r s = true ↔
    accepts (sel_server_ids s) (instance_id r) ∧ accepts (sel_roles s) (ir_role r)
    ∧ accepts (sel_game_modes s) (ir_game_mode r) ∧ accepts (sel_regions s) (ir_region r)
    ∧ accepts (sel_shards s) (ir_shard r)
    ∧ (sel_tags s = [] ∨ ∃ t, t ∈ ir_tags r ∧ sel_tags s ≠ [] ∧ accepts (sel_tags s) t).
Proof.
  intros Ha Hf. unfold matches_selector. rewrite Ha, Hf, <- !matches_field_spec, <- matches_tags_spec. simpl.
  destruct (matches_field (instance_id r) _), (matches_field (ir_role r) _), (matches_field (ir_game_mode r) _),
    (matches_field (ir_region r) _), (matches_field (ir_shard r) _), (matches_tags _ _); simpl; intuition congruence.
Qed.
(** A record whose hint names at least one visible criterion. *)
Definition hintable (rec : InstanceRecord) : Prop :=
  hint_ok (hint_of_record rec) ∧ visible (ir_role rec) ∧ visible (ir_game_mode rec) ∧ visible (ir_region rec)
  ∧ visible (ir_shard rec) ∧ is_Some (selector_of_hint (hint_of_record rec)).
Lemma normalize_nonspace c s : is_space c = false → normalize_token (String c s) ≠ EmptyString.
Proof.
  intros Hc. unfold normalize_token, trim. cbn [ltrim]. rewrite Hc. cbn [rtrim]. by rewrite Hc, andb_false_r.
Qed.
Lemma normalize_world w : normalize_token (world_prefix +:+ w) ≠ EmptyString.
Proof. by apply normalize_nonspace. Qed.
Lemma accepts_one s v : s ≠ EmptyString → accepts (one_unless_empty s) v → normalize_token v = normalize_token s.
Proof.
  unfold one_unless_empty, is_empty. intros Hs. rewrite bool_decide_eq_false_2 by done.
  intros [?|(_ & f & ->%list_elem_of_singleton & H)]; [done|by rewrite H].
Qed.
Lemma selector_of_hint_some h sel : selector_of_hint h = Some sel →
  sel_all sel = false ∧ has_at_least_one_selector_field sel = true ∧ hint_empty h = false
  ∧ sel_server_ids sel = [] ∧ sel_roles sel = one_unless_empty (h_role h)
  ∧ sel_game_modes sel = one_unless_empty (h_game_mode h) ∧ sel_regions sel = one_unless_empty (h_region h)
  ∧ sel_shards sel = one_unless_empty (h_shard h)
  ∧ sel_tags sel = (if is_empty (h_world_id h) then [] else [world_prefix +:+ h_world_id h]).
Proof.
  unfold selector_of_hint, has_at_least_one_selector_field, hint_empty, one_unless_empty. cbv zeta.
  cbn [sel_all sel_server_ids sel_roles sel_game_modes sel_regions sel_shards sel_tags].
  destruct (is_empty (h_role h)) eqn:E1, (is_empty (h_world_id h)) eqn:E2, (is_empty (h_game_mode h)) eqn:E3,
    (is_empty (h_region h)) eqn:E4, (is_empty (h_shard h)) eqn:E5; cbn [is_nil andb]; try done;
    intros [= <-]; cbn; rewrite ?andb_false_r; split_and!; done.
Qed.
Lemma selector_matches_own rec sel : hintable rec → selector_of_hint (hint_of_record rec) = Some sel →
  matches_selector rec sel = true.
Proof.
  intros (_ & Hro & Hgm & Hre & Hsh & _) Hs. apply selector_of_hint_some in Hs as (Ha & Hf & _ & H1 & H2 & H3 & H4 & H5 & H6).
  apply matches_selector_spec; [done|done|]. rewrite H1, H2, H3, H4, H5, H6. simpl.
  split_and!; [by left|by apply accepts_own..|]. unfold is_empty. case_bool_decide as Hw; [by left|right].
  destruct (extract_world_id_from_tags (ir_tags rec)) as [w|] eqn:Hx; [|done]. simpl in *.
  exists (world_prefix +:+ w). split; [by apply extract_world_tag|]. split; [done|]. right.
  split; [apply normalize_world|]. exists (world_prefix +:+ w). by split; [left|].
Qed.

(** ** Properties *)
Section Properties.
Context {R : Type} `{!RedisClient R} `{!MapIteration string} `{!MapIteration (list Z)}.


(** C22: a draining world gets no client except through its declared replacement.
    If Redis holds a parseable policy document that drains world [w], a backend
    the gateway selects in that world is the named replacement owner. *)
Theorem draining_world_respected `{!RedisLaws R} (hash : string → Z) (g : Gateway) (r : R) (client : string) (now : Z)
    (b : RedisInstanceStateBackend) (s : SelectedBackend) (w payload : string) (policy : WorldLifecyclePolicy) :
  gw_registry g = Some b → gw_redis g = true → continuity_prefix_ (gw_infra g) ≠ EmptyString →
  (select_best_server hash g r client now).2 = Some s →
  extract_world_id_from_tags (ir_tags (sb_record s)) = Some w →
  contents r !! make_world_policy_key (continuity_prefix_ (gw_infra g)) w = Some payload → payload ≠ EmptyString →
  parse_world_lifecycle_policy payload = Some policy → lp_draining policy = true →
  lp_replacement_owner_instance_id policy = instance_id (sb_record s)
  ∧ lp_replacement_owner_instance_id policy ≠ EmptyString.
Proof.
  intros Hb Hr Hp Hs Hw Hpay Hne Hparse Hdrain.
  pose proof (select_best_server_ok hash g r client now b Hb) as Hsel. cbv zeta in Hsel. rewrite Hs in Hsel.
  destruct Hsel as (Hin & _ & Ha & _). unfold evaluate_world_policy_backend in Ha. rewrite Hw in Ha.
  rewrite (policy_index_lookup g r _ w Hr Hp) in Ha by eauto. unfold stored_policy in Ha.
  rewrite Hpay, bool_decide_eq_false_2, Hparse in Ha by done. simpl in Ha. rewrite Hdrain in Ha. simpl in Ha.
  apply andb_true_iff in Ha as [H1%negb_true_iff H2]. by apply bool_decide_eq_false in H1; apply bool_decide_eq_true in H2.
Qed.

(** The resume locator brings a client back to its own kind of backend.
    After a gateway stores the hint of a backend for a resume key, any gateway
    loading it gets a selector that the backend itself matches, and that only
    instances of the same role, game mode, region and shard (where the backend
    has them, up to case and outer spaces) and of the same world match. *)
Theorem resume_hint_exact `{!RedisLaws R} (g g' : Gateway) (r : R) (key : string) (rec : InstanceRecord) :
  gw_redis g = true → gw_redis g' = true → is_resume_routing_key key = true →
  resume_locator_ttl_sec_ (gw_infra g) ≠ 0 → resume_locator_prefix_ (gw_infra g) = resume_locator_prefix_ (gw_infra g') →
  hintable rec →
  let r1 := (persist_resume_locator_hint g r key rec).2 in
  ∃ sel, (load_resume_locator_selector g' r1 key).2 = Some sel ∧ matches_selector rec sel = true
    ∧ ∀ other, matches_selector other sel = true →
        (ir_role rec ≠ EmptyString → normalize_token (ir_role other) = normalize_token (ir_role rec))
        ∧ (ir_game_mode rec ≠ EmptyString → normalize_token (ir_game_mode other) = normalize_token (ir_game_mode rec))
        ∧ (ir_region rec ≠ EmptyString → normalize_token (ir_region other) = normalize_token (ir_region rec))
        ∧ (ir_shard rec ≠ EmptyString → normalize_token (ir_shard other) = normalize_token (ir_shard rec))
        ∧ ∀ w, extract_world_id_from_tags (ir_tags rec) = Some w →
            w = EmptyString ∨ ∃ t, t ∈ ir_tags other ∧ normalize_token t = normalize_token (world_prefix +:+ w).
Proof.
  intros Hg Hg' Hk Ht Hp Hh. cbv zeta. pose proof Hh as (Hok & _ & _ & _ & _ & [sel Hsel]).
  pose proof (selector_matches_own rec sel Hh Hsel) as Hown.
  assert (Hne : is_empty key = false) by (unfold is_empty; apply bool_decide_eq_false; by intros ->).
  pose proof (selector_of_hint_some _ _ Hsel) as (Ha & Hf & He & H1 & H2 & H3 & H4 & H5 & H6).
  exists sel. split_and!; [|done|].
  - unfold persist_resume_locator_hint, load_resume_locator_selector, make_resume_locator_key.
    rewrite Hg, Hg', Hk, Hne. cbn [negb orb]. rewrite (proj2 (Z.eqb_neq _ _) Ht).
    match goal with |- context [redis_setex r ?k ?v ?t] => destruct (setex_contents r k v t) as [Hc _];
      destruct (redis_setex r k v t) as [r1 ok] end. cbn [fst snd] in *.
    rewrite get_contents, Hc, <- Hp, lookup_insert_eq.
    assert (Hs : is_empty (serialize_resume_locator_hint (hint_of_record rec)) = false) by done.
    rewrite Hs. cbn [snd]. by rewrite parse_serialize_hint.
  - intros other Hm. apply matches_selector_spec in Hm as (_ & Hro & Hgm & Hre & Hsh & Htg); [|done|done].
    rewrite H2 in Hro. rewrite H3 in Hgm. rewrite H4 in Hre. rewrite H5 in Hsh. rewrite H6 in Htg.
    split_and!; [by intros; apply accepts_one..|]. intros w Hw. unfold hint_of_record in Htg. simpl in Htg. rewrite Hw in Htg.
    unfold is_empty in Htg. simpl in Htg. case_bool_decide as Hwe; [by left|right].
    destruct Htg as [?|(t & Hin & _ & [?|(_ & f & ->%list_elem_of_singleton & Hn)])]; [done|done|]. eauto.
Qed.
End Properties.

Definition demo_gateway_app : Gateway := gateway_new ∅ "boot" true.
Definition demo_policy : WorldLifecyclePolicy := {| lp_draining := true; lp_replacement_owner_instance_id := "b" |}.
Definition demo_redis : gmap string string :=
  <["gateway/instances/a" := serialize_json (demo_record "a")]>
  (<["gateway/instances/b" := serialize_json (demo_record "b")]>
  {["continuity:world-policy:w1" := serialize_world_lifecycle_policy demo_policy]}).
Definition demo_registry : RedisInstanceStateBackend := redis_backend_new true "gateway/instances/" 30.
Lemma draining_world_respected_witness :
  lp_replacement_owner_instance_id demo_policy = "b" ∧ lp_replacement_owner_instance_id demo_policy ≠ EmptyString.
Proof.
  apply (draining_world_respected (λ _, 0) demo_gateway_app demo_redis "alice" 1000 demo_registry
    {| sb_record := demo_record "b"; sb_sticky_hit := false |} "w1" (serialize_world_lifecycle_policy demo_policy) demo_policy);
    try (vm_compute; reflexivity); vm_compute; congruence.
Defined.
Lemma resume_hint_exact_witness :
  ∃ sel, (load_resume_locator_selector demo_gateway_app
            (persist_resume_locator_hint demo_gateway_app (∅ : gmap string string) "resume-hash:ab" (demo_record "a")).2
            "resume-hash:ab").2 = Some sel ∧ matches_selector (demo_record "a") sel = true.
Proof.
  destruct (resume_hint_exact demo_gateway_app demo_gateway_app (∅ : gmap string string) "resume-hash:ab" (demo_record "a"))
    as (sel & H1 & H2 & _); [reflexivity|reflexivity|reflexivity|vm_compute; congruence|reflexivity| |eauto].
  split; [vm_compute; repeat split|]. split; [right; vm_compute; congruence|]. split; [right; vm_compute; congruence|].
  split; [right; vm_compute; congruence|]. split; [right; vm_compute; congruence|]. vm_compute. eauto.
Defined.
