(* ===== verification/GatewayUdp.v ===== *)
(** * Gateway UDP ingress

    [gateway/src/gateway_udp_ingress.cpp]: bind tickets, bind requests, plain
    and RUDP datagrams, direct egress.  HMAC-SHA256 is the parameter [hmac]
    (an empty digest is OpenSSL's failure), [std::random_device] and the clock
    are arguments.  A handler takes [session_mutex_] more than once; [between]
    is what other threads do to the sessions in the gaps.  The completion of an
    asynchronous send only counts errors and is left out. *)
From S2P Require Import Prelude Containers Text Packet Transport RudpPacket RudpEngine Resilience.
From S2P Require Import Redis InstanceRegistry SessionDirectory Opcodes GatewayConfig Gateway.
From stdpp Require Import list gmap strings sorting.
Open Scope Z_scope.
(** The generated tables are never unfolded by conversion. *)
#[local] Opaque game_opcodes core_opcodes.

Definition MSG_UDP_BIND_RES : Z := 0x0013.

(** ** Text helpers *)
Definition hex_digit (n : Z) : Z := if n <? 10 then 48 + n else 87 + n.
Definition to_hex (digest : list Z) : list Z :=
  concat ((λ b, [hex_digit (Z.land (Z.shiftr b 4) 15); hex_digit (Z.land b 15)]) <$> digest).
Definition make_bind_signing_input (session_id : list Z) (nonce expires_unix_ms : Z) : list Z :=
  session_id ++ bytes "|" ++ bytes (print_u64 nonce) ++ bytes "|" ++ bytes (print_u64 expires_unix_ms).
(** [CRYPTO_memcmp] on equal lengths. *)
Definition secure_equals (lhs rhs : list Z) : bool :=
  if negb (length lhs =? length rhs)%nat then false
  else if (length lhs =? 0)%nat then true else bool_decide (lhs = rhs).
Definition endpoint_key (e : UdpEndpoint) : string :=
  let octet shift := print_u64 (Z.land (Z.shiftr (ep_address e) shift) 255) in
  octet 24 +:+ "." +:+ octet 16 +:+ "." +:+ octet 8 +:+ "." +:+ octet 0 +:+ ":" +:+ print_u64 (ep_port e).

(** ** Updates of one session *)
Definition set_backoff (attempts retry_after : Z) (s : SessionState) : SessionState :=
  {| s_client_id := s_client_id s; s_backend_instance_id := s_backend_instance_id s; s_udp_bound := s_udp_bound s;
     s_udp_endpoint := s_udp_endpoint s; s_udp_nonce := s_udp_nonce s; s_udp_expires_unix_ms := s_udp_expires_unix_ms s;
     s_udp_ticket_issued_unix_ms := s_udp_ticket_issued_unix_ms s; s_udp_bind_fail_attempts := attempts;
     s_udp_bind_retry_after_unix_ms := retry_after; s_udp_token := s_udp_token s;
     s_udp_sequenced_metrics := s_udp_sequenced_metrics s; s_rudp_selected := s_rudp_selected s;
     s_rudp_fallback_to_tcp := s_rudp_fallback_to_tcp s; s_rudp_engine := s_rudp_engine s |}.
Definition set_transport (metrics : UdpSequencedMetrics) (fallback : bool) (engine : option RudpEngine)
    (s : SessionState) : SessionState :=
  {| s_client_id := s_client_id s; s_backend_instance_id := s_backend_instance_id s; s_udp_bound := s_udp_bound s;
     s_udp_endpoint := s_udp_endpoint s; s_udp_nonce := s_udp_nonce s; s_udp_expires_unix_ms := s_udp_expires_unix_ms s;
     s_udp_ticket_issued_unix_ms := s_udp_ticket_issued_unix_ms s; s_udp_bind_fail_attempts := s_udp_bind_fail_attempts s;
     s_udp_bind_retry_after_unix_ms := s_udp_bind_retry_after_unix_ms s; s_udp_token := s_udp_token s;
     s_udp_sequenced_metrics := metrics; s_rudp_selected := s_rudp_selected s;
     s_rudp_fallback_to_tcp := fallback; s_rudp_engine := engine |}.
Definition set_fallback_flag (s : SessionState) : SessionState :=
  set_transport (s_udp_sequenced_metrics s) true (s_rudp_engine s) s.
(** The fields a new ticket sets. *)
Definition with_ticket (nonce expires issued : Z) (token : list Z) (selected : bool) (engine : option RudpEngine)
    (s : SessionState) : SessionState :=
  {| s_client_id := s_client_id s; s_backend_instance_id := s_backend_instance_id s; s_udp_bound := false;
     s_udp_endpoint := no_endpoint; s_udp_nonce := nonce; s_udp_expires_unix_ms := expires;
     s_udp_ticket_issued_unix_ms := issued; s_udp_bind_fail_attempts := 0; s_udp_bind_retry_after_unix_ms := 0;
     s_udp_token := token; s_udp_sequenced_metrics := udp_metrics_reset (s_udp_sequenced_metrics s);
     s_rudp_selected := selected; s_rudp_fallback_to_tcp := false; s_rudp_engine := engine |}.
(** The fields a successful bind sets. *)
Definition bind_to (endpoint : UdpEndpoint) (config : RudpConfig) (s : SessionState) : SessionState :=
  {| s_client_id := s_client_id s; s_backend_instance_id := s_backend_instance_id s; s_udp_bound := true;
     s_udp_endpoint := endpoint; s_udp_nonce := s_udp_nonce s; s_udp_expires_unix_ms := s_udp_expires_unix_ms s;
     s_udp_ticket_issued_unix_ms := s_udp_ticket_issued_unix_ms s; s_udp_bind_fail_attempts := 0;
     s_udp_bind_retry_after_unix_ms := 0; s_udp_token := s_udp_token s;
     s_udp_sequenced_metrics := udp_metrics_reset (s_udp_sequenced_metrics s); s_rudp_selected := s_rudp_selected s;
     s_rudp_fallback_to_tcp := false;
     s_rudp_engine := match s_rudp_engine s with
                      | None => if s_rudp_selected s then Some (engine_new config) else None
                      | e => e
                      end |}.

(** ** What a handler does outside the gateway's own state *)
Inductive UdpEffect :=
  | SendUdp (frame : list Z) (endpoint : UdpEndpoint)
  | ForwardToBackend (session_id frame : list Z)
  | RecordRudp (m : RudpMetric).
#[export] Instance rudp_fallback_reason_eq : EqDecision RudpFallbackReason.
Proof. solve_decision. Defined.
#[export] Instance rudp_metric_eq : EqDecision RudpMetric.
Proof. solve_decision. Defined.
#[export] Instance udp_effect_eq : EqDecision UdpEffect.
Proof. solve_decision. Defined.

Section Udp.
Context (hmac : list Z → list Z → list Z) `{!MapIteration (list Z)}.
Implicit Types (g : Gateway).

Definition hmac_sha256_hex (secret message : list Z) : list Z := to_hex (hmac secret message).
Definition make_udp_bind_token g (session_id : list Z) (nonce expires_unix_ms : Z) : list Z :=
  match gw_secret g with
  | [] => []
  | secret => hmac_sha256_hex secret (make_bind_signing_input session_id nonce expires_unix_ms)
  end.
Definition udp_bind_retry_delay_ms g (attempt : Z) : Z :=
  u32 (retry_delay (udp_bind_retry_backoff_ms_ (gw_cfg g)) (udp_bind_retry_backoff_max_ms_ (gw_cfg g)) attempt).
Definition make_udp_bind_res_frame (code : Z) (ticket : DirectBindTicket) (message : list Z) (seq now : Z) : list Z :=
  let payload := encode_direct_bind_response_payload code ticket message in
  let header := {| length_ := u16 (Z.of_nat (length payload)); msg_id := MSG_UDP_BIND_RES; hdr_flags := 0; seq_ := seq;
                   utc_ts_ms32 := u32 (Z.land now 0xFFFFFFFF) |} in
  encode_header header (replicate k_header_bytes 0) ++ payload.
Definition empty_ticket : DirectBindTicket :=
  {| t_session_id := []; t_nonce := 0; t_expires_unix_ms := 0; t_token := [] |}.
(** [if (!udp_socket_) return;] *)
Definition send_udp_datagram g (frame : list Z) (endpoint : UdpEndpoint) : list UdpEffect :=
  if gw_socket g then [SendUdp frame endpoint] else [].

(** ** Tickets *)
Definition make_udp_bind_ticket_frame g (session_id : list Z) (rd0 rd1 now : Z) : Gateway * option (list Z) :=
  if (udp_listen_port_ (gw_cfg g) =? 0) || bool_decide (gw_secret g = []) then (g, None)
  else
    match gw_sessions g !! session_id with
    | None => (g, None)
    | Some state =>
        let nonce := Z.lxor (rd0 <<₆₄ 32) rd1 in
        let expires := now +₆₄ udp_bind_ttl_ms_ (gw_cfg g) in
        let token := make_udp_bind_token g session_id nonce expires in
        if bool_decide (token = []) then (g, None)
        else
          let attach := evaluate_direct_attach (rudp_rollout_policy_ (gw_cfg g)) session_id nonce in
          let selected := match attach_mode attach with kRudpCanary => true | kUdpOnly => false end in
          let engine := if selected then Some (engine_new (rudp_config_ (gw_cfg g))) else None in
          let g := set_sessions (<[session_id := with_ticket nonce expires now token selected engine state]> (gw_sessions g)) g in
          let ticket := {| t_session_id := session_id; t_nonce := nonce; t_expires_unix_ms := expires; t_token := token |} in
          (count udp_bind_ticket_issued_total g, Some (make_udp_bind_res_frame 0 ticket (bytes "issued") 0 now))
    end.

(** ** Bind requests *)
Record BindOutcome := { bo_code : Z; bo_message : string }.
Definition apply_retry_backoff g (session_id : list Z) (state : SessionState) (now : Z) : Gateway :=
  let next_attempt := Z.min (s_udp_bind_fail_attempts state +₃₂ 1) (udp_bind_retry_max_attempts_ (gw_cfg g)) in
  let delay_ms := udp_bind_retry_delay_ms g next_attempt in
  count udp_bind_retry_backoff_total
    (set_sessions (<[session_id := set_backoff next_attempt (now +₆₄ delay_ms) state]> (gw_sessions g)) g).
Definition apply_udp_bind_request g (req : DirectBindTicket) (endpoint : UdpEndpoint) (now : Z)
    : Gateway * BindOutcome :=
  let reject code message := {| bo_code := code; bo_message := message |} in
  let sid := t_session_id req in
  if bool_decide (sid = []) || bool_decide (t_token req = []) then (g, reject INVALID_PAYLOAD "invalid bind payload")
  else
    match gw_sessions g !! sid with
    | None => (g, reject UNAUTHORIZED "unknown session")
    | Some state =>
        let backoff code message := (apply_retry_backoff g sid state now, reject code message) in
        if now <? s_udp_bind_retry_after_unix_ms state
        then (count udp_bind_retry_reject_total g, reject SERVER_BUSY "bind retry backoff")
        else if (s_udp_expires_unix_ms state =? 0) || (s_udp_nonce state =? 0) || bool_decide (s_udp_token state = [])
        then backoff UNAUTHORIZED "bind ticket not issued"
        else if t_expires_unix_ms req <? now then backoff UNAUTHORIZED "ticket expired"
        else if s_udp_expires_unix_ms state <? now then backoff UNAUTHORIZED "ticket expired"
        else if negb (t_expires_unix_ms req =? s_udp_expires_unix_ms state) || negb (t_nonce req =? s_udp_nonce state)
        then backoff UNAUTHORIZED "ticket mismatch"
        else
          let expected := make_udp_bind_token g sid (t_nonce req) (t_expires_unix_ms req) in
          if negb (secure_equals (t_token req) (s_udp_token state)) || negb (secure_equals (t_token req) expected)
          then backoff UNAUTHORIZED "invalid token"
          else if s_udp_bound state && negb (bool_decide (s_udp_endpoint state = endpoint))
          then backoff FORBIDDEN "session already bound"
          else
            let g := set_sessions (<[sid := bind_to endpoint (rudp_config_ (gw_cfg g)) state]> (gw_sessions g)) g in
            let issued := s_udp_ticket_issued_unix_ms state in
            let g := if negb (issued =? 0) && (issued <=? now)
                     then upd_counters (store_counter udp_rtt_ms_last (now - issued)) g else g in
            (g, {| bo_code := 0; bo_message := "bound" |})
    end.

(** ** Direct egress *)
Definition engine_established (e : option RudpEngine) : bool :=
  match e with Some e => bool_decide (lifecycle (state_ e) = lsEstablished) | None => false end.
Definition try_send_direct_client_frame g (session_id : list Z) (msg_id : Z) (frame : list Z) (now : Z)
    : Gateway * list UdpEffect * bool :=
  if negb (is_direct_egress_msg msg_id) || bool_decide (frame = []) then (g, [], false)
  else
    match gw_sessions g !! session_id with
    | None => (count direct_state_delta_tcp_fallback_total g, [], false)
    | Some state =>
        let decision := evaluate_direct_egress
          {| e_msg_id := msg_id; e_udp_bound := s_udp_bound state; e_rudp_selected := s_rudp_selected state;
             e_rudp_fallback_to_tcp := s_rudp_fallback_to_tcp state;
             e_rudp_established := engine_established (s_rudp_engine state) |} in
        let endpoint := s_udp_endpoint state in
        match d_route decision, s_rudp_engine state with
        | kRudp, Some engine =>
            let chan := op_channel (opcode_policy game_opcodes msg_id) in
            let '(engine, datagram) := queue_unreliable_payload engine frame chan now in
            let store fallback := set_sessions
              (<[session_id := set_transport (s_udp_sequenced_metrics state) fallback (Some engine) state]> (gw_sessions g)) g in
            match datagram with
            | None => (count direct_state_delta_tcp_fallback_total (count rudp_fallback_total (store true)), [], false)
            | Some d =>
                (count rudp_direct_state_delta_total (store (s_rudp_fallback_to_tcp state)),
                 send_udp_datagram g d endpoint, true)
            end
        | kUdp, _ => (count udp_direct_state_delta_total g, send_udp_datagram g frame endpoint, true)
        | _, _ => (count direct_state_delta_tcp_fallback_total g, [], false)
        end
    end.

(** ** Datagrams *)
(** The first session bound to the endpoint. *)
Definition bound_to (endpoint : UdpEndpoint) (s : SessionState) : bool :=
  s_udp_bound s && bool_decide (s_udp_endpoint s = endpoint).
Definition find_bound g (endpoint : UdpEndpoint) : option (list Z) :=
  match list_find (λ kv, bound_to endpoint kv.2 = true) (iterate (gw_sessions g)) with
  | Some (_, kv) => Some kv.1
  | None => None
  end.
(** The opcode's policy, [None] for an id of neither table. *)
Definition udp_opcode_policy (msg_id : Z) : option OpcodePolicy :=
  if negb (is_empty (opcode_name game_opcodes msg_id)) then Some (opcode_policy game_opcodes msg_id)
  else if negb (is_empty (opcode_name core_opcodes msg_id)) then Some (opcode_policy core_opcodes msg_id)
  else None.
Definition delivery_counter (d : DeliveryClass) : Counter :=
  match d with
  | dcReliableOrdered => udp_forward_reliable_ordered_total
  | dcReliable => udp_forward_reliable_total
  | dcUnreliableSequenced => udp_forward_unreliable_sequenced_total
  end.
(** A whole frame with the length its header says, of a known opcode. *)
Definition frame_complete (frame : list Z) : bool :=
  (k_header_bytes <=? length frame)%nat
  && (length_ (decode_header frame) =? Z.of_nat (length frame - k_header_bytes)).
Definition inner_policy g (frame : list Z) : option OpcodePolicy :=
  if negb (frame_complete frame) then None
  else
    let id := msg_id (decode_header frame) in
    match udp_opcode_policy id with
    | None => None
    | Some policy =>
        if opcode_allowed (rudp_rollout_policy_ (gw_cfg g)) id && transport_allows (op_transport policy) tkUdp
        then Some policy else None
    end.
(** The loop over the inner frames; [true] is [invalid_inner]. *)
Fixpoint forward_inner g (session_id : list Z) (frames : list (list Z)) : Gateway * list UdpEffect * bool :=
  match frames with
  | [] => (g, [], false)
  | frame :: frames =>
      match inner_policy g frame with
      | None => (g, [], true)
      | Some policy =>
          let g := count (delivery_counter (op_delivery policy)) (count rudp_inner_forward_total (count udp_forward_total g)) in
          let '(g, effects, invalid) := forward_inner g session_id frames in
          (g, ForwardToBackend session_id frame :: effects, invalid)
      end
  end.
(** The second critical section of the RUDP branch: engine input and timers. *)
Record RudpStep := {
  rs_egress : list (list Z);
  rs_inner : list (list Z);
  rs_retransmit : Z;
  rs_fallback : bool;
  rs_metrics : list RudpMetric;
}.
Definition rudp_step g (session_id : list Z) (endpoint : UdpEndpoint) (datagram : list Z) (now : Z) : Gateway * RudpStep :=
  let rejected ms := {| rs_egress := []; rs_inner := []; rs_retransmit := 0; rs_fallback := true; rs_metrics := ms |} in
  match gw_sessions g !! session_id with
  | None => (g, rejected [])
  | Some state =>
      if negb (bound_to endpoint state) then (g, rejected [])
      else
        let usable := p_enabled (rudp_rollout_policy_ (gw_cfg g)) && s_rudp_selected state
                      && negb (s_rudp_fallback_to_tcp state) in
        match usable, s_rudp_engine state with
        | true, Some engine =>
            let '(engine, process_result, ms1) := process_datagram engine datagram now in
            let '(engine, poll_result, ms2) := poll engine now in
            let fallback := fallback_required process_result || fallback_required poll_result in
            (set_sessions (<[session_id := set_transport (s_udp_sequenced_metrics state)
                (s_rudp_fallback_to_tcp state || fallback) (Some engine) state]> (gw_sessions g)) g,
             {| rs_egress := egress_datagrams process_result ++ egress_datagrams poll_result;
                rs_inner := inner_frames process_result; rs_retransmit := result_retransmit_count poll_result;
                rs_fallback := fallback; rs_metrics := ms1 ++ ms2 |})
        | _, _ =>
            (set_sessions (<[session_id := set_fallback_flag state]> (gw_sessions g)) g,
             rejected [RecordFallback frDisabled])
        end
  end.
Definition receive_rudp g (between : nat → gmap (list Z) SessionState → gmap (list Z) SessionState)
    (datagram : list Z) (endpoint : UdpEndpoint) (now : Z) : Gateway * list UdpEffect :=
  let g := count rudp_packets_total g in
  match find_bound g endpoint with
  | None => (count rudp_packets_reject_total (count udp_bind_reject_total g), [])
  | Some sid =>
      let g := set_sessions (between 0%nat (gw_sessions g)) g in
      let '(g, step) := rudp_step g sid endpoint datagram now in
      let sends := concat ((λ d, send_udp_datagram g d endpoint) <$> rs_egress step) in
      let g := if 0 <? rs_retransmit step then count_by udp_retransmit_total (rs_retransmit step) g else g in
      let '(g, forwards, invalid) := if rs_fallback step then (g, [], false) else forward_inner g sid (rs_inner step) in
      let g := set_sessions (between 1%nat (gw_sessions g)) g in
      let g := if invalid then
                 match gw_sessions g !! sid with
                 | Some state => set_sessions (<[sid := set_fallback_flag state]> (gw_sessions g)) g
                 | None => g
                 end
               else g in
      let g := if rs_fallback step || invalid then count rudp_fallback_total (count rudp_packets_reject_total g) else g in
      (g, (RecordRudp <$> rs_metrics step) ++ sends ++ forwards
          ++ (if invalid then [RecordRudp (RecordFallback frProtocolError)] else []))
  end.
(** [record_bind_failure] *)
Definition record_bind_failure g (remote_key : string) (now : Z) : Gateway :=
  let '(u, newly_blocked) := guard_record_failure (gw_guard g) remote_key now in
  count_if newly_blocked udp_bind_block_total (set_guard_of u g).
Definition refuse g (code : Z) (message : string) (seq now : Z) (endpoint : UdpEndpoint) : list UdpEffect :=
  send_udp_datagram g (make_udp_bind_res_frame code empty_ticket (bytes message) seq now) endpoint.
Definition receive_bind g (payload : list Z) (seq : Z) (endpoint : UdpEndpoint) (now : Z) : Gateway * list UdpEffect :=
  let remote_key := endpoint_key endpoint in
  let '(u, state) := guard_block_state (gw_guard g) remote_key now in
  let g := set_guard_of u g in
  if blocked state then
    (count udp_bind_reject_total (count udp_bind_rate_limit_reject_total g),
     refuse g SERVER_BUSY "bind temporarily blocked" seq now endpoint)
  else
    match decode_direct_bind_request_payload payload with
    | None =>
        (record_bind_failure (count udp_bind_reject_total g) remote_key now,
         refuse g INVALID_PAYLOAD "invalid bind payload" seq now endpoint)
    | Some req =>
        let '(g, outcome) := apply_udp_bind_request g req endpoint now in
        let g := if bo_code outcome =? 0
                 then let g := count udp_bind_success_total g in
                      set_guard_of (guard_record_success (gw_guard g) remote_key) g
                 else record_bind_failure (count udp_bind_reject_total g) remote_key now in
        (g, send_udp_datagram g (make_udp_bind_res_frame (bo_code outcome) req (bytes (bo_message outcome)) seq now) endpoint)
    end.
(** The sequence check of an unreliable sequenced opcode; a session that is no
    longer bound gives the default [UpdateResult]. *)
Definition track_sequence g (session_id : list Z) (endpoint : UdpEndpoint) (seq now : Z) : Gateway * UpdateResult :=
  let none := {| accepted := false; duplicate := false; reordered := false; estimated_lost_packets := 0; jitter_ms := 0 |} in
  match gw_sessions g !! session_id with
  | Some state =>
      if bound_to endpoint state then
        let '(m, update) := on_packet (s_udp_sequenced_metrics state) seq now in
        (set_sessions (<[session_id := set_transport m (s_rudp_fallback_to_tcp state) (s_rudp_engine state) state]>
           (gw_sessions g)) g, update)
      else (g, none)
  | None => (g, none)
  end.
Definition forward_udp g (session_id datagram : list Z) (policy : OpcodePolicy) : Gateway * list UdpEffect :=
  (count (delivery_counter (op_delivery policy)) (count udp_forward_total g), [ForwardToBackend session_id datagram]).
Definition receive_sequenced g (session_id datagram : list Z) (policy : OpcodePolicy) (header : PacketHeader)
    (endpoint : UdpEndpoint) (now : Z) : Gateway * list UdpEffect :=
  let '(g, update) := track_sequence g session_id endpoint (seq_ header) now in
  if negb (accepted update) then
    let g := count udp_bind_reject_total (count udp_replay_drop_total g) in
    let g := if duplicate update then count udp_retransmit_total (count udp_duplicate_drop_total g)
             else count_if (reordered update) udp_reorder_drop_total g in
    (g, refuse g FORBIDDEN "stale sequenced udp packet" (seq_ header) now endpoint)
  else
    let lost := estimated_lost_packets update in
    let g := if 0 <? lost then count_by udp_loss_estimated_total lost g else g in
    let g := if 0 <? jitter_ms update then upd_counters (store_counter udp_jitter_ms_last (jitter_ms update)) g else g in
    forward_udp g session_id datagram policy.
Definition receive_plain g (between : nat → gmap (list Z) SessionState → gmap (list Z) SessionState)
    (datagram : list Z) (header : PacketHeader) (endpoint : UdpEndpoint) (now : Z) : Gateway * list UdpEffect :=
  let id := msg_id header in
  let reject g code message :=
    let g := count udp_bind_reject_total g in (g, refuse g code message (seq_ header) now endpoint) in
  match find_bound g endpoint with
  | None => reject g UNAUTHORIZED "udp session not bound"
  | Some sid =>
      match udp_opcode_policy id with
      | None => reject g UNKNOWN_MSG_ID "unknown udp msg_id"
      | Some policy =>
          if negb (bool_decide (id ∈ udp_opcode_allowlist_ (gw_cfg g)))
          then reject (count udp_opcode_allowlist_reject_total g) FORBIDDEN "opcode not in udp allowlist"
          else if negb (transport_allows (op_transport policy) tkUdp)
          then reject g FORBIDDEN "opcode not allowed on udp"
          else if bool_decide (op_delivery policy = dcUnreliableSequenced)
          then receive_sequenced (set_sessions (between 0%nat (gw_sessions g)) g) sid datagram policy header endpoint now
          else forward_udp g sid datagram policy
      end
  end.
(** The receive callback on a datagram. *)
Definition receive_datagram g (between : nat → gmap (list Z) SessionState → gmap (list Z) SessionState)
    (datagram : list Z) (endpoint : UdpEndpoint) (now : Z) : Gateway * list UdpEffect :=
  let g := if (0 <? length datagram)%nat then count udp_packets_total g else g in
  if looks_like_rudp datagram then receive_rudp g between datagram endpoint now
  else if negb (frame_complete datagram) then (count udp_receive_error_total g, [])
  else
    let header := decode_header datagram in
    if msg_id header =? MSG_UDP_BIND_REQ
    then receive_bind g (drop k_header_bytes datagram) (seq_ header) endpoint now
    else receive_plain g between datagram header endpoint now.
(** The receive callback on an error. *)
Definition receive_error g (operation_aborted : bool) : Gateway :=
  count_if (negb operation_aborted) udp_receive_error_total g.

(** ** The socket *)
Definition set_socket (b : bool) g : Gateway :=
  {| gw_cfg := gw_cfg g; gw_secret := gw_secret g; gw_infra := gw_infra g; gw_boot_id := gw_boot_id g;
     gw_redis := gw_redis g; gw_socket := b; gw_sessions := gw_sessions g; gw_counters := gw_counters g;
     gw_breaker := gw_breaker g; gw_budget := gw_budget g; gw_guard := gw_guard g; gw_registry := gw_registry g;
     gw_directory := gw_directory g; gw_session_seq := gw_session_seq g; gw_rr_counter := gw_rr_counter g |}.
(** [ok]: the address parses and the socket opens and binds. *)
Definition start_udp_listener g (ok : bool) : Gateway :=
  if (udp_listen_port_ (gw_cfg g) =? 0) || bool_decide (gw_secret g = []) || negb ok then g else set_socket true g.
Definition stop_udp_listener g : Gateway := set_socket false g.
End Udp.

(** ** Lemmas: what the handlers do to bindings *)
Definition binding (s : SessionState) : bool * UdpEndpoint * (Z * Z * list Z) :=
  (s_udp_bound s, s_udp_endpoint s, (s_udp_nonce s, s_udp_expires_unix_ms s, s_udp_token s)).
Definition bindings (g : Gateway) : gmap (list Z) (bool * UdpEndpoint * (Z * Z * list Z)) := binding <$> gw_sessions g.
Lemma insert_binding (m : gmap (list Z) SessionState) k s s' : m !! k = Some s → binding s' = binding s →
  binding <$> <[k := s']> m = binding <$> m.
Proof.
  intros Hk Hb. apply map_eq. intros i. rewrite !lookup_fmap. destruct (decide (i = k)) as [->|Hne].
  - rewrite lookup_insert_eq, Hk. simpl. by rewrite Hb.
  - by rewrite lookup_insert_ne.
Qed.
Lemma secure_equals_eq a b : secure_equals a b = true ↔ a = b.
Proof.
  unfold secure_equals. destruct (Nat.eqb_spec (length a) (length b)) as [Hl|Hl]; simpl.
  - destruct (Nat.eqb_spec (length a) 0) as [H0|H0]; [|by rewrite bool_decide_eq_true].
    split; [|done]. intros _. rewrite (nil_length_inv a H0). symmetry. apply nil_length_inv. lia.
  - split; [done|]. by intros ->.
Qed.

Section BindLemmas.
Context (hmac : list Z → list Z → list Z) `{!MapIteration (list Z)}.
Implicit Types (g : Gateway).

(** The conditions of a successful bind. *)
Record bind_accepted g (req : DirectBindTicket) (endpoint : UdpEndpoint) (now : Z) (s : SessionState) : Prop := {
  ba_session : gw_sessions g !! t_session_id req = Some s;
  ba_named : t_session_id req ≠ [] ∧ t_token req ≠ [];
  ba_backoff : s_udp_bind_retry_after_unix_ms s ≤ now;
  ba_issued : s_udp_expires_unix_ms s ≠ 0 ∧ s_udp_nonce s ≠ 0;
  ba_fresh : now ≤ s_udp_expires_unix_ms s;
  ba_ticket : t_expires_unix_ms req = s_udp_expires_unix_ms s ∧ t_nonce req = s_udp_nonce s;
  ba_token : t_token req = s_udp_token s
    ∧ t_token req = make_udp_bind_token hmac g (t_session_id req) (t_nonce req) (t_expires_unix_ms req);
  ba_endpoint : s_udp_bound s = true → s_udp_endpoint s = endpoint;
}.
Lemma apply_bind_cases g req endpoint now :
  let '(g', o) := apply_udp_bind_request hmac g req endpoint now in
  gw_cfg g' = gw_cfg g ∧ gw_secret g' = gw_secret g ∧
  ((bo_code o ≠ 0 ∧ (gw_sessions g' = gw_sessions g
      ∨ ∃ s a t, gw_sessions g !! t_session_id req = Some s
          ∧ gw_sessions g' = <[t_session_id req := set_backoff a t s]> (gw_sessions g))
      ∧ ∀ s, ¬ bind_accepted g req endpoint now s)
   ∨ (bo_code o = 0 ∧ ∃ s, bind_accepted g req endpoint now s
        ∧ gw_sessions g' = <[t_session_id req := bind_to endpoint (rudp_config_ (gw_cfg g)) s]> (gw_sessions g))).
Proof.
  unfold apply_udp_bind_request.
  destruct (bool_decide (t_session_id req = []) || bool_decide (t_token req = [])) eqn:E0.
  { split_and!; [done|done|left]. split_and!; [done|by left|]. intros s []. rewrite orb_true_iff, !bool_decide_eq_true in E0. tauto. }
  apply orb_false_iff in E0 as [E0%bool_decide_eq_false E0'%bool_decide_eq_false].
  destruct (gw_sessions g !! t_session_id req) as [s|] eqn:Hs.
  2:{ split_and!; [done|done|left]. split_and!; [done|by left|]. intros s []. congruence. }
  assert (Hback : ∀ code message, code ≠ 0 → (¬ bind_accepted g req endpoint now s) →
    let '(g', o) := (apply_retry_backoff g (t_session_id req) s now, {| bo_code := code; bo_message := message |}) in
    gw_cfg g' = gw_cfg g ∧ gw_secret g' = gw_secret g ∧
    ((bo_code o ≠ 0 ∧ (gw_sessions g' = gw_sessions g
        ∨ ∃ s0 a t, Some s = Some s0 ∧ gw_sessions g' = <[t_session_id req := set_backoff a t s0]> (gw_sessions g))
        ∧ ∀ s0, ¬ bind_accepted g req endpoint now s0)
     ∨ (bo_code o = 0 ∧ ∃ s0, bind_accepted g req endpoint now s0
          ∧ gw_sessions g' = <[t_session_id req := bind_to endpoint (rudp_config_ (gw_cfg g)) s0]> (gw_sessions g)))).
  { intros code message Hcode Hno. split_and!; [done|done|left]. split_and!; [done|right; by eexists _, _, _|].
    intros s0 H0. assert (s0 = s) as -> by (pose proof (ba_session _ _ _ _ _ H0); congruence). done. }
  destruct (Z.ltb_spec now (s_udp_bind_retry_after_unix_ms s)) as [H1|H1].
  { split_and!; [done|done|left]. split_and!; [done|by left|]. intros s0 H0.
    assert (s0 = s) as -> by (pose proof (ba_session _ _ _ _ _ H0); congruence). destruct H0. lia. }
  destruct (_ || _ || _) eqn:E2; [apply Hback; [done|]; intros H0; destruct H0 as [? [? ?] ? ? ? ? [? ?] ?];
    rewrite !orb_true_iff, !Z.eqb_eq, bool_decide_eq_true in E2; intuition congruence|].
  destruct (Z.ltb_spec (t_expires_unix_ms req) now) as [H3|H3]; [apply Hback; [done|]; intros []; lia|].
  destruct (Z.ltb_spec (s_udp_expires_unix_ms s) now) as [H4|H4]; [apply Hback; [done|]; intros []; lia|].
  destruct (negb _ || negb _) eqn:E5; [apply Hback; [done|]; intros [];
    rewrite orb_true_iff, !negb_true_iff, !Z.eqb_neq in E5; intuition congruence|].
  destruct (negb (secure_equals (t_token req) (s_udp_token s)) || _) eqn:E6; [apply Hback; [done|]; intros [? ? ? ? ? ? [Ha Hb] ?];
    rewrite orb_true_iff, !negb_true_iff in E6; apply secure_equals_eq in Ha, Hb; intuition congruence|].
  destruct (s_udp_bound s && _) eqn:E7; [apply Hback; [done|]; intros [];
    rewrite andb_true_iff, negb_true_iff, bool_decide_eq_false in E7; intuition congruence|].
  rewrite !orb_false_iff, !Z.eqb_neq in E2. rewrite orb_false_iff, !negb_false_iff, !Z.eqb_eq in E5.
  rewrite orb_false_iff, !negb_false_iff, !secure_equals_eq in E6.
  rewrite andb_false_iff, negb_false_iff, bool_decide_eq_true in E7.
  destruct (negb _ && _); (split_and!; [done|done|right; split; [done|]; exists s; split; [split; intuition (congruence || lia)|done]]).
Qed.

Definition quiet : nat → gmap (list Z) SessionState → gmap (list Z) SessionState := λ _ m, m.
(** Same settings, secret and bindings. *)
Record same_binds g g' : Prop := {
  sb_cfg : gw_cfg g' = gw_cfg g;
  sb_secret : gw_secret g' = gw_secret g;
  sb_bindings : bindings g' = bindings g;
}.
Lemma same_binds_refl g : same_binds g g.
Proof. done. Qed.
Lemma same_binds_trans g1 g2 g3 : same_binds g1 g2 → same_binds g2 g3 → same_binds g1 g3.
Proof. intros [] []. split; congruence. Qed.
(** Updates outside the sessions. *)
Lemma same_binds_count_by c n g : same_binds g (count_by c n g).
Proof. done. Qed.
Lemma same_binds_count_if b c g : same_binds g (count_if b c g).
Proof. by destruct b. Qed.
Lemma same_binds_insert g k s s' : gw_sessions g !! k = Some s → binding s' = binding s →
  same_binds g (set_sessions (<[k := s']> (gw_sessions g)) g).
Proof. intros Hk Hb. split; [done|done|]. by apply (insert_binding _ _ s). Qed.
Lemma same_binds_failure g key now : same_binds g (record_bind_failure g key now).
Proof. unfold record_bind_failure. destruct (guard_record_failure _ _ _) as [u []]; done. Qed.

Lemma rudp_step_binds g sid ep d now : same_binds g (rudp_step g sid ep d now).1.
Proof.
  unfold rudp_step. destruct (gw_sessions g !! sid) as [s|] eqn:Hs; [|done]. destruct (negb (bound_to ep s)); [done|].
  destruct (_ && _ && _); [destruct (s_rudp_engine s) as [e|]|]; [|by eapply same_binds_insert..].
  destruct (process_datagram e d now) as [[e1 r1] m1]. destruct (poll e1 now) as [[e2 r2] m2]. by eapply same_binds_insert.
Qed.
Lemma forward_inner_frame g sid frames :
  let g' := (forward_inner g sid frames).1.1 in
  gw_sessions g' = gw_sessions g ∧ gw_cfg g' = gw_cfg g ∧ gw_secret g' = gw_secret g.
Proof.
  revert g. induction frames as [|f frames IH]; intros g; [done|]. cbn [forward_inner].
  destruct (inner_policy g f) as [p|]; [|done].
  set (g1 := count _ _). specialize (IH g1). destruct (forward_inner g1 sid frames) as [[g2 effs] inv]. exact IH.
Qed.
Lemma receive_rudp_binds g d ep now : same_binds g (receive_rudp g quiet d ep now).1.
Proof.
  unfold receive_rudp, quiet. destruct (find_bound _ ep) as [sid|]; [|done].
  set (g0 := set_sessions _ (count rudp_packets_total g)). pose proof (rudp_step_binds g0 sid ep d now) as H1.
  destruct (rudp_step g0 sid ep d now) as [g1 step]. cbn [fst] in H1.
  set (g2 := if 0 <? rs_retransmit step then _ else _).
  assert (H2 : same_binds g g2) by (subst g2; destruct (0 <? _); [by destruct H1|by destruct H1]).
  pose proof (forward_inner_frame g2 sid (rs_inner step)) as H3.
  destruct (forward_inner g2 sid (rs_inner step)) as [[g3 fw] inv3]. cbn [fst] in H3. destruct H3 as (H3 & H3' & H3'').
  assert (H4 : same_binds g g3) by (destruct H2; split; [congruence..|]; unfold bindings in *; congruence).
  clearbody g2. destruct (rs_fallback step).
  - destruct H2. by split.
  - destruct inv3; cbn [orb].
    + cbn [gw_sessions set_sessions]. destruct (gw_sessions g3 !! sid) as [s|] eqn:Hs; [|by destruct H4].
      apply (same_binds_trans _ g3); [done|]. cbn [fst].
      pose proof (same_binds_insert g3 sid s (set_fallback_flag s) Hs eq_refl) as []. by split.
    + by destruct H4.
Qed.
Lemma track_sequence_binds g sid ep seq now : same_binds g (track_sequence g sid ep seq now).1.
Proof.
  unfold track_sequence. destruct (gw_sessions g !! sid) as [s|] eqn:Hs; [|done].
  destruct (bound_to ep s); [|done]. destruct (on_packet _ seq now) as [m u]. by eapply same_binds_insert.
Qed.
Lemma receive_sequenced_binds g sid d p h ep now : same_binds g (receive_sequenced g sid d p h ep now).1.
Proof.
  unfold receive_sequenced. pose proof (track_sequence_binds g sid ep (seq_ h) now) as H.
  destruct (track_sequence g sid ep (seq_ h) now) as [g1 u]. cbn [fst] in H.
  destruct (accepted u); cbn [negb].
  - destruct (0 <? estimated_lost_packets u), (0 <? jitter_ms u); by destruct H.
  - destruct (duplicate u), (reordered u); by destruct H.
Qed.
Lemma receive_plain_binds g d h ep now : same_binds g (receive_plain g quiet d h ep now).1.
Proof.
  unfold receive_plain. destruct (find_bound g ep) as [sid|]; [|done]. destruct (udp_opcode_policy _) as [p|]; [|done].
  destruct (negb _); [done|]. destruct (negb _); [done|]. case_bool_decide; [|done].
  apply (same_binds_trans _ (set_sessions (gw_sessions g) g)); [done|]. apply receive_sequenced_binds.
Qed.
Lemma egress_binds g sid id frame now : same_binds g (try_send_direct_client_frame g sid id frame now).1.1.
Proof.
  unfold try_send_direct_client_frame. destruct (_ || _); [done|]. destruct (gw_sessions g !! sid) as [s|] eqn:Hs; [|done].
  destruct (d_route _); [done|done|]. destruct (s_rudp_engine s) as [e|]; [|done].
  destruct (queue_unreliable_payload e frame _ now) as [e1 [dg|]]; cbn [fst];
    match goal with |- same_binds g ?x => assert (H : same_binds g (set_sessions (gw_sessions x) g))
      by (by eapply same_binds_insert) end; by destruct H.
Qed.
End BindLemmas.

(** ** The gateway as a sequence of events *)
Inductive GatewayEvent :=
  | EvConnect (client : string) (now : Z)
  | EvClose (session_id : list Z)
  | EvTicket (session_id : list Z) (rd0 rd1 now : Z)
  | EvDatagram (datagram : list Z) (endpoint : UdpEndpoint) (now : Z)
  | EvEgress (session_id : list Z) (msg_id : Z) (frame : list Z) (now : Z)
  | EvListen (ok : bool)
  | EvStopListen.

Section Events.
Context {R : Type} `{!RedisClient R} `{!MapIteration string} `{!MapIteration (list Z)}.
Context (hash : string → Z) (hmac : list Z → list Z → list Z).
Implicit Types (g : Gateway) (r : R).

Definition gateway_exec (st : Gateway * R) (ev : GatewayEvent) : Gateway * R :=
  let '(g, r) := st in
  match ev with
  | EvConnect client now => let '(g, r, _) := create_backend_connection hash g r client now in (g, r)
  | EvClose sid => ((close_backend_connection g sid).1, r)
  | EvTicket sid rd0 rd1 now => ((make_udp_bind_ticket_frame hmac g sid rd0 rd1 now).1, r)
  | EvDatagram d ep now => ((receive_datagram hmac g quiet d ep now).1, r)
  | EvEgress sid id frame now => ((try_send_direct_client_frame g sid id frame now).1.1, r)
  | EvListen ok => (start_udp_listener g ok, r)
  | EvStopListen => (stop_udp_listener g, r)
  end.
(** The bind requests among the received datagrams. *)
Definition bind_request_in (evs : list GatewayEvent) (ep : UdpEndpoint) (now : Z) (req : DirectBindTicket) : Prop :=
  ∃ d, EvDatagram d ep now ∈ evs ∧ msg_id (decode_header d) = MSG_UDP_BIND_REQ
    ∧ decode_direct_bind_request_payload (drop k_header_bytes d) = Some req.
Definition authenticated g (evs : list GatewayEvent) : Prop := ∀ sid ep n x tok,
  bindings g !! sid = Some (true, ep, (n, x, tok)) →
  ∃ req now, bind_request_in evs ep now req ∧ t_session_id req = sid ∧ t_nonce req = n ∧ t_expires_unix_ms req = x
    ∧ t_token req = tok ∧ tok ≠ [] ∧ tok = make_udp_bind_token hmac g sid n x ∧ now ≤ x.

Lemma bind_request_weaken evs ev ep now req : bind_request_in evs ep now req → bind_request_in (evs ++ [ev]) ep now req.
Proof. intros (d & H & H1). exists d. split; [apply elem_of_app; by left|done]. Qed.
Lemma authenticated_weaken g evs ev : authenticated g evs → authenticated g (evs ++ [ev]).
Proof. intros H sid ep n x tok Hb. destruct (H _ _ _ _ _ Hb) as (req & now & ? & ?). eauto using bind_request_weaken. Qed.
Lemma authenticated_same g g' evs : same_binds g g' → authenticated g evs → authenticated g' evs.
Proof.
  intros [Hc Hs Hb] H sid ep n x tok Hl. rewrite Hb in Hl. destruct (H _ _ _ _ _ Hl) as (req & now & ?).
  exists req, now. unfold make_udp_bind_token in *. by rewrite Hs.
Qed.
(** Sessions may also disappear or become unbound. *)
Lemma authenticated_unbind g g' evs : gw_secret g' = gw_secret g →
  (∀ sid ep t, bindings g' !! sid = Some (true, ep, t) → bindings g !! sid = Some (true, ep, t)) →
  authenticated g evs → authenticated g' evs.
Proof.
  intros Hs Hsub H sid ep n x tok Hl. apply Hsub in Hl. destruct (H _ _ _ _ _ Hl) as (req & now & ?).
  exists req, now. unfold make_udp_bind_token in *. by rewrite Hs.
Qed.

Definition core_of g : gmap (list Z) SessionState * GatewayConfig * list Z := (gw_sessions g, gw_cfg g, gw_secret g).
Lemma select_sticky_core g r client now instances index :
  core_of (select_sticky g r client now instances index).1.1 = core_of g.
Proof.
  unfold select_sticky. destruct (gw_directory g) as [d|]; [|done]. destruct (negb (identified client)); [done|].
  destruct (run_prog r (find_backend d client now)) as [r1 [d1 [id|]]]; [|done].
  destruct (list_find _ instances) as [[i rec]|].
  - destruct (wd_allowed _); [by destruct (is_resume_routing_key client)|].
    destruct (run_prog r1 _) as [r2 d2]. by destruct (draining_filtered _).
  - by destruct (run_prog r1 _) as [r2 d2].
Qed.
Lemma load_selector_core g r client : core_of (load_resume_locator_selector g r client).1 = core_of g.
Proof.
  unfold load_resume_locator_selector. destruct (_ || _ || _); [done|]. destruct (redis_get r _) as [p|]; [|done].
  by destruct (is_empty p).
Qed.
Lemma select_least_loaded_core g r client instances index :
  core_of (select_least_loaded hash g r client instances index).1 = core_of g.
Proof.
  unfold select_least_loaded.
  assert (H : ∃ g1 h, (if is_resume_routing_key client then load_resume_locator_selector g r client else (g, None)) = (g1, h)
    ∧ core_of g1 = core_of g).
  { destruct (is_resume_routing_key client); [|eauto]. pose proof (load_selector_core g r client) as H.
    destruct (load_resume_locator_selector g r client) as [g1 h]. eauto. }
  destruct H as (g1 & h & -> & <-).
  assert (H : core_of (scan_with_fallback g1 instances index h).1 = core_of g1)
    by (unfold scan_with_fallback; destruct h; [by destruct (is_nil _)|done]).
  destruct (scan_with_fallback g1 instances index h) as [g2 scan]. cbn [fst] in H. rewrite <- H.
  destruct (is_nil _); [done|].
  assert (H3 : core_of (candidate_index hash g2 client (length (cs_candidates scan))).1 = core_of g2)
    by (unfold candidate_index; destruct (1 <? _)%nat; [by destruct (identified client)|done]).
  destruct (candidate_index _ _ _ _) as [g3 i]. cbn [fst] in H3. rewrite <- H3.
  destruct (cs_candidates scan !! i); [|done]. by destruct (_ && _).
Qed.
Lemma select_best_server_core g r client now : core_of (select_best_server hash g r client now).1.1 = core_of g.
Proof.
  unfold select_best_server. destruct (gw_registry g) as [b|]; [|done].
  destruct (redis_list_instances b r now) as [b' instances]. destruct (is_nil instances); [done|].
  set (index := load_world_policy_index _ r instances). clearbody index.
  pose proof (select_sticky_core (set_registry b' g) r client now instances index) as H.
  destruct (select_sticky _ r client now instances index) as [[g1 r1] [s|]]; [done|]. cbn [fst] in H.
  pose proof (select_least_loaded_core g1 r1 client instances index) as H2.
  destruct (select_least_loaded hash g1 r1 client instances index) as [g2 s]. cbn [fst] in *. by rewrite H2, H.
Qed.
Lemma create_connection_core g r client now :
  let g' := (create_backend_connection hash g r client now).1.1 in
  gw_cfg g' = gw_cfg g ∧ gw_secret g' = gw_secret g
  ∧ (gw_sessions g' = gw_sessions g ∨ ∃ sid b, gw_sessions g' = <[sid := session_state_new client b]> (gw_sessions g)).
Proof.
  unfold create_backend_connection, backend_circuit_allows_connect. destruct (breaker_allow (gw_breaker g) now) as [b [|]];
    cbn [negb]; [|by split_and!; [..|left]].
  pose proof (select_best_server_core (set_breaker_of b g) r client now) as H.
  destruct (select_best_server hash (set_breaker_of b g) r client now) as [[g1 r1] [s|]]; cbn [fst] in *;
    unfold core_of in H; simplify_eq; (split_and!; [done|done|]); [right|by left].
  eexists _, _. cbn. f_equal. done.
Qed.

Lemma receive_bind_cases g payload seq ep now :
  let g' := (receive_bind hmac g payload seq ep now).1 in
  same_binds g g'
  ∨ ∃ req s, decode_direct_bind_request_payload payload = Some req ∧ bind_accepted hmac g req ep now s
      ∧ gw_secret g' = gw_secret g
      ∧ gw_sessions g' = <[t_session_id req := bind_to ep (rudp_config_ (gw_cfg g)) s]> (gw_sessions g).
Proof.
  unfold receive_bind. destruct (guard_block_state _ _ now) as [u st]. destruct (blocked st); [by left|].
  destruct (decode_direct_bind_request_payload payload) as [req|] eqn:Hreq;
    [|left; apply (same_binds_trans _ (count udp_bind_reject_total (set_guard_of u g))); [done|apply same_binds_failure]].
  pose proof (apply_bind_cases hmac (set_guard_of u g) req ep now) as H.
  destruct (apply_udp_bind_request hmac (set_guard_of u g) req ep now) as [g1 o].
  destruct H as (Hc & Hs & [(Hcode & Hsess & _)|(Hcode & s & Hacc & Hsess)]); cbn [fst].
  - left. rewrite (proj2 (Z.eqb_neq _ _) Hcode).
    assert (H1 : same_binds g g1).
    { split; [done|done|]. unfold bindings. destruct Hsess as [->|(s & a & t & Hl & ->)]; [done|].
      by apply (insert_binding _ _ s). }
    apply (same_binds_trans _ g1 _ H1). apply (same_binds_trans _ (count udp_bind_reject_total g1)); [done|].
    apply same_binds_failure.
  - right. exists req, s. rewrite Hcode. cbn. split_and!; [done| |done|done]. by destruct Hacc; split.
Qed.
Lemma authenticated_bind g g' evs d ep now req s :
  authenticated g evs → msg_id (decode_header d) = MSG_UDP_BIND_REQ →
  decode_direct_bind_request_payload (drop k_header_bytes d) = Some req → bind_accepted hmac g req ep now s →
  gw_secret g' = gw_secret g → gw_sessions g' = <[t_session_id req := bind_to ep (rudp_config_ (gw_cfg g)) s]> (gw_sessions g) →
  authenticated g' (evs ++ [EvDatagram d ep now]).
Proof.
  intros H Hid Hdec [Hs [_ Hne] _ _ Hf [Hx Hn] [Ht1 Ht2] _] Hsec Hsess sid ep' n x tok. unfold bindings. rewrite Hsess, lookup_fmap.
  unfold make_udp_bind_token in *. rewrite Hsec. destruct (decide (sid = t_session_id req)) as [->|Hneq].
  - rewrite lookup_insert_eq. cbn. intros [= <- <- <- <-]. exists req, now. rewrite <- Hx, <- Hn, <- Ht1.
    split_and!; try done; [|lia]. exists d. split; [apply elem_of_app; right; by left|done].
  - rewrite lookup_insert_ne by done. rewrite <- lookup_fmap. intros Hl. destruct (H _ _ _ _ _ Hl) as (rq & t & Hb & ?).
    exists rq, t. split; [by apply bind_request_weaken|done].
Qed.
Lemma receive_datagram_auth g evs d ep now : authenticated g evs →
  authenticated (receive_datagram hmac g quiet d ep now).1 (evs ++ [EvDatagram d ep now]).
Proof.
  intros H. unfold receive_datagram. set (g0 := if (0 <? length d)%nat then _ else _).
  assert (H0 : authenticated g0 evs) by (eapply authenticated_same; [|exact H]; subst g0; by destruct (0 <? length d)%nat).
  clearbody g0. destruct (looks_like_rudp d).
  { eapply authenticated_same; [apply receive_rudp_binds|by apply authenticated_weaken]. }
  destruct (negb (frame_complete d)); [by apply (authenticated_same g0), authenticated_weaken|].
  destruct (Z.eqb_spec (msg_id (decode_header d)) MSG_UDP_BIND_REQ) as [Hid|].
  - destruct (receive_bind_cases g0 (drop k_header_bytes d) (seq_ (decode_header d)) ep now) as [Hb|(req & s & Hdec & Hacc & Hsec & Hsess)].
    + eapply authenticated_same; [exact Hb|by apply authenticated_weaken].
    + by eapply authenticated_bind.
  - eapply authenticated_same; [apply receive_plain_binds|by apply authenticated_weaken].
Qed.
Lemma ticket_auth g evs sid rd0 rd1 now : authenticated g evs →
  authenticated (make_udp_bind_ticket_frame hmac g sid rd0 rd1 now).1 evs.
Proof.
  intros H. unfold make_udp_bind_ticket_frame. destruct (_ || _); [done|]. destruct (gw_sessions g !! sid) as [s|]; [|done].
  case_bool_decide; [done|]. eapply authenticated_unbind; [| |exact H]; [done|]. intros k ep t. unfold bindings. cbn.
  rewrite !lookup_fmap. destruct (decide (k = sid)) as [->|]; [by rewrite lookup_insert_eq|by rewrite lookup_insert_ne].
Qed.
Lemma gateway_exec_auth st evs ev : authenticated st.1 evs → authenticated (gateway_exec st ev).1 (evs ++ [ev]).
Proof.
  destruct st as [g r]. cbn [fst]. intros H. destruct ev as [client now|sid|sid rd0 rd1 now|d ep now|sid id frame now|ok|]; cbn [gateway_exec].
  - pose proof (create_connection_core g r client now) as Hc.
    destruct (create_backend_connection hash g r client now) as [[g1 r1] o]. cbn [fst] in *. destruct Hc as (_ & Hs & Hsess).
    apply authenticated_weaken. eapply authenticated_unbind; [exact Hs| |exact H]. intros k ep t. unfold bindings.
    destruct Hsess as [->|(sid & b & ->)]; [done|]. rewrite !lookup_fmap.
    destruct (decide (k = sid)) as [->|]; [by rewrite lookup_insert_eq|by rewrite lookup_insert_ne].
  - apply authenticated_weaken. unfold close_backend_connection. destruct (gw_sessions g !! sid) eqn:Hs; [|done].
    eapply authenticated_unbind; [| |exact H]; [done|]. intros k ep t. unfold bindings. cbn. rewrite !lookup_fmap.
    destruct (decide (k = sid)) as [->|]; [by rewrite lookup_delete_eq|by rewrite lookup_delete_ne].
  - by apply authenticated_weaken, ticket_auth.
  - by apply receive_datagram_auth.
  - apply authenticated_weaken. eapply authenticated_same; [apply egress_binds|done].
  - apply authenticated_weaken. unfold start_udp_listener. by destruct (_ || _ || _).
  - by apply authenticated_weaken.
Qed.
Lemma authenticated_new env boot_id client : authenticated (gateway_new env boot_id client) [].
Proof.
  intros sid ep n x tok Hl. unfold bindings in Hl. change (gw_sessions (gateway_new env boot_id client)) with
    (∅ : gmap (list Z) SessionState) in Hl. rewrite fmap_empty in Hl. by rewrite (lookup_empty (M := gmap (list Z))) in Hl.
Qed.
Lemma gateway_run_auth st evs0 evs : authenticated st.1 evs0 → authenticated (foldl gateway_exec st evs).1 (evs0 ++ evs).
Proof.
  revert st evs0. induction evs as [|ev evs IH]; intros st evs0 H; [by rewrite app_nil_r|]. cbn [foldl].
  replace (evs0 ++ ev :: evs) with ((evs0 ++ [ev]) ++ evs) by by rewrite <- app_assoc. by apply IH, gateway_exec_auth.
Qed.
End Events.

(** ** Lemmas: what is forwarded *)
Lemma elem_of_concat_1 {A} (x : A) ls : x ∈ concat ls → ∃ l, x ∈ l ∧ l ∈ ls.
Proof.
  induction ls as [|l ls IH]; simpl; [by intros []%not_elem_of_nil|].
  intros [H|(l' & ? & ?)%IH]%elem_of_app; [exists l; split; [done|left]|exists l'; split; [done|by right]].
Qed.
Section Forwarding.
Context (hmac : list Z → list Z → list Z) `{!MapIteration (list Z)}.
Implicit Types (g : Gateway) (between : nat → gmap (list Z) SessionState → gmap (list Z) SessionState).

Lemma find_bound_some g ep sid : find_bound g ep = Some sid →
  ∃ s, gw_sessions g !! sid = Some s ∧ bound_to ep s = true.
Proof.
  unfold find_bound. destruct (list_find _ _) as [[i [k s]]|] eqn:Hf; [|done]. intros [= <-].
  apply list_find_Some in Hf as (Hi & Hb & _). exists s. split; [|done].
  apply list_elem_of_lookup_2 in Hi. by apply elem_of_iterate in Hi.
Qed.
Lemma not_forwarded_send g f ep sid frame : ForwardToBackend sid frame ∉ send_udp_datagram g f ep.
Proof. unfold send_udp_datagram. destruct (gw_socket g); [|apply not_elem_of_nil]. by intros ?%list_elem_of_singleton. Qed.
Lemma forward_inner_elem g sid frames sid' frame : ForwardToBackend sid' frame ∈ (forward_inner g sid frames).1.2 →
  sid' = sid ∧ frame ∈ frames ∧ is_Some (inner_policy g frame).
Proof.
  revert g. induction frames as [|f frames IH]; intros g; cbn [forward_inner]; [by intros []%not_elem_of_nil|].
  destruct (inner_policy g f) as [p|] eqn:Hp; [|by intros []%not_elem_of_nil].
  set (g1 := count _ _). specialize (IH g1). destruct (forward_inner g1 sid frames) as [[g2 effs] inv]. cbn [fst snd] in *.
  intros [[= -> ->]|H]%elem_of_cons; [split_and!; [done|left|by rewrite Hp]|].
  destruct (IH H) as (? & ? & Hs). split_and!; [done|by right|exact Hs].
Qed.
Lemma forward_inner_policy g frame : is_Some (inner_policy g frame) →
  frame_complete frame = true ∧ opcode_allowed (rudp_rollout_policy_ (gw_cfg g)) (msg_id (decode_header frame)) = true
  ∧ ∃ policy, udp_opcode_policy (msg_id (decode_header frame)) = Some policy ∧ transport_allows (op_transport policy) tkUdp = true.
Proof.
  unfold inner_policy. intros [p H]. destruct (frame_complete frame); [|done]. cbn [negb] in H.
  destruct (udp_opcode_policy _) as [q|]; [|done]. destruct (opcode_allowed _ _); [|done].
  destruct (transport_allows _ _) eqn:Ht; [|done]. split_and!; eauto.
Qed.
(** A usable RUDP session and the engine's output on the datagram. *)
Definition rudp_delivers g (m : gmap (list Z) SessionState) (ep : UdpEndpoint) (sid d frame : list Z) (now : Z) : Prop :=
  p_enabled (rudp_rollout_policy_ (gw_cfg g)) = true
  ∧ ∃ s e, m !! sid = Some s ∧ bound_to ep s = true ∧ s_rudp_selected s = true ∧ s_rudp_fallback_to_tcp s = false
      ∧ s_rudp_engine s = Some e ∧ frame ∈ inner_frames (process_datagram e d now).1.2.
Lemma rudp_step_inner g sid ep d now : rs_fallback (rudp_step g sid ep d now).2 = false →
  gw_cfg (rudp_step g sid ep d now).1 = gw_cfg g
  ∧ ∀ frame, frame ∈ rs_inner (rudp_step g sid ep d now).2 → rudp_delivers g (gw_sessions g) ep sid d frame now.
Proof.
  unfold rudp_step. destruct (gw_sessions g !! sid) as [s|] eqn:Hs; [|done]. destruct (bound_to ep s) eqn:Hb; cbn [negb]; [|done].
  destruct (p_enabled _) eqn:H1, (s_rudp_selected s) eqn:H2, (s_rudp_fallback_to_tcp s) eqn:H3; cbn [negb andb]; try done.
  destruct (s_rudp_engine s) as [e|] eqn:He; [|done].
  destruct (process_datagram e d now) as [[e1 r1] m1] eqn:Hp. destruct (poll e1 now) as [[e2 r2] m2]. intros _.
  split; [done|]. cbn. intros frame Hf. split; [done|]. exists s, e. rewrite Hp. by split_and!.
Qed.
Lemma receive_rudp_forward g between d ep now sid frame :
  ForwardToBackend sid frame ∈ (receive_rudp g between d ep now).2 →
  (∃ s, gw_sessions g !! sid = Some s ∧ bound_to ep s = true)
  ∧ is_Some (inner_policy g frame) ∧ rudp_delivers g (between 0%nat (gw_sessions g)) ep sid d frame now.
Proof.
  unfold receive_rudp. destruct (find_bound _ ep) as [sid0|] eqn:Hf; [|by intros []%not_elem_of_nil].
  apply find_bound_some in Hf. cbn in Hf. set (g0 := set_sessions _ (count rudp_packets_total g)).
  pose proof (rudp_step_inner g0 sid0 ep d now) as Hin. destruct (rudp_step g0 sid0 ep d now) as [g1 step]. cbn [fst snd] in Hin.
  set (g2 := if 0 <? rs_retransmit step then _ else _).
  assert (Hc2 : rs_fallback step = false → gw_cfg g2 = gw_cfg g) by (intros H; subst g2; destruct (0 <? _); by apply Hin).
  clearbody g2. destruct (rs_fallback step) eqn:Hfb; cbn [orb snd].
  - rewrite !elem_of_app. intros [H|[H|[H|H]]]; try by apply not_elem_of_nil in H.
    + by apply list_elem_of_fmap in H as (? & ? & _).
    + apply elem_of_concat_1 in H as (l & H & (x & -> & _)%list_elem_of_fmap). by apply not_forwarded_send in H.
  - pose proof (forward_inner_elem g2 sid0 (rs_inner step) sid frame) as Hfw.
    destruct (forward_inner g2 sid0 (rs_inner step)) as [[g3 fw] inv]. cbn [fst snd] in *.
    rewrite !elem_of_app. intros [H|[H|[H|H]]].
    + by apply list_elem_of_fmap in H as (? & ? & _).
    + apply elem_of_concat_1 in H as (l & H & (x & -> & _)%list_elem_of_fmap). by apply not_forwarded_send in H.
    + destruct (Hfw H) as (-> & Hin' & Hp). destruct (Hin eq_refl) as [_ Hd]. split_and!; [done| |by apply Hd].
      unfold inner_policy in *. by rewrite (Hc2 eq_refl) in Hp.
    + destruct inv; [|by apply not_elem_of_nil in H]. by apply list_elem_of_singleton in H.
Qed.
Lemma receive_sequenced_forward g sid d p h ep now sid' frame :
  ForwardToBackend sid' frame ∈ (receive_sequenced g sid d p h ep now).2 →
  sid' = sid ∧ frame = d ∧ accepted (track_sequence g sid ep (seq_ h) now).2 = true.
Proof.
  unfold receive_sequenced. destruct (track_sequence g sid ep (seq_ h) now) as [g1 u]. cbn [snd].
  destruct (accepted u); cbn [negb]; [|by intros []%not_forwarded_send].
  intros [= -> ->]%list_elem_of_singleton. done.
Qed.
Lemma receive_plain_forward g between d h ep now sid frame :
  ForwardToBackend sid frame ∈ (receive_plain g between d h ep now).2 →
  (∃ s, gw_sessions g !! sid = Some s ∧ bound_to ep s = true) ∧ frame = d
  ∧ msg_id h ∈ udp_opcode_allowlist_ (gw_cfg g)
  ∧ ∃ policy, udp_opcode_policy (msg_id h) = Some policy ∧ transport_allows (op_transport policy) tkUdp = true
    ∧ (op_delivery policy = dcUnreliableSequenced →
       accepted (track_sequence (set_sessions (between 0%nat (gw_sessions g)) g) sid ep (seq_ h) now).2 = true).
Proof.
  unfold receive_plain. destruct (find_bound g ep) as [sid0|] eqn:Hf; [|by intros []%not_forwarded_send].
  apply find_bound_some in Hf. destruct (udp_opcode_policy (msg_id h)) as [p|]; [|by intros []%not_forwarded_send].
  destruct (bool_decide (msg_id h ∈ _)) eqn:Ha; cbn [negb]; [|by intros []%not_forwarded_send].
  apply bool_decide_eq_true in Ha. destruct (transport_allows (op_transport p) tkUdp) eqn:Ht; cbn [negb]; [|by intros []%not_forwarded_send].
  case_bool_decide as Hd.
  - intros (-> & -> & Hacc)%receive_sequenced_forward. split_and!; [done|done|done|]. exists p. by split_and!.
  - intros [= -> ->]%list_elem_of_singleton. split_and!; [done|done|done|]. exists p. by split_and!.
Qed.
Lemma not_forwarded_bind g payload seq ep now sid frame :
  ForwardToBackend sid frame ∉ (receive_bind hmac g payload seq ep now).2.
Proof.
  unfold receive_bind. destruct (guard_block_state _ _ now) as [u st]. destruct (blocked st); [apply not_forwarded_send|].
  destruct (decode_direct_bind_request_payload payload) as [req|]; [|apply not_forwarded_send].
  destruct (apply_udp_bind_request hmac _ req ep now) as [g1 o]. apply not_forwarded_send.
Qed.

(** ** Lemmas: sequence numbers *)
Definition tracker g (sid : list Z) : option UdpSequencedMetrics := s_udp_sequenced_metrics <$> (gw_sessions g !! sid).
Definition is_sequenced (d : list Z) : bool :=
  match udp_opcode_policy (msg_id (decode_header d)) with
  | Some p => bool_decide (op_delivery p = dcUnreliableSequenced)
  | None => false
  end.
(** The sequence number a plain datagram carries to session [sid]. *)
Definition forwarded_seq (sid d : list Z) (effects : list UdpEffect) : list Z :=
  if negb (looks_like_rudp d) && is_sequenced d && bool_decide (ForwardToBackend sid d ∈ effects)
  then [seq_ (decode_header d)] else [].
Definition receive_step (sid : list Z) (st : Gateway * list Z) (input : list Z * UdpEndpoint * Z) : Gateway * list Z :=
  let '(d, ep, now) := input in
  let '(g, effects) := receive_datagram hmac st.1 quiet d ep now in (g, st.2 ++ forwarded_seq sid d effects).
Lemma on_packet_accepts m seq now : let '(m', u) := on_packet m seq now in
  if accepted u then Transport.initialized_ m' = true ∧ last_seq_ m' = seq ∧ (Transport.initialized_ m = true → last_seq_ m < seq)
  else m' = m.
Proof.
  unfold on_packet. destruct (Transport.initialized_ m); cbn [negb]; [|done].
  destruct (Z.eqb_spec seq (last_seq_ m)); [done|]. destruct (Z.ltb_spec seq (last_seq_ m)); [done|].
  destruct (if last_recv_ms_ m =? 0 then _ else _) as [ia ji]. cbn. split_and!; [done|done|lia].
Qed.
Lemma tracker_insert g k s sid : tracker (set_sessions (<[k := s]> (gw_sessions g)) g) sid
  = if bool_decide (sid = k) then Some (s_udp_sequenced_metrics s) else tracker g sid.
Proof.
  unfold tracker. cbn. case_bool_decide as Hk; [subst; by rewrite lookup_insert_eq|by rewrite lookup_insert_ne].
Qed.
Lemma tracker_insert_same g k s s' sid : gw_sessions g !! k = Some s → s_udp_sequenced_metrics s' = s_udp_sequenced_metrics s →
  tracker (set_sessions (<[k := s']> (gw_sessions g)) g) sid = tracker g sid.
Proof.
  intros Hk Hm. rewrite tracker_insert. case_bool_decide; [|done]. subst. unfold tracker. rewrite Hk. simpl. by rewrite Hm.
Qed.
Lemma rudp_step_tracker g sid0 ep d now sid : tracker (rudp_step g sid0 ep d now).1 sid = tracker g sid.
Proof.
  unfold rudp_step. destruct (gw_sessions g !! sid0) as [s|] eqn:Hs; [|done]. destruct (negb (bound_to ep s)); [done|].
  destruct (_ && _ && _); [destruct (s_rudp_engine s) as [e|]|]; [|by eapply tracker_insert_same..].
  destruct (process_datagram e d now) as [[e1 r1] m1]. destruct (poll e1 now) as [[e2 r2] m2]. by eapply tracker_insert_same.
Qed.
Lemma receive_rudp_tracker g d ep now sid : tracker (receive_rudp g quiet d ep now).1 sid = tracker g sid.
Proof.
  unfold receive_rudp, quiet. destruct (find_bound _ ep) as [sid0|]; [|done].
  set (g0 := set_sessions _ (count rudp_packets_total g)). pose proof (rudp_step_tracker g0 sid0 ep d now sid) as H1.
  destruct (rudp_step g0 sid0 ep d now) as [g1 step]. cbn [fst] in H1. change (tracker g0 sid) with (tracker g sid) in H1.
  set (g2 := if 0 <? rs_retransmit step then _ else _).
  assert (H2 : tracker g2 sid = tracker g sid) by (subst g2; by destruct (0 <? _)). clearbody g2.
  pose proof (forward_inner_frame g2 sid0 (rs_inner step)) as H3.
  destruct (forward_inner g2 sid0 (rs_inner step)) as [[g3 fw] inv3]. cbn [fst] in H3. destruct H3 as (H3 & _).
  assert (H4 : tracker g3 sid = tracker g sid) by (unfold tracker in *; by rewrite H3).
  destruct (rs_fallback step); [exact H2|]. destruct inv3; cbn [orb]; [|exact H4].
  cbn [gw_sessions set_sessions]. destruct (gw_sessions g3 !! sid0) as [s|] eqn:Hs; [|exact H4].
  cbn [fst]. rewrite <- H4. exact (tracker_insert_same g3 sid0 s (set_fallback_flag s) sid Hs eq_refl).
Qed.
Definition tracker_step (before after : option UdpSequencedMetrics) (seqs : list Z) : Prop :=
  (seqs = [] ∧ after = before)
  ∨ ∃ seq m, seqs = [seq] ∧ after = Some m ∧ Transport.initialized_ m = true ∧ last_seq_ m = seq
      ∧ ∀ m0, before = Some m0 → Transport.initialized_ m0 = true → last_seq_ m0 < seq.
Lemma receive_sequenced_tracker g sid0 d p h ep now sid :
  let '(g', effects) := receive_sequenced g sid0 d p h ep now in
  tracker_step (tracker g sid) (tracker g' sid) (if bool_decide (ForwardToBackend sid d ∈ effects) then [seq_ h] else []).
Proof.
  unfold receive_sequenced, track_sequence.
  assert (Hno : ∀ g1 g2 c m, tracker g1 sid = tracker g sid → tracker_step (tracker g sid) (tracker g1 sid)
    (if bool_decide (ForwardToBackend sid d ∈ refuse g2 c m (seq_ h) now ep) then [seq_ h] else [])).
  { intros g1 g2 c m H1. rewrite bool_decide_eq_false_2 by (apply not_forwarded_send). by left. }
  destruct (gw_sessions g !! sid0) as [s|] eqn:Hs; [|by apply Hno].
  destruct (bound_to ep s); [|by apply Hno].
  pose proof (on_packet_accepts (s_udp_sequenced_metrics s) (seq_ h) now) as Hon.
  destruct (on_packet (s_udp_sequenced_metrics s) (seq_ h) now) as [m u]. destruct (accepted u); cbn [negb].
  - destruct Hon as (Hi & Hl & Hlt). unfold forward_udp.
    assert (Ht : ∀ g1, gw_sessions g1 = <[sid0 := set_transport m (s_rudp_fallback_to_tcp s) (s_rudp_engine s) s]> (gw_sessions g) →
      tracker_step (tracker g sid) (tracker g1 sid)
        (if bool_decide (ForwardToBackend sid d ∈ [ForwardToBackend sid0 d]) then [seq_ h] else [])).
    { intros g1 Hg1. change (tracker g1 sid) with (s_udp_sequenced_metrics <$> (gw_sessions g1 !! sid)). rewrite Hg1.
      destruct (decide (sid = sid0)) as [->|Hne].
      - rewrite bool_decide_eq_true_2 by (by left). rewrite lookup_insert_eq. right. exists (seq_ h), m. split_and!; try done.
        unfold tracker. rewrite Hs. intros m0 [= <-]. done.
      - rewrite bool_decide_eq_false_2 by (intros [= ?]%list_elem_of_singleton; done). rewrite lookup_insert_ne by done. by left. }
    apply Ht. by destruct (0 <? estimated_lost_packets u), (0 <? jitter_ms u).
  - subst m. apply Hno. rewrite <- (tracker_insert_same g sid0 s
      (set_transport (s_udp_sequenced_metrics s) (s_rudp_fallback_to_tcp s) (s_rudp_engine s) s) sid Hs eq_refl).
    by destruct (duplicate u), (reordered u).
Qed.
Lemma receive_plain_tracker g d ep now sid : looks_like_rudp d = false →
  let '(g', effects) := receive_plain g quiet d (decode_header d) ep now in
  tracker_step (tracker g sid) (tracker g' sid) (forwarded_seq sid d effects).
Proof.
  intros Hr. unfold receive_plain, forwarded_seq, is_sequenced. rewrite Hr. cbn [negb andb].
  assert (Hno : ∀ g1 g2 c m (b : bool), tracker g1 sid = tracker g sid → tracker_step (tracker g sid) (tracker g1 sid)
    (if b && bool_decide (ForwardToBackend sid d ∈ refuse g2 c m (seq_ (decode_header d)) now ep) then [seq_ (decode_header d)] else [])).
  { intros g1 g2 c m b H1. rewrite bool_decide_eq_false_2 by (apply not_forwarded_send). rewrite andb_false_r. by left. }
  destruct (find_bound g ep) as [sid0|]; [|by apply Hno].
  destruct (udp_opcode_policy _) as [p|] eqn:Hp; [|by apply (Hno _ _ _ _ false)].
  destruct (negb (bool_decide _)); [by apply Hno|]. destruct (negb (transport_allows _ _)); [by apply Hno|].
  destruct (bool_decide (op_delivery p = dcUnreliableSequenced)); cbn [andb]; [|left; split; reflexivity].
  pose proof (receive_sequenced_tracker (set_sessions (gw_sessions g) g) sid0 d p (decode_header d) ep now sid) as H1.
  unfold quiet. destruct (receive_sequenced _ sid0 d p (decode_header d) ep now) as [g1 effs]. exact H1.
Qed.
Definition not_a_bind (input : list Z * UdpEndpoint * Z) : Prop :=
  looks_like_rudp input.1.1 = true ∨ msg_id (decode_header input.1.1) ≠ MSG_UDP_BIND_REQ.
Lemma receive_datagram_tracker g d ep now sid : not_a_bind (d, ep, now) →
  let '(g', effects) := receive_datagram hmac g quiet d ep now in
  tracker_step (tracker g sid) (tracker g' sid) (forwarded_seq sid d effects).
Proof.
  intros Hnb. unfold receive_datagram. set (g0 := if (0 <? length d)%nat then _ else _).
  replace (tracker g sid) with (tracker g0 sid) by (subst g0; by destruct (0 <? length d)%nat). clearbody g0.
  destruct (looks_like_rudp d) eqn:Hr.
  - pose proof (receive_rudp_tracker g0 d ep now sid) as H. destruct (receive_rudp g0 quiet d ep now) as [g1 effs].
    cbn [fst] in H. unfold forwarded_seq. rewrite Hr. by left.
  - destruct (negb (frame_complete d)).
    + unfold forwarded_seq. rewrite bool_decide_eq_false_2 by apply not_elem_of_nil. rewrite andb_false_r. by left.
    + destruct Hnb as [?|Hnb]; [simpl in *; congruence|]. cbn [fst] in Hnb. rewrite (proj2 (Z.eqb_neq _ _) Hnb). by apply receive_plain_tracker.
Qed.
(** What the run keeps: the numbers so far ascend and stay below the tracker. *)
Definition seqs_ok (before after : option UdpSequencedMetrics) (seqs : list Z) : Prop :=
  StronglySorted Z.lt seqs
  ∧ (seqs ≠ [] → ∃ m, after = Some m ∧ Transport.initialized_ m = true ∧ Forall (λ q, q ≤ last_seq_ m) seqs)
  ∧ (seqs = [] → after = before)
  ∧ ∀ m0, before = Some m0 → Transport.initialized_ m0 = true → Forall (λ q, last_seq_ m0 < q) seqs.
Lemma seqs_ok_step before mid after seqs new : seqs_ok before mid seqs → tracker_step mid after new →
  seqs_ok before after (seqs ++ new).
Proof.
  intros (H1 & H2 & H3 & H4) [[-> ->]|(seq & m & -> & -> & Hi & Hl & Hlt)]; [by rewrite app_nil_r|].
  destruct (decide (seqs = [])) as [->|Hne].
  - simpl. split_and!; [by repeat constructor| |done|].
    + intros _. exists m. split_and!; [done|done|]. rewrite Hl. by repeat constructor.
    + intros m0 Hm0 Hi0. rewrite <- (H3 eq_refl) in Hm0. constructor; [by apply Hlt|done].
  - destruct (H2 Hne) as (m1 & -> & Hi1 & Hall). specialize (Hlt m1 eq_refl Hi1). split_and!.
    + apply StronglySorted_app. split_and!; [|done|by repeat constructor].
      intros x y Hx ->%list_elem_of_singleton. rewrite Forall_forall in Hall. specialize (Hall x Hx). simpl in Hall. lia.
    + intros _. exists m. split_and!; [done|done|]. apply Forall_app. split; [|constructor; [lia|done]].
      eapply Forall_impl; [exact Hall|]. simpl. lia.
    + by destruct seqs.
    + intros m0 Hm0 Hi0. apply Forall_app. split; [by apply H4|]. constructor; [|done].
      destruct seqs as [|q seqs]; [done|]. specialize (H4 m0 Hm0 Hi0).
      apply Forall_cons in H4 as [H4 _]. apply Forall_cons in Hall as [Hq _]. simpl in *. lia.
Qed.
Lemma receive_run_seqs sid inputs : ∀ g0 st, Forall not_a_bind inputs →
  seqs_ok (tracker g0 sid) (tracker st.1 sid) st.2 →
  let st' := foldl (receive_step sid) st inputs in seqs_ok (tracker g0 sid) (tracker st'.1 sid) st'.2.
Proof.
  induction inputs as [|[[d ep] now] inputs IH]; intros g0 st Hnb Hst; [done|]. apply Forall_cons in Hnb as [Hd Hnb].
  cbn [foldl]. apply IH; [done|]. unfold receive_step. pose proof (receive_datagram_tracker st.1 d ep now sid Hd) as H.
  destruct (receive_datagram hmac st.1 quiet d ep now) as [g1 effs]. by eapply seqs_ok_step.
Qed.
End Forwarding.

(** ** Properties *)
(** C1: only an authenticated endpoint is ever bound.  After any sequence of
    connects, closes, tickets, datagrams and sends, for any HMAC, random numbers
    and clock, a session bound to a UDP endpoint was named by a bind request that
    came from that endpoint, before the ticket expired, and carried the
    non-empty token the gateway's secret gives for that session, nonce and
    expiry. *)
Theorem bound_session_authenticated {R} `{!RedisClient R, !MapIteration string, !MapIteration (list Z)}
    (hash : string → Z) (hmac : list Z → list Z → list Z) (env : Env) (boot_id : string) (client : bool) (r : R)
    (evs : list GatewayEvent) :
  let g := (foldl (gateway_exec hash hmac) (gateway_new env boot_id client, r) evs).1 in
  ∀ sid s, gw_sessions g !! sid = Some s → s_udp_bound s = true →
    ∃ req now, bind_request_in evs (s_udp_endpoint s) now req ∧ t_session_id req = sid
      ∧ now ≤ t_expires_unix_ms req ∧ t_token req ≠ []
      ∧ t_token req = make_udp_bind_token hmac g sid (t_nonce req) (t_expires_unix_ms req).
Proof.
  cbv zeta. intros sid s Hs Hb.
  pose proof (gateway_run_auth hash hmac (gateway_new env boot_id client, r) [] evs) as H. cbn [app] in H.
  destruct (H (authenticated_new hmac env boot_id client) sid (s_udp_endpoint s)
    (s_udp_nonce s) (s_udp_expires_unix_ms s) (s_udp_token s)) as (req & now & H1 & H2 & H3 & H4 & H5 & H6 & H7 & H8).
  - unfold bindings. rewrite lookup_fmap, Hs. simpl. unfold binding. by rewrite Hb.
  - exists req, now. rewrite H3, H4, H5. by split_and!.
Qed.

(** C33: bind requests that fail change no binding.  A request is accepted exactly
    when its session exists and is not in backoff, a ticket was issued and has
    not expired, nonce, expiry and token are the issued ones, the token is the
    one the secret gives, and the session is not bound to another endpoint;
    otherwise it is answered with a non-zero code, and no session's binding,
    ticket, sequence tracker or engine changes. *)
Theorem bind_request_exact (hmac : list Z → list Z → list Z) (g : Gateway) (req : DirectBindTicket)
    (endpoint : UdpEndpoint) (now : Z) :
  let '(g', o) := apply_udp_bind_request hmac g req endpoint now in
  (bo_code o = 0 ↔ ∃ s, bind_accepted hmac g req endpoint now s)
  ∧ (bo_code o ≠ 0 → bindings g' = bindings g
       ∧ ∀ sid s', gw_sessions g' !! sid = Some s' → ∃ s a t, gw_sessions g !! sid = Some s
           ∧ (s' = s ∨ s' = set_backoff a t s))
  ∧ (bo_code o = 0 → ∃ s', gw_sessions g' !! t_session_id req = Some s' ∧ s_udp_bound s' = true
       ∧ s_udp_endpoint s' = endpoint ∧ Transport.initialized_ (s_udp_sequenced_metrics s') = false).
Proof.
  pose proof (apply_bind_cases hmac g req endpoint now) as H.
  destruct (apply_udp_bind_request hmac g req endpoint now) as [g' o].
  destruct H as (_ & _ & [(Hc & Hs & Hno)|(Hc & s & Ha & Hs)]).
  - split_and!; [split; [done|intros [s Hs']; by destruct (Hno s)]| |done]. intros _. split.
    + unfold bindings. destruct Hs as [->|(s & a & t & Hl & ->)]; [done|]. by apply (insert_binding _ _ s).
    + intros sid s' Hl'. destruct Hs as [Hs|(s & a & t & Hl & Hs)]; rewrite Hs in Hl'; [by exists s', 0, 0; eauto|].
      destruct (decide (sid = t_session_id req)) as [->|Hne].
      * rewrite lookup_insert_eq in Hl'. injection Hl' as <-. exists s, a, t. eauto.
      * rewrite lookup_insert_ne in Hl' by done. exists s', 0, 0. eauto.
  - split_and!; [split; [eauto|done]|done|]. intros _. rewrite Hs, lookup_insert_eq. eexists. split; [done|]. done.
Qed.

(** C18: nothing reaches a backend over UDP past the guards.  Whatever other
    threads do to the sessions meanwhile, a frame is forwarded only to a session
    bound to the sender's endpoint, only if it is a complete frame of a known
    opcode that policy allows on UDP; a plain datagram only if its opcode is
    allowlisted and, for sequenced opcodes, the tracker accepts its number; an
    RUDP payload only if the rollout enables and allows it, the session was
    selected and has not fallen back, and its engine delivered it. *)
Theorem udp_forward_guarded `{!MapIteration (list Z)} (hmac : list Z → list Z → list Z) (g : Gateway)
    (between : nat → gmap (list Z) SessionState → gmap (list Z) SessionState) (d : list Z) (ep : UdpEndpoint) (now : Z)
    (sid frame : list Z) :
  ForwardToBackend sid frame ∈ (receive_datagram hmac g between d ep now).2 →
  let id := msg_id (decode_header frame) in
  (∃ s, gw_sessions g !! sid = Some s ∧ bound_to ep s = true) ∧ frame_complete frame = true
  ∧ ∃ policy, udp_opcode_policy id = Some policy ∧ transport_allows (op_transport policy) tkUdp = true
    ∧ if looks_like_rudp d
      then opcode_allowed (rudp_rollout_policy_ (gw_cfg g)) id = true
           ∧ rudp_delivers g (between 0%nat (gw_sessions g)) ep sid d frame now
      else frame = d ∧ id ∈ udp_opcode_allowlist_ (gw_cfg g)
           ∧ (op_delivery policy = dcUnreliableSequenced → ∃ g1, gw_sessions g1 = between 0%nat (gw_sessions g)
                ∧ accepted (track_sequence g1 sid ep (seq_ (decode_header d)) now).2 = true).
Proof.
  cbv zeta. unfold receive_datagram. set (g0 := if (0 <? length d)%nat then _ else _).
  assert (Hg : gw_sessions g0 = gw_sessions g ∧ gw_cfg g0 = gw_cfg g) by (subst g0; by destruct (0 <? length d)%nat).
  clearbody g0. destruct Hg as [Hs Hc]. destruct (looks_like_rudp d).
  - intros (Hb & Hp & Hd)%receive_rudp_forward. apply forward_inner_policy in Hp as (Hf & Ha & policy & Hpol & Ht).
    unfold rudp_delivers in *. rewrite Hs in Hb, Hd. rewrite Hc in Ha, Hd. split_and!; [done|done|]. exists policy. exact (conj Hpol (conj Ht (conj Ha Hd))).
  - destruct (frame_complete d) eqn:Hf; cbn [negb]; [|by intros []%not_elem_of_nil].
    destruct (msg_id (decode_header d) =? MSG_UDP_BIND_REQ); [by intros []%not_forwarded_bind|].
    intros (Hb & -> & Ha & policy & Hp & Ht & Hseq)%receive_plain_forward. rewrite Hs in Hb. rewrite Hc in Ha.
    split_and!; [done|done|]. exists policy. split_and!; [done|done|done|done|]. intros Hd. eexists. split; [|by apply Hseq].
    cbn. by rewrite Hs.
Qed.

(** C35: no replay of sequenced UDP traffic.  Between two binds of a session, over
    any interleaving of datagrams from any endpoints at any times, the sequence
    numbers of the sequenced frames that reach its backend as plain UDP strictly
    increase, and exceed every number accepted before. *)
Theorem no_sequenced_replay `{!MapIteration (list Z)} (hmac : list Z → list Z → list Z) (g : Gateway) (sid : list Z)
    (inputs : list (list Z * UdpEndpoint * Z)) :
  Forall not_a_bind inputs →
  let seqs := (foldl (receive_step hmac sid) (g, []) inputs).2 in
  StronglySorted Z.lt seqs
  ∧ ∀ m, tracker g sid = Some m → Transport.initialized_ m = true → Forall (λ q, last_seq_ m < q) seqs.
Proof.
  intros Hnb. cbv zeta. destruct (receive_run_seqs hmac sid inputs g (g, []) Hnb) as (H1 & _ & _ & H4); [|done].
  split_and!; [constructor|done|done|by intros; constructor].
Qed.

(** ** Witnesses *)
Definition demo_hmac (secret message : list Z) : list Z := [Z.of_nat (length secret); Z.of_nat (length message)].
Definition demo_env : Env :=
  <["GATEWAY_UDP_LISTEN" := "0.0.0.0:7000"]> {["GATEWAY_UDP_OPCODE_ALLOWLIST" := "0x0206"]}.
Definition demo_sid : list Z := bytes "gateway-default-boot-1".
Definition demo_peer : UdpEndpoint := {| ep_address := 0x0A000001; ep_port := 4000 |}.
Definition demo_frame (id seq : Z) (payload : list Z) : list Z :=
  encode_header {| length_ := Z.of_nat (length payload); msg_id := id; hdr_flags := 0; seq_ := seq; utc_ts_ms32 := 0 |}
    (replicate k_header_bytes 0) ++ payload.
Definition demo_bind : list Z :=
  let nonce := Z.lxor (1 <<₆₄ 32) 2 in
  demo_frame MSG_UDP_BIND_REQ 1 (encode_direct_bind_request_payload
    {| t_session_id := demo_sid; t_nonce := nonce; t_expires_unix_ms := 7000;
       t_token := to_hex (demo_hmac (bytes "boot") (make_bind_signing_input demo_sid nonce 7000)) |}).
Definition demo_udp_events : list GatewayEvent :=
  [EvListen true; EvConnect "alice" 1000; EvTicket demo_sid 1 2 2000; EvDatagram demo_bind demo_peer 3000].
Definition demo_udp_gateway : Gateway :=
  (foldl (gateway_exec (λ _, 0) demo_hmac) (gateway_new demo_env "boot" true, demo_redis) demo_udp_events).1.
Definition demo_session : SessionState := Eval vm_compute in
  default (session_state_new EmptyString EmptyString) (gw_sessions demo_udp_gateway !! demo_sid).
Lemma bound_session_authenticated_witness :
  gw_sessions demo_udp_gateway !! demo_sid = Some demo_session ∧ s_udp_endpoint demo_session = demo_peer
  ∧ ∃ req now, bind_request_in demo_udp_events demo_peer now req ∧ t_session_id req = demo_sid.
Proof.
  assert (H : gw_sessions demo_udp_gateway !! demo_sid = Some demo_session) by (vm_compute; reflexivity).
  split; [exact H|]. split; [reflexivity|].
  destruct (bound_session_authenticated (λ _, 0) demo_hmac demo_env "boot" true demo_redis demo_udp_events demo_sid
    demo_session H eq_refl) as (req & now & H1 & H2 & _).
  exists req, now. split; [exact H1|exact H2].
Defined.
Lemma udp_forward_guarded_witness :
  ForwardToBackend demo_sid (demo_frame 0x0206 5 [1]) ∈
    (receive_datagram demo_hmac demo_udp_gateway quiet (demo_frame 0x0206 5 [1]) demo_peer 3100).2
  ∧ ∃ s, gw_sessions demo_udp_gateway !! demo_sid = Some s ∧ bound_to demo_peer s = true.
Proof.
  assert (H : ForwardToBackend demo_sid (demo_frame 0x0206 5 [1]) ∈
    (receive_datagram demo_hmac demo_udp_gateway quiet (demo_frame 0x0206 5 [1]) demo_peer 3100).2)
    by (apply (bool_decide_unpack _); vm_compute; exact I).
  split; [exact H|]. exact (proj1 (udp_forward_guarded demo_hmac demo_udp_gateway quiet _ demo_peer 3100 _ _ H)).
Defined.
Lemma no_sequenced_replay_witness :
  let inputs := (λ q, (demo_frame 0x0206 q [1], demo_peer, 3000 + q)) <$> [5; 9; 9; 7; 12] in
  let seqs := (foldl (receive_step demo_hmac demo_sid) (demo_udp_gateway, []) inputs).2 in
  seqs = [5; 9; 12] ∧ StronglySorted Z.lt seqs.
Proof.
  cbv zeta. split; [vm_compute; reflexivity|]. apply (no_sequenced_replay demo_hmac demo_udp_gateway demo_sid).
  repeat (apply Forall_cons; split; [right; vm_compute; congruence|]). constructor.
Defined.
