(* ===== verification/GatewayBridge.v ===== *)
(** * Gateway bridge

    [gateway/src/gateway_backend_frame_inspector.cpp] and
    [gateway_connection.cpp]: the handshake of a client connection, the
    transparent bridge to its backend and the inspection of backend traffic.
    SHA-256 ([sha256], an empty digest is failure) and the authenticator are
    parameters; [stop()] is the flag [c_stopped]; timers and logging are left
    out.  The login-response parser works on 64-bit offsets, as the source. *)
From S2P Require Import Prelude Containers Text Redis Packet Transport InstanceRegistry SessionDirectory.
From S2P Require Import Frames Opcodes GatewayConfig Gateway GatewayUdp.
From stdpp Require Import list gmap strings.
Open Scope Z_scope.

Definition MSG_LOGIN_REQ : Z := 0x0010.
Definition MSG_LOGIN_RES : Z := 0x0011.
Definition MSG_PING : Z := 0x0002.
Definition MSG_PONG : Z := 0x0003.
Definition kMaxInspectableBytes : Z := 256 * 1024.

Section Inspector.
(** The state the two callbacks work on. *)
Context {S : Type} (on_login_res : S → list Z → S) (on_frame : S → Z → list Z → S * bool).

(** One complete frame: callbacks, then the passthrough buffer. *)
Definition inspect_frame (st : S * list Z) (frame : list Z) : S * list Z :=
  let '(s, passthrough) := st in
  let id := msg_id (decode_header frame) in
  let s := if id =? MSG_LOGIN_RES then on_login_res s (drop k_header_bytes frame) else s in
  let '(s, consumed) := on_frame s id frame in
  (s, if consumed then passthrough else passthrough ++ frame).
(** The [while] loop; every iteration removes a header's worth of bytes. *)
Fixpoint inspect_loop (fuel : nat) (st : S * list Z) (buf : list Z) : option (S * list Z * list Z) :=
  match next_frame buf with
  | None => Some (st, buf)
  | Some (frame, rest) =>
      match fuel with
      | O => None
      | Datatypes.S fuel => inspect_loop fuel (inspect_frame st frame) rest
      end
  end.
(** The callbacks' state, the passthrough bytes and the new prebuffer. *)
Definition inspect_backend_frames (s : S) (prebuffer payload : list Z) : option (S * list Z * list Z) :=
  match payload with
  | [] => Some (s, [], prebuffer)
  | _ =>
      let prebuffer := if kMaxInspectableBytes <? Z.of_nat (length prebuffer + length payload) then [] else prebuffer in
      let buf := prebuffer ++ payload in
      inspect_loop (length buf) (s, []) buf
  end.
End Inspector.

(** ** Resume tokens in login responses *)
Definition resume_token_prefix : list Z := bytes "resume:".
(** [read_varint]: [None] is [false]; the offset is always advanced. *)
Fixpoint read_varint_from (bs : list Z) (offset value shift : Z) : Z * option Z :=
  match bs with
  | [] => (offset, None)
  | byte :: bs =>
      let value := Z.lor value (u64 (Z.shiftl (Z.land byte 0x7F) shift)) in
      let offset := offset +₆₄ 1 in
      if Z.land byte 0x80 =? 0 then (offset, Some value)
      else if 63 <? shift + 7 then (offset, None)
      else read_varint_from bs offset value (shift + 7)
  end.
Definition read_varint (input : list Z) (offset : Z) : Z * option Z :=
  read_varint_from (drop (Z.to_nat offset) input) offset 0 0.
(** [offset + len > input.size()], in 64 bits. *)
Definition past_end (input : list Z) (offset len : Z) : bool := Z.of_nat (length input) <? offset +₆₄ len.
Definition skip_wire_value (input : list Z) (offset wire_type : Z) : option Z :=
  if wire_type =? 0 then
    match read_varint input offset with (offset, Some _) => Some offset | (_, None) => None end
  else if wire_type =? 2 then
    match read_varint input offset with
    | (offset, Some len) => if past_end input offset len then None else Some (offset +₆₄ len)
    | (_, None) => None
    end
  else None.
(** [ptThrows]: [std::string] refuses the length. *)
Inductive TokenParse := ptNone | ptToken (token : list Z) | ptThrows | ptOutOfFuel.
Definition max_string_size : Z := 2 ^ 63 - 1.
Definition take_token (payload : list Z) (offset len : Z) : TokenParse :=
  if max_string_size <? len then ptThrows
  else ptToken (take (Z.to_nat len) (drop (Z.to_nat offset) payload)).
Fixpoint parse_login_res_from (fuel : nat) (payload : list Z) (offset : Z) : TokenParse :=
  if Z.of_nat (length payload) <=? offset then ptNone
  else
    match fuel with
    | O => ptOutOfFuel
    | S fuel =>
        match read_varint payload offset with
        | (_, None) => ptNone
        | (offset, Some tag) =>
            let field_number := Z.shiftr tag 3 in
            let wire_type := Z.land tag 7 in
            if (field_number =? 6) && (wire_type =? 2) then
              match read_varint payload offset with
              | (offset, Some len) => if past_end payload offset len then ptNone else take_token payload offset len
              | (_, None) => ptNone
              end
            else
              match skip_wire_value payload offset wire_type with
              | Some offset => parse_login_res_from fuel payload offset
              | None => ptNone
              end
        end
    end.
Definition parse_resume_token_from_login_res (payload : list Z) : TokenParse :=
  parse_login_res_from (length payload) payload 0.

(** ** Lemmas: frames *)
Section InspectorLemmas.
Context {S : Type} (on_login_res : S → list Z → S) (on_frame : S → Z → list Z → S * bool).
Lemma inspect_loop_frames buf : ∀ fuel st, (length buf ≤ fuel)%nat →
  inspect_loop on_login_res on_frame fuel st buf
  = Some (foldl (inspect_frame on_login_res on_frame) st (frames_of buf).1, (frames_of buf).2).
Proof.
  induction buf as [buf Hn|buf f rest Hf IH] using frames_ind; intros fuel st Hl; rewrite frames_of_step.
  - destruct fuel; cbn [inspect_loop]; by rewrite Hn.
  - pose proof (next_frame_shorter _ _ _ Hf). destruct fuel as [|fuel]; [lia|]. cbn [inspect_loop]. rewrite Hf.
    rewrite IH by lia. done.
Qed.
Lemma inspect_frame_out s out f : inspect_frame on_login_res on_frame (s, out) f
  = ((inspect_frame on_login_res on_frame (s, []) f).1, out ++ (inspect_frame on_login_res on_frame (s, []) f).2).
Proof. unfold inspect_frame. destruct (on_frame _ _ f) as [s1 []]; simpl; [by rewrite app_nil_r|done]. Qed.
Lemma inspect_frames_out fs : ∀ s out, foldl (inspect_frame on_login_res on_frame) (s, out) fs
  = ((foldl (inspect_frame on_login_res on_frame) (s, []) fs).1, out ++ (foldl (inspect_frame on_login_res on_frame) (s, []) fs).2).
Proof.
  induction fs as [|f fs IH]; intros s out; cbn [foldl]; [by rewrite app_nil_r|].
  rewrite inspect_frame_out. destruct (inspect_frame on_login_res on_frame (s, []) f) as [s1 o1]. cbn [fst snd].
  rewrite (IH s1 (out ++ o1)), (IH s1 o1). simpl. by rewrite app_assoc.
Qed.
(** The reads of a backend connection, one after the other. *)
Fixpoint inspect_stream (s : S) (out prebuffer : list Z) (chunks : list (list Z)) : option (S * list Z * list Z) :=
  match chunks with
  | [] => Some (s, out, prebuffer)
  | chunk :: chunks =>
      match inspect_backend_frames on_login_res on_frame s prebuffer chunk with
      | Some (s, passthrough, prebuffer) => inspect_stream s (out ++ passthrough) prebuffer chunks
      | None => None
      end
  end.
Lemma inspect_chunk s pre chunk : next_frame pre = None → Z.of_nat (length chunk) ≤ 8192 →
  inspect_backend_frames on_login_res on_frame s pre chunk
  = Some (foldl (inspect_frame on_login_res on_frame) (s, []) (frames_of (pre ++ chunk)).1, (frames_of (pre ++ chunk)).2).
Proof.
  intros Hp Hc. unfold inspect_backend_frames. destruct chunk as [|c chunk].
  - rewrite app_nil_r, frames_of_step, Hp. done.
  - apply next_frame_none in Hp. unfold kMaxInspectableBytes.
    destruct (Z.ltb_spec (256 * 1024) (Z.of_nat (length pre + length (c :: chunk)))); [lia|]. by rewrite inspect_loop_frames by done.
Qed.
Lemma inspect_stream_frames chunks : ∀ s out pre, next_frame pre = None → Forall (λ c, Z.of_nat (length c) ≤ 8192) chunks →
  inspect_stream s out pre chunks
  = Some (foldl (inspect_frame on_login_res on_frame) (s, out) (frames_of (pre ++ concat chunks)).1,
          (frames_of (pre ++ concat chunks)).2).
Proof.
  induction chunks as [|c chunks IH]; intros s out pre Hp Hc.
  - simpl. rewrite app_nil_r, frames_of_step, Hp. done.
  - apply Forall_cons in Hc as [Hc Hcs]. cbn [inspect_stream concat]. rewrite inspect_chunk by done.
    rewrite app_assoc, (frames_of_app (pre ++ c)). cbn [fst snd]. rewrite foldl_app, (inspect_frames_out _ s out).
    pose proof (frames_of_concat (pre ++ c)) as [_ Hn].
    destruct (foldl _ (s, []) (frames_of (pre ++ c)).1) as [s1 o1]. cbn [fst snd]. by rewrite IH.
Qed.
(** The callbacks with a log of their calls and of the answers of [on_frame]. *)
Inductive Call := CallLogin (body : list Z) | CallFrame (id : Z) (frame : list Z) (consumed : bool).
Definition logged_login (st : S * list Call) (body : list Z) : S * list Call := (on_login_res st.1 body, st.2 ++ [CallLogin body]).
Definition logged_frame (st : S * list Call) (id : Z) (frame : list Z) : S * list Call * bool :=
  let '(s, consumed) := on_frame st.1 id frame in (s, st.2 ++ [CallFrame id frame consumed], consumed).
(** The calls a frame calls for, and the frames that are not consumed. *)
Definition calls_for (frame : list Z) (consumed : bool) : list Call :=
  let id := msg_id (decode_header frame) in
  (if decide (id = MSG_LOGIN_RES) then [CallLogin (drop k_header_bytes frame)] else []) ++ [CallFrame id frame consumed].
Definition not_consumed (frames : list (list Z)) (answers : list bool) : list (list Z) := (filter (λ fa, fa.2 = false) (zip frames answers)).*1.
Lemma inspect_frames_logged fs : ∀ s log out, ∃ s' answers, length answers = length fs
  ∧ foldl (inspect_frame logged_login logged_frame) (s, log, out) fs
    = (s', log ++ concat (zip_with calls_for fs answers), out ++ concat (not_consumed fs answers))
  ∧ foldl (inspect_frame on_login_res on_frame) (s, out) fs = (s', out ++ concat (not_consumed fs answers)).
Proof.
  induction fs as [|f fs IH]; intros s log out; [exists s, []; cbn; by rewrite !app_nil_r|].
  cbn [foldl]. unfold inspect_frame at 2 4. cbv zeta. set (id := msg_id (decode_header f)).
  set (s1 := if id =? MSG_LOGIN_RES then on_login_res s (drop k_header_bytes f) else s).
  set (l1 := log ++ if decide (id = MSG_LOGIN_RES) then [CallLogin (drop k_header_bytes f)] else []).
  replace (if id =? MSG_LOGIN_RES then logged_login (s, log) (drop k_header_bytes f) else (s, log)) with (s1, l1)
    by (unfold s1, l1; destruct (Z.eqb_spec id MSG_LOGIN_RES); [rewrite decide_True by done|rewrite decide_False, app_nil_r by done]; done).
  unfold logged_frame at 2. cbn [fst snd]. destruct (on_frame s1 id f) as [s2 c]. set (out1 := if c then out else out ++ f).
  destruct (IH s2 (l1 ++ [CallFrame id f c]) out1) as (s' & answers & Hl & -> & ->). exists s', (c :: answers). cbn [length zip_with concat].
  assert (Hout : out ++ concat (not_consumed (f :: fs) (c :: answers)) = out1 ++ concat (not_consumed fs answers)).
  { unfold not_consumed, out1. cbn [zip zip_with]. destruct c; [rewrite filter_cons_False by done; done|].
    rewrite filter_cons_True by done. cbn. by rewrite app_assoc. }
  rewrite Hout. split_and!; [by rewrite Hl| |done]. f_equal. f_equal. unfold l1, calls_for. fold id. by rewrite !app_assoc.
Qed.
End InspectorLemmas.

(** ** Lemmas: protobuf fields *)
Fixpoint write_varint (fuel : nat) (v : Z) : list Z :=
  match fuel with
  | O => []
  | S fuel => if v <? 128 then [v] else (v mod 128 + 128) :: write_varint fuel (v / 128)
  end.
Definition varint (v : Z) : list Z := write_varint 10 v.
Inductive WireField := WVarint (number value : Z) | WBytes (number : Z) (data : list Z).
Definition encode_field (f : WireField) : list Z :=
  match f with
  | WVarint n v => varint (n * 8) ++ varint v
  | WBytes n data => varint (n * 8 + 2) ++ varint (Z.of_nat (length data)) ++ data
  end.
Definition encode_fields (fs : list WireField) : list Z := concat (encode_field <$> fs).
Definition field_wf (f : WireField) : Prop :=
  match f with
  | WVarint n v => 1 ≤ n < 2 ^ 29 ∧ is_u64 v
  | WBytes n data => 1 ≤ n < 2 ^ 29
  end.
Fixpoint first_token (fs : list WireField) : TokenParse :=
  match fs with
  | [] => ptNone
  | WBytes n data :: fs => if n =? 6 then ptToken data else first_token fs
  | WVarint _ _ :: fs => first_token fs
  end.

Lemma write_varint_length fuel : ∀ v, (length (write_varint fuel v) ≤ fuel)%nat.
Proof. induction fuel as [|fuel IH]; intros v; simpl; [done|]. destruct (v <? 128); simpl; [lia|]. specialize (IH (v / 128)). lia. Qed.
Lemma varint_last_byte b : is_u8 b → (Z.land b 128 =? 0) = (b <? 128).
Proof. intros. byte_cases b. Qed.
Lemma read_varint_write rest fuel : ∀ v off value shift,
  0 ≤ shift → 0 ≤ v < 2 ^ (64 - shift) → v < 2 ^ (7 * Z.of_nat fuel) → 0 ≤ value < 2 ^ shift → (0 < fuel)%nat →
  0 ≤ off → off + Z.of_nat (length (write_varint fuel v)) < 2 ^ 64 →
  read_varint_from (write_varint fuel v ++ rest) off value shift
  = (off + Z.of_nat (length (write_varint fuel v)), Some (value + v * 2 ^ shift)).
Proof.
  induction fuel as [|fuel IH]; intros v off value shift Hs Hv Hf Hval H0 Hoff Hl; [lia|]. cbn [write_varint] in *.
  assert (Hsum : ∀ a, 0 ≤ a < 128 → a * 2 ^ shift < 2 ^ 64 →
    Z.lor value (u64 (Z.shiftl a shift)) = value + a * 2 ^ shift).
  { intros a Ha Hb. rewrite u64_small by (rewrite Z.shiftl_mul_pow2 by lia; mach_unfold; nia).
    rewrite Z.lor_comm, lor_shiftl_add by lia. lia. }
  assert (Hpow : 2 ^ (64 - shift) * 2 ^ shift = 2 ^ 64).
  { destruct (Z.le_gt_cases shift 64); [rewrite <- Z.pow_add_r by lia; f_equal; lia|].
    rewrite (Z.pow_neg_r 2 (64 - shift)) in Hv by lia. lia. }
  destruct (Z.ltb_spec v 128) as [Hlt|Hge]; cbn [app read_varint_from length] in *.
  - change 0x7F with (Z.ones 7). rewrite land_ones_mod by lia. change (2 ^ 7) with 128. rewrite Z.mod_small by lia.
    rewrite Hsum by nia. replace (Z.land v 128 =? 0) with true.
    + f_equal. mach_unfold. rewrite Z.mod_small; lia.
    + symmetry. rewrite varint_last_byte by (mach_unfold; lia). lia.
  - assert (Hm := Z.mod_pos_bound v 128 ltac:(lia)). assert (Hd := Z.div_mod v 128 ltac:(lia)).
    change 0x7F with (Z.ones 7). rewrite land_ones_mod by lia. change (2 ^ 7) with 128.
    replace ((v mod 128 + 128) mod 128) with (v mod 128) 
      by (rewrite <- (Z.mul_1_l 128) at 3; rewrite Z.mod_add by lia; symmetry; apply Z.mod_small; lia).
    rewrite Hsum by nia. replace (Z.land (v mod 128 + 128) 128 =? 0) with false.
    2:{ symmetry. rewrite varint_last_byte by (mach_unfold; lia). lia. }
    assert (Hsh : shift + 7 ≤ 63).
    { destruct (Z.le_gt_cases (shift + 7) 63); [done|]. assert (64 - shift ≤ 7) by lia.
      assert (2 ^ (64 - shift) ≤ 2 ^ 7) by (apply Z.pow_le_mono_r; lia). lia. }
    destruct (Z.ltb_spec 63 (shift + 7)); [lia|].
    assert (Hp7 : 2 ^ (shift + 7) = 128 * 2 ^ shift) by (rewrite Z.pow_add_r by lia; lia).
    replace (off +₆₄ 1) with (off + 1) by (mach_unfold; rewrite Z.mod_small; lia).
    rewrite IH; [f_equal; [lia|f_equal; rewrite Hp7; nia]|lia| | |nia| |lia|lia].
    + split; [apply Z.div_pos; lia|]. apply Z.div_lt_upper_bound; [lia|].
      replace (128 * 2 ^ (64 - (shift + 7))) with (2 ^ (64 - shift)); [lia|].
      replace (64 - shift) with (7 + (64 - (shift + 7))) at 1 by lia. rewrite Z.pow_add_r by lia. lia.
    + apply Z.div_lt_upper_bound; [lia|]. rewrite Nat2Z.inj_succ in Hf.
      replace (7 * Z.succ (Z.of_nat fuel)) with (7 + 7 * Z.of_nat fuel) in Hf by lia.
      rewrite Z.pow_add_r in Hf by lia. lia.
    + destruct fuel; [|lia]. simpl in Hf. lia.
Qed.
Lemma read_varint_at pre v rest : is_u64 v → Z.of_nat (length (pre ++ varint v ++ rest)) < 2 ^ 63 →
  read_varint (pre ++ varint v ++ rest) (Z.of_nat (length pre)) = (Z.of_nat (length (pre ++ varint v)), Some v).
Proof.
  intros Hv Hl. unfold read_varint. rewrite Nat2Z.id, drop_app_length. rewrite !length_app in Hl. unfold varint in *.
  unfold in_u in Hv. change (2 ^ 64) with (2 ^ (64 - 0)) in Hv.
  rewrite read_varint_write; [|lia|lia|change (7 * Z.of_nat 10) with 70; lia|lia|lia|lia|lia].
  f_equal; [rewrite length_app; lia|f_equal; lia].
Qed.
Lemma varint_nonempty v : (1 ≤ length (varint v))%nat.
Proof. unfold varint. change 10%nat with (S 9). generalize 9%nat. intros n. cbn [write_varint]. destruct (v <? 128); simpl; lia. Qed.
Lemma tag_parts n k : 0 ≤ k < 8 → Z.shiftr (n * 8 + k) 3 = n ∧ Z.land (n * 8 + k) 7 = k.
Proof.
  intros Hk. rewrite shiftr_div by lia. change 7 with (Z.ones 3). rewrite land_ones_mod by lia. change (2 ^ 3) with 8.
  split; [rewrite Z.div_add_l by lia; rewrite Z.div_small; lia|rewrite Z.add_comm, Z.mod_add by lia; by apply Z.mod_small].
Qed.
Lemma encode_field_nonempty f : (1 ≤ length (encode_field f))%nat.
Proof.
  destruct f as [n v|n d]; unfold encode_field; rewrite !length_app;
    [pose proof (varint_nonempty (n * 8))|pose proof (varint_nonempty (n * 8 + 2))]; lia.
Qed.
Lemma encode_fields_length fs : (length fs ≤ length (encode_fields fs))%nat.
Proof.
  induction fs as [|f fs IH]; [done|]. change (encode_fields (f :: fs)) with (encode_field f ++ encode_fields fs).
  rewrite length_app. cbn [length]. pose proof (encode_field_nonempty f). lia.
Qed.
Lemma past_end_inside payload off len : 0 ≤ off → 0 ≤ len → off + len ≤ Z.of_nat (length payload) → Z.of_nat (length payload) < 2 ^ 63 →
  past_end payload off len = false ∧ off +₆₄ len = off + len.
Proof. intros H1 H2 H3 H4. unfold past_end. rewrite u64_small by (mach_unfold; lia). split; [lia|done]. Qed.
Lemma parse_fields fs : ∀ pre fuel, Forall field_wf fs → (length fs ≤ fuel)%nat →
  Z.of_nat (length (pre ++ encode_fields fs)) < 2 ^ 63 →
  parse_login_res_from fuel (pre ++ encode_fields fs) (Z.of_nat (length pre)) = first_token fs.
Proof.
  induction fs as [|f fs IH]; intros pre fuel Hwf Hf Hl.
  { unfold encode_fields. simpl. rewrite app_nil_r. destruct fuel; cbn [parse_login_res_from]; by rewrite Z.leb_refl. }
  apply Forall_cons in Hwf as [Hw Hwf]. destruct fuel as [|fuel]; [simpl in Hf; lia|]. simpl in Hf.
  change (encode_fields (f :: fs)) with (encode_field f ++ encode_fields fs) in *.
  pose proof (encode_field_nonempty f) as Hne.
  cbn [parse_login_res_from]. destruct (Z.leb_spec (Z.of_nat (length (pre ++ encode_field f ++ encode_fields fs))) (Z.of_nat (length pre))) as [Hle|_];
    [rewrite !length_app in Hle; lia|].
  destruct f as [n v|n data]; cbn [encode_field field_wf first_token] in *.
  - destruct Hw as [Hn Hv]. rewrite <- !app_assoc in *. rewrite read_varint_at by (done || mach_unfold; lia).
    destruct (tag_parts n 0 ltac:(lia)) as [Ht1 Ht2]. rewrite Z.add_0_r in Ht1, Ht2. rewrite Ht1, Ht2. cbn [andb]. rewrite andb_false_r.
    unfold skip_wire_value. cbn [Z.eqb]. rewrite app_assoc in Hl |- *. rewrite read_varint_at by done.
    rewrite app_assoc in Hl |- *. by apply IH; [|lia|].
  - rewrite <- !app_assoc in *. rewrite read_varint_at by (done || mach_unfold; lia).
    destruct (tag_parts n 2 ltac:(lia)) as [Ht1 Ht2]. rewrite Ht1, Ht2. cbn [Z.eqb Pos.eqb]. rewrite andb_true_r.
    rewrite app_assoc in Hl |- *. set (pre1 := pre ++ varint (n * 8 + 2)) in *.
    pose proof Hl as Hl'. rewrite !length_app in Hl'.
    destruct (past_end_inside (pre1 ++ varint (Z.of_nat (length data)) ++ data ++ encode_fields fs)
      (Z.of_nat (length (pre1 ++ varint (Z.of_nat (length data))))) (Z.of_nat (length data))) as [Hp Ha];
      [lia|lia|rewrite !length_app; lia|done|].
    destruct (Z.eqb_spec n 6) as [->|Hn6].
    + rewrite read_varint_at by (done || mach_unfold; lia). rewrite Hp. unfold take_token, max_string_size.
      destruct (Z.ltb_spec (2 ^ 63 - 1) (Z.of_nat (length data))); [lia|]. rewrite app_assoc, !Nat2Z.id, drop_app_length, take_app_length. done.
    + unfold skip_wire_value. cbn [Z.eqb Pos.eqb]. rewrite read_varint_at by (done || mach_unfold; lia). rewrite Hp, Ha.
      rewrite <- Nat2Z.inj_add, <- length_app. rewrite !app_assoc in Hl |- *. by apply IH; [|lia|].
Qed.

(** ** Properties: streams and tokens *)
(** C36: the frame inspector neither loses nor reorders nor invents bytes.  For
    any callbacks and any division of the backend's stream into reads of at most
    8192 bytes (the size of the read buffer), every read terminates; with the calls
    logged, the calls are, frame by frame in order, one to the login callback with
    the body if the frame is a login response and one to the frame callback with
    its id and bytes; the client receives exactly the frames that the frame
    callback did not consume, in order; the incomplete tail stays in the buffer;
    and the 256 KiB limit that would drop bytes is never reached. *)
Theorem inspector_lossless {S} (on_login_res : S → list Z → S) (on_frame : S → Z → list Z → S * bool) (s : S)
    (chunks : list (list Z)) :
  Forall (λ c, Z.of_nat (length c) ≤ 8192) chunks →
  let '(frames, tail) := frames_of (concat chunks) in
  ∃ s' answers, length answers = length frames
    ∧ inspect_stream (logged_login on_login_res) (logged_frame on_frame) (s, []) [] [] chunks
        = Some (s', concat (zip_with calls_for frames answers), concat (not_consumed frames answers), tail)
    ∧ inspect_stream on_login_res on_frame s [] [] chunks = Some (s', concat (not_consumed frames answers), tail)
    ∧ concat frames ++ tail = concat chunks ∧ next_frame tail = None.
Proof.
  intros Hc. pose proof (frames_of_concat (concat chunks)) as [H1 H2].
  pose proof (inspect_stream_frames on_login_res on_frame chunks s [] [] eq_refl Hc) as H3.
  pose proof (inspect_stream_frames (logged_login on_login_res) (logged_frame on_frame) chunks (s, []) [] [] eq_refl Hc) as H4. cbn [app] in H3, H4.
  destruct (frames_of (concat chunks)) as [frames tail]. cbn [fst snd] in *.
  destruct (inspect_frames_logged on_login_res on_frame frames s [] []) as (s' & answers & Hl & E1 & E2). cbn [app] in E1, E2.
  exists s', answers. rewrite H3, H4, E1, E2. done.
Qed.
Lemma inspector_lossless_witness :
  let chunks := [demo_frame 0x0101 1 [7; 8]; take 5 (demo_frame 0x0208 2 [9]); drop 5 (demo_frame 0x0208 2 [9]) ++ [1; 2]] in
  Forall (λ c, Z.of_nat (length c) ≤ 8192) chunks ∧
  (∃ s' answers, length answers = 2%nat
    ∧ inspect_stream (λ (n : Z) _, n) (λ n id _, (n + 1, id =? 0x0208)) 0 [] [] chunks
      = Some (s', concat (not_consumed [demo_frame 0x0101 1 [7; 8]; demo_frame 0x0208 2 [9]] answers), [1; 2])) ∧
  inspect_stream (λ (n : Z) _, n) (λ n id _, (n + 1, id =? 0x0208)) 0 [] [] chunks = Some (2, demo_frame 0x0101 1 [7; 8], [1; 2]).
Proof.
  intros chunks. assert (Hc : Forall (λ c, Z.of_nat (length c) ≤ 8192) chunks)
    by (repeat (apply Forall_cons; split; [vm_compute; congruence|]); constructor).
  split; [done|]. split; [|by vm_compute]. pose proof (inspector_lossless (λ (n : Z) _, n) (λ n id _, (n + 1, id =? 0x0208)) 0 chunks Hc) as H.
  destruct (frames_of _) as [frames tail] eqn:Hf in H. vm_compute in Hf. injection Hf as <- <-.
  destruct H as (s' & answers & Hl & _ & H & _). by exists s', answers.
Defined.

(** The resume token of a login response is found.  For every sequence of
    well-formed protobuf fields the parser returns, with the fuel it is given,
    the first length-delimited field 6, or none. *)
Theorem resume_token_found (fs : list WireField) :
  Forall field_wf fs → Z.of_nat (length (encode_fields fs)) < 2 ^ 63 →
  parse_resume_token_from_login_res (encode_fields fs) = first_token fs.
Proof. intros Hwf Hl. apply (parse_fields fs []); [done|apply encode_fields_length|done]. Qed.
Lemma resume_token_found_witness :
  parse_resume_token_from_login_res (encode_fields [WVarint 1 300; WBytes 2 [1; 2]; WBytes 6 [97; 98]]) = ptToken [97; 98].
Proof.
  apply (resume_token_found [WVarint 1 300; WBytes 2 [1; 2]; WBytes 6 [97; 98]]); [|vm_compute; reflexivity].
  repeat (apply Forall_cons; split; [simpl; mach_unfold; lia|]). constructor.
Defined.

(** A length that wraps the 64-bit offset back to the start of the payload. *)
Definition looping_login_res : list Z := varint (1 * 8 + 2) ++ varint (2 ^ 64 - 11).
(** A malformed login response keeps the gateway's parser running forever:
    no number of iterations ends the loop on this payload, because
    [offset + len] wraps to 0 and passes the bounds check. *)
Theorem login_res_parser_can_loop (fuel : nat) : parse_login_res_from fuel looping_login_res 0 = ptOutOfFuel.
Proof.
  induction fuel as [|fuel IH]; [vm_compute; reflexivity|]. cbn [parse_login_res_from].
  assert (H1 : read_varint looping_login_res 0 = (1, Some 10)) by (vm_compute; reflexivity).
  assert (H2 : skip_wire_value looping_login_res 1 2 = Some 0) by (vm_compute; reflexivity).
  rewrite H1. change (Z.land 10 7) with 2. rewrite H2. exact IH.
Qed.

(** ** Client connection *)
Fixpoint text (bs : list Z) : string := match bs with [] => EmptyString | b :: bs => String (of_code b) (text bs) end.
Record AuthRequest := { aq_token : list Z; aq_client_id : list Z; aq_remote_address : string }.
Record AuthResult := { ar_success : bool; ar_subject : string; ar_failure_reason : string }.
Definition noop_authenticate (q : AuthRequest) : AuthResult :=
  {| ar_success := true;
     ar_subject := if bool_decide (aq_client_id q = []) then "anonymous" else text (aq_client_id q);
     ar_failure_reason := EmptyString |}.

Inductive Phase := kWaitingForLogin | kBridging.
Record GatewayConnection := {
  c_phase : Phase;
  c_prebuffer : list Z;
  c_backend_prebuffer : list Z;
  c_session_id : list Z;
  c_client_id : string;
  c_resume_routing_key : string;
  c_remote_ip : string;
  c_backend : bool;
  c_backend_instance_id : string;
  c_stopped : bool;
}.
Definition connection_new (remote_ip : string) : GatewayConnection :=
  {| c_phase := kWaitingForLogin; c_prebuffer := []; c_backend_prebuffer := []; c_session_id := [];
     c_client_id := EmptyString; c_resume_routing_key := EmptyString; c_remote_ip := remote_ip; c_backend := false;
     c_backend_instance_id := EmptyString; c_stopped := false |}.
Definition set_prebuffer (b : list Z) (c : GatewayConnection) : GatewayConnection :=
  {| c_phase := c_phase c; c_prebuffer := b; c_backend_prebuffer := c_backend_prebuffer c; c_session_id := c_session_id c;
     c_client_id := c_client_id c; c_resume_routing_key := c_resume_routing_key c; c_remote_ip := c_remote_ip c;
     c_backend := c_backend c; c_backend_instance_id := c_backend_instance_id c; c_stopped := c_stopped c |}.
Definition set_backend_prebuffer (b : list Z) (c : GatewayConnection) : GatewayConnection :=
  {| c_phase := c_phase c; c_prebuffer := c_prebuffer c; c_backend_prebuffer := b; c_session_id := c_session_id c;
     c_client_id := c_client_id c; c_resume_routing_key := c_resume_routing_key c; c_remote_ip := c_remote_ip c;
     c_backend := c_backend c; c_backend_instance_id := c_backend_instance_id c; c_stopped := c_stopped c |}.
Definition conn_stop (c : GatewayConnection) : GatewayConnection :=
  {| c_phase := c_phase c; c_prebuffer := c_prebuffer c; c_backend_prebuffer := c_backend_prebuffer c;
     c_session_id := c_session_id c; c_client_id := c_client_id c; c_resume_routing_key := c_resume_routing_key c;
     c_remote_ip := c_remote_ip c; c_backend := c_backend c; c_backend_instance_id := c_backend_instance_id c;
     c_stopped := true |}.
(** The connection once its backend session exists. *)
Definition bridged (client_id resume_key : string) (created : CreatedBackendSession) (c : GatewayConnection) : GatewayConnection :=
  {| c_phase := kBridging; c_prebuffer := []; c_backend_prebuffer := c_backend_prebuffer c;
     c_session_id := cb_session_id created; c_client_id := client_id; c_resume_routing_key := resume_key;
     c_remote_ip := c_remote_ip c; c_backend := true; c_backend_instance_id := cb_backend_instance_id created;
     c_stopped := c_stopped c |}.
Inductive ConnOutput :=
  | ToClient (frame : list Z)
  | ToBackend (payload : list Z)
  | StartConnect (backend : SelectedBackend)
  | DirectEgress (e : UdpEffect).

Definition make_control_frame (header : PacketHeader) (id : Z) (payload : list Z) : list Z :=
  encode_header {| length_ := u16 (Z.of_nat (length payload)); msg_id := id; hdr_flags := hdr_flags header;
                   seq_ := seq_ header; utc_ts_ms32 := utc_ts_ms32 header |} (replicate k_header_bytes 0) ++ payload.
Definition kMaxLoginPayloadBytes : Z := 32 * 1024.
Definition kMaxHandshakeBytes : Z := 64 * 1024.

(** The clock and the random numbers an event sees. *)
Record Ambient := { am_now : Z; am_rd0 : Z; am_rd1 : Z }.

Section Connection.
Context {R : Type} `{!RedisClient R} `{!MapIteration string} `{!MapIteration (list Z)}.
Context (hash : string → Z) (hmac : list Z → list Z → list Z) (sha256 : list Z → list Z)
  (authenticate : AuthRequest → AuthResult).
Implicit Types (g : Gateway) (r : R) (c : GatewayConnection).

Definition make_resume_routing_key (raw_resume_token : list Z) : string :=
  match to_hex (sha256 raw_resume_token) with
  | [] => EmptyString
  | digest => resume_routing_prefix +:+ text digest
  end.
(** The routing key of a login and the resume key it sets, if any. *)
Definition login_routing_key c (user token : list Z) (auth : AuthResult) : string * string :=
  let base := if bool_decide (user = []) then ar_subject auth else text user in
  let resume :=
    if bool_decide (take (length resume_token_prefix) token = resume_token_prefix) then
      match drop (length resume_token_prefix) token with
      | [] => EmptyString
      | raw => make_resume_routing_key raw
      end
    else EmptyString in
  let '(key, stored) := if is_empty resume then (base, c_resume_routing_key c) else (resume, resume) in
  (if is_empty key || bool_decide (key = "guest") then "anonymous" else key, stored).
(** A complete login frame: authentication, backend, ticket, bridge. *)
Definition finish_login g r c (payload : list Z) (am : Ambient) : Gateway * R * GatewayConnection * list ConnOutput :=
  match read_lp_utf8 payload with
  | None => (g, r, conn_stop c, [])
  | Some (user, payload) =>
      match read_lp_utf8 payload with
      | None => (g, r, conn_stop c, [])
      | Some (token, _) =>
          let auth := authenticate {| aq_token := token; aq_client_id := user; aq_remote_address := c_remote_ip c |} in
          if negb (ar_success auth) then (g, r, conn_stop c, [])
          else
            let '(key, resume) := login_routing_key c user token auth in
            if negb (allow_anonymous_ (gw_cfg g)) && (bool_decide (token = []) || bool_decide (key = "anonymous"))
            then (g, r, conn_stop c, [])
            else
              let '(g, r, created) := create_backend_connection hash g r key (am_now am) in
              match created with
              | None => (g, r, conn_stop c, [])
              | Some (session, selected) =>
                  let '(g, ticket) := make_udp_bind_ticket_frame hmac g (cb_session_id session) (am_rd0 am) (am_rd1 am) (am_now am) in
                  let to_client := match ticket with Some frame => [ToClient frame] | None => [] end in
                  (g, r, bridged key resume session c, StartConnect selected :: to_client ++ [ToBackend (c_prebuffer c)])
              end
      end
  end.
(** [try_finish_handshake]; [None] only when the fuel runs out. *)
Fixpoint try_finish_handshake (fuel : nat) g r c (am : Ambient)
    : option (Gateway * R * GatewayConnection * list ConnOutput) :=
  if (length (c_prebuffer c) <? k_header_bytes)%nat then Some (g, r, c, [])
  else
    let header := decode_header (c_prebuffer c) in
    if kMaxLoginPayloadBytes <? length_ header then Some (g, r, conn_stop c, [])
    else
      match next_frame (c_prebuffer c) with
      | None => Some (g, r, c, [])
      | Some (frame, rest) =>
          let again replies :=
            match fuel with
            | O => None
            | S fuel =>
                match try_finish_handshake fuel g r (set_prebuffer rest c) am with
                | Some (g, r, c, out) => Some (g, r, c, replies ++ out)
                | None => None
                end
            end in
          match classify_segment_type (msg_id header) with
          | SegApplicationPayload =>
              if negb (msg_id header =? MSG_LOGIN_REQ) then Some (g, r, conn_stop c, [])
              else Some (finish_login g r c (drop k_header_bytes frame) am)
          | _ =>
              if msg_id header =? MSG_PING
              then again [ToClient (make_control_frame header MSG_PONG (drop k_header_bytes frame))]
              else if msg_id header =? MSG_PONG then again []
              else Some (g, r, conn_stop c, [])
          end
      end.
Definition conn_on_read g r c (data : list Z) (am : Ambient) : option (Gateway * R * GatewayConnection * list ConnOutput) :=
  match data with
  | [] => Some (g, r, c, [])
  | _ =>
      match c_phase c with
      | kWaitingForLogin =>
          if kMaxHandshakeBytes <? Z.of_nat (length (c_prebuffer c) + length data) then Some (g, r, conn_stop c, [])
          else let c := set_prebuffer (c_prebuffer c ++ data) c in
               try_finish_handshake (length (c_prebuffer c)) g r c am
      | kBridging => if c_backend c then Some (g, r, c, [ToBackend data]) else Some (g, r, c, [])
      end
  end.
(** The handshake timer. *)
Definition on_handshake_deadline c : GatewayConnection :=
  match c_phase c with kWaitingForLogin => conn_stop c | kBridging => c end.
Definition on_disconnect g c : Gateway * bool :=
  match c_session_id c with [] => (g, false) | sid => close_backend_connection g sid end.

(** Traffic from the backend.  [bs_crashed]: the token parser threw or hangs. *)
Record BackendScan := { bs_gateway : Gateway; bs_redis : R; bs_effects : list UdpEffect; bs_crashed : bool }.
Definition inspect_login_response_payload c (am : Ambient) (s : BackendScan) (body : list Z) : BackendScan :=
  if negb (c_backend c) then s
  else
    match parse_resume_token_from_login_res body with
    | ptToken token =>
        let key := make_resume_routing_key token in
        if bool_decide (token = []) || is_empty key || is_empty (c_backend_instance_id c) then s
        else
          let '(g, r) := register_resume_routing_key (bs_gateway s) (bs_redis s) key (c_backend_instance_id c) (am_now am) in
          {| bs_gateway := g; bs_redis := r; bs_effects := bs_effects s; bs_crashed := bs_crashed s |}
    | ptNone => s
    | _ => {| bs_gateway := bs_gateway s; bs_redis := bs_redis s; bs_effects := bs_effects s; bs_crashed := true |}
    end.
Definition direct_frame c (am : Ambient) (s : BackendScan) (id : Z) (frame : list Z) : BackendScan * bool :=
  match c_session_id c with
  | [] => (s, false)
  | sid =>
      let '(g, effects, sent) := try_send_direct_client_frame (bs_gateway s) sid id frame (am_now am) in
      ({| bs_gateway := g; bs_redis := bs_redis s; bs_effects := bs_effects s ++ effects; bs_crashed := bs_crashed s |}, sent)
  end.
Definition handle_backend_payload g r c (payload : list Z) (am : Ambient)
    : option (BackendScan * GatewayConnection * list ConnOutput) :=
  let s := {| bs_gateway := g; bs_redis := r; bs_effects := []; bs_crashed := false |} in
  if bool_decide (payload = []) || c_stopped c then Some (s, c, [])
  else
    match inspect_backend_frames (inspect_login_response_payload c am) (direct_frame c am) s (c_backend_prebuffer c) payload with
    | None => None
    | Some (s, tcp_payload, prebuffer) =>
        Some (s, set_backend_prebuffer prebuffer c,
              (DirectEgress <$> bs_effects s) ++ match tcp_payload with [] => [] | p => [ToClient p] end)
    end.
Definition handle_backend_close c : GatewayConnection := conn_stop c.
(** [on_connect]: the admission decision. *)
Definition on_connect g c (ready healthy stop_requested token : bool) (now : Z) : Gateway * GatewayConnection :=
  match admit_ingress_connection g ready healthy stop_requested token now with
  | (g, kAccept) => (count connections_total g, set_prebuffer [] c)
  | (g, _) => (g, conn_stop c)
  end.

(** The reads of a connection until it is stopped. *)
Fixpoint conn_reads g r c (reads : list (list Z * Ambient)) : option (Gateway * R * GatewayConnection * list ConnOutput) :=
  match reads with
  | [] => Some (g, r, c, [])
  | (data, am) :: reads =>
      if c_stopped c then Some (g, r, c, [])
      else
        match conn_on_read g r c data am with
        | None => None
        | Some (g, r, c, out) =>
            match conn_reads g r c reads with
            | None => None
            | Some (g, r, c, out') => Some (g, r, c, out ++ out')
            end
        end
  end.
End Connection.

(** ** Lemmas: the handshake *)
Definition backend_bytes (out : list ConnOutput) : list Z :=
  concat ((λ o, match o with ToBackend p => p | _ => [] end) <$> out).
Definition client_frames (out : list ConnOutput) : list (list Z) :=
  concat ((λ o, match o with ToClient f => [f] | _ => [] end) <$> out).
Lemma backend_bytes_app a b : backend_bytes (a ++ b) = backend_bytes a ++ backend_bytes b.
Proof. unfold backend_bytes. by rewrite fmap_app, concat_app. Qed.
Lemma client_frames_app a b : client_frames (a ++ b) = client_frames a ++ client_frames b.
Proof. unfold client_frames. by rewrite fmap_app, concat_app. Qed.
(** A complete PING or PONG frame. *)
Definition control_frame (f : list Z) : Prop :=
  next_frame f = Some (f, []) ∧ (msg_id (decode_header f) = MSG_PING ∨ msg_id (decode_header f) = MSG_PONG).
Definition reply_to (f : list Z) : list ConnOutput :=
  if msg_id (decode_header f) =? MSG_PING
  then [ToClient (make_control_frame (decode_header f) MSG_PONG (drop k_header_bytes f))] else [].
Definition replies (ctl : list (list Z)) : list ConnOutput := concat (reply_to <$> ctl).
Lemma replies_no_backend ctl : backend_bytes (replies ctl) = [].
Proof.
  induction ctl as [|f ctl IH]; [done|]. change (replies (f :: ctl)) with (reply_to f ++ replies ctl).
  rewrite backend_bytes_app, IH.
  unfold reply_to. by destruct (_ =? MSG_PING).
Qed.
Lemma next_frame_whole buf f rest : next_frame buf = Some (f, rest) →
  next_frame f = Some (f, []) ∧ decode_header f = decode_header buf.
Proof.
  intros Hn. destruct (next_frame_some _ _ _ Hn) as (-> & Hl & Hf). rewrite decode_header_app by done. split; [|done].
  unfold next_frame. destruct (Nat.ltb_spec (length f) k_header_bytes); [lia|].
  rewrite <- Hf, Nat.ltb_irrefl. by rewrite firstn_all, drop_all.
Qed.
(** What a connection has done with the bytes it was given. *)
Inductive bridge_state (given : list Z) (out : list ConnOutput) : GatewayConnection → Prop :=
  | bridge_waiting c ctl : c_phase c = kWaitingForLogin → Forall control_frame ctl →
      given = concat ctl ++ c_prebuffer c → out = replies ctl → bridge_state given out c
  | bridge_open c ctl sent login rest ticket sel later : c_phase c = kBridging → c_backend c = true → Forall control_frame ctl →
      given = concat ctl ++ sent → next_frame sent = Some (login, rest) → msg_id (decode_header login) = MSG_LOGIN_REQ →
      (length ticket ≤ 1)%nat → backend_bytes later = sent → client_frames later = ticket →
      out = replies ctl ++ StartConnect sel :: later → bridge_state given out c.
Lemma bridge_state_prepend f given out c : control_frame f → bridge_state given out c →
  bridge_state (f ++ given) (reply_to f ++ out) c.
Proof.
  intros Hf [c' ctl Hp Hc -> ->|c' ctl sent login rest ticket sel later Hp Hb Hc -> Hn Hid Ht Hl1 Hl2 ->].
  - apply (bridge_waiting _ _ c' (f :: ctl)); [done|by constructor|simpl; by rewrite app_assoc|done].
  - apply (bridge_open _ _ c' (f :: ctl) sent login rest ticket sel later); try done; [by constructor|simpl; by rewrite app_assoc|].
    change (replies (f :: ctl)) with (reply_to f ++ replies ctl). by rewrite <- app_assoc.
Qed.

Section HandshakeLemmas.
Context {R : Type} `{!RedisClient R} `{!MapIteration string} `{!MapIteration (list Z)}.
Context (hash : string → Z) (hmac : list Z → list Z → list Z) (sha256 : list Z → list Z)
  (authenticate : AuthRequest → AuthResult).
Implicit Types (g : Gateway) (r : R) (c : GatewayConnection).

Lemma finish_login_bridge g r c payload am login rest :
  c_stopped c = false → next_frame (c_prebuffer c) = Some (login, rest) → msg_id (decode_header login) = MSG_LOGIN_REQ →
  let '(g', r', c', out) := finish_login hash hmac sha256 authenticate g r c payload am in
  c_stopped c' = true ∨ (c_stopped c' = false ∧ bridge_state (c_prebuffer c) out c').
Proof.
  intros Hs Hn Hid. unfold finish_login. destruct (read_lp_utf8 payload) as [[user p1]|]; [|by left].
  destruct (read_lp_utf8 p1) as [[token p2]|]; [|by left]. destruct (negb (ar_success _)); [by left|].
  destruct (login_routing_key sha256 c user token _) as [key resume]. destruct (_ && _); [by left|].
  destruct (create_backend_connection hash g r key (am_now am)) as [[g1 r1] [[session sel]|]]; [|by left].
  destruct (make_udp_bind_ticket_frame hmac g1 _ _ _ _) as [g2 ticket]. right. split; [done|].
  set (tick := match ticket with Some f => [ToClient f] | None => [] end).
  assert (Ht : backend_bytes tick = [] ∧ (length (client_frames tick) ≤ 1)%nat) by (subst tick; destruct ticket; split; simpl; done || lia).
  destruct Ht as [Ht1 Ht2].
  apply (bridge_open _ _ _ [] (c_prebuffer c) login rest (client_frames tick) sel (tick ++ [ToBackend (c_prebuffer c)]));
    try done.
  - rewrite backend_bytes_app, Ht1. unfold backend_bytes. simpl. by rewrite app_nil_r.
  - rewrite client_frames_app. unfold client_frames at 2. simpl. by rewrite app_nil_r.
Qed.
Lemma try_finish_handshake_bridge fuel : ∀ g r c am, (length (c_prebuffer c) ≤ fuel)%nat →
  c_phase c = kWaitingForLogin → c_stopped c = false →
  ∃ g' r' c' out, try_finish_handshake hash hmac sha256 authenticate fuel g r c am = Some (g', r', c', out)
    ∧ (c_stopped c' = true ∨ (c_stopped c' = false ∧ bridge_state (c_prebuffer c) out c')).
Proof.
  assert (Hwait : ∀ c, c_phase c = kWaitingForLogin → bridge_state (c_prebuffer c) [] c)
    by (intros c Hp; by apply (bridge_waiting _ _ c [])).
  induction fuel as [|fuel IH]; intros g r c am Hl Hp Hs; cbn [try_finish_handshake].
  { destruct (c_prebuffer c) as [|b bs] eqn:Hb; [|simpl in Hl; lia]. cbn. eexists _, _, _, _. split; [done|]. right.
    split; [done|]. rewrite <- Hb. by apply Hwait. }
  destruct (length (c_prebuffer c) <? k_header_bytes)%nat; [eauto 10|].
  destruct (kMaxLoginPayloadBytes <? _); [by eexists _, _, _, _; split; [|left]|].
  destruct (next_frame (c_prebuffer c)) as [[f rest]|] eqn:Hn; [|eauto 10].
  destruct (next_frame_whole _ _ _ Hn) as [Hw Hh]. destruct (next_frame_some _ _ _ Hn) as (Hbuf & _).
  assert (Hagain : control_frame f → ∃ g' r' c' out,
    match try_finish_handshake hash hmac sha256 authenticate fuel g r (set_prebuffer rest c) am with
    | Some (g, r, c, out) => Some (g, r, c, reply_to f ++ out) | None => None end = Some (g', r', c', out)
    ∧ (c_stopped c' = true ∨ (c_stopped c' = false ∧ bridge_state (c_prebuffer c) out c'))).
  { intros Hc. pose proof (next_frame_shorter _ _ _ Hn).
    destruct (IH g r (set_prebuffer rest c) am) as (g' & r' & c' & out & -> & Hres); [simpl; lia|done|done|].
    eexists _, _, _, _. split; [done|]. destruct Hres as [?|[? Hb]]; [by left|right]. split; [done|]. rewrite Hbuf.
    by apply bridge_state_prepend. }
  rewrite <- Hh. unfold reply_to in Hagain. destruct (classify_segment_type (msg_id (decode_header f))) eqn:Hseg.
  all: try (destruct (Z.eqb_spec (msg_id (decode_header f)) MSG_PING);
    [apply Hagain; split; [done|by left]|destruct (Z.eqb_spec (msg_id (decode_header f)) MSG_PONG);
      [apply Hagain; split; [done|by right]|by eexists _, _, _, _; split; [|left]]]).
  destruct (Z.eqb_spec (msg_id (decode_header f)) MSG_LOGIN_REQ) as [Hid|]; cbn [negb]; [|by eexists _, _, _, _; split; [|left]].
  pose proof (finish_login_bridge g r c (drop k_header_bytes f) am f rest Hs Hn Hid) as Hfin.
  destruct (finish_login _ _ _ _ g r c _ am) as [[[g' r'] c'] out]. eauto 10.
Qed.
Lemma bridge_state_prepend_all ctl given out c : Forall control_frame ctl → bridge_state given out c →
  bridge_state (concat ctl ++ given) (replies ctl ++ out) c.
Proof.
  intros Hc Hb. induction Hc as [|f ctl Hf Hc IH]; [done|]. change (replies (f :: ctl)) with (reply_to f ++ replies ctl).
  simpl. rewrite <- !app_assoc. by apply bridge_state_prepend.
Qed.
Lemma conn_on_read_bridge g r c given out data am : c_stopped c = false → bridge_state given out c →
  ∃ g' r' c' out', conn_on_read hash hmac sha256 authenticate g r c data am = Some (g', r', c', out')
    ∧ (c_stopped c' = true ∨ (c_stopped c' = false ∧ bridge_state (given ++ data) (out ++ out') c')).
Proof.
  intros Hs Hb. unfold conn_on_read. destruct data as [|b data].
  { eexists _, _, _, _. split; [done|]. right. by rewrite !app_nil_r. }
  set (d := b :: data). clearbody d. destruct Hb as [c ctl Hp Hc -> ->|c ctl sent login rest ticket sel later Hp Hbk Hc -> Hn Hid Ht Hl1 Hl2 ->]; rewrite Hp.
  - destruct (kMaxHandshakeBytes <? _); [by eexists _, _, _, _; split; [|left]|].
    destruct (try_finish_handshake_bridge (length (c_prebuffer c ++ d)) g r (set_prebuffer (c_prebuffer c ++ d) c) am)
      as (g' & r' & c' & out' & Heq & Hres); [done|done|done|]. eexists _, _, _, _. split; [exact Heq|].
    destruct Hres as [?|[? Hb]]; [by left|right]. split; [done|]. rewrite <- app_assoc. by apply bridge_state_prepend_all.
  - rewrite Hbk. eexists _, _, _, _. split; [done|]. right. split; [done|].
    apply (bridge_open _ _ c ctl (sent ++ d) login (rest ++ d) ticket sel (later ++ [ToBackend d])); try done.
    + by rewrite app_assoc.
    + by apply next_frame_app.
    + rewrite backend_bytes_app, Hl1. unfold backend_bytes. simpl. by rewrite app_nil_r.
    + rewrite client_frames_app, Hl2. unfold client_frames. simpl. by rewrite app_nil_r.
    + by rewrite <- app_assoc.
Qed.
Lemma conn_reads_bridge reads : ∀ g r c given out, c_stopped c = false → bridge_state given out c →
  ∃ g' r' c' out', conn_reads hash hmac sha256 authenticate g r c reads = Some (g', r', c', out')
    ∧ (c_stopped c' = false → bridge_state (given ++ concat reads.*1) (out ++ out') c').
Proof.
  induction reads as [|[data am] reads IH]; intros g r c given out Hs Hb; cbn [conn_reads].
  { eexists _, _, _, _. split; [done|]. intros _. simpl. by rewrite !app_nil_r. }
  rewrite Hs. destruct (conn_on_read_bridge g r c given out data am Hs Hb) as (g1 & r1 & c1 & o1 & -> & [Hst|[Hs1 Hb1]]).
  - destruct reads as [|[d2 am2] reads]; cbn [conn_reads]; rewrite ?Hst; (eexists _, _, _, _; split; [done|]; congruence).
  - destruct (IH g1 r1 c1 _ _ Hs1 Hb1) as (g2 & r2 & c2 & o2 & -> & H2). eexists _, _, _, _. split; [done|].
    intros Hs2. specialize (H2 Hs2). simpl. by rewrite !app_assoc in *.
Qed.
End HandshakeLemmas.

(** C8: the bridge is transparent.  However the client's bytes are divided into
    reads, every read terminates, and as long as the connection lives the bytes
    split into leading PING/PONG frames and a remainder: before the login the
    remainder is buffered and nothing reaches the backend; afterwards it is
    exactly what the backend received, it starts with a complete login frame,
    and the client got one PONG per PING and at most one ticket frame. *)
Theorem bridge_transparent {R} `{!RedisClient R, !MapIteration string, !MapIteration (list Z)}
    (hash : string → Z) (hmac : list Z → list Z → list Z) (sha256 : list Z → list Z)
    (authenticate : AuthRequest → AuthResult) (g : Gateway) (r : R) (remote_ip : string) (reads : list (list Z * Ambient)) :
  ∃ g' r' c out, conn_reads hash hmac sha256 authenticate g r (connection_new remote_ip) reads = Some (g', r', c, out)
  ∧ (c_stopped c = false → ∃ ctl, Forall control_frame ctl
      ∧ match c_phase c with
        | kWaitingForLogin =>
            concat reads.*1 = concat ctl ++ c_prebuffer c ∧ backend_bytes out = []
            ∧ client_frames out = client_frames (replies ctl)
        | kBridging =>
            concat reads.*1 = concat ctl ++ backend_bytes out
            ∧ (∃ login rest, next_frame (backend_bytes out) = Some (login, rest)
                 ∧ msg_id (decode_header login) = MSG_LOGIN_REQ)
            ∧ ∃ ticket, (length ticket ≤ 1)%nat ∧ client_frames out = client_frames (replies ctl) ++ ticket
        end).
Proof.
  destruct (conn_reads_bridge hash hmac sha256 authenticate reads g r (connection_new remote_ip) [] []) as (g' & r' & c & out & Heq & H);
    [done|by apply (bridge_waiting _ _ _ [])|].
  exists g', r', c, out. split; [exact Heq|]. intros Hs. specialize (H Hs). cbn [app] in H.
  clear Heq. destruct H as [c ctl Hp Hc Hg Hout|c ctl sent login rest ticket sel later Hp Hbk Hc Hg Hn Hid Ht Hl1 Hl2 Hout];
    exists ctl; rewrite Hp; (split; [done|]).
  - rewrite Hout. split_and!; [done|apply replies_no_backend|done].
  - assert (Hb : backend_bytes out = sent) by (rewrite Hout, backend_bytes_app, replies_no_backend; exact Hl1).
    rewrite Hb. split_and!; [done|eauto|]. exists ticket. split; [done|]. rewrite Hout, client_frames_app. f_equal. exact Hl2.
Qed.
Definition demo_login : list Z := demo_frame MSG_LOGIN_REQ 1 (write_lp_utf8 (write_lp_utf8 [] (bytes "alice")) (bytes "tok")).
Definition demo_ping : list Z := demo_frame MSG_PING 7 [1; 2].
Definition demo_reads : list (list Z * Ambient) :=
  let am := {| am_now := 1000; am_rd0 := 1; am_rd1 := 2 |} in
  [(take 20 (demo_ping ++ demo_login), am); (drop 20 (demo_ping ++ demo_login), am); ([9; 9], am)].
Lemma bridge_transparent_witness :
  ∃ g r c out, conn_reads (λ _, 0) demo_hmac (λ _, [1]) noop_authenticate (gateway_new demo_env "boot" true) demo_redis
      (connection_new "10.0.0.9") demo_reads = Some (g, r, c, out)
    ∧ c_stopped c = false ∧ c_phase c = kBridging ∧ backend_bytes out = demo_login ++ [9; 9].
Proof.
  destruct (bridge_transparent (λ _, 0) demo_hmac (λ _, [1]) noop_authenticate (gateway_new demo_env "boot" true) demo_redis
    "10.0.0.9" demo_reads) as (g & r & c & out & Heq & _).
  exists g, r, c, out. split; [exact Heq|].
  assert (H : (λ o : option (Gateway * gmap string string * GatewayConnection * list ConnOutput),
    match o with Some (_, _, c, out) => (c_stopped c, c_phase c, backend_bytes out) | None => (true, kWaitingForLogin, []) end)
    (conn_reads (λ _, 0) demo_hmac (λ _, [1]) noop_authenticate (gateway_new demo_env "boot" true) demo_redis
      (connection_new "10.0.0.9") demo_reads) = (false, kBridging, demo_login ++ [9; 9])) by (vm_compute; reflexivity).
  rewrite Heq in H. injection H as H1 H2 H3. split; [exact H1|]. split; [exact H2|exact H3].
Defined.
