(* ===== verification/BackendConnection.v ===== *)
(** * Backend connection

    [gateway/src/gateway_backend_connection.cpp]: the gateway's TCP connection to a backend, as
    a machine over the completions of its asynchronous operations.
    [bk_in_flight] holds the writes whose completion has not run yet;
    [client_alive] says whether the client connection can still be locked.
    [BindBackend] is the call of [on_backend_connected] and [DeliverPayload]
    that of [handle_backend_payload], both modelled with the gateway. *)
From S2P Require Import Prelude Containers Redis Frames Resilience GatewayConfig Gateway.
From stdpp Require Import list gmap strings.
Open Scope Z_scope.

Record BackendConnection := {
  bk_queue : list (list Z);
  bk_queued_bytes : Z;
  bk_max_bytes : Z;
  bk_connected : bool;
  bk_writing : bool;
  bk_closed : bool;
  bk_retry_attempt : Z;
  bk_in_flight : list (list Z);
}.
Definition backend_connection_new (send_queue_max_bytes : Z) : BackendConnection :=
  {| bk_queue := []; bk_queued_bytes := 0;
     bk_max_bytes := if 0 <? send_queue_max_bytes then send_queue_max_bytes else 256 * 1024;
     bk_connected := false; bk_writing := false; bk_closed := false; bk_retry_attempt := 0; bk_in_flight := [] |}.
Definition set_link (connected writing : bool) (retry : Z) (b : BackendConnection) : BackendConnection :=
  {| bk_queue := bk_queue b; bk_queued_bytes := bk_queued_bytes b; bk_max_bytes := bk_max_bytes b;
     bk_connected := connected; bk_writing := writing; bk_closed := bk_closed b; bk_retry_attempt := retry;
     bk_in_flight := bk_in_flight b |}.
Definition set_write_queue (queue : list (list Z)) (queued : Z) (b : BackendConnection) : BackendConnection :=
  {| bk_queue := queue; bk_queued_bytes := queued; bk_max_bytes := bk_max_bytes b; bk_connected := bk_connected b;
     bk_writing := bk_writing b; bk_closed := bk_closed b; bk_retry_attempt := bk_retry_attempt b;
     bk_in_flight := bk_in_flight b |}.
Definition set_in_flight (l : list (list Z)) (b : BackendConnection) : BackendConnection :=
  {| bk_queue := bk_queue b; bk_queued_bytes := bk_queued_bytes b; bk_max_bytes := bk_max_bytes b;
     bk_connected := bk_connected b; bk_writing := bk_writing b; bk_closed := bk_closed b;
     bk_retry_attempt := bk_retry_attempt b; bk_in_flight := l |}.

(** What the connection asks of others. *)
Inductive BackendEffect :=
  | StartResolve
  | ArmRetryTimer (delay_ms : Z)
  | BindBackend
  | StartRead
  | DeliverPayload (data : list Z)
  | NotifyClose (reason : string).

Definition do_write (b : BackendConnection) : BackendConnection :=
  match bk_queue b with
  | [] => set_link (bk_connected b) false (bk_retry_attempt b) b
  | msg :: _ => set_link (bk_connected b) true (bk_retry_attempt b) (set_in_flight (bk_in_flight b ++ [msg]) b)
  end.
Definition backend_close (b : BackendConnection) : BackendConnection :=
  if bk_closed b then b
  else {| bk_queue := []; bk_queued_bytes := 0; bk_max_bytes := bk_max_bytes b; bk_connected := false;
          bk_writing := false; bk_closed := true; bk_retry_attempt := bk_retry_attempt b;
          bk_in_flight := bk_in_flight b |}.
Definition close_socket_for_retry (b : BackendConnection) : BackendConnection :=
  set_link false false (bk_retry_attempt b) b.
(** [if (auto conn = connection_.lock()) conn->handle_backend_close(reason); else close();] *)
Definition notify_or_close (client_alive : bool) (reason : string) (b : BackendConnection) : BackendConnection * list BackendEffect :=
  if client_alive then (b, [NotifyClose reason]) else (backend_close b, []).
Definition do_connect (b : BackendConnection) : BackendConnection * list BackendEffect :=
  (close_socket_for_retry b, [StartResolve]).
Definition backend_connect (b : BackendConnection) : BackendConnection * list BackendEffect :=
  if bk_closed b then (b, []) else do_connect (set_link (bk_connected b) (bk_writing b) 0 b).
Definition schedule_connect_retry (g : Gateway) (b : BackendConnection) (now : Z)
    : Gateway * BackendConnection * option (list BackendEffect) :=
  let '(g, ok) := consume_backend_retry_budget g now in
  if negb ok then (count backend_retry_budget_exhausted_total g, b, None)
  else
    let attempt := bk_retry_attempt b +₃₂ 1 in
    let g := count backend_connect_retry_total g in
    (g, close_socket_for_retry (set_link (bk_connected b) (bk_writing b) attempt b),
     Some [ArmRetryTimer (backend_retry_delay g attempt)]).
(** A failed attempt: its own counter, the breaker, then a retry or the end. *)
Definition connect_attempt_failed (g : Gateway) (b : BackendConnection) (counter : Counter) (reason : string)
    (client_alive : bool) (now : Z) : Gateway * BackendConnection * list BackendEffect :=
  let g := record_backend_connect_failure_event (count counter g) now in
  match schedule_connect_retry g b now with
  | (g, b, Some effects) => (g, b, effects)
  | (g, b, None) => let '(b, effects) := notify_or_close client_alive reason b in (g, b, effects)
  end.
Definition backend_send (g : Gateway) (b : BackendConnection) (payload : list Z) (client_alive : bool)
    : Gateway * BackendConnection * list BackendEffect :=
  if bool_decide (payload = []) || bk_closed b then (g, b, [])
  else
    let payload_bytes := Z.of_nat (length payload) in
    if exceeds_queue_budget (bk_max_bytes b) (bk_queued_bytes b) payload_bytes then
      let '(b, effects) := notify_or_close client_alive "backend send queue overflow" b in
      (count backend_send_queue_overflow_total g, b, effects)
    else
      let b := set_write_queue (bk_queue b ++ [payload]) (bk_queued_bytes b +₆₄ payload_bytes) b in
      (g, if bk_connected b && negb (bk_writing b) then do_write b else b, []).

Inductive WriteResult := wrOk | wrAborted | wrError.
(** The completion of the oldest write, [msg]. *)
Definition write_completed (g : Gateway) (b : BackendConnection) (msg : list Z) (res : WriteResult) (client_alive : bool)
    : Gateway * BackendConnection * list BackendEffect :=
  let b := set_in_flight (tail (bk_in_flight b)) b in
  match res with
  | wrAborted => (g, b, [])
  | _ =>
      if bk_closed b then (g, b, [])
      else
        match res with
        | wrError =>
            let '(b, effects) := notify_or_close client_alive "backend write failed" b in
            (count backend_write_error_total g, b, effects)
        | _ =>
            let b := match bk_queue b with
                     | [] => b
                     | _ :: queue =>
                         let sent := Z.of_nat (length msg) in
                         set_write_queue queue (if sent <=? bk_queued_bytes b then bk_queued_bytes b - sent else 0) b
                     end in
            (g, match bk_queue b with
                | [] => set_link (bk_connected b) false (bk_retry_attempt b) b
                | _ => do_write b
                end, [])
        end
  end.

(** [on_read]: [None] is an aborted read, [inl] another error. *)
Definition backend_on_read (b : BackendConnection) (res : option (string + list Z)) (client_alive : bool)
    : BackendConnection * list BackendEffect :=
  match res with
  | None => (b, [])
  | Some (inl message) => (backend_close b, if client_alive then [NotifyClose message] else [])
  | Some (inr data) =>
      (b, match data with
          | [] => []
          | _ => (if client_alive then [DeliverPayload data] else []) ++ [StartRead]
          end)
  end.

(** ** Events *)
Inductive BackendEvent :=
  | BkConnect
  | BkSend (payload : list Z)
  | BkResolveFailed
  | BkConnectFailed
  | BkConnectTimeout
  | BkConnected
  | BkRetryTimer
  | BkWriteDone (res : WriteResult)
  | BkRead (res : option (string + list Z))
  | BkClose.
Definition backend_exec (client_alive : bool) (now : Z) (st : Gateway * BackendConnection) (ev : BackendEvent)
    : Gateway * BackendConnection * list BackendEffect :=
  let '(g, b) := st in
  match ev with
  | BkConnect => let '(b, effects) := backend_connect b in (g, b, effects)
  | BkSend payload => backend_send g b payload client_alive
  | BkResolveFailed =>
      if bk_closed b then (g, b, [])
      else connect_attempt_failed g b backend_resolve_fail_total "resolve failed" client_alive now
  | BkConnectFailed =>
      if bk_closed b then (g, b, [])
      else connect_attempt_failed g b backend_connect_fail_total "connect failed" client_alive now
  | BkConnectTimeout =>
      if bk_closed b then (g, b, [])
      else connect_attempt_failed g b backend_connect_timeout_total "connect timeout" client_alive now
  | BkConnected =>
      if bk_closed b then (g, b, [])
      else
        let b := set_link true (bk_writing b) 0 b in
        let b := match bk_queue b with [] => b | _ => do_write b end in
        (record_backend_connect_success_event g, b, [BindBackend; StartRead])
  | BkRetryTimer => if bk_closed b then (g, b, []) else let '(b, effects) := do_connect b in (g, b, effects)
  | BkWriteDone res =>
      match bk_in_flight b with
      | msg :: _ => write_completed g b msg res client_alive
      | [] => (g, b, [])
      end
  | BkRead res => let '(b, effects) := backend_on_read b res client_alive in (g, b, effects)
  | BkClose => (g, backend_close b, [])
  end.

(** ** Lemmas *)
Definition queue_bytes (l : list (list Z)) : Z := foldr (λ m n, Z.of_nat (length m) + n) 0 l.
Lemma queue_bytes_app a b : queue_bytes (a ++ b) = queue_bytes a + queue_bytes b.
Proof. unfold queue_bytes. induction a as [|m a IH]; simpl; [done|]. rewrite IH. lia. Qed.
Lemma queue_bytes_nonneg l : 0 ≤ queue_bytes l.
Proof. induction l as [|m l IH]; simpl; lia. Qed.
(** The payloads a step adds to the queue and those it finishes writing. *)
Definition accepted_by (b : BackendConnection) (ev : BackendEvent) : list (list Z) :=
  match ev with
  | BkSend payload =>
      if bool_decide (payload = []) || bk_closed b
         || exceeds_queue_budget (bk_max_bytes b) (bk_queued_bytes b) (Z.of_nat (length payload))
      then [] else [payload]
  | _ => []
  end.
Definition written_by (b : BackendConnection) (ev : BackendEvent) : list (list Z) :=
  match ev, bk_in_flight b with
  | BkWriteDone wrOk, msg :: _ => if bk_closed b then [] else [msg]
  | _, _ => []
  end.
(** A connect completes only after the writes of the socket it replaces have
    completed: they were started, and their socket closed, before the resolve
    that led to it. *)
Definition event_allowed (b : BackendConnection) (ev : BackendEvent) : Prop :=
  match ev with BkConnected => bk_in_flight b = [] | _ => True end.
(** The machine with the histories of accepted and written payloads. *)
Record History := { hs_accepted : list (list Z); hs_written : list (list Z) }.
Inductive backend_reachable : Gateway → BackendConnection → History → Prop :=
  | br_new g max : is_u64 max → backend_reachable g (backend_connection_new max) {| hs_accepted := []; hs_written := [] |}
  | br_step g b h client_alive now ev g' b' effects : backend_reachable g b h → event_allowed b ev →
      backend_exec client_alive now (g, b) ev = (g', b', effects) →
      backend_reachable g' b' {| hs_accepted := hs_accepted h ++ accepted_by b ev; hs_written := hs_written h ++ written_by b ev |}.
Record backend_ok (b : BackendConnection) (h : History) : Prop := {
  bo_max : 0 < bk_max_bytes b < 2 ^ 64;
  bo_bytes : bk_queued_bytes b = queue_bytes (bk_queue b) ∧ bk_queued_bytes b ≤ bk_max_bytes b;
  bo_open : bk_closed b = false → hs_accepted h = hs_written h ++ bk_queue b;
  bo_closed : bk_closed b = true → bk_queue b = [] ∧ bk_connected b = false
    ∧ ∃ lost, hs_accepted h = hs_written h ++ lost;
  bo_flight : bk_closed b = false → bk_in_flight b = [] ∨ ∃ m rest, bk_in_flight b = [m] ∧ bk_queue b = m :: rest;
  bo_writing : bk_connected b = true → bk_in_flight b ≠ [] → bk_writing b = true;
}.

(** Each piece of a step keeps [backend_ok]. *)
Lemma do_write_ok b h : backend_ok b h → bk_closed b = false → bk_in_flight b = [] → backend_ok (do_write b) h.
Proof.
  intros [] Hc Hf. unfold do_write. destruct (bk_queue b) as [|m q] eqn:Hq.
  - constructor; simpl; rewrite ?Hq, ?Hf; auto; try done; try congruence.
  - constructor; simpl; rewrite ?Hq, ?Hf; auto; try done; try congruence.
    intros _. right. by exists m, q.
Qed.
Lemma backend_close_ok b h : backend_ok b h → backend_ok (backend_close b) h.
Proof.
  intros Hok. unfold backend_close. destruct (bk_closed b) eqn:Hc; [done|]. destruct Hok as [? [Hb Hm] Ho ? ? ?].
  constructor; simpl; try done; [lia|]. intros _. split; [done|]. split; [done|]. eexists. by apply Ho.
Qed.
Lemma set_link_ok b h writing retry : backend_ok b h → backend_ok (set_link false writing retry b) h.
Proof. intros [? ? ? Hcl ? ?]. constructor; simpl; try done. intros Hc. destruct (Hcl Hc) as (?&_&?); auto. Qed.
Lemma set_retry_ok b h retry : backend_ok b h → backend_ok (set_link (bk_connected b) (bk_writing b) retry b) h.
Proof. intros []. by constructor. Qed.
Lemma notify_or_close_ok b h alive reason : backend_ok b h → backend_ok (notify_or_close alive reason b).1 h.
Proof. intros. unfold notify_or_close. destruct alive; simpl; auto using backend_close_ok. Qed.
Create HintDb backend.
#[export] Hint Resolve do_write_ok backend_close_ok set_link_ok set_retry_ok notify_or_close_ok : backend.
Lemma connect_attempt_failed_ok g b h counter reason alive now : backend_ok b h →
  backend_ok (connect_attempt_failed g b counter reason alive now).1.2 h.
Proof.
  intros. unfold connect_attempt_failed, schedule_connect_retry.
  destruct (consume_backend_retry_budget _ _) as [g1 [|]]; simpl.
  - unfold close_socket_for_retry. auto with backend.
  - destruct (notify_or_close _ _ _) as [b' e] eqn:Hn; simpl.
    replace b' with (notify_or_close alive reason b).1 by (by rewrite Hn). auto with backend.
Qed.
Lemma within_budget b n : 0 < bk_max_bytes b < 2 ^ 64 → 0 ≤ bk_queued_bytes b ≤ bk_max_bytes b → 0 ≤ n →
  exceeds_queue_budget (bk_max_bytes b) (bk_queued_bytes b) n = false →
  bk_queued_bytes b +₆₄ n = bk_queued_bytes b + n ∧ bk_queued_bytes b + n ≤ bk_max_bytes b.
Proof.
  unfold exceeds_queue_budget. intros Hm Hq Hn.
  destruct (Z.eqb_spec (bk_max_bytes b) 0); [lia|]. destruct (Z.ltb_spec (bk_max_bytes b) n); [done|].
  intros ?%Z.ltb_ge. split; [|lia]. mach.
Qed.
Lemma backend_send_ok g b h payload alive : backend_ok b h →
  backend_ok (backend_send g b payload alive).1.2
    {| hs_accepted := hs_accepted h ++ accepted_by b (BkSend payload); hs_written := hs_written h |}.
Proof.
  intros Hok. unfold backend_send, accepted_by.
  destruct (bool_decide (payload = []) || bk_closed b) eqn:He; simpl; rewrite ?app_nil_r; [by destruct h|].
  apply orb_false_iff in He as [_ Hc].
  destruct (exceeds_queue_budget _ _ _) eqn:Hb; simpl; rewrite ?app_nil_r.
  - destruct (notify_or_close _ _ _) as [b' e] eqn:Hn; simpl.
    replace b' with (notify_or_close alive "backend send queue overflow" b).1 by (by rewrite Hn).
    destruct h. auto with backend.
  - destruct Hok as [Hm [Hq Hle] Ho Hcl Hf Hw].
    pose proof (queue_bytes_nonneg (bk_queue b)).
    destruct (within_budget b (Z.of_nat (length payload))) as [Hs Hle']; [done|lia|lia|done|].
    set (b1 := set_write_queue _ _ b). set (h1 := {| hs_accepted := _; hs_written := _ |}).
    assert (Hok1 : backend_ok b1 h1).
    { subst b1 h1. constructor; simpl; try done; try congruence.
      - rewrite queue_bytes_app, Hs. simpl. split; [lia|done].
      - intros _. rewrite Ho, <- app_assoc by done. done.
      - intros _. destruct (Hf Hc) as [->|(m & rest & -> & ->)]; [by left|]. right. by exists m, (rest ++ [payload]). }
    destruct (bk_connected b && negb (bk_writing b)) eqn:Hg; [|done].
    apply andb_true_iff in Hg as [Hcn Hwr%negb_true_iff]. apply do_write_ok; [done..|].
    simpl. destruct (bk_in_flight b) eqn:Hfl; [done|]. rewrite Hw in Hwr; done.
Qed.
Lemma write_completed_ok g b h m fl res alive : backend_ok b h → bk_in_flight b = m :: fl →
  backend_ok (write_completed g b m res alive).1.2
    {| hs_accepted := hs_accepted h; hs_written := hs_written h ++ written_by b (BkWriteDone res) |}.
Proof.
  intros Hok Hfl. unfold write_completed, written_by. rewrite Hfl. simpl.
  assert (Hok1 : backend_ok (set_in_flight fl b) h).
  { destruct Hok as [? ? ? Hcl Hf Hw]. constructor; simpl; try done.
    - intros Hc. destruct (Hf Hc) as [?|(m' & rest & Hm & _)]; [congruence|]. rewrite Hfl in Hm. simplify_eq. by left.
    - intros Hc _. apply Hw; [done|]. by rewrite Hfl. }
  destruct res; simpl; rewrite ?app_nil_r; [|by destruct h|].
  - destruct (bk_closed b) eqn:Hc; simpl; rewrite ?app_nil_r; [by destruct h|].
    destruct Hok as [Hm [Hq Hle] Ho Hcl Hf Hw].
    destruct (Hf Hc) as [?|(m' & rest & Hm' & Hqu)]; [congruence|]. rewrite Hfl in Hm'. simplify_eq.
    rewrite Hqu in *. simpl in Hq. pose proof (queue_bytes_nonneg rest).
    destruct (Z.leb_spec (Z.of_nat (length m')) (bk_queued_bytes b)); [|unfold queue_bytes in *; lia].
    set (b1 := set_write_queue _ _ _). set (h1 := {| hs_accepted := _; hs_written := _ |}).
    assert (Hok2 : backend_ok b1 h1).
    { subst b1 h1. constructor; simpl; try done; try congruence.
      - unfold queue_bytes in *. split; lia.
      - intros _. rewrite Ho by done. by rewrite <- app_assoc.
      - intros _. by left. }
    unfold b1 at 1. simpl. destruct rest as [|n rest]; [|by apply do_write_ok].
    destruct Hok2. constructor; simpl; try done.
  - destruct (bk_closed b) eqn:Hc; simpl; [by destruct h|].
    destruct (notify_or_close _ _ _) as [b' e] eqn:Hn; simpl.
    replace b' with (notify_or_close alive "backend write failed" (set_in_flight fl b)).1 by (by rewrite Hn).
    destruct h. auto with backend.
Qed.
Lemma backend_exec_ok alive now g b h ev : backend_ok b h → event_allowed b ev →
  backend_ok (backend_exec alive now (g, b) ev).1.2
    {| hs_accepted := hs_accepted h ++ accepted_by b ev; hs_written := hs_written h ++ written_by b ev |}.
Proof.
  intros Hok Hev.
  assert (Hh : {| hs_accepted := hs_accepted h ++ []; hs_written := hs_written h ++ [] |} = h).
  { destruct h. simpl. by rewrite !app_nil_r. }
  destruct ev as [ |payload| | | | | |res|res| ]; cbn [backend_exec];
    try (change (accepted_by b _) with (@nil (list Z)); change (written_by b _) with (@nil (list Z)); rewrite Hh);
    try (destruct (bk_closed b) eqn:Hc; [done|by apply connect_attempt_failed_ok]).
  - unfold backend_connect, do_connect, close_socket_for_retry.
    destruct (bk_closed b); simpl; auto with backend.
  - change (written_by b _) with (@nil (list Z)). rewrite app_nil_r. by apply backend_send_ok.
  - destruct (bk_closed b) eqn:Hc; [done|]. simpl in Hev. cbn [fst snd].
    assert (Hok1 : backend_ok (set_link true (bk_writing b) 0 b) h).
    { destruct Hok. constructor; simpl; try done; congruence. }
    cbn [set_link bk_queue] in *. destruct (bk_queue b); [done|by apply do_write_ok].
  - destruct (bk_closed b); [done|]. simpl. unfold close_socket_for_retry. auto with backend.
  - destruct (bk_in_flight b) as [|m fl] eqn:Hfl.
    + unfold accepted_by, written_by. rewrite Hfl. by destruct res; rewrite Hh.
    + change (accepted_by b _) with (@nil (list Z)). rewrite app_nil_r. by eapply write_completed_ok.
  - destruct res as [[?|data]|]; simpl; auto with backend.
  - simpl. auto with backend.
Qed.
Lemma backend_reachable_ok g b h : backend_reachable g b h → backend_ok b h.
Proof.
  induction 1 as [g max [Hm0 Hm]|g b h alive now ev g' b' effects _ IH Hev Hx].
  - unfold backend_connection_new. constructor; simpl; try done; try (by left).
    + destruct (Z.ltb_spec 0 max); lia.
    + destruct (Z.ltb_spec 0 max); lia.
  - pose proof (backend_exec_ok alive now g b h ev IH Hev) as Hok. by rewrite Hx in Hok.
Qed.

(** C19: whatever the order of sends, connect attempts, retries, write
    completions and closes, the backend connection's queued-byte count is the
    size of its queue and never exceeds its budget; while the connection is open at
    most one write is outstanding and the payloads accepted are, in order, the
    ones written followed by the ones queued, so retries neither drop, reorder
    nor repeat a payload that was written; a closed connection has written a
    prefix of what it accepted and holds nothing. *)
Theorem backend_queue_fifo g b h : backend_reachable g b h →
  bk_queued_bytes b = queue_bytes (bk_queue b) ∧ 0 ≤ bk_queued_bytes b ≤ bk_max_bytes b
  ∧ hs_written h `prefix_of` hs_accepted h
  ∧ (bk_closed b = false → hs_accepted h = hs_written h ++ bk_queue b ∧ (length (bk_in_flight b) ≤ 1)%nat)
  ∧ (bk_closed b = true → bk_queue b = [] ∧ bk_connected b = false).
Proof.
  intros [Hm [Hq Hle] Ho Hcl Hf _]%backend_reachable_ok. pose proof (queue_bytes_nonneg (bk_queue b)).
  split; [done|]. split; [lia|]. split.
  { destruct (bk_closed b) eqn:Hc; [destruct Hcl as (_&_&lost&->)|rewrite Ho]; try done; by eexists. }
  split.
  - intros Hc. split; [by apply Ho|]. destruct (Hf Hc) as [->|(m&rest&->&_)]; simpl; lia.
  - intros Hc. destruct (Hcl Hc) as (?&?&_); auto.
Qed.

(** ** Witnesses *)
Definition backend_run (evs : list BackendEvent) : Gateway * BackendConnection :=
  foldl (λ st ev, (backend_exec true 0 st ev).1) (demo_gateway_app, backend_connection_new 4) evs.
(** A payload sent while the first attempt is failing is written after the retry. *)
Definition demo_backend_events : list BackendEvent :=
  [BkConnect; BkSend [1; 2]; BkConnectFailed; BkRetryTimer; BkConnected; BkSend [3]; BkSend [4; 5]; BkWriteDone wrOk].
Lemma backend_run_reachable evs ev h : backend_reachable (backend_run evs).1 (backend_run evs).2 h →
  event_allowed (backend_run evs).2 ev →
  backend_reachable (backend_run (evs ++ [ev])).1 (backend_run (evs ++ [ev])).2
    {| hs_accepted := hs_accepted h ++ accepted_by (backend_run evs).2 ev;
       hs_written := hs_written h ++ written_by (backend_run evs).2 ev |}.
Proof.
  intros Hr Hev. unfold backend_run in *. rewrite foldl_app. simpl.
  set (st := foldl _ _ evs) in *. destruct st as [g b].
  destruct (backend_exec true 0 (g, b) ev) as [[g' b'] e] eqn:Hx. simpl in *.
  by eapply (br_step g b h true 0 ev g' b' e).
Qed.
Lemma demo_backend_reachable :
  backend_reachable (backend_run demo_backend_events).1 (backend_run demo_backend_events).2
    {| hs_accepted := [[1; 2]; [3]]; hs_written := [[1; 2]] |}.
Proof.
  pose proof (br_new demo_gateway_app 4 ltac:(unfold in_u; lia)) as H0.
  change demo_gateway_app with (backend_run []).1 in H0. change (backend_connection_new 4) with (backend_run []).2 in H0.
  repeat (match type of H0 with
          | backend_reachable (backend_run ?evs).1 _ _ =>
              let rest := eval vm_compute in (drop (length evs) demo_backend_events) in
              match rest with
              | ?ev :: _ => apply (backend_run_reachable evs ev) in H0; [|vm_compute; reflexivity || exact I]
              end
          end).
  exact H0.
Qed.
Lemma backend_queue_fifo_witness :
  let b := (backend_run demo_backend_events).2 in
  bk_queued_bytes b = 1 ∧ bk_closed b = false ∧ [[1; 2]; [3]] = [[1; 2]] ++ bk_queue b.
Proof.
  pose proof (backend_queue_fifo _ _ _ demo_backend_reachable) as (Hb & _ & _ & Ho & _).
  split; [rewrite Hb; vm_compute; reflexivity|]. split; [vm_compute; reflexivity|].
  exact (proj1 (Ho ltac:(vm_compute; reflexivity))).
Defined.

(** ** A timeout is counted twice *)
(** Closing the socket on a connect timeout completes the pending connect with
    an error, which the connect handler counts as another failure: one timed-out
    attempt records two breaker failures and advances the backoff by two, and
    three of them open a breaker whose threshold is five. *)
Definition timed_out_attempt : list BackendEvent := [BkConnectTimeout; BkConnectFailed].
Lemma connect_timeout_counted_twice :
  let once := backend_run (BkConnect :: timed_out_attempt) in
  let thrice := backend_run (BkConnect :: timed_out_attempt ++ BkRetryTimer :: timed_out_attempt
                             ++ BkRetryTimer :: timed_out_attempt) in
  consecutive_failures_ (gw_breaker once.1) = 2 ∧ bk_retry_attempt once.2 = 2
  ∧ gw_counters once.1 backend_connect_retry_total = 2
  ∧ failure_threshold_ (gw_breaker thrice.1) = 5 ∧ gw_counters thrice.1 backend_connect_timeout_total = 3
  ∧ gw_counters thrice.1 backend_circuit_open_total = 1.
Proof. vm_compute. auto 10. Qed.
