(* ===== verification/Concurrency.v ===== *)
(** * Blocking queues and worker pools

    [core/concurrent/job_queue.cpp], [locked_queue.hpp] ([LockedWaitQueue]),
    [thread_manager.cpp] and [core/storage/db_worker_pool.cpp].  Both queues are a
    mutex, one condition variable and a deque; a call is a critical section that
    ends in a result or in [cv_.wait].  The condition variable is modelled as
    the standard describes it: waiting threads, notified threads that still have
    to take the mutex, and a notification that wakes any one waiter.  An event
    names the waiter that is woken, so that the event lists are all schedules. *)
From S2P Require Import Prelude.
From stdpp Require Import list gmap sets.
Open Scope Z_scope.

Section BlockingQueue.
Context {J : Type}.

(** [JobQueue] refuses [TryPush] when stopping; [LockedWaitQueue]'s inherited
    [try_push] does not look at its shutdown flag. *)
Record BlockingQueue := {
  bq_jobs : list J;
  bq_stopping : bool;
  bq_max : Z;
  bq_try_checks_stop : bool;
}.
Definition job_queue_new (max_size : Z) : BlockingQueue :=
  {| bq_jobs := []; bq_stopping := false; bq_max := max_size; bq_try_checks_stop := true |}.
Definition locked_wait_queue_new (capacity : Z) : BlockingQueue :=
  {| bq_jobs := []; bq_stopping := false; bq_max := capacity; bq_try_checks_stop := false |}.
Definition set_jobs (jobs : list J) (q : BlockingQueue) : BlockingQueue :=
  {| bq_jobs := jobs; bq_stopping := bq_stopping q; bq_max := bq_max q; bq_try_checks_stop := bq_try_checks_stop q |}.
Definition set_stopping (b : bool) (q : BlockingQueue) : BlockingQueue :=
  {| bq_jobs := bq_jobs q; bq_stopping := b; bq_max := bq_max q; bq_try_checks_stop := bq_try_checks_stop q |}.
Definition queue_full (q : BlockingQueue) : bool := (0 <? bq_max q) && (bq_max q <=? Z.of_nat (length (bq_jobs q))).

(** A call that may block: [Push job] or [Pop]. *)
Inductive Wait := WPush (job : J) | WPop.
(** The queue and its condition variable: threads in [cv_.wait], and notified ones. *)
Record QueueSys := {
  qs_queue : BlockingQueue;
  qs_waiting : gmap nat Wait;
  qs_woken : gmap nat Wait;
}.
Inductive Outcome :=
  | OPushed (job : J)
  | OPopped (job : J)
  | OPopEmpty
  | ODropped (job : J)
  | ORejected (job : J)
  | OBlocked
  | ONone.
Definition set_queue (q : BlockingQueue) (s : QueueSys) : QueueSys :=
  {| qs_queue := q; qs_waiting := qs_waiting s; qs_woken := qs_woken s |}.
(** [notify_one]: [None] is only possible without waiters. *)
Definition notify_one (who : option nat) (s : QueueSys) : option QueueSys :=
  match who with
  | None => if decide (qs_waiting s = ∅) then Some s else None
  | Some t =>
      w ← qs_waiting s !! t;
      Some {| qs_queue := qs_queue s; qs_waiting := delete t (qs_waiting s); qs_woken := <[t := w]> (qs_woken s) |}
  end.
Definition notify_all (s : QueueSys) : QueueSys :=
  {| qs_queue := qs_queue s; qs_waiting := ∅; qs_woken := qs_woken s ∪ qs_waiting s |}.
Definition block (t : nat) (w : Wait) (s : QueueSys) : QueueSys :=
  {| qs_queue := qs_queue s; qs_waiting := <[t := w]> (qs_waiting s); qs_woken := qs_woken s |}.

(** The critical section of a blocking call of thread [t], from its start or from
    the return of [wait]. *)
Definition push_section (s : QueueSys) (t : nat) (job : J) (who : option nat) : option (QueueSys * Outcome) :=
  let q := qs_queue s in
  if bq_stopping q then Some (s, ODropped job)
  else if queue_full q then Some (block t (WPush job) s, OBlocked)
  else s ← notify_one who (set_queue (set_jobs (bq_jobs q ++ [job]) q) s); Some (s, OPushed job).
Definition pop_section (s : QueueSys) (t : nat) (who : option nat) : option (QueueSys * Outcome) :=
  let q := qs_queue s in
  match bq_jobs q with
  | [] => if bq_stopping q then Some (s, OPopEmpty) else Some (block t WPop s, OBlocked)
  | job :: jobs =>
      let s := set_queue (set_jobs jobs q) s in
      s ← (if 0 <? bq_max q then notify_one who s else Some s); Some (s, OPopped job)
  end.
Definition wait_section (s : QueueSys) (t : nat) (w : Wait) (who : option nat) : option (QueueSys * Outcome) :=
  match w with WPush job => push_section s t job who | WPop => pop_section s t who end.
Definition try_push (s : QueueSys) (job : J) (who : option nat) : option (QueueSys * Outcome) :=
  let q := qs_queue s in
  if bq_try_checks_stop q && bq_stopping q then Some (s, ORejected job)
  else if queue_full q then Some (s, ORejected job)
  else s ← notify_one who (set_queue (set_jobs (bq_jobs q ++ [job]) q) s); Some (s, OPushed job).
Definition queue_stop (s : QueueSys) : QueueSys := notify_all (set_queue (set_stopping true (qs_queue s)) s).

Inductive QueueEvent :=
  | EPush (t : nat) (job : J) (who : option nat)
  | EPop (t : nat) (who : option nat)
  | ETryPush (job : J) (who : option nat)
  | EStop
  | EWake (t : nat) (who : option nat)
  | ESpurious (t : nat).
(** A thread that is in a call makes no other. *)
Definition idle_thread (s : QueueSys) (t : nat) : bool :=
  bool_decide (qs_waiting s !! t = None) && bool_decide (qs_woken s !! t = None).
Definition queue_exec (s : QueueSys) (ev : QueueEvent) : option (QueueSys * Outcome) :=
  match ev with
  | EPush t job who => if idle_thread s t then push_section s t job who else None
  | EPop t who => if idle_thread s t then pop_section s t who else None
  | ETryPush job who => try_push s job who
  | EStop => Some (queue_stop s, ONone)
  | EWake t who =>
      w ← qs_woken s !! t;
      wait_section {| qs_queue := qs_queue s; qs_waiting := qs_waiting s; qs_woken := delete t (qs_woken s) |} t w who
  | ESpurious t => s ← notify_one (Some t) s; Some (s, ONone)
  end.
Definition sys_new (q : BlockingQueue) : QueueSys := {| qs_queue := q; qs_waiting := ∅; qs_woken := ∅ |}.
Fixpoint queue_run (s : QueueSys) (evs : list QueueEvent) : option (QueueSys * list Outcome) :=
  match evs with
  | [] => Some (s, [])
  | ev :: evs =>
      '(s, o) ← queue_exec s ev;
      '(s, os) ← queue_run s evs;
      Some (s, o :: os)
  end.

(** ** Lemmas *)
Definition pushed (os : list Outcome) : list J := omap (λ o, match o with OPushed j => Some j | _ => None end) os.
Definition popped (os : list Outcome) : list J := omap (λ o, match o with OPopped j => Some j | _ => None end) os.
Lemma notify_one_queue who s s' : notify_one who s = Some s' → qs_queue s' = qs_queue s.
Proof. unfold notify_one. intros H. destruct who; [|case_decide]; simplify_option_eq; done. Qed.
Lemma queue_full_false q : queue_full q = false → 0 < bq_max q → Z.of_nat (length (bq_jobs q)) < bq_max q.
Proof. unfold queue_full. destruct (Z.ltb_spec 0 (bq_max q)), (Z.leb_spec (bq_max q) (Z.of_nat (length (bq_jobs q)))); simpl; lia. Qed.
(** What one event does to the queue. *)
Record step_ok (q q' : BlockingQueue) (o : Outcome) : Prop := {
  so_fifo : bq_jobs q ++ pushed [o] = popped [o] ++ bq_jobs q';
  so_max : bq_max q' = bq_max q;
  so_bound : Z.of_nat (length (bq_jobs q)) ≤ bq_max q → Z.of_nat (length (bq_jobs q')) ≤ bq_max q ∨ bq_max q ≤ 0;
  so_stop : bq_stopping q = true → bq_stopping q' = true;
  so_empty : o = OPopEmpty → bq_stopping q = true ∧ bq_jobs q = [];
}.
Lemma step_ok_same q o : pushed [o] = [] → popped [o] = [] → o ≠ OPopEmpty → step_ok q q o.
Proof. intros Hu Ho Hn. constructor; rewrite ?Hu, ?Ho, ?app_nil_r; [done|done|intros; by left|done|done]. Qed.
Lemma step_ok_push s j who s' : queue_full (qs_queue s) = false →
  notify_one who (set_queue (set_jobs (bq_jobs (qs_queue s) ++ [j]) (qs_queue s)) s) = Some s' →
  step_ok (qs_queue s) (qs_queue s') (OPushed j).
Proof.
  intros Hf ->%notify_one_queue. constructor; simpl; try done. intros _.
  destruct (decide (0 < bq_max (qs_queue s))) as [Hm|Hm]; [left|right; lia].
  pose proof (queue_full_false _ Hf Hm). rewrite length_app. simpl. lia.
Qed.
Lemma wait_section_ok s t w who s' o : wait_section s t w who = Some (s', o) → step_ok (qs_queue s) (qs_queue s') o.
Proof.
  destruct w as [j|]; simpl; unfold push_section, pop_section.
  - destruct (bq_stopping (qs_queue s)); [intros H; injection H as <- <-; by apply step_ok_same|].
    destruct (queue_full (qs_queue s)) eqn:Hf; [intros H; injection H as <- <-; by apply step_ok_same|].
    intros (s2 & Hn & H)%bind_Some. injection H as <- <-. by eapply step_ok_push.
  - destruct (bq_jobs (qs_queue s)) as [|j jobs] eqn:Hj.
    + destruct (bq_stopping (qs_queue s)) eqn:Hst; intros H; injection H as <- <-; [|by apply step_ok_same].
      constructor; simpl; rewrite ?Hj; auto.
    + intros (s2 & Hn & H)%bind_Some. injection H as <- <-.
      assert (qs_queue s2 = set_jobs jobs (qs_queue s)) as ->.
      { destruct (0 <? bq_max (qs_queue s)); [by apply notify_one_queue in Hn|by injection Hn as <-]. }
      constructor; simpl; rewrite ?Hj, ?app_nil_r; try done. simpl. intros. left. lia.
Qed.
Lemma queue_exec_ok s ev s' o : queue_exec s ev = Some (s', o) → step_ok (qs_queue s) (qs_queue s') o.
Proof.
  intros H. destruct ev as [t j who|t who|j who| |t who|t]; cbn [queue_exec] in H.
  - case_match; [|done]. by eapply (wait_section_ok s t (WPush j)).
  - case_match; [|done]. by eapply (wait_section_ok s t WPop).
  - unfold try_push in H. destruct (_ && _); [injection H as <- <-; by apply step_ok_same|].
    destruct (queue_full (qs_queue s)) eqn:Hf; [injection H as <- <-; by apply step_ok_same|].
    apply bind_Some in H as (s2 & Hn & H). injection H as <- <-. by eapply step_ok_push.
  - injection H as <- <-. by constructor; simpl; rewrite ?app_nil_r; auto.
  - apply bind_Some in H as (w & _ & H). by apply wait_section_ok in H.
  - apply bind_Some in H as (s2 & Hn & H). injection H as <- <-. apply notify_one_queue in Hn as ->. by apply step_ok_same.
Qed.
Lemma pushed_app a b : pushed (a ++ b) = pushed a ++ pushed b.
Proof. apply omap_app. Qed.
Lemma popped_app a b : popped (a ++ b) = popped a ++ popped b.
Proof. apply omap_app. Qed.
Record run_ok (s s' : QueueSys) (os : list Outcome) : Prop := {
  ro_fifo : bq_jobs (qs_queue s) ++ pushed os = popped os ++ bq_jobs (qs_queue s');
  ro_max : bq_max (qs_queue s') = bq_max (qs_queue s);
  ro_bound : Z.of_nat (length (bq_jobs (qs_queue s))) ≤ bq_max (qs_queue s) → 0 < bq_max (qs_queue s) →
    Z.of_nat (length (bq_jobs (qs_queue s'))) ≤ bq_max (qs_queue s);
  ro_empty : ∀ i, os !! i = Some OPopEmpty →
    bq_jobs (qs_queue s) ++ pushed (take i os) = popped (take i os) ∧ bq_stopping (qs_queue s') = true;
  ro_stop : bq_stopping (qs_queue s) = true → bq_stopping (qs_queue s') = true;
}.
Lemma queue_run_ok evs : ∀ s s' os, queue_run s evs = Some (s', os) → run_ok s s' os.
Proof.
  induction evs as [|ev evs IH]; intros s s' os H; simpl in H.
  - injection H as <- <-. constructor; simpl; rewrite ?app_nil_r; auto; done.
  - apply bind_Some in H as ([s1 o] & Hx & H). apply bind_Some in H as ([s2 os'] & Hr & H). injection H as <- <-.
    destruct (queue_exec_ok _ _ _ _ Hx) as [Hf Hm Hb Hs He]. destruct (IH _ _ _ Hr) as [Hf' Hm' Hb' He' Hs'].
    assert (Hcons : ∀ l, bq_jobs (qs_queue s) ++ pushed (o :: l) = popped [o] ++ bq_jobs (qs_queue s1) ++ pushed l).
    { intros l. change (o :: l) with ([o] ++ l). rewrite pushed_app, !app_assoc. by f_equal. }
    constructor; try congruence; auto.
    + rewrite Hcons, Hf'. change (o :: os') with ([o] ++ os'). by rewrite popped_app, app_assoc.
    + intros H1 H2. rewrite Hm in Hb'. apply Hb'; [destruct (Hb H1); lia|done].
    + intros [|i] Hi; simpl in Hi.
      * injection Hi as ->. destruct (He eq_refl) as [Hst Hj]. simpl. rewrite Hj. auto.
      * destruct (He' i Hi) as [Hd Hst]. split; [|done]. simpl take. rewrite Hcons, Hd.
        change (o :: take i os') with ([o] ++ take i os'). by rewrite popped_app.
Qed.
(** Wake-ups: unless a producer can block, there are enough notified consumers
    for the queued jobs whenever a consumer waits. *)
Definition consumers (m : gmap nat Wait) : Prop := ∀ t w, m !! t = Some w → w = WPop.
Record awake (s : QueueSys) : Prop := {
  aw_waiting : consumers (qs_waiting s);
  aw_woken : consumers (qs_woken s);
  aw_disjoint : qs_waiting s ##ₘ qs_woken s;
  aw_enough : qs_waiting s ≠ ∅ → (length (bq_jobs (qs_queue s)) ≤ size (qs_woken s))%nat;
}.
Lemma notify_one_awake who s s' : notify_one who s = Some s' →
  consumers (qs_waiting s) → consumers (qs_woken s) → qs_waiting s ##ₘ qs_woken s →
  (qs_waiting s ≠ ∅ → (length (bq_jobs (qs_queue s)) ≤ S (size (qs_woken s)))%nat) → awake s'.
Proof.
  unfold notify_one. intros H Hw Hk Hd He. destruct who as [t|].
  - apply bind_Some in H as (w & Ht & H). injection H as <-.
    assert (Hn : qs_woken s !! t = None) by (by eapply map_disjoint_Some_l).
    constructor; simpl.
    + intros t' w' [_ Ht']%lookup_delete_Some. by eapply Hw.
    + intros t' w' [[<- <-]|[_ Ht']]%lookup_insert_Some; [by eapply Hw|by eapply Hk].
    + apply map_disjoint_insert_r_2; [apply lookup_delete_eq|by apply map_disjoint_delete_l].
    + intros _. rewrite map_size_insert_None by done. apply He. intros Hz. by rewrite Hz, lookup_empty in Ht.
  - case_decide as Hz; [|done]. injection H as <-. constructor; auto. done.
Qed.
Lemma block_awake t s : consumers (qs_waiting s) → consumers (qs_woken s) → qs_waiting s ##ₘ qs_woken s →
  qs_woken s !! t = None → bq_jobs (qs_queue s) = [] → awake (block t WPop s).
Proof.
  intros Hw Hk Hd Ht Hj. constructor; simpl; auto.
  - intros t' w' [[_ <-]|[_ Ht']]%lookup_insert_Some; [done|by eapply Hw].
  - by apply map_disjoint_insert_l_2.
  - intros _. rewrite Hj. simpl. lia.
Qed.
Lemma pop_section_awake s t who s' o : pop_section s t who = Some (s', o) →
  consumers (qs_waiting s) → consumers (qs_woken s) → qs_waiting s ##ₘ qs_woken s → qs_woken s !! t = None →
  (qs_waiting s ≠ ∅ → (length (bq_jobs (qs_queue s)) ≤ S (size (qs_woken s)))%nat) → awake s'.
Proof.
  unfold pop_section. intros H Hw Hk Hd Ht He. destruct (bq_jobs (qs_queue s)) as [|j jobs] eqn:Hj.
  - destruct (bq_stopping (qs_queue s)); injection H as <- <-; [|by apply block_awake].
    constructor; auto. rewrite Hj. simpl. lia.
  - apply bind_Some in H as (s2 & Hn & H). injection H as <- <-. destruct (0 <? bq_max (qs_queue s)).
    + eapply notify_one_awake; [exact Hn|..]; simpl; try done. intros Hz. specialize (He Hz). simpl in He. lia.
    + injection Hn as <-. constructor; simpl; auto. intros Hz. specialize (He Hz). simpl in He. lia.
Qed.
Lemma push_awake s j who s' : awake s →
  notify_one who (set_queue (set_jobs (bq_jobs (qs_queue s) ++ [j]) (qs_queue s)) s) = Some s' → awake s'.
Proof.
  intros [Hw Hk Hd He] Hn. eapply notify_one_awake; [exact Hn|..]; simpl; try done.
  intros Hz. rewrite length_app. simpl. specialize (He Hz). lia.
Qed.
(** No producer can block: the queue is unbounded, or only [TryPush] is used. *)
Definition cannot_block (max : Z) (ev : QueueEvent) : Prop := match ev with EPush _ _ _ => max ≤ 0 | _ => True end.
Lemma queue_exec_awake s ev s' o : awake s → cannot_block (bq_max (qs_queue s)) ev →
  queue_exec s ev = Some (s', o) → awake s'.
Proof.
  intros Ha Hc H. pose proof Ha as [Hw Hk Hd He]. destruct ev as [t j who|t who|j who| |t who|t]; cbn [queue_exec] in H.
  - case_match; [|done]. unfold push_section in H. destruct (bq_stopping _); [by injection H as <- <-|].
    simpl in Hc. replace (queue_full (qs_queue s)) with false in H
      by (unfold queue_full; destruct (Z.ltb_spec 0 (bq_max (qs_queue s))); [lia|done]).
    apply bind_Some in H as (s2 & Hn & H). injection H as <- <-. by eapply push_awake.
  - case_match eqn:Hi; [|done]. apply andb_true_iff in Hi as [_ Ht%bool_decide_eq_true].
    eapply pop_section_awake; [exact H|..]; auto.
  - unfold try_push in H. destruct (_ && _); [by injection H as <- <-|].
    destruct (queue_full _); [by injection H as <- <-|].
    apply bind_Some in H as (s2 & Hn & H). injection H as <- <-. by eapply push_awake.
  - injection H as <- <-. unfold queue_stop, notify_all. constructor; simpl; auto.
    + by intros t w; rewrite lookup_empty.
    + intros t w [Ht|[_ Ht]]%lookup_union_Some_raw; [by eapply Hk|by eapply Hw].
    + apply map_disjoint_empty_l.
    + done.
  - apply bind_Some in H as (w & Ht & H). rewrite (Hk _ _ Ht) in H. simpl in H.
    eapply pop_section_awake; [exact H|..]; simpl; auto.
    + intros t' w' [_ Ht']%lookup_delete_Some. by eapply Hk.
    + by apply map_disjoint_delete_r.
    + apply lookup_delete_eq.
    + intros Hz. specialize (He Hz). rewrite map_size_delete_Some by eauto. lia.
  - apply bind_Some in H as (s2 & Hn & H). injection H as <- <-. eapply notify_one_awake; [exact Hn|..]; auto.
Qed.
Lemma queue_run_awake evs : ∀ s s' os, awake s → Forall (cannot_block (bq_max (qs_queue s))) evs →
  queue_run s evs = Some (s', os) → awake s'.
Proof.
  induction evs as [|ev evs IH]; intros s s' os Ha Hc H; simpl in H; [by injection H as <- <-|].
  apply bind_Some in H as ([s1 o] & Hx & H). apply bind_Some in H as ([s2 os'] & Hr & H). injection H as <- <-.
  apply Forall_cons in Hc as [Hc Hcs]. eapply IH; [by eapply queue_exec_awake|..|exact Hr].
  by rewrite (so_max _ _ _ (queue_exec_ok _ _ _ _ Hx)).
Qed.
Lemma stopping_only_by_stop s ev s' o : queue_exec s ev = Some (s', o) → ev ≠ EStop →
  bq_stopping (qs_queue s') = bq_stopping (qs_queue s).
Proof.
  assert (Hsec : ∀ s t w who, wait_section s t w who = Some (s', o) → bq_stopping (qs_queue s') = bq_stopping (qs_queue s)).
  { intros s0 t [j|] who; simpl; unfold push_section, pop_section.
    - destruct (bq_stopping (qs_queue s0)) eqn:Hst; [intros H; by injection H as <- <-|].
      destruct (queue_full _); [intros H; by injection H as <- <-|].
      intros (s2 & Hn & H)%bind_Some. injection H as <- <-. by rewrite (notify_one_queue _ _ _ Hn).
    - destruct (bq_jobs _); [destruct (bq_stopping (qs_queue s0)) eqn:Hst; intros H; by injection H as <- <-|].
      intros (s2 & Hn & H)%bind_Some. injection H as <- <-.
      destruct (0 <? _); [by rewrite (notify_one_queue _ _ _ Hn)|by injection Hn as <-]. }
  intros H Hne. destruct ev as [t j who|t who|j who| |t who|t]; cbn [queue_exec] in H; try done.
  - case_match; [|done]. by eapply (Hsec s t (WPush j)).
  - case_match; [|done]. by eapply (Hsec s t WPop).
  - unfold try_push in H. destruct (_ && _); [by injection H as <- <-|]. destruct (queue_full _); [by injection H as <- <-|].
    apply bind_Some in H as (s2 & Hn & H). injection H as <- <-. by rewrite (notify_one_queue _ _ _ Hn).
  - apply bind_Some in H as (w & _ & H). by eapply Hsec in H.
  - apply bind_Some in H as (s2 & Hn & H). injection H as <- <-. by rewrite (notify_one_queue _ _ _ Hn).
Qed.
(** After a stop nobody waits, whoever was blocked. *)
Lemma stopped_section s t w who s' o : wait_section s t w who = Some (s', o) →
  bq_stopping (qs_queue s) = true → qs_waiting s = ∅ → qs_waiting s' = ∅.
Proof.
  destruct w as [j|]; simpl; unfold push_section, pop_section; intros H Hst Hw; rewrite Hst in H; [by injection H as <- <-|].
  destruct (bq_jobs (qs_queue s)); [by injection H as <- <-|].
  apply bind_Some in H as (s2 & Hn & H). injection H as <- <-.
  destruct (0 <? _); [|by injection Hn as <-]. destruct who as [u|]; simpl in Hn.
  - by rewrite Hw, lookup_empty in Hn.
  - case_decide; [by injection Hn as <-|done].
Qed.
Lemma stopped_no_waiters evs : ∀ s s' os, queue_run s evs = Some (s', os) →
  (bq_stopping (qs_queue s) = true → qs_waiting s = ∅) → bq_stopping (qs_queue s') = true → qs_waiting s' = ∅.
Proof.
  induction evs as [|ev evs IH]; intros s s' os H Hs Hst; simpl in H; [injection H as <- <-; auto|].
  apply bind_Some in H as ([s1 o] & Hx & H). apply bind_Some in H as ([s2 os'] & Hr & H). injection H as <- <-.
  apply (IH _ _ _ Hr); [|done]. intros Hst1. destruct (bq_stopping (qs_queue s)) eqn:Hst0.
  - specialize (Hs eq_refl). destruct ev as [t j who|t who|j who| |t who|t]; cbn [queue_exec] in Hx.
    + case_match; [|done]. by eapply (stopped_section s t (WPush j)).
    + case_match; [|done]. by eapply (stopped_section s t WPop).
    + unfold try_push in Hx. destruct (_ && _); [by injection Hx as <- <-|].
      destruct (queue_full _); [by injection Hx as <- <-|]. apply bind_Some in Hx as (s3 & Hn & Hx). injection Hx as <- <-.
      destruct who as [u|]; simpl in Hn; [by rewrite Hs, lookup_empty in Hn|]. case_decide; [by injection Hn as <-|done].
    + by injection Hx as <- <-.
    + apply bind_Some in Hx as (w & _ & Hx). by eapply stopped_section in Hx.
    + simpl in Hx. by rewrite Hs, lookup_empty in Hx.
  - destruct ev as [t j who|t who|j who| |t who|t]; try (by injection Hx as <- <-);
      exfalso; revert Hst1; rewrite (stopping_only_by_stop _ _ _ _ Hx); try done; by rewrite Hst0.
Qed.
End BlockingQueue.
Arguments BlockingQueue : clear implicits.
Arguments QueueSys : clear implicits.
Arguments QueueEvent : clear implicits.
Arguments Outcome : clear implicits.
Arguments Wait : clear implicits.

(** ** Workers *)
(** [DbWorkerPool::process_job]: the calls on the unit of work and whether the job
    counts as processed; the flags say what throws. *)
Inductive UnitCall := UTask | UCommit | URollback.
Definition process_job (has_unit task_throws commit_throws auto_commit : bool) : list UnitCall * bool :=
  if negb has_unit then ([], false)
  else if task_throws then ([UTask; URollback], false)
  else if auto_commit then if commit_throws then ([UTask; UCommit; URollback], false) else ([UTask; UCommit], true)
  else ([UTask; URollback], true).
(** One turn of a worker: [None] leaves the loop.  A database worker leaves only
    on an empty pop of a stopping pool; a [ThreadManager] worker also when the
    manager has been stopped, whatever is queued. *)
Definition db_worker_turn {J} (popped : option J) (stopping : bool) : option (option J) :=
  match popped with Some job => Some (Some job) | None => if stopping then None else Some None end.
Definition thread_worker_turn {J} (stopped : bool) (popped : option J) : option J := if stopped then None else popped.

(** ** Properties *)
(** C32: the blocking queues are bounded FIFO queues under every schedule.  For
    any interleaving of pushes, pops, wake-ups and stops, the jobs taken are the
    jobs accepted, in order and once each, the rest is still queued, a bounded
    queue never exceeds its bound, and a consumer is told to leave only after a
    stop and when every accepted job has been taken. *)
Theorem queue_fifo {J} (q : BlockingQueue J) (evs : list (QueueEvent J)) (s : QueueSys J) (os : list (Outcome J)) :
  bq_jobs q = [] → queue_run (sys_new q) evs = Some (s, os) →
  pushed os = popped os ++ bq_jobs (qs_queue s)
  ∧ (0 < bq_max q → Z.of_nat (length (bq_jobs (qs_queue s))) ≤ bq_max q)
  ∧ (∀ i, os !! i = Some OPopEmpty → bq_stopping (qs_queue s) = true ∧ pushed (take i os) = popped (take i os)).
Proof.
  intros Hq Hr. destruct (queue_run_ok _ _ _ _ Hr) as [Hf _ Hb He _]. simpl in *. rewrite Hq in *. simpl in *.
  split; [done|]. split; [intros; apply Hb; lia|]. intros i Hi. destruct (He i Hi). auto.
Qed.
(** No wake-up is lost while producers cannot block.  If the queue is
    unbounded or is only filled with [TryPush], then whenever a job is queued and
    a consumer waits, a notified consumer is on its way; and once the queue is
    stopped nobody waits at all. *)
Theorem wakeups_not_lost {J} (q : BlockingQueue J) (evs : list (QueueEvent J)) (s : QueueSys J) (os : list (Outcome J)) :
  bq_jobs q = [] → bq_stopping q = false → Forall (cannot_block (bq_max q)) evs → queue_run (sys_new q) evs = Some (s, os) →
  (bq_jobs (qs_queue s) ≠ [] → qs_waiting s ≠ ∅ → ∃ t, qs_woken s !! t = Some WPop)
  ∧ (bq_stopping (qs_queue s) = true → qs_waiting s = ∅).
Proof.
  intros Hq Hst Hc Hr. split.
  - intros Hj Hw. assert (Ha : awake (sys_new q)).
    { constructor; simpl; try (intros t w; by rewrite lookup_empty); [apply map_disjoint_empty_l|]. by rewrite Hq. }
    destruct (queue_run_awake evs _ _ _ Ha Hc Hr) as [_ Hk _ He]. specialize (He Hw).
    destruct (decide (qs_woken s = ∅)) as [Hz|(t & w & Ht)%map_choose].
    + rewrite Hz, map_size_empty in He. destruct (bq_jobs (qs_queue s)); [done|simpl in He; lia].
    + exists t. by rewrite <- (Hk _ _ Ht).
  - by apply (stopped_no_waiters evs (sys_new q) s os Hr).
Qed.
(** Two consumers wait; a producer fills the queue and wakes the first, a second
    producer waits for space, the first consumer's notification goes to the
    second consumer, which finds nothing and waits again. *)
Definition hanging_schedule : list (QueueEvent Z) :=
  [EPop 1 None; EPop 2 None; EPush 3 10 (Some 1%nat); EPush 4 20 None; EWake 1 (Some 2%nat); EWake 2 None; EPop 1 None].
Definition hung_queue : QueueSys Z :=
  {| qs_queue := job_queue_new 1; qs_waiting := {[1%nat := WPop; 2%nat := WPop; 4%nat := WPush 20]}; qs_woken := ∅ |}.
(** A bounded queue can hang its producers.  Consumers and producers share one
    condition variable, and [notify_one] after a pop may wake a consumer instead
    of the producer that waits for space: on this schedule of two consumers and
    two producers the queue ends empty and not stopped, a producer and both
    consumers wait, nobody has been notified, and none of the three can take a
    step. *)
Theorem bounded_push_can_hang :
  (∃ os, queue_run (sys_new (job_queue_new 1)) hanging_schedule = Some (hung_queue, os))
  ∧ ∀ (t : nat) (job : Z) (who : option nat), is_Some (qs_waiting hung_queue !! t) →
      queue_exec hung_queue (EPush t job who) = None ∧ queue_exec hung_queue (EPop t who) = None
      ∧ queue_exec hung_queue (EWake t who) = None.
Proof.
  split.
  - exists [OBlocked; OBlocked; OPushed 10; OBlocked; OPopped 10; OBlocked; OBlocked]. vm_compute. reflexivity.
  - intros t job who [w Hw]. cbn [queue_exec]. unfold idle_thread. by rewrite Hw, bool_decide_eq_false_2 by done.
Qed.
Lemma queue_fifo_witness :
  pushed [OBlocked; OBlocked; OPushed 10; OBlocked; OPopped 10; OBlocked; OBlocked] = [10 : Z] ++ bq_jobs (qs_queue hung_queue).
Proof.
  refine (proj1 (queue_fifo (job_queue_new 1) hanging_schedule hung_queue
    [OBlocked; OBlocked; OPushed 10; OBlocked; OPopped 10; OBlocked; OBlocked] eq_refl _)).
  vm_compute. reflexivity.
Defined.
Lemma wakeups_not_lost_witness :
  ∃ t, (<[1%nat := WPop]> ∅ : gmap nat (Wait Z)) !! t = Some WPop.
Proof.
  refine (proj1 (wakeups_not_lost (job_queue_new 4)
    [EPop 1 None; EPop 2 None; ETryPush 10 (Some 1%nat)]
    {| qs_queue := {| bq_jobs := [10]; bq_stopping := false; bq_max := 4; bq_try_checks_stop := true |};
       qs_waiting := {[2%nat := WPop]}; qs_woken := <[1%nat := WPop]> ∅ |}
    [OBlocked; OBlocked; OPushed 10] eq_refl eq_refl _ _) _ _); [repeat constructor|vm_compute; reflexivity|done|].
  simpl. apply insert_non_empty.
Defined.
