(* ===== verification/Scheduler.v ===== *)
(** * Task scheduler

    [core/concurrent/task_scheduler.cpp].  Task records are shared objects named
    by their id; the queues hold an id and the generation it was queued with.
    [poll] runs callbacks outside the lock, so it is a machine ([PollPhase]) whose
    steps alternate with the calls the callbacks and other threads make.  A
    [std::priority_queue] is an interface that yields some element of least due
    time.  The backoff multiplier is a double: a policy carries whether it exceeds
    one and the product it stands for. *)
From S2P Require Import Prelude Containers.
From stdpp Require Import list gmap sets.
Open Scope Z_scope.

Record RepeatPolicy := {
  rp_interval : Z;
  rp_max_interval : Z;
  rp_backs_off : bool;
  rp_scaled : Z → Z;
  rp_jitter : Z;
}.
Record RepeatContext := {
  rx_run_count : Z;
  rx_validator_skip_count : Z;
  rx_first_due : Z;
  rx_last_due : Z;
  rx_current_interval : Z;
}.
Definition empty_context : RepeatContext :=
  {| rx_run_count := 0; rx_validator_skip_count := 0; rx_first_due := 0; rx_last_due := 0; rx_current_interval := 0 |}.
Definition empty_policy : RepeatPolicy :=
  {| rp_interval := 0; rp_max_interval := 0; rp_backs_off := false; rp_scaled := λ x, x; rp_jitter := 0 |}.
Record TaskRecord := {
  tr_group : Z;
  tr_repeat_policy : RepeatPolicy;
  tr_repeat_context : RepeatContext;
  tr_repeating : bool;
  tr_canceled : bool;
  tr_generation : Z;
}.
Record ReadyTask := { rt_record : Z; rt_generation : Z }.
Record DelayedTask := { dt_due : Z; dt_record : Z; dt_generation : Z }.
(** [delayed_.top()] *)
Class DueHeap := {
  heap_top : list DelayedTask → nat;
  heap_top_least l : l ≠ [] → ∃ x, l !! heap_top l = Some x ∧ ∀ y, y ∈ l → dt_due x ≤ dt_due y;
}.
Record TaskScheduler := {
  ts_ready : list ReadyTask;
  ts_delayed : list DelayedTask;
  ts_tasks : gset Z;
  ts_records : gmap Z TaskRecord;
  ts_shutdown : bool;
  ts_next_task_id : Z;
  ts_next_group_id : Z;
}.
Definition task_scheduler_new : TaskScheduler :=
  {| ts_ready := []; ts_delayed := []; ts_tasks := ∅; ts_records := ∅; ts_shutdown := false; ts_next_task_id := 1;
     ts_next_group_id := 1 |}.

(** ** Updates *)
Definition set_queues (ready : list ReadyTask) (delayed : list DelayedTask) (s : TaskScheduler) : TaskScheduler :=
  {| ts_ready := ready; ts_delayed := delayed; ts_tasks := ts_tasks s; ts_records := ts_records s;
     ts_shutdown := ts_shutdown s; ts_next_task_id := ts_next_task_id s; ts_next_group_id := ts_next_group_id s |}.
Definition set_tasks (tasks : gset Z) (records : gmap Z TaskRecord) (s : TaskScheduler) : TaskScheduler :=
  {| ts_ready := ts_ready s; ts_delayed := ts_delayed s; ts_tasks := tasks; ts_records := records;
     ts_shutdown := ts_shutdown s; ts_next_task_id := ts_next_task_id s; ts_next_group_id := ts_next_group_id s |}.
Definition set_next_ids (task group : Z) (s : TaskScheduler) : TaskScheduler :=
  {| ts_ready := ts_ready s; ts_delayed := ts_delayed s; ts_tasks := ts_tasks s; ts_records := ts_records s;
     ts_shutdown := ts_shutdown s; ts_next_task_id := task; ts_next_group_id := group |}.
Definition cancel_record (r : TaskRecord) : TaskRecord :=
  {| tr_group := tr_group r; tr_repeat_policy := tr_repeat_policy r; tr_repeat_context := tr_repeat_context r;
     tr_repeating := tr_repeating r; tr_canceled := true; tr_generation := tr_generation r |}.
(** [++record.generation] with a new policy and context. *)
Definition advance_record (policy : RepeatPolicy) (context : RepeatContext) (r : TaskRecord) : TaskRecord :=
  {| tr_group := tr_group r; tr_repeat_policy := policy; tr_repeat_context := context; tr_repeating := tr_repeating r;
     tr_canceled := tr_canceled r; tr_generation := tr_generation r +₆₄ 1 |}.
Definition set_interval (interval due : Z) (c : RepeatContext) : RepeatContext :=
  {| rx_run_count := rx_run_count c; rx_validator_skip_count := rx_validator_skip_count c; rx_first_due := rx_first_due c;
     rx_last_due := due; rx_current_interval := interval |}.
Definition count_run (runs skips : Z) (c : RepeatContext) : RepeatContext :=
  {| rx_run_count := rx_run_count c +₆₄ runs; rx_validator_skip_count := rx_validator_skip_count c +₆₄ skips;
     rx_first_due := rx_first_due c; rx_last_due := rx_last_due c; rx_current_interval := rx_current_interval c |}.
Definition push_ready (id generation : Z) (s : TaskScheduler) : TaskScheduler :=
  set_queues (ts_ready s ++ [{| rt_record := id; rt_generation := generation |}]) (ts_delayed s) s.
Definition push_delayed (due id generation : Z) (s : TaskScheduler) : TaskScheduler :=
  set_queues (ts_ready s) (ts_delayed s ++ [{| dt_due := due; dt_record := id; dt_generation := generation |}]) s.
Definition put_record (id : Z) (r : TaskRecord) (s : TaskScheduler) : TaskScheduler :=
  set_tasks (ts_tasks s) (<[id := r]> (ts_records s)) s.
(** [tasks_.erase(id)] and [canceled = true] *)
Definition drop_task (id : Z) (r : TaskRecord) (s : TaskScheduler) : TaskScheduler :=
  set_tasks (ts_tasks s ∖ {[id]}) (<[id := cancel_record r]> (ts_records s)) s.

(** ** Delays *)
Definition clamp_duration (delay : Z) : Z := if delay <=? 0 then 0 else delay.
Definition is_valid_repeat_policy (p : RepeatPolicy) : bool := 0 <? rp_interval p.
Definition apply_jitter (draw : Z → Z) (delay jitter : Z) : Z :=
  let delay := clamp_duration delay in
  let cap := clamp_duration jitter in
  if cap <=? 0 then delay else delay + draw cap.
Definition next_repeat_delay (draw : Z → Z) (r : TaskRecord) : Z :=
  let policy := tr_repeat_policy r in
  let current := rx_current_interval (tr_repeat_context r) in
  let delay := if current <=? 0 then rp_interval policy else current in
  let delay :=
    if rp_backs_off policy then
      let next := rp_scaled policy delay in
      let next := if next <? 0 then 0 else next in
      if 0 <? rp_max_interval policy then Z.min next (rp_max_interval policy) else next
    else rp_interval policy in
  apply_jitter draw delay (rp_jitter policy).

(** ** Calls; a handle is the id, 0 for the empty one *)
Definition create_cancel_group (s : TaskScheduler) : TaskScheduler * Z :=
  (set_next_ids (ts_next_task_id s) (ts_next_group_id s +₆₄ 1) s, ts_next_group_id s).
Definition schedule_controlled (s : TaskScheduler) (group delay now : Z) : TaskScheduler * Z :=
  if ts_shutdown s then (s, 0)
  else
    let id := ts_next_task_id s in
    let r := {| tr_group := group; tr_repeat_policy := empty_policy; tr_repeat_context := empty_context;
                tr_repeating := false; tr_canceled := false; tr_generation := 0 |} in
    let s := set_next_ids (id +₆₄ 1) (ts_next_group_id s) s in
    let s := set_tasks ({[id]} ∪ ts_tasks s) (<[id := r]> (ts_records s)) s in
    (if delay <=? 0 then push_ready id 0 s else push_delayed (now + clamp_duration delay) id 0 s, id).
Definition schedule_every_controlled (s : TaskScheduler) (group : Z) (policy : RepeatPolicy) (draw : Z → Z) (now : Z)
    : TaskScheduler * Z :=
  if negb (is_valid_repeat_policy policy) || ts_shutdown s then (s, 0)
  else
    let id := ts_next_task_id s in
    let delay := apply_jitter draw (rp_interval policy) (rp_jitter policy) in
    let due := now + delay in
    let r := {| tr_group := group; tr_repeat_policy := policy;
                tr_repeat_context := {| rx_run_count := 0; rx_validator_skip_count := 0; rx_first_due := due;
                                        rx_last_due := due; rx_current_interval := delay |};
                tr_repeating := true; tr_canceled := false; tr_generation := 0 |} in
    let s := set_next_ids (id +₆₄ 1) (ts_next_group_id s) s in
    let s := set_tasks ({[id]} ∪ ts_tasks s) (<[id := r]> (ts_records s)) s in
    (push_delayed due id 0 s, id).
(** A live task of the map. *)
Definition find_task (s : TaskScheduler) (id : Z) : option TaskRecord :=
  if bool_decide (id ∈ ts_tasks s) then ts_records s !! id else None.
Definition advance_cancel (r : TaskRecord) : TaskRecord :=
  cancel_record (advance_record (tr_repeat_policy r) (tr_repeat_context r) r).
Definition cancel_task (s : TaskScheduler) (id : Z) : TaskScheduler :=
  match find_task s id with
  | Some r => set_tasks (ts_tasks s ∖ {[id]}) (<[id := advance_cancel r]> (ts_records s)) s
  | None => s
  end.
Definition cancel (s : TaskScheduler) (token : Z) : TaskScheduler * bool :=
  if (token =? 0) || ts_shutdown s then (s, false)
  else match find_task s token with Some _ => (cancel_task s token, true) | None => (s, false) end.
Definition in_group (s : TaskScheduler) (group id : Z) : bool :=
  match find_task s id with Some r => tr_group r =? group | None => false end.
Definition cancel_group (s : TaskScheduler) (group : Z) : TaskScheduler * Z :=
  if (group =? 0) || ts_shutdown s then (s, 0)
  else
    let ids := filter (λ id, in_group s group id = true) (elements (ts_tasks s)) in
    (foldl cancel_task s ids, Z.of_nat (length ids)).
Definition reschedule (s : TaskScheduler) (token delay now : Z) : TaskScheduler * bool :=
  if (token =? 0) || ts_shutdown s then (s, false)
  else
    match find_task s token with
    | None => (s, false)
    | Some r =>
        if tr_canceled r then (s, false)
        else
          let due := now + clamp_duration delay in
          let context := if tr_repeating r then set_interval (clamp_duration delay) due (tr_repeat_context r)
                         else tr_repeat_context r in
          let r := advance_record (tr_repeat_policy r) context r in
          let s := put_record token r s in
          (if delay <=? 0 then push_ready token (tr_generation r) s else push_delayed due token (tr_generation r) s, true)
    end.
Definition update_repeat_policy (s : TaskScheduler) (token : Z) (policy : RepeatPolicy) (draw : Z → Z) (now : Z)
    : TaskScheduler * bool :=
  if (token =? 0) || negb (is_valid_repeat_policy policy) || ts_shutdown s then (s, false)
  else
    match find_task s token with
    | None => (s, false)
    | Some r =>
        if negb (tr_repeating r) || tr_canceled r then (s, false)
        else
          let delay := apply_jitter draw (rp_interval policy) (rp_jitter policy) in
          let due := now + delay in
          let r := advance_record policy (set_interval delay due (tr_repeat_context r)) r in
          (push_delayed due token (tr_generation r) (put_record token r s), true)
    end.
Definition shutdown (s : TaskScheduler) : TaskScheduler :=
  if ts_shutdown s then s
  else {| ts_ready := []; ts_delayed := []; ts_tasks := ∅; ts_records := ts_records s; ts_shutdown := true;
          ts_next_task_id := ts_next_task_id s; ts_next_group_id := ts_next_group_id s |}.
Definition scheduler_empty (s : TaskScheduler) : bool :=
  bool_decide (ts_ready s = []) && bool_decide (ts_delayed s = []) && bool_decide (ts_tasks s = ∅).

(** ** Poll *)
Definition entry_current (records : gmap Z TaskRecord) (id generation : Z) : bool :=
  match records !! id with Some r => negb (tr_canceled r) && (generation =? tr_generation r) | None => false end.
Section Poll.
Context {heap : DueHeap}.
(** The first loop of [collect_ready]; the fuel is the number of delayed tasks. *)
Fixpoint collect_due (fuel : nat) (records : gmap Z TaskRecord) (now : Z) (delayed : list DelayedTask) (ready : list ReadyTask)
    : list DelayedTask * list ReadyTask :=
  match fuel with
  | O => (delayed, ready)
  | S fuel =>
      match delayed !! heap_top delayed with
      | Some top =>
          if dt_due top <=? now then
            collect_due fuel records now (delete (heap_top delayed) delayed)
              (if entry_current records (dt_record top) (dt_generation top)
               then ready ++ [{| rt_record := dt_record top; rt_generation := dt_generation top |}] else ready)
          else (delayed, ready)
      | None => (delayed, ready)
      end
  end.
(** The second loop: at most [max_tasks] entries leave the ready queue. *)
Fixpoint take_ready (max_tasks : Z) (ready : list ReadyTask) : list ReadyTask * list ReadyTask :=
  match ready with
  | [] => ([], [])
  | x :: rest => if 0 <? max_tasks then let '(out, rest) := take_ready (max_tasks - 1) rest in (x :: out, rest) else ([], ready)
  end.
Definition collect_ready (s : TaskScheduler) (max_tasks now : Z) : TaskScheduler * list ReadyTask :=
  let '(delayed, ready) := collect_due (length (ts_delayed s)) (ts_records s) now (ts_delayed s) (ts_ready s) in
  let '(out, ready) := take_ready max_tasks ready in
  (set_queues ready delayed s, out).

(** Where a poll is: between calls, in its loop, in a validator, in a task. *)
Inductive PollPhase :=
  | PpIdle
  | PpBatch (rest : list ReadyTask) (executed : Z)
  | PpValidating (id : Z) (rest : list ReadyTask) (executed : Z)
  | PpRunning (id : Z) (rest : list ReadyTask) (executed : Z).
Record SchedSys := { sy_sched : TaskScheduler; sy_phase : PollPhase; sy_poll_now : Z }.
(** The end of a repeating task's turn, after a skip or a run. *)
Definition repeat_again (s : TaskScheduler) (id : Z) (r : TaskRecord) (runs skips : Z) (draw : Z → Z) (now : Z) : TaskScheduler :=
  if tr_canceled r then s
  else
    let context := count_run runs skips (tr_repeat_context r) in
    let r := advance_record (tr_repeat_policy r) context r in
    let delay := next_repeat_delay draw r in
    let due := now + delay in
    let r := {| tr_group := tr_group r; tr_repeat_policy := tr_repeat_policy r;
                tr_repeat_context := set_interval delay due (tr_repeat_context r); tr_repeating := tr_repeating r;
                tr_canceled := tr_canceled r; tr_generation := tr_generation r |} in
    push_delayed due id (tr_generation r) (put_record id r s).

Inductive SchedEvent :=
  | SvSchedule (group delay now : Z)
  | SvEvery (group : Z) (policy : RepeatPolicy) (draw : Z → Z) (now : Z)
  | SvCancel (token : Z)
  | SvCancelGroup (group : Z)
  | SvReschedule (token delay now : Z)
  | SvUpdate (token : Z) (policy : RepeatPolicy) (draw : Z → Z) (now : Z)
  | SvShutdown
  | SvPoll (max_tasks now : Z)
  | SvNext
  | SvValidated (ok : bool) (draw : Z → Z) (now : Z)
  | SvFinished (stop : bool) (draw : Z → Z) (now : Z).
Inductive SchedOutput :=
  | OutHandle (id : Z)
  | OutBool (b : bool)
  | OutCount (n : Z)
  | OutPicked (id : Z)
  | OutStarted (id : Z)
  | OutPolled (executed : Z)
  | OutNone.
Definition sched_exec (y : SchedSys) (ev : SchedEvent) : option (SchedSys * SchedOutput) :=
  let s := sy_sched y in
  let keep s := {| sy_sched := s; sy_phase := sy_phase y; sy_poll_now := sy_poll_now y |} in
  let go s ph := {| sy_sched := s; sy_phase := ph; sy_poll_now := sy_poll_now y |} in
  match ev, sy_phase y with
  | SvSchedule group delay now, _ => let '(s, id) := schedule_controlled s group delay now in Some (keep s, OutHandle id)
  | SvEvery group policy draw now, _ =>
      let '(s, id) := schedule_every_controlled s group policy draw now in Some (keep s, OutHandle id)
  | SvCancel token, _ => let '(s, b) := cancel s token in Some (keep s, OutBool b)
  | SvCancelGroup group, _ => let '(s, n) := cancel_group s group in Some (keep s, OutCount n)
  | SvReschedule token delay now, _ => let '(s, b) := reschedule s token delay now in Some (keep s, OutBool b)
  | SvUpdate token policy draw now, _ => let '(s, b) := update_repeat_policy s token policy draw now in Some (keep s, OutBool b)
  | SvShutdown, _ => Some (keep (shutdown s), OutNone)
  | SvPoll max_tasks now, PpIdle =>
      if ts_shutdown s then Some (y, OutPolled 0)
      else let '(s, out) := collect_ready s max_tasks now in
           Some ({| sy_sched := s; sy_phase := PpBatch out 0; sy_poll_now := now |}, OutNone)
  | SvNext, PpBatch [] executed => Some (go s PpIdle, OutPolled executed)
  | SvNext, PpBatch (x :: rest) executed =>
      if entry_current (ts_records s) (rt_record x) (rt_generation x)
      then Some (go s (PpValidating (rt_record x) rest executed), OutPicked (rt_record x))
      else Some (go s (PpBatch rest executed), OutNone)
  | SvValidated ok draw now, PpValidating id rest executed =>
      r ← ts_records s !! id;
      if ok : bool then Some (go s (PpRunning id rest executed), OutStarted id)
      else if tr_repeating r then Some (go (repeat_again s id r 0 1 draw now) (PpBatch rest executed), OutNone)
      else Some (go (drop_task id r s) (PpBatch rest executed), OutNone)
  | SvFinished stop draw now, PpRunning id rest executed =>
      r ← ts_records s !! id;
      let next := PpBatch rest (executed +₆₄ 1) in
      if negb (tr_repeating r) || stop then Some (go (drop_task id r s) next, OutNone)
      else Some (go (repeat_again s id r 1 0 draw now) next, OutNone)
  | _, _ => None
  end.
Definition sched_sys_new : SchedSys := {| sy_sched := task_scheduler_new; sy_phase := PpIdle; sy_poll_now := 0 |}.
Fixpoint sched_run (y : SchedSys) (evs : list SchedEvent) : option (SchedSys * list SchedOutput) :=
  match evs with
  | [] => Some (y, [])
  | ev :: evs => '(y, o) ← sched_exec y ev; '(y, os) ← sched_run y evs; Some (y, o :: os)
  end.
End Poll.

(** ** Invariant *)
Definition ready_key (x : ReadyTask) : Z * Z := (rt_record x, rt_generation x).
Definition delayed_key (x : DelayedTask) : Z * Z := (dt_record x, dt_generation x).
Definition batch_of (ph : PollPhase) : list ReadyTask :=
  match ph with PpIdle => [] | PpBatch rest _ | PpValidating _ rest _ | PpRunning _ rest _ => rest end.
Definition busy_with (ph : PollPhase) : option Z :=
  match ph with PpValidating id _ _ | PpRunning id _ _ => Some id | _ => None end.
Definition running (ph : PollPhase) : option Z := match ph with PpRunning id _ _ => Some id | _ => None end.
Definition validating (ph : PollPhase) : option Z := match ph with PpValidating id _ _ => Some id | _ => None end.
(** Every entry that waits somewhere. *)
Definition entries (s : TaskScheduler) (ph : PollPhase) : list (Z * Z) :=
  (ready_key <$> ts_ready s) ++ (delayed_key <$> ts_delayed s) ++ (ready_key <$> batch_of ph).
Definition times_started (id : Z) (started : list Z) : nat := length (filter (λ x, x = id) started).
Record sched_inv (n : Z) (s : TaskScheduler) (ph : PollPhase) (started : list Z) : Prop := {
  si_next : 1 ≤ ts_next_task_id s ≤ n + 1;
  si_ids : ∀ id r, ts_records s !! id = Some r → 1 ≤ id < ts_next_task_id s ∧ 0 ≤ tr_generation r ≤ n;
  si_tasks : ts_shutdown s = false → ∀ id r, ts_records s !! id = Some r → id ∈ ts_tasks s ↔ tr_canceled r = false;
  si_dom : ∀ id, id ∈ ts_tasks s → is_Some (ts_records s !! id);
  si_nodup : NoDup (entries s ph);
  si_entries : ∀ id g, (id, g) ∈ entries s ph → ∃ r, ts_records s !! id = Some r ∧ g ≤ tr_generation r;
  si_live : ts_shutdown s = false → ∀ id r, ts_records s !! id = Some r → tr_canceled r = false →
    busy_with ph = Some id ∨ (id, tr_generation r) ∈ entries s ph;
  si_started : ∀ id, id ∈ started → is_Some (ts_records s !! id);
  si_once : ∀ id r, ts_records s !! id = Some r → tr_repeating r = false →
    (times_started id started ≤ 1)%nat ∧ (id ∈ started → (tr_canceled r = true ∨ running ph = Some id) ∧ validating ph ≠ Some id);
}.
Lemma times_started_none id started : id ∉ started → times_started id started = O.
Proof.
  intros Hn. unfold times_started. destruct (filter _ started) as [|x l] eqn:Hf; [done|].
  assert (x ∈ filter (λ x, x = id) started) as [-> Hx]%list_elem_of_filter by (rewrite Hf; left). done.
Qed.
Lemma times_started_snoc id x started :
  times_started id (started ++ [x]) = (times_started id started + (if decide (x = id) then 1 else 0))%nat.
Proof. unfold times_started. rewrite filter_app, length_app. simpl. rewrite filter_cons, filter_nil. by case_decide. Qed.

(** A new task, queued once. *)
Lemma inv_new n s s' ph started r : sched_inv n s ph started → 0 ≤ n →
  tr_canceled r = false → tr_generation r = 0 →
  ts_next_task_id s' = ts_next_task_id s + 1 → ts_shutdown s = false → ts_shutdown s' = false →
  ts_tasks s' = {[ts_next_task_id s]} ∪ ts_tasks s → ts_records s' = <[ts_next_task_id s := r]> (ts_records s) →
  entries s' ph ≡ₚ (ts_next_task_id s, 0) :: entries s ph → sched_inv (n + 1) s' ph started.
Proof.
  intros [Hn Hi Ht Hd Hu He Hl Hs Ho] H0 Hc Hg Hnx Hsh Hsh' Hts Hrs Hen.
  set (id := ts_next_task_id s) in *.
  assert (Hfresh : ts_records s !! id = None).
  { destruct (ts_records s !! id) as [r0|] eqn:Hr; [|done]. destruct (Hi _ _ Hr). lia. }
  assert (Hnot : id ∉ started) by (intros [r0 Hr0]%Hs; congruence).
  constructor; rewrite ?Hnx, ?Hrs, ?Hts.
  - lia.
  - intros i r' [[<- <-]|[_ Hr]]%lookup_insert_Some; [lia|]. destruct (Hi _ _ Hr). lia.
  - intros _ i r' [[<- <-]|[Hne Hr]]%lookup_insert_Some; [set_solver|]. rewrite <- (Ht Hsh _ _ Hr). set_solver.
  - intros i [->%elem_of_singleton|Hi']%elem_of_union; [by rewrite lookup_insert_eq|].
    destruct (decide (i = id)) as [->|]; [by rewrite lookup_insert_eq|]. rewrite lookup_insert_ne by done. auto.
  - rewrite Hen. apply NoDup_cons. split; [|done]. intros (r0 & Hr0 & _)%He. congruence.
  - intros i g. rewrite Hen. intros [[= -> ->]|Hin]%elem_of_cons; [exists r; rewrite lookup_insert_eq; split; [done|lia]|].
    destruct (He _ _ Hin) as (r0 & Hr0 & Hg0). exists r0. rewrite lookup_insert_ne by congruence. auto.
  - intros _ i r' [[<- <-]|[_ Hr]]%lookup_insert_Some Hc'.
    + right. rewrite Hen, Hg. left.
    + destruct (Hl Hsh _ _ Hr Hc'); [by left|right]. rewrite Hen. by right.
  - intros i Hi'. destruct (Hs i Hi') as [r0 Hr0]. rewrite lookup_insert_ne by congruence. by rewrite Hr0.
  - intros i r' [[<- <-]|[_ Hr]]%lookup_insert_Some Hrep; [|by apply Ho].
    rewrite times_started_none by done. split; [lia|done].
Qed.
(** A record whose generation advances, queued again. *)
Lemma inv_advance n s s' ph ph' started id r r' : sched_inv n s ph started → n + 1 < 2 ^ 64 →
  ts_records s !! id = Some r → tr_generation r' = tr_generation r +₆₄ 1 → tr_canceled r' = tr_canceled r →
  tr_repeating r' = tr_repeating r → ts_next_task_id s' = ts_next_task_id s → ts_shutdown s' = ts_shutdown s →
  ts_tasks s' = ts_tasks s → ts_records s' = <[id := r']> (ts_records s) →
  entries s' ph' ≡ₚ (id, tr_generation r') :: entries s ph →
  (ph' = ph ∨ busy_with ph = Some id ∧ tr_repeating r = true ∧ busy_with ph' = None) →
  sched_inv (n + 1) s' ph' started.
Proof.
  intros [Hn Hi Ht Hd Hu He Hl Hs Ho] Hb Hr Hg Hc Hrp Hnx Hsh Hts Hrs Hen Hph.
  assert (Hg' : tr_generation r' = tr_generation r + 1) by (rewrite Hg; destruct (Hi _ _ Hr); mach).
  assert (Hfresh : (id, tr_generation r') ∉ entries s ph).
  { intros (r0 & Hr0 & Hle)%He. rewrite Hr in Hr0. injection Hr0 as <-. lia. }
  constructor; rewrite ?Hnx, ?Hrs, ?Hts, ?Hsh.
  - lia.
  - intros i q [[<- <-]|[_ Hq]]%lookup_insert_Some; [destruct (Hi _ _ Hr)|destruct (Hi _ _ Hq)]; lia.
  - intros H0 i q [[<- <-]|[_ Hq]]%lookup_insert_Some; [rewrite Hc|]; by apply Ht.
  - intros i Hit. destruct (decide (i = id)) as [->|]; [by rewrite lookup_insert_eq|]. rewrite lookup_insert_ne by done. auto.
  - rewrite Hen. by apply NoDup_cons.
  - intros i g. rewrite Hen. intros [[= -> ->]|Hin]%elem_of_cons; [exists r'; rewrite lookup_insert_eq; split; [done|lia]|].
    destruct (He _ _ Hin) as (r0 & Hr0 & Hle). destruct (decide (i = id)) as [->|].
    + exists r'. rewrite lookup_insert_eq. rewrite Hr in Hr0. injection Hr0 as <-. split; [done|lia].
    + exists r0. by rewrite lookup_insert_ne.
  - intros H0 i q [[<- <-]|[Hne Hq]]%lookup_insert_Some Hcq; [right; rewrite Hen; left|].
    destruct (Hl H0 _ _ Hq Hcq) as [Hbz|Hin]; [|right; rewrite Hen; by right].
    destruct Hph as [->|(Hb1 & _ & _)]; [by left|congruence].
  - intros i Hst. destruct (decide (i = id)) as [->|]; [by rewrite lookup_insert_eq|]. rewrite lookup_insert_ne by done. auto.
  - intros i q [[<- <-]|[Hne Hq]]%lookup_insert_Some Hrep.
    + rewrite Hc. destruct Hph as [->|(Hb1 & Hb2 & _)]; [apply Ho; congruence|congruence].
    + destruct (Ho _ _ Hq Hrep) as [Ho1 Ho2]. split; [done|]. intros Hin. destruct (Ho2 Hin) as [Ho3 Ho4].
      destruct Hph as [->|(Hb1 & _ & Hb3)]; [done|]. split.
      * destruct Ho3 as [|Hru]; [by left|]. destruct ph; simplify_eq/=; congruence.
      * destruct ph'; simplify_eq/=; congruence.
Qed.
(** A record that is cancelled and leaves the map. *)
Lemma inv_drop n m s s' ph ph' started id r r' : sched_inv n s ph started → n ≤ m →
  ts_records s !! id = Some r → tr_canceled r' = true → tr_repeating r' = tr_repeating r →
  tr_generation r ≤ tr_generation r' ≤ m → ts_next_task_id s' = ts_next_task_id s → ts_shutdown s' = ts_shutdown s →
  ts_tasks s' = ts_tasks s ∖ {[id]} → ts_records s' = <[id := r']> (ts_records s) → entries s' ph' = entries s ph →
  (ph' = ph ∨ busy_with ph = Some id ∧ busy_with ph' = None) → sched_inv m s' ph' started.
Proof.
  intros [Hn Hi Ht Hd Hu He Hl Hs Ho] Hm Hr Hc Hrp Hg Hnx Hsh Hts Hrs Hen Hph.
  constructor; rewrite ?Hnx, ?Hrs, ?Hts, ?Hsh, ?Hen; auto.
  - lia.
  - intros i q [[<- <-]|[_ Hq]]%lookup_insert_Some; [destruct (Hi _ _ Hr)|destruct (Hi _ _ Hq)]; lia.
  - intros H0 i q [[<- <-]|[Hne Hq]]%lookup_insert_Some; [rewrite Hc; set_solver|]. rewrite <- (Ht H0 _ _ Hq). set_solver.
  - intros i [Hit _]%elem_of_difference. destruct (decide (i = id)) as [->|]; [by rewrite lookup_insert_eq|].
    rewrite lookup_insert_ne by done. auto.
  - intros i g Hin. destruct (He _ _ Hin) as (r0 & Hr0 & Hle). destruct (decide (i = id)) as [->|].
    + exists r'. rewrite lookup_insert_eq. rewrite Hr in Hr0. injection Hr0 as <-. split; [done|lia].
    + exists r0. by rewrite lookup_insert_ne.
  - intros H0 i q [[<- <-]|[Hne Hq]]%lookup_insert_Some Hcq; [congruence|].
    destruct (Hl H0 _ _ Hq Hcq) as [Hbz|Hin]; [|by right]. destruct Hph as [->|[Hb1 _]]; [by left|congruence].
  - intros i Hst. destruct (decide (i = id)) as [->|]; [by rewrite lookup_insert_eq|]. rewrite lookup_insert_ne by done. auto.
  - intros i q Hq Hrep. assert (∃ q0, ts_records s !! i = Some q0 ∧ tr_repeating q0 = false ∧ (tr_canceled q0 = true → tr_canceled q = true)
      ∧ (i = id → tr_canceled q = true)) as (q0 & Hq0 & Hrep0 & Hcan & Hid).
    { apply lookup_insert_Some in Hq as [[<- <-]|[Hne Hq]]; [exists r|exists q]; repeat split; auto; congruence. }
    destruct (Ho _ _ Hq0 Hrep0) as [Ho1 Ho2]. split; [done|]. intros Hin. destruct (Ho2 Hin) as [Ho3 Ho4].
    destruct Hph as [->|[Hb1 Hb2]].
    + split; [|done]. destruct Ho3; auto.
    + split; [|destruct ph'; simplify_eq/=; congruence]. left. destruct Ho3 as [?|Hru]; [by apply Hcan|].
      apply Hid. destruct ph; simplify_eq/=; congruence.
Qed.
Lemma inv_mono n s ph started : sched_inv n s ph started → sched_inv (n + 1) s ph started.
Proof. intros [Hn Hi ? ? ? ? ? ? ?]. constructor; auto; [lia|]. intros id r Hr. destruct (Hi _ _ Hr). lia. Qed.
Lemma cancel_task_inv n s ph started id : sched_inv n s ph started → n < 2 ^ 64 →
  (∀ r, ts_records s !! id = Some r → tr_generation r < n) → sched_inv n (cancel_task s id) ph started.
Proof.
  intros Hinv Hb Hlt. unfold cancel_task, find_task. case_bool_decide as Hin; [|done].
  destruct (ts_records s !! id) as [r|] eqn:Hr; [|done]. pose proof (si_ids _ _ _ _ Hinv _ _ Hr) as [_ Hg].
  specialize (Hlt r eq_refl).
  apply (inv_drop n n s _ ph ph started id r (advance_cancel r)); try done; [simpl; mach|by left].
Qed.
Lemma cancel_tasks_inv n ph started ids : ∀ s, sched_inv n s ph started → n < 2 ^ 64 → NoDup ids →
  (∀ id r, id ∈ ids → ts_records s !! id = Some r → tr_generation r < n) → sched_inv n (foldl cancel_task s ids) ph started.
Proof.
  induction ids as [|id ids IH]; intros s Hinv Hb Hnd Hlt; simpl; [done|].
  apply NoDup_cons in Hnd as [Hni Hnd]. apply IH; auto.
  - apply cancel_task_inv; auto. intros r Hr. apply (Hlt id); [left|done].
  - intros id' r Hid. assert (id' ≠ id) by set_solver. unfold cancel_task.
    destruct (find_task s id); simpl; rewrite ?lookup_insert_ne by done; apply Hlt; by right.
Qed.
Lemma shutdown_inv n s ph started : sched_inv n s ph started → sched_inv n (shutdown s) ph started.
Proof.
  intros Hinv. unfold shutdown. destruct (ts_shutdown s) eqn:Hsh; [done|]. destruct Hinv as [Hn Hi Ht Hd Hu He Hl Hs Ho].
  constructor; simpl; auto; try done.
  - unfold entries in *. apply NoDup_app in Hu as (_ & _ & Hu). by apply NoDup_app in Hu as (_ & _ & Hu).
  - intros id g Hin. apply He. unfold entries in *. rewrite !elem_of_app in *. simpl in Hin. set_solver.
Qed.
(** Collection moves entries and drops only stale ones. *)
Definition to_ready (x : DelayedTask) : ReadyTask := {| rt_record := dt_record x; rt_generation := dt_generation x |}.
Section Collect.
Context {heap : DueHeap}.
Lemma collect_due_spec fuel records now : ∀ delayed ready delayed' ready', (length delayed ≤ fuel)%nat →
  collect_due fuel records now delayed ready = (delayed', ready') →
  ∃ gone, delayed ≡ₚ gone ++ delayed'
    ∧ ready' = ready ++ (to_ready <$> filter (λ x, entry_current records (dt_record x) (dt_generation x) = true) gone)
    ∧ (∀ x, x ∈ gone → dt_due x ≤ now) ∧ (∀ x, x ∈ delayed' → now < dt_due x).
Proof.
  induction fuel as [|fuel IH]; intros delayed ready delayed' ready' Hf H; simpl in H.
  - destruct delayed; simpl in Hf; [|lia]. injection H as <- <-. exists [].
    split; [done|]. split; [symmetry; apply app_nil_r|]. split; intros x Hx; by apply elem_of_nil in Hx.
  - destruct (decide (delayed = [])) as [->|Hne].
    + simpl in H. injection H as <- <-. exists [].
      split; [done|]. split; [symmetry; apply app_nil_r|]. split; intros x Hx; by apply elem_of_nil in Hx.
    + destruct (heap_top_least delayed Hne) as (top & Ht & Hleast). rewrite Ht in H.
      destruct (Z.leb_spec (dt_due top) now) as [Hd|Hd].
      * pose proof (delete_Permutation delayed _ _ Ht) as Hp.
        apply IH in H as (gone & Hp' & -> & Hg & Hr); [|apply Permutation_length in Hp; simpl in Hp; lia].
        exists (top :: gone). rewrite Hp, Hp'. split; [done|]. split; [|split; [|done]].
        -- rewrite filter_cons. case_decide as Hc; [|by destruct (entry_current _ _ _)]. rewrite Hc. simpl. by rewrite <- app_assoc.
        -- intros x [->|Hx]%elem_of_cons; auto.
      * injection H as <- <-. exists []. split; [done|]. split; [symmetry; apply app_nil_r|].
        split; [intros x Hx; by apply elem_of_nil in Hx|].
        intros x Hx. specialize (Hleast x Hx). lia.
Qed.
End Collect.
Lemma take_ready_spec max ready out rest : take_ready max ready = (out, rest) → ready = out ++ rest.
Proof.
  revert max out rest. induction ready as [|x ready IH]; intros max out rest; simpl; [by intros [= <- <-]|].
  destruct (0 <? max); [|by intros [= <- <-]]. destruct (take_ready _ _) as [o r] eqn:Ht. intros [= <- <-].
  simpl. f_equal. by eapply IH.
Qed.
Lemma entries_push_ready s ph id g : entries (push_ready id g s) ph ≡ₚ (id, g) :: entries s ph.
Proof. unfold entries. simpl. rewrite fmap_app. simpl. rewrite <- app_assoc. symmetry. apply Permutation_middle. Qed.
Lemma entries_push_delayed s ph due id g : entries (push_delayed due id g s) ph ≡ₚ (id, g) :: entries s ph.
Proof.
  unfold entries. simpl. rewrite fmap_app. simpl. rewrite <- !app_assoc, !app_assoc. symmetry.
  rewrite <- !app_assoc. rewrite (app_assoc (ready_key <$> ts_ready s)). rewrite (app_assoc (ready_key <$> ts_ready s) _ ([_] ++ _)).
  apply Permutation_middle.
Qed.
Lemma entries_batch s ph ph' : batch_of ph' = batch_of ph → entries s ph' = entries s ph.
Proof. intros H. unfold entries. by rewrite H. Qed.
Lemma entry_current_spec records id g : entry_current records id g = true ↔
  ∃ r, records !! id = Some r ∧ tr_canceled r = false ∧ tr_generation r = g.
Proof.
  unfold entry_current. destruct (records !! id) as [r|]; [|naive_solver].
  rewrite andb_true_iff, negb_true_iff, Z.eqb_eq. naive_solver.
Qed.
Lemma find_task_some s id r : find_task s id = Some r → id ∈ ts_tasks s ∧ ts_records s !! id = Some r.
Proof. unfold find_task. by case_bool_decide. Qed.
Lemma schedule_inv n s ph started group delay now : sched_inv n s ph started → 0 ≤ n → n + 2 < 2 ^ 64 →
  sched_inv (n + 1) (schedule_controlled s group delay now).1 ph started.
Proof.
  intros Hinv H0 Hb. unfold schedule_controlled. destruct (ts_shutdown s) eqn:Hsh; [by apply inv_mono|].
  pose proof (si_next _ _ _ _ Hinv). simpl. destruct (delay <=? 0).
  - eapply (inv_new n s _ ph started); eauto; try done; [simpl; mach|]. by rewrite entries_push_ready.
  - eapply (inv_new n s _ ph started); eauto; try done; [simpl; mach|]. by rewrite entries_push_delayed.
Qed.
Lemma every_inv n s ph started group policy draw now : sched_inv n s ph started → 0 ≤ n → n + 2 < 2 ^ 64 →
  sched_inv (n + 1) (schedule_every_controlled s group policy draw now).1 ph started.
Proof.
  intros Hinv H0 Hb. unfold schedule_every_controlled. destruct (negb _); [by apply inv_mono|].
  destruct (ts_shutdown s) eqn:Hsh; [by apply inv_mono|]. pose proof (si_next _ _ _ _ Hinv). simpl.
  eapply (inv_new n s _ ph started); eauto; try done; [simpl; mach|]. by rewrite entries_push_delayed.
Qed.
Lemma reschedule_inv n s ph started token delay now : sched_inv n s ph started → n + 1 < 2 ^ 64 →
  sched_inv (n + 1) (reschedule s token delay now).1 ph started.
Proof.
  intros Hinv Hb. unfold reschedule. destruct (_ || _); [by apply inv_mono|].
  destruct (find_task s token) as [r|] eqn:Hf; [|by apply inv_mono]. apply find_task_some in Hf as [_ Hr].
  destruct (tr_canceled r) eqn:Hc; [by apply inv_mono|]. simpl. destruct (delay <=? 0).
  - eapply (inv_advance n s _ ph ph started token r _ Hinv Hb Hr); [..|reflexivity|by rewrite entries_push_ready|by left]; done.
  - eapply (inv_advance n s _ ph ph started token r _ Hinv Hb Hr); [..|reflexivity|by rewrite entries_push_delayed|by left]; done.
Qed.
Lemma update_inv n s ph started token policy draw now : sched_inv n s ph started → n + 1 < 2 ^ 64 →
  sched_inv (n + 1) (update_repeat_policy s token policy draw now).1 ph started.
Proof.
  intros Hinv Hb. unfold update_repeat_policy. destruct (_ || _); [by apply inv_mono|].
  destruct (find_task s token) as [r|] eqn:Hf; [|by apply inv_mono]. apply find_task_some in Hf as [_ Hr].
  destruct (negb _ || _) eqn:Hc; [by apply inv_mono|]. simpl.
  eapply (inv_advance n s _ ph ph started token r _ Hinv Hb Hr); [..|reflexivity|by rewrite entries_push_delayed|by left]; done.
Qed.
(** The poll's own steps. *)
Lemma repeat_again_inv n s ph ph' started id r runs skips draw now : sched_inv n s ph started → n + 1 < 2 ^ 64 →
  ts_records s !! id = Some r → tr_repeating r = true → busy_with ph = Some id → busy_with ph' = None → batch_of ph' = batch_of ph →
  sched_inv (n + 1) (repeat_again s id r runs skips draw now) ph' started.
Proof.
  intros Hinv Hb Hr Hrep Hbz Hbz' Hba. unfold repeat_again. destruct (tr_canceled r) eqn:Hc.
  - apply inv_mono. destruct Hinv as [Hn Hi Ht Hd Hu He Hl Hs Ho].
    constructor; rewrite ?(entries_batch s ph ph' Hba); auto.
    + intros H0 i q Hq Hcq. destruct (Hl H0 _ _ Hq Hcq) as [Hb1|]; [|by right]. congruence.
    + intros i q Hq Hrepq. destruct (Ho _ _ Hq Hrepq) as [Ho1 Ho2]. split; [done|]. intros Hin.
      destruct (Ho2 Hin) as [[?|Hru] Hv]; (split; [|by destruct ph']); [by left|].
      destruct ph; simplify_eq/=; congruence.
  - eapply (inv_advance n s _ ph ph' started id r _ Hinv Hb Hr); [..|reflexivity| |]; try done.
    + by rewrite entries_push_delayed, <- (entries_batch s ph ph' Hba).
    + by right.
Qed.
Lemma drop_task_inv n s ph ph' started id r : sched_inv n s ph started → ts_records s !! id = Some r →
  busy_with ph = Some id → busy_with ph' = None → batch_of ph' = batch_of ph → sched_inv (n + 1) (drop_task id r s) ph' started.
Proof.
  intros Hinv Hr Hbz Hbz' Hba. pose proof (si_ids _ _ _ _ Hinv _ _ Hr) as [_ Hg].
  apply (inv_drop n (n + 1) s _ ph ph' started id r (cancel_record r)); try done; try (simpl; lia).
  - change (entries s ph' = entries s ph). by apply entries_batch.
  - by right.
Qed.
Section PollInv.
Context {heap : DueHeap}.
Lemma collect_inv n s started max now : sched_inv n s PpIdle started → ts_shutdown s = false →
  sched_inv n (collect_ready s max now).1 (PpBatch (collect_ready s max now).2 0) started.
Proof.
  intros Hinv Hsh. unfold collect_ready.
  destruct (collect_due _ _ _ _ _) as [delayed ready] eqn:Hc. destruct (take_ready max ready) as [out rest] eqn:Ht.
  apply take_ready_spec in Ht. apply collect_due_spec in Hc as (gone & Hp & Hr & _ & _); [|done]. simpl.
  set (s' := set_queues rest delayed s).
  set (kept := filter (λ x, entry_current (ts_records s) (dt_record x) (dt_generation x) = true) gone) in *.
  set (stale := filter (λ x, ¬ entry_current (ts_records s) (dt_record x) (dt_generation x) = true) gone).
  assert (Hen : entries s PpIdle ≡ₚ entries s' (PpBatch out 0) ++ (delayed_key <$> stale)).
  { unfold entries. simpl. rewrite app_nil_r, Hp, fmap_app.
    assert (ready_key <$> (to_ready <$> kept) = delayed_key <$> kept) as Hk by (rewrite <- list_fmap_compose; by apply list_fmap_ext).
    assert (Hg : delayed_key <$> gone ≡ₚ (delayed_key <$> kept) ++ (delayed_key <$> stale)).
    { rewrite <- fmap_app. apply fmap_Permutation. symmetry. apply filter_app_complement. }
    rewrite Hg, <- Hk. assert (ready_key <$> ready = (ready_key <$> ts_ready s) ++ (ready_key <$> (to_ready <$> kept))) as Hrd
      by (by rewrite Hr, fmap_app).
    rewrite app_assoc, (app_assoc (ready_key <$> ts_ready s)), <- Hrd, Ht, fmap_app.
    set (a := ready_key <$> out). set (b := ready_key <$> rest). set (c := delayed_key <$> delayed). set (d := delayed_key <$> stale).
    rewrite (Permutation_app_comm a b), <- !app_assoc. f_equiv. rewrite (Permutation_app_comm a), <- !app_assoc.
    by rewrite (Permutation_app_comm d), <- app_assoc. }
  destruct Hinv as [Hn Hi Htk Hd Hu He Hl Hs Ho].
  constructor; auto.
  - rewrite Hen in Hu. by apply NoDup_app in Hu as [Hu _].
  - intros i g Hin. apply He. rewrite Hen, elem_of_app. by left.
  - intros H0 i r Hri Hcr. right. destruct (Hl H0 _ _ Hri Hcr) as [Hbz|Hin]; [done|].
    rewrite Hen, elem_of_app in Hin. destruct Hin as [Hin|(x & Hx & Hst)%list_elem_of_fmap]; [done|]. exfalso.
    apply list_elem_of_filter in Hst as [Hst _]. apply Hst. apply entry_current_spec. unfold delayed_key in Hx. exists r. naive_solver.
Qed.
(** What a step adds to the list of started tasks. *)
Definition started_of (o : SchedOutput) : list Z := match o with OutStarted id => [id] | _ => [] end.
Lemma next_inv n s started x rest executed : sched_inv n s (PpBatch (x :: rest) executed) started →
  sched_inv (n + 1) s (if entry_current (ts_records s) (rt_record x) (rt_generation x)
    then PpValidating (rt_record x) rest executed else PpBatch rest executed) started.
Proof.
  intros [Hn Hi Ht Hd Hu He Hl Hs Ho]%inv_mono.
  set (ph := if entry_current _ _ _ then _ else _).
  assert (Hba : batch_of ph = rest) by (by subst ph; destruct (entry_current _ _ _)).
  assert (Hen : entries s (PpBatch (x :: rest) executed) ≡ₚ ready_key x :: entries s ph).
  { unfold entries. rewrite Hba. simpl. rewrite app_assoc. symmetry. rewrite app_assoc. apply Permutation_middle. }
  constructor; auto.
  - rewrite Hen in Hu. by apply NoDup_cons in Hu as [_ Hu].
  - intros i g Hin. apply He. rewrite Hen. by right.
  - intros H0 i r Hr Hc. destruct (Hl H0 _ _ Hr Hc) as [|Hin]; [done|]. rewrite Hen in Hin.
    apply elem_of_cons in Hin as [Heq|Hin]; [|by right]. left. subst ph. unfold ready_key in Heq. injection Heq as -> Hg.
    replace (entry_current _ _ _) with true; [done|]. symmetry. apply entry_current_spec. eauto.
  - intros i r Hr Hrep. destruct (Ho _ _ Hr Hrep) as [Ho1 Ho2]. split; [done|]. intros Hin.
    destruct (Ho2 Hin) as [[Hc|?] _]; [|done]. split; [by left|]. subst ph. destruct (entry_current _ _ _) eqn:Hcur; [|done].
    simpl. intros [= Heq]. apply entry_current_spec in Hcur as (r0 & Hr0 & Hc0 & _). congruence.
Qed.
Lemma start_inv n s started id rest executed : sched_inv n s (PpValidating id rest executed) started →
  is_Some (ts_records s !! id) → sched_inv (n + 1) s (PpRunning id rest executed) (started ++ [id]).
Proof.
  intros [Hn Hi Ht Hd Hu He Hl Hs Ho]%inv_mono Hsome. constructor; auto.
  - intros i [Hin| ->%list_elem_of_singleton]%elem_of_app; auto.
  - intros i r Hr Hrep. destruct (Ho _ _ Hr Hrep) as [Ho1 Ho2]. rewrite times_started_snoc. case_decide as Heq.
    + subst i. assert (Hnot : id ∉ started) by (intros Hin; by destruct (Ho2 Hin) as [_ []]).
      rewrite times_started_none by done. split; [lia|]. intros _. split; [by right|done].
    + split; [lia|]. intros [Hin|Hin%list_elem_of_singleton]%elem_of_app; [|congruence].
      destruct (Ho2 Hin) as [[Hc|?] _]; [|done]. split; [by left|done].
Qed.
Lemma idle_inv n s started executed : sched_inv n s (PpBatch [] executed) started → sched_inv (n + 1) s PpIdle started.
Proof. intros [Hn Hi Ht Hd Hu He Hl Hs Ho]%inv_mono. by constructor. Qed.
Lemma sched_exec_inv n y started ev y' o : sched_inv n (sy_sched y) (sy_phase y) started → 0 ≤ n → n + 2 < 2 ^ 64 →
  sched_exec y ev = Some (y', o) → sched_inv (n + 1) (sy_sched y') (sy_phase y') (started ++ started_of o).
Proof.
  intros Hinv H0 Hb H. destruct y as [s ph T]. simpl in Hinv. destruct ev; cbn [sched_exec sy_sched sy_phase sy_poll_now] in H.
  - destruct (schedule_controlled _ _ _ _) as [s' id] eqn:Hs. injection H as <- <-. simpl. rewrite app_nil_r.
    pose proof (schedule_inv n s ph started group delay now Hinv H0 Hb) as Hx. by rewrite Hs in Hx.
  - destruct (schedule_every_controlled _ _ _ _ _) as [s' id] eqn:Hs. injection H as <- <-. simpl. rewrite app_nil_r.
    pose proof (every_inv n s ph started group policy draw now Hinv H0 Hb) as Hx. by rewrite Hs in Hx.
  - unfold cancel in H. destruct (_ || _); [injection H as <- <-; simpl; rewrite app_nil_r; by apply inv_mono|].
    destruct (find_task s token); injection H as <- <-; simpl; rewrite app_nil_r; [|by apply inv_mono].
    apply cancel_task_inv; [by apply inv_mono|lia|]. intros r Hr. destruct (si_ids _ _ _ _ Hinv _ _ Hr). lia.
  - unfold cancel_group in H. destruct (_ || _); injection H as <- <-; simpl; rewrite app_nil_r; [by apply inv_mono|].
    apply cancel_tasks_inv; [by apply inv_mono|lia|apply NoDup_filter, NoDup_elements|].
    intros id r _ Hr. destruct (si_ids _ _ _ _ Hinv _ _ Hr). lia.
  - destruct (reschedule _ _ _ _) as [s' b] eqn:Hs. injection H as <- <-. simpl. rewrite app_nil_r.
    pose proof (reschedule_inv n s ph started token delay now Hinv ltac:(lia)) as Hx. by rewrite Hs in Hx.
  - destruct (update_repeat_policy _ _ _ _ _) as [s' b] eqn:Hs. injection H as <- <-. simpl. rewrite app_nil_r.
    pose proof (update_inv n s ph started token policy draw now Hinv ltac:(lia)) as Hx. by rewrite Hs in Hx.
  - injection H as <- <-. simpl. rewrite app_nil_r. by apply inv_mono, shutdown_inv.
  - destruct ph; try done. destruct (ts_shutdown s) eqn:Hsh; [injection H as <- <-; simpl; rewrite app_nil_r; by apply inv_mono|].
    pose proof (collect_inv n s started max_tasks now Hinv Hsh) as Hx. destruct (collect_ready _ _ _) as [s' out].
    injection H as <- <-. simpl. rewrite app_nil_r. by apply inv_mono.
  - destruct ph as [|[|x rest] executed|? ? ?|? ? ?]; try done.
    + injection H as <- <-. simpl. rewrite app_nil_r. by eapply idle_inv.
    + apply next_inv in Hinv. destruct (entry_current _ _ _); injection H as <- <-; simpl; by rewrite app_nil_r.
  - destruct ph as [|? ?|id rest executed|? ? ?]; try done. apply bind_Some in H as (r & Hr & H). destruct ok.
    + injection H as <- <-. simpl. apply start_inv; [done|by eauto].
    + destruct (tr_repeating r) eqn:Hrep; injection H as <- <-; simpl; rewrite app_nil_r.
      * by eapply repeat_again_inv; eauto; lia.
      * by eapply drop_task_inv.
  - destruct ph as [|? ?|? ? ?|id rest executed]; try done. apply bind_Some in H as (r & Hr & H).
    destruct (negb (tr_repeating r) || stop) eqn:Hst; injection H as <- <-; simpl; rewrite app_nil_r.
    + by eapply drop_task_inv.
    + apply orb_false_iff in Hst as [Hrep%negb_false_iff _]. by eapply repeat_again_inv; eauto; lia.
Qed.
End PollInv.

Section Runs.
Context {heap : DueHeap}.
Definition started_in (os : list SchedOutput) : list Z := concat (started_of <$> os).
Lemma sched_run_inv evs : ∀ n y started y' os, sched_inv n (sy_sched y) (sy_phase y) started → 0 ≤ n →
  n + Z.of_nat (length evs) + 2 < 2 ^ 64 → sched_run y evs = Some (y', os) →
  sched_inv (n + Z.of_nat (length evs)) (sy_sched y') (sy_phase y') (started ++ started_in os).
Proof.
  induction evs as [|ev evs IH]; intros n y started y' os Hinv H0 Hb H; cbn [sched_run] in H.
  - injection H as <- <-. unfold started_in. simpl. by rewrite app_nil_r, Z.add_0_r.
  - apply bind_Some in H as ([y1 o] & Hx & H). apply bind_Some in H as ([y2 os'] & Hr & H). injection H as <- <-.
    cbn [length] in *. apply (sched_exec_inv n) with (started := started) in Hx; [|done|lia|lia].
    apply (IH (n + 1)) with (started := started ++ started_of o) in Hr; [|done|lia|lia].
    unfold started_in in *. cbn [fmap list_fmap concat]. rewrite app_assoc.
    by replace (n + Z.of_nat (S (length evs))) with (n + 1 + Z.of_nat (length evs)) by lia.
Qed.
Lemma sched_new_inv : sched_inv 0 (sy_sched sched_sys_new) (sy_phase sched_sys_new) [].
Proof.
  constructor; simpl; try (intros; rewrite lookup_empty in *; done); try lia; try set_solver.
  constructor.
Qed.
Lemma sched_reach evs y os : sched_run sched_sys_new evs = Some (y, os) → Z.of_nat (length evs) + 2 < 2 ^ 64 →
  sched_inv (Z.of_nat (length evs)) (sy_sched y) (sy_phase y) (started_in os).
Proof. intros Hr Hb. by apply (sched_run_inv evs 0 _ [] _ _ sched_new_inv). Qed.

(** A cancelled record stays cancelled and is not picked again. *)
Lemma cancel_task_record s id i r : ts_records s !! i = Some r → tr_canceled r = true →
  ∃ r', ts_records (cancel_task s id) !! i = Some r' ∧ tr_canceled r' = true.
Proof.
  intros Hr Hc. unfold cancel_task, find_task. case_bool_decide; [|eauto]. destruct (ts_records s !! id) as [q|] eqn:Hq; [|eauto].
  simpl. destruct (decide (i = id)) as [->|]; [rewrite lookup_insert_eq|rewrite lookup_insert_ne by done]; eauto.
Qed.
Lemma cancel_tasks_record ids i : ∀ s r, ts_records s !! i = Some r → tr_canceled r = true →
  ∃ r', ts_records (foldl cancel_task s ids) !! i = Some r' ∧ tr_canceled r' = true.
Proof.
  induction ids as [|id ids IH]; intros s r Hr Hc; simpl; [eauto|].
  destruct (cancel_task_record s id i r Hr Hc) as (r' & Hr' & Hc'). eauto.
Qed.
Lemma put_canceled s id r' i r : ts_records s !! i = Some r → tr_canceled r = true → (i = id → tr_canceled r' = true) →
  ∃ q, <[id := r']> (ts_records s) !! i = Some q ∧ tr_canceled q = true.
Proof.
  intros Hr Hc Hid. destruct (decide (i = id)) as [->|]; [rewrite lookup_insert_eq|rewrite lookup_insert_ne by done]; eauto.
Qed.
Lemma canceled_step n y started ev y' o i r : sched_inv n (sy_sched y) (sy_phase y) started →
  sched_exec y ev = Some (y', o) → ts_records (sy_sched y) !! i = Some r → tr_canceled r = true →
  (∃ r', ts_records (sy_sched y') !! i = Some r' ∧ tr_canceled r' = true) ∧ o ≠ OutPicked i
  ∧ (busy_with (sy_phase y) ≠ Some i → busy_with (sy_phase y') ≠ Some i ∧ o ≠ OutStarted i).
Proof.
  intros Hinv H Hr Hc. destruct y as [s ph T]. simpl in Hinv, Hr. pose proof (si_ids _ _ _ _ Hinv _ _ Hr) as [Hid _].
  assert (Hsame : ∃ r', ts_records s !! i = Some r' ∧ tr_canceled r' = true) by eauto.
  destruct ev; cbn [sched_exec sy_sched sy_phase sy_poll_now] in H.
  - unfold schedule_controlled in H. destruct (ts_shutdown s); injection H as <- <-; [by split_and!; simpl; auto|].
    split; [|done]. simpl. destruct (delay <=? 0); simpl; rewrite lookup_insert_ne by lia; eauto.
  - unfold schedule_every_controlled in H. destruct (_ || _); injection H as <- <-; [by split_and!; simpl; auto|].
    split; [|done]. simpl. rewrite lookup_insert_ne by lia. eauto.
  - unfold cancel in H. destruct (_ || _); [by injection H as <- <-; split_and!; simpl; auto|].
    destruct (find_task s token); injection H as <- <-; [|by split_and!; simpl; auto].
    split; [|done]. by apply (cancel_task_record s token i r).
  - unfold cancel_group in H. destruct (_ || _); injection H as <- <-; [by split_and!; simpl; auto|].
    split; [|done]. by apply (cancel_tasks_record _ i s r).
  - unfold reschedule in H. destruct (_ || _); [by injection H as <- <-; split_and!; simpl; auto|].
    destruct (find_task s token) as [q|] eqn:Hf; [|by injection H as <- <-; split_and!; simpl; auto].
    apply find_task_some in Hf as [_ Hq]. destruct (tr_canceled q) eqn:Hcq; injection H as <- <-; [by split_and!; simpl; auto|].
    split; [|done]. simpl. destruct (delay <=? 0); simpl; apply (put_canceled s token _ i r); auto; congruence.
  - unfold update_repeat_policy in H. destruct (_ || _); [by injection H as <- <-; split_and!; simpl; auto|].
    destruct (find_task s token) as [q|] eqn:Hf; [|by injection H as <- <-; split_and!; simpl; auto].
    apply find_task_some in Hf as [_ Hq]. destruct (negb _ || _) eqn:Hcq; injection H as <- <-; [by split_and!; simpl; auto|].
    split; [|done]. simpl. apply (put_canceled s token _ i r); auto. intros ->. simpl. congruence.
  - injection H as <- <-. unfold shutdown. by destruct (ts_shutdown s); split_and!; simpl; auto.
  - destruct ph; try done. destruct (ts_shutdown s); [by injection H as <- <-; split_and!; simpl; auto|].
    unfold collect_ready in H. destruct (collect_due _ _ _ _ _). destruct (take_ready _ _). injection H as <- <-. by split_and!; simpl; auto.
  - destruct ph as [|[|x rest] executed|? ? ?|? ? ?]; try done; [by injection H as <- <-; split_and!; simpl; auto|].
    destruct (entry_current _ _ _) eqn:Hcur; injection H as <- <-; [|by split_and!; simpl; auto].
    apply entry_current_spec in Hcur as (q & Hq & Hcq & _). split; [done|]. simpl. split; [congruence|]. intros _. split; congruence.
  - destruct ph as [|? ?|id rest executed|? ? ?]; try done. apply bind_Some in H as (q & Hq & H). destruct ok.
    + injection H as <- <-. split_and!; simpl; auto; try done. intros Hb. split; congruence.
    + destruct (tr_repeating q); injection H as <- <-; simpl; (split; [|done]).
      * unfold repeat_again. destruct (tr_canceled q) eqn:Hcq; [done|]. simpl. apply (put_canceled s id _ i r); auto. simpl. congruence.
      * by apply (put_canceled s id _ i r).
  - destruct ph as [|? ?|? ? ?|id rest executed]; try done. apply bind_Some in H as (q & Hq & H).
    destruct (_ || _); injection H as <- <-; simpl; (split; [|done]).
    + by apply (put_canceled s id _ i r).
    + unfold repeat_again. destruct (tr_canceled q) eqn:Hcq; [done|]. simpl. apply (put_canceled s id _ i r); auto. simpl. congruence.
Qed.

(** The times the events read from the steady clock. *)
Definition event_time (ev : SchedEvent) : option Z :=
  match ev with
  | SvSchedule _ _ now | SvEvery _ _ _ now | SvReschedule _ _ now | SvUpdate _ _ _ now | SvPoll _ now | SvValidated _ _ now
  | SvFinished _ _ now => Some now
  | _ => None
  end.
Fixpoint steady (clock : Z) (evs : list SchedEvent) : Prop :=
  match evs with
  | [] => True
  | ev :: evs => match event_time ev with Some t => clock ≤ t ∧ steady t evs | None => steady clock evs end
  end.
(** Where the entries of a one-shot task due at [due] may be. *)
Record held (id due clock : Z) (y : SchedSys) : Prop := {
  he_known : id < ts_next_task_id (sy_sched y) < 2 ^ 64;
  he_once : ∃ r, ts_records (sy_sched y) !! id = Some r ∧ tr_repeating r = false;
  he_delayed : ∀ x, x ∈ ts_delayed (sy_sched y) → dt_record x = id → dt_due x = due;
  he_ready : ∀ x, x ∈ ts_ready (sy_sched y) → rt_record x = id → due ≤ clock;
  he_batch : ∀ x, x ∈ batch_of (sy_phase y) → rt_record x = id → due ≤ sy_poll_now y;
}.
Lemma held_later id due c c' y : held id due c y → c ≤ c' → held id due c' y.
Proof. intros [? ? ? Hr ?] Hc. constructor; auto. intros x Hx Hid. specialize (Hr x Hx Hid). lia. Qed.
(** Steps that leave the queues alone, or queue another task. *)
Lemma held_keep id due c y s' ph' : held id due c y → ts_next_task_id (sy_sched y) ≤ ts_next_task_id s' < 2 ^ 64 →
  (∀ r, ts_records (sy_sched y) !! id = Some r → tr_repeating r = false → ∃ r', ts_records s' !! id = Some r' ∧ tr_repeating r' = false) →
  (∀ x, x ∈ ts_delayed s' → x ∈ ts_delayed (sy_sched y) ∨ dt_record x ≠ id) →
  (∀ x, x ∈ ts_ready s' → x ∈ ts_ready (sy_sched y) ∨ rt_record x ≠ id) →
  (∀ x, x ∈ batch_of ph' → x ∈ batch_of (sy_phase y)) →
  held id due c {| sy_sched := s'; sy_phase := ph'; sy_poll_now := sy_poll_now y |}.
Proof.
  intros [Hk (r & Hr & Hrep) Hd Hrd Hb] Hn Hrec Hdl Hrl Hbl. constructor; simpl; auto.
  - lia.
  - eauto.
  - intros x Hx Hid. destruct (Hdl x Hx); [auto|done].
  - intros x Hx Hid. destruct (Hrl x Hx); [eauto|done].
  - intros x Hx Hid. by apply (Hb x); [apply Hbl|].
Qed.
Lemma cancel_task_frame i s : ts_ready (cancel_task s i) = ts_ready s ∧ ts_delayed (cancel_task s i) = ts_delayed s
  ∧ ts_next_task_id (cancel_task s i) = ts_next_task_id s
  ∧ ∀ id r, ts_records s !! id = Some r → tr_repeating r = false →
      ∃ r', ts_records (cancel_task s i) !! id = Some r' ∧ tr_repeating r' = false.
Proof.
  unfold cancel_task, find_task. case_bool_decide; [|by eauto 10]. destruct (ts_records s !! i) as [q|] eqn:Hq; [|by eauto 10].
  simpl. split_and!; auto. intros id r Hr Hrep.
  destruct (decide (id = i)) as [->|]; [rewrite lookup_insert_eq|rewrite lookup_insert_ne by done]; [|by eauto].
  exists (advance_cancel q). split; [done|]. simpl. congruence.
Qed.
Lemma cancel_tasks_frame ids : ∀ s, ts_ready (foldl cancel_task s ids) = ts_ready s
  ∧ ts_delayed (foldl cancel_task s ids) = ts_delayed s ∧ ts_next_task_id (foldl cancel_task s ids) = ts_next_task_id s
  ∧ ∀ id r, ts_records s !! id = Some r → tr_repeating r = false →
      ∃ r', ts_records (foldl cancel_task s ids) !! id = Some r' ∧ tr_repeating r' = false.
Proof.
  induction ids as [|i ids IH]; intros s; simpl; [eauto 10|].
  destruct (IH (cancel_task s i)) as (-> & -> & -> & Hrec). destruct (cancel_task_frame i s) as (-> & -> & -> & Hone).
  split_and!; auto. intros id r Hr Hrep. destruct (Hone id r Hr Hrep) as (r' & Hr' & Hrep'). eauto.
Qed.
Lemma held_insert {id : Z} {s : TaskScheduler} (i : Z) (q : TaskRecord) (r : TaskRecord) :
  ts_records s !! id = Some r → tr_repeating r = false → (i = id → tr_repeating q = false) →
  ∃ r', <[i := q]> (ts_records s) !! id = Some r' ∧ tr_repeating r' = false.
Proof. intros Hr Hrep Hi. destruct (decide (i = id)) as [->|]; [rewrite lookup_insert_eq|rewrite lookup_insert_ne by done]; eauto. Qed.
Lemma held_poll id due c y max now : held id due c y → sy_phase y = PpIdle → c ≤ now →
  held id due now {| sy_sched := (collect_ready (sy_sched y) max now).1; sy_phase := PpBatch (collect_ready (sy_sched y) max now).2 0;
                     sy_poll_now := now |}.
Proof.
  intros [Hk Ho Hd Hrd Hb] Hp Hc. unfold collect_ready.
  destruct (collect_due _ _ _ _ _) as [delayed ready] eqn:Hcd. destruct (take_ready max ready) as [out rest] eqn:Ht.
  apply take_ready_spec in Ht. apply collect_due_spec in Hcd as (gone & Hpm & Hr & Hg & _); [|done].
  assert (Hall : ∀ x, x ∈ ready → rt_record x = id → due ≤ now).
  { intros x. rewrite Hr, elem_of_app. intros [Hx|Hx] Hid; [specialize (Hrd x Hx Hid); lia|].
    apply list_elem_of_fmap in Hx as (z & -> & [_ Hz]%list_elem_of_filter). simpl in Hid.
    specialize (Hd z ltac:(rewrite Hpm, elem_of_app; by left) Hid). specialize (Hg z Hz). lia. }
  constructor; simpl; auto.
  - intros x Hx. apply Hd. rewrite Hpm, elem_of_app. by right.
  - intros x Hx. apply Hall. rewrite Ht, elem_of_app. by right.
  - intros x Hx. apply Hall. rewrite Ht, elem_of_app. by left.
Qed.
(** Queueing another task, new or known. *)
Lemma held_other id due c y i q s' ph' : held id due c y → i ≠ id → ts_next_task_id (sy_sched y) ≤ ts_next_task_id s' < 2 ^ 64 →
  ts_records s' = <[i := q]> (ts_records (sy_sched y)) →
  (∀ x, x ∈ ts_delayed s' → x ∈ ts_delayed (sy_sched y) ∨ dt_record x = i) →
  (∀ x, x ∈ ts_ready s' → x ∈ ts_ready (sy_sched y) ∨ rt_record x = i) →
  (∀ x, x ∈ batch_of ph' → x ∈ batch_of (sy_phase y)) →
  held id due c {| sy_sched := s'; sy_phase := ph'; sy_poll_now := sy_poll_now y |}.
Proof.
  intros Hh Hne Hn Hrs Hd Hr Hb. apply (held_keep id due c y s' ph' Hh Hn); auto.
  - intros r Hl Hrep. rewrite Hrs. by apply (held_insert (s := sy_sched y) _ _ r Hl Hrep).
  - intros x Hx. destruct (Hd x Hx); [by left|right; congruence].
  - intros x Hx. destruct (Hr x Hx); [by left|right; congruence].
Qed.
Lemma in_push_delayed due i g s x : x ∈ ts_delayed (push_delayed due i g s) → x ∈ ts_delayed s ∨ dt_record x = i.
Proof. simpl. intros [Hx|Hx%list_elem_of_singleton]%elem_of_app; [by left|right; by subst x]. Qed.
Lemma in_push_ready i g s x : x ∈ ts_ready (push_ready i g s) → x ∈ ts_ready s ∨ rt_record x = i.
Proof. simpl. intros [Hx|Hx%list_elem_of_singleton]%elem_of_app; [by left|right; by subst x]. Qed.
Ltac queued :=
  let x := fresh in let Hx := fresh in
  intros x Hx; first [apply in_push_delayed in Hx; exact Hx | apply in_push_ready in Hx; exact Hx | by left].
Ltac held_other Hh i :=
  eapply (held_other _ _ _ _ i _ _ _ Hh);
    [try done|try (simpl; mach); try (simpl; lia)|reflexivity|queued|queued|done].
Lemma repeat_again_held id due c y i q runs skips draw now ph' : held id due c y → i ≠ id →
  (∀ x, x ∈ batch_of ph' → x ∈ batch_of (sy_phase y)) →
  held id due c {| sy_sched := repeat_again (sy_sched y) i q runs skips draw now; sy_phase := ph'; sy_poll_now := sy_poll_now y |}.
Proof.
  intros Hh Hne Hb. pose proof (he_known _ _ _ _ Hh). unfold repeat_again. destruct (tr_canceled q).
  - apply (held_keep id due c y _ ph' Hh); eauto; lia.
  - eapply (held_other _ _ _ _ i _ _ _ Hh); [done|simpl; lia|reflexivity|queued|queued|done].
Qed.
Lemma drop_task_held id due c y i q ph' : held id due c y → ts_records (sy_sched y) !! i = Some q →
  (∀ x, x ∈ batch_of ph' → x ∈ batch_of (sy_phase y)) →
  held id due c {| sy_sched := drop_task i q (sy_sched y); sy_phase := ph'; sy_poll_now := sy_poll_now y |}.
Proof.
  intros Hh Hq Hb. pose proof (he_known _ _ _ _ Hh). apply (held_keep id due c y _ ph' Hh); simpl; auto; [lia|].
  intros r Hr Hrep. apply (held_insert (s := sy_sched y) _ _ r Hr Hrep). intros ->. simpl. congruence.
Qed.
(** Every event but a reschedule of the task keeps its due time. *)
Definition now_after (clock : Z) (ev : SchedEvent) : Z := default clock (event_time ev).
Definition reschedules (id : Z) (ev : SchedEvent) : Prop :=
  match ev with SvReschedule token _ _ => token = id | _ => False end.
(** The calls. *)
Lemma held_call id due c y : held id due c y → ts_next_task_id (sy_sched y) + 1 < 2 ^ 64 →
  let at_ s' := held id due c {| sy_sched := s'; sy_phase := sy_phase y; sy_poll_now := sy_poll_now y |} in
  (∀ group delay now, at_ (schedule_controlled (sy_sched y) group delay now).1)
  ∧ (∀ group policy draw now, at_ (schedule_every_controlled (sy_sched y) group policy draw now).1)
  ∧ (∀ token delay now, token ≠ id → at_ (reschedule (sy_sched y) token delay now).1)
  ∧ (∀ token policy draw now, at_ (update_repeat_policy (sy_sched y) token policy draw now).1).
Proof.
  intros Hh Hnx. pose proof Hh as [Hk (r0 & Hr0 & Hrep0) _ _ _]. destruct y as [s ph T]. simpl in *. split_and!.
  - intros group delay now. unfold schedule_controlled. destruct (ts_shutdown s); [done|]. simpl.
    destruct (delay <=? 0); held_other Hh (ts_next_task_id s); lia.
  - intros group policy draw now. unfold schedule_every_controlled. destruct (_ || _); [done|]. simpl.
    held_other Hh (ts_next_task_id s); lia.
  - intros token delay now Hne. unfold reschedule. destruct (_ || _); [done|]. destruct (find_task s token) as [q|]; [|done].
    destruct (tr_canceled q); [done|]. simpl. destruct (delay <=? 0); held_other Hh token.
  - intros token policy draw now. unfold update_repeat_policy. destruct (_ || _); [done|].
    destruct (find_task s token) as [q|] eqn:Hf; [|done]. apply find_task_some in Hf as [_ Hq].
    destruct (negb (tr_repeating q) || _) eqn:Hn; [done|]. apply orb_false_iff in Hn as [Hn%negb_false_iff _].
    assert (token ≠ id) by congruence. simpl. held_other Hh token.
Qed.
Lemma held_step id due c y ev y' o : held id due c y → ts_next_task_id (sy_sched y) + 1 < 2 ^ 64 →
  (∀ t, event_time ev = Some t → c ≤ t) → ¬ reschedules id ev → sched_exec y ev = Some (y', o) →
  held id due (now_after c ev) y' ∧ (o = OutPicked id → due ≤ sy_poll_now y).
Proof.
  intros Hh Hnx Ht Hne H. pose proof (he_batch _ _ _ _ Hh) as Hbt. pose proof (he_known _ _ _ _ Hh).
  pose proof (he_once _ _ _ _ Hh) as (r0 & Hr0 & Hrep0). destruct y as [s ph T]. simpl in *.
  assert (Hl : held id due (now_after c ev) {| sy_sched := s; sy_phase := ph; sy_poll_now := T |}).
  { eapply held_later; [exact Hh|]. unfold now_after. destruct (event_time ev); simpl; [by apply Ht|lia]. }
  assert (Hstay : ∀ ph', (∀ x, x ∈ batch_of ph' → x ∈ batch_of ph) →
    held id due (now_after c ev) {| sy_sched := s; sy_phase := ph'; sy_poll_now := T |}).
  { intros ph' Hph'. apply (held_keep id due _ _ s ph' Hl); simpl; eauto; lia. }
  destruct (held_call id due _ _ Hl Hnx) as (Hsc & Hev & Hre & Hup). simpl in *.
  destruct ev; cbn [sched_exec sy_sched sy_phase sy_poll_now] in H.
  - specialize (Hsc group delay now). destruct (schedule_controlled _ _ _ _). by injection H as <- <-.
  - specialize (Hev group policy draw now). destruct (schedule_every_controlled _ _ _ _ _). by injection H as <- <-.
  - unfold cancel in H. destruct (_ || _); [injection H as <- <-; by split|].
    destruct (find_task s token); injection H as <- <-; [|by split]. split; [|done].
    destruct (cancel_task_frame token s) as (Hf1 & Hf2 & Hf3 & Hf4).
    apply (held_keep id due _ _ _ ph Hl); simpl; rewrite ?Hf1, ?Hf2, ?Hf3; eauto; lia.
  - unfold cancel_group in H. destruct (_ || _); injection H as <- <-; [by split|]. split; [|done].
    match goal with |- held _ _ _ {| sy_sched := foldl _ _ ?ids |} => destruct (cancel_tasks_frame ids s) as (Hf1 & Hf2 & Hf3 & Hf4) end.
    apply (held_keep id due _ _ _ ph Hl); simpl; rewrite ?Hf1, ?Hf2, ?Hf3; eauto; lia.
  - specialize (Hre token delay now Hne). destruct (reschedule _ _ _ _). by injection H as <- <-.
  - specialize (Hup token policy draw now). destruct (update_repeat_policy _ _ _ _ _). by injection H as <- <-.
  - injection H as <- <-. split; [|done]. unfold shutdown. destruct (ts_shutdown s); [done|].
    apply (held_keep id due _ _ _ ph Hl); simpl; eauto; try lia; intros x Hx; by apply elem_of_nil in Hx.
  - destruct ph; try done. destruct (ts_shutdown s); [injection H as <- <-; by split|].
    pose proof (held_poll id due c {| sy_sched := s; sy_phase := PpIdle; sy_poll_now := T |} max_tasks now Hh eq_refl (Ht _ eq_refl)) as Hp.
    simpl in Hp. destruct (collect_ready _ _ _). injection H as <- <-. by split.
  - destruct ph as [|[|x rest] executed|? ? ?|? ? ?]; try done; [injection H as <- <-; split; [by apply Hstay|done]|].
    destruct (entry_current _ _ _); injection H as <- <-; (split; [apply Hstay; simpl; by right|]); [|done].
    intros [= Hid]. apply (Hbt x); [left|done].
  - destruct ph as [|? ?|i rest executed|? ? ?]; try done. apply bind_Some in H as (q & Hq & H).
    destruct ok; [|destruct (tr_repeating q) eqn:Hq2]; injection H as <- <-; (split; [|done]).
    + by apply Hstay.
    + by apply (repeat_again_held id due _ _ i q 0 1 draw now _ Hl); [congruence|].
    + by apply (drop_task_held id due _ _ i q _ Hl).
  - destruct ph as [|? ?|? ? ?|i rest executed]; try done. apply bind_Some in H as (q & Hq & H).
    destruct (negb (tr_repeating q) || stop) eqn:Hn; injection H as <- <-; (split; [|done]).
    + by apply (drop_task_held id due _ _ i q _ Hl).
    + apply orb_false_iff in Hn as [Hn%negb_false_iff _].
      by apply (repeat_again_held id due _ _ i q 1 0 draw now _ Hl); [congruence|].
Qed.
End Runs.

Section Properties.
Context {heap : DueHeap}.
Lemma sched_run_split evs : ∀ y y' os i ev, sched_run y evs = Some (y', os) → evs !! i = Some ev →
  ∃ y1 os1 o y2 os2, sched_run y (take i evs) = Some (y1, os1) ∧ sched_exec y1 ev = Some (y2, o)
    ∧ sched_run y2 (drop (S i) evs) = Some (y', os2) ∧ os = os1 ++ o :: os2 ∧ length os1 = i.
Proof.
  induction evs as [|e evs IH]; intros y y' os i ev H Hi; [done|]. cbn [sched_run] in H.
  apply bind_Some in H as ([y1 o] & Hx & H). apply bind_Some in H as ([y2 os'] & Hr & H). injection H as <- <-.
  destruct i as [|i]; simpl in Hi.
  - injection Hi as ->. exists y, [], o, y1, os'. by rewrite ?drop_0.
  - destruct (IH _ _ _ _ _ Hr Hi) as (z1 & os1 & o1 & z2 & os2 & H1 & H2 & H3 & -> & <-).
    exists z1, (o :: os1), o1, z2, os2. cbn [take sched_run]. rewrite Hx. simpl. by rewrite H1.
Qed.
Lemma canceled_run evs : ∀ n y started y' os i r, sched_inv n (sy_sched y) (sy_phase y) started → 0 ≤ n →
  n + Z.of_nat (length evs) + 2 < 2 ^ 64 → sched_run y evs = Some (y', os) →
  ts_records (sy_sched y) !! i = Some r → tr_canceled r = true → OutPicked i ∉ os.
Proof.
  induction evs as [|ev evs IH]; intros n y started y' os i r Hinv H0 Hb H Hr Hc; cbn [sched_run length] in *.
  - injection H as <- <-. by intros ?%elem_of_nil.
  - apply bind_Some in H as ([y1 o] & Hx & H). apply bind_Some in H as ([y2 os'] & Hrn & H). injection H as <- <-.
    destruct (canceled_step n y started ev y1 o i r Hinv Hx Hr Hc) as ((r' & Hr' & Hc') & Ho & _).
    apply (sched_exec_inv n) with (started := started) in Hx; [|done|lia|lia].
    intros [Heq|Hin]%elem_of_cons; [congruence|]. revert Hin. eapply (IH (n + 1)); eauto; lia.
Qed.
(** C29: the scheduler never runs a task it should not.  Over any interleaving of
    calls and poll steps, for any order among equally due tasks, a one-shot task is
    started at most once, and a task whose cancellation reported success is never
    picked by a poll again. *)
Theorem scheduler_safe (evs : list SchedEvent) (y : SchedSys) (os : list SchedOutput) :
  sched_run sched_sys_new evs = Some (y, os) → Z.of_nat (length evs) + 2 < 2 ^ 64 →
  (∀ id r, ts_records (sy_sched y) !! id = Some r → tr_repeating r = false → (times_started id (started_in os) ≤ 1)%nat)
  ∧ ∀ i j id, evs !! i = Some (SvCancel id) → os !! i = Some (OutBool true) → (i < j)%nat → os !! j ≠ Some (OutPicked id).
Proof.
  intros Hr Hb. split.
  - intros id r Hrec Hrep. by destruct (si_once _ _ _ _ (sched_reach _ _ _ Hr Hb) id r Hrec Hrep).
  - intros i j id Hi Hoi Hij Hj. destruct (sched_run_split _ _ _ _ _ _ Hr Hi) as (y1 & os1 & o & y2 & os2 & H1 & H2 & H3 & -> & Hlen).
    pose proof (lookup_lt_Some _ _ _ Hi). assert (Htl : length (take i evs) = i) by (rewrite length_take; lia).
    rewrite <- Hlen in Hoi at 1. rewrite list_lookup_middle in Hoi by done. injection Hoi as ->.
    assert (Hinv : sched_inv (Z.of_nat i) (sy_sched y1) (sy_phase y1) (started_in os1)).
    { rewrite <- Htl at 1. apply sched_reach; [done|]. rewrite Htl. lia. }
    pose proof (sched_exec_inv _ _ _ _ _ _ Hinv ltac:(lia) ltac:(lia) H2) as Hinv2.
    assert (∃ r, ts_records (sy_sched y2) !! id = Some r ∧ tr_canceled r = true) as (r & Hrec & Hcan).
    { cbn [sched_exec] in H2. unfold cancel in H2. destruct (_ || _); [done|].
      destruct (find_task (sy_sched y1) id) as [q|] eqn:Hf; [|done]. injection H2 as <-. simpl. unfold cancel_task. rewrite Hf. simpl.
      rewrite lookup_insert_eq. eauto. }
    assert (Hno : OutPicked id ∉ os2).
    { eapply (canceled_run (drop (S i) evs) (Z.of_nat i + 1)); eauto; [lia|]. rewrite length_drop. lia. }
    apply Hno. rewrite lookup_app_r in Hj by lia. destruct (j - length os1)%nat as [|k] eqn:Hk; [lia|].
    simpl in Hj. by apply list_elem_of_lookup_2 in Hj.
Qed.
Lemma take_ready_all max ready : Z.of_nat (length ready) ≤ max → take_ready max ready = (ready, []).
Proof.
  revert max. induction ready as [|x ready IH]; intros max H; simpl; [done|]. simpl in H.
  destruct (Z.ltb_spec 0 max); [|lia]. by rewrite IH by lia.
Qed.
(** The scheduler loses no task.  Whatever calls and polls came before, while
    the scheduler is not shut down every task of its map has exactly one valid
    queue entry between polls, and a poll without a limit takes it at once unless
    its due time is still ahead. *)
Theorem scheduler_keeps_tasks (evs : list SchedEvent) (y : SchedSys) (os : list SchedOutput) (id max now : Z) :
  sched_run sched_sys_new evs = Some (y, os) → Z.of_nat (length evs) + 2 < 2 ^ 64 →
  sy_phase y = PpIdle → ts_shutdown (sy_sched y) = false → id ∈ ts_tasks (sy_sched y) →
  Z.of_nat (length (ts_ready (sy_sched y)) + length (ts_delayed (sy_sched y))) ≤ max →
  ∃ r s' out, ts_records (sy_sched y) !! id = Some r ∧ tr_canceled r = false
  ∧ (∃ a b, entries (sy_sched y) PpIdle = a ++ (id, tr_generation r) :: b ∧ (id, tr_generation r) ∉ a ++ b)
  ∧ collect_ready (sy_sched y) max now = (s', out)
  ∧ ((id, tr_generation r) ∈ ready_key <$> out
     ∨ ∃ x, x ∈ ts_delayed s' ∧ delayed_key x = (id, tr_generation r) ∧ now < dt_due x).
Proof.
  intros Hr Hb Hp Hsh Hin Hmax. destruct y as [s ph T]. simpl in *. subst ph.
  pose proof (sched_reach _ _ _ Hr Hb) as Hinv. simpl in Hinv. destruct (si_dom _ _ _ _ Hinv id Hin) as [r Hrec].
  assert (Hc : tr_canceled r = false) by (by apply (si_tasks _ _ _ _ Hinv Hsh id r Hrec)).
  destruct (si_live _ _ _ _ Hinv Hsh id r Hrec Hc) as [|He]; [done|].
  destruct (collect_ready s max now) as [s' out] eqn:Hcol. exists r, s', out. split_and!; auto.
  - apply list_elem_of_split in He as (a & b & Hab). exists a, b. split; [done|].
    pose proof (si_nodup _ _ _ _ Hinv) as Hnd. rewrite Hab in Hnd. rewrite <- Permutation_middle in Hnd.
    by apply NoDup_cons in Hnd as [Hnd _].
  - unfold collect_ready in Hcol. destruct (collect_due _ _ _ _ _) as [delayed ready] eqn:Hcd.
    apply collect_due_spec in Hcd as (gone & Hpm & Hrd & _ & Hlate); [|done].
    rewrite take_ready_all in Hcol.
    2:{ rewrite Hrd, length_app, length_fmap. pose proof (length_filter (λ x, entry_current (ts_records s) (dt_record x) (dt_generation x) = true) gone).
        apply Permutation_length in Hpm. rewrite length_app in Hpm. lia. }
    injection Hcol as <- <-. unfold entries in He. simpl in He. rewrite app_nil_r, elem_of_app in He. rewrite Hrd, fmap_app, elem_of_app.
    destruct He as [He|(x & Hx & Hxd)%list_elem_of_fmap]; [by left; left|]. rewrite Hpm, elem_of_app in Hxd.
    destruct Hxd as [Hg|Hg]; [|right; exists x; auto]. left. right. apply list_elem_of_fmap. exists (to_ready x).
    split; [done|]. apply list_elem_of_fmap. exists x. split; [done|]. apply list_elem_of_filter. split; [|done].
    apply entry_current_spec. unfold delayed_key in Hx. exists r. naive_solver.
Qed.
Lemma held_run evs : ∀ n id due c y y' os started, held id due c y → sched_inv n (sy_sched y) (sy_phase y) started → 0 ≤ n →
  n + Z.of_nat (length evs) + 2 < 2 ^ 64 → steady c evs → Forall (λ ev, ¬ reschedules id ev) evs →
  sched_run y evs = Some (y', os) → ∃ c', held id due c' y'.
Proof.
  induction evs as [|ev evs IH]; intros n id due c y y' os started Hh Hinv H0 Hb Hst Hne H; cbn [sched_run length] in *.
  { injection H as <- <-. eauto. }
  apply bind_Some in H as ([y1 o] & Hx & H). apply bind_Some in H as ([y2 os'] & Hr & H). injection H as <- <-.
  apply Forall_cons in Hne as [He Hne]. pose proof (si_next _ _ _ _ Hinv). cbn [steady] in Hst.
  assert (Ht : ∀ t, event_time ev = Some t → c ≤ t) by (intros t Ht; rewrite Ht in Hst; tauto).
  destruct (held_step _ _ _ _ _ _ _ Hh ltac:(lia) Ht He Hx) as [Hh1 _].
  pose proof (sched_exec_inv _ _ _ _ _ _ Hinv H0 ltac:(lia) Hx) as Hinv1.
  eapply (IH (n + 1) id due (now_after c ev)); eauto; [lia|lia|].
  unfold now_after. destruct (event_time ev); simpl; tauto.
Qed.
Lemma schedule_holds n s ph T started group delay now s' id : sched_inv n s ph started → 0 ≤ n → n + 2 < 2 ^ 64 →
  schedule_controlled s group delay now = (s', id) → id ≠ 0 →
  held id (now + clamp_duration delay) now {| sy_sched := s'; sy_phase := ph; sy_poll_now := T |}.
Proof.
  intros Hinv H0 Hb H Hid. pose proof (si_next _ _ _ _ Hinv) as Hnx.
  unfold schedule_controlled in H. destruct (ts_shutdown s); [congruence|].
  assert (Hfresh : ∀ g, (ts_next_task_id s, g) ∉ entries s ph).
  { intros g (r & Hr & _)%(si_entries _ _ _ _ Hinv). apply (si_ids _ _ _ _ Hinv) in Hr. lia. }
  assert (Hw : ts_next_task_id s +₆₄ 1 = ts_next_task_id s + 1) by mach. unfold entries in Hfresh.
  setoid_rewrite not_elem_of_app in Hfresh. setoid_rewrite not_elem_of_app in Hfresh.
  assert (Hno : (∀ x, x ∈ ts_ready s → rt_record x ≠ ts_next_task_id s) ∧ (∀ x, x ∈ ts_delayed s → dt_record x ≠ ts_next_task_id s)
    ∧ (∀ x, x ∈ batch_of ph → rt_record x ≠ ts_next_task_id s)).
  { split_and!; intros x Hx Heq.
    - destruct (Hfresh (rt_generation x)) as [Hn _]. apply Hn, list_elem_of_fmap. exists x. by rewrite <- Heq.
    - destruct (Hfresh (dt_generation x)) as (_ & Hn & _). apply Hn, list_elem_of_fmap. exists x. by rewrite <- Heq.
    - destruct (Hfresh (rt_generation x)) as (_ & _ & Hn). apply Hn, list_elem_of_fmap. exists x. by rewrite <- Heq. }
  destruct Hno as (Hn1 & Hn2 & Hn3). unfold clamp_duration in *.
  destruct (Z.leb_spec delay 0); injection H as <- <-; constructor; simpl; rewrite ?Hw; try lia;
    try (eexists; split; [by rewrite lookup_insert_eq|done]); intros x Hx Heq; try (by destruct (Hn3 x Hx)).
  - by destruct (Hn2 x Hx).
  - apply elem_of_app in Hx as [Hx|Hx]; [by destruct (Hn2 x Hx)|]. apply list_elem_of_singleton in Hx as ->. done.
  - by destruct (Hn1 x Hx).
Qed.
(** No task runs before its time.  A one-shot task scheduled at [now] with a
    delay, in any history and with any calls and polls after it that do not
    reschedule it, is only ever picked by a poll whose clock reading has reached
    [now] plus the delay; a negative delay counts as none. *)
Theorem scheduler_never_early (pre mid : list SchedEvent) (group delay now id : Z) (y y' : SchedSys) (os : list SchedOutput) :
  sched_run sched_sys_new (pre ++ SvSchedule group delay now :: mid) = Some (y, os) →
  Z.of_nat (length pre + length mid) + 3 < 2 ^ 64 → os !! length pre = Some (OutHandle id) → id ≠ 0 →
  steady now mid → Forall (λ ev, ¬ reschedules id ev) mid → sched_exec y SvNext = Some (y', OutPicked id) →
  now + clamp_duration delay ≤ sy_poll_now y.
Proof.
  intros Hr Hb Ho Hid Hst Hne Hx.
  destruct (sched_run_split _ _ _ _ (length pre) _ Hr (list_lookup_middle _ _ _ _ eq_refl)) as (y1 & os1 & o & y2 & os2 & H1 & H2 & H3 & -> & Hlen).
  rewrite take_app_length in H1. rewrite <- Hlen, list_lookup_middle in Ho by done. injection Ho as ->.
  replace (drop (S (length pre)) _) with mid in H3 by (by rewrite cons_middle, app_assoc, drop_app_length' by (rewrite length_app; simpl; lia)).
  pose proof (sched_reach _ _ _ H1 ltac:(lia)) as Hinv.
  pose proof (sched_exec_inv _ _ _ _ _ _ Hinv ltac:(lia) ltac:(lia) H2) as Hinv2.
  assert (Hh : held id (now + clamp_duration delay) now y2).
  { cbn [sched_exec] in H2. destruct (schedule_controlled (sy_sched y1) group delay now) as [s' i] eqn:Hs. injection H2 as <- <-.
    apply (schedule_holds (Z.of_nat (length pre)) _ _ _ _ _ _ _ _ _ Hinv) with (3 := Hs); [lia|lia|done]. }
  destruct (held_run mid _ _ _ _ _ _ _ _ Hh Hinv2 ltac:(lia) ltac:(lia) Hst Hne H3) as [c Hh'].
  assert (Hinv' : sched_inv (Z.of_nat (length (pre ++ SvSchedule group delay now :: mid))) (sy_sched y) (sy_phase y) (started_in (os1 ++ OutHandle id :: os2))).
  { apply sched_reach; [done|]. rewrite length_app. simpl. lia. }
  pose proof (si_next _ _ _ _ Hinv') as Hnx. rewrite length_app in Hnx. simpl in Hnx.
  destruct (held_step _ _ _ _ SvNext _ _ Hh' ltac:(lia) ltac:(done) ltac:(by intros []) Hx) as [_ Hp]. by apply Hp.
Qed.
End Properties.

(** ** Witnesses *)
(** A heap that gives out the first of the least due times. *)
Fixpoint first_least (best : DelayedTask) (at_ i : nat) (l : list DelayedTask) : nat :=
  match l with
  | [] => at_
  | x :: l => if dt_due x <? dt_due best then first_least x i (S i) l else first_least best at_ (S i) l
  end.
Lemma first_least_spec l : ∀ pre best at_, pre !! at_ = Some best → (∀ y, y ∈ pre → dt_due best ≤ dt_due y) →
  ∃ x, (pre ++ l) !! first_least best at_ (length pre) l = Some x ∧ ∀ y, y ∈ pre ++ l → dt_due x ≤ dt_due y.
Proof.
  induction l as [|x l IH]; intros pre best at_ Hb Hl; simpl; [rewrite app_nil_r; eauto|].
  replace (pre ++ x :: l) with ((pre ++ [x]) ++ l) by (by rewrite <- app_assoc).
  replace (S (length pre)) with (length (pre ++ [x])) by (rewrite length_app; simpl; lia).
  destruct (Z.ltb_spec (dt_due x) (dt_due best)); apply IH.
  - by rewrite lookup_app_r, Nat.sub_diag by lia.
  - intros y [Hy| ->%list_elem_of_singleton]%elem_of_app; [specialize (Hl y Hy)|]; lia.
  - by apply lookup_app_l_Some.
  - intros y [Hy| ->%list_elem_of_singleton]%elem_of_app; [by apply Hl|lia].
Qed.
Program Definition least_heap : DueHeap :=
  {| heap_top l := match l with [] => O | x :: l => first_least x O 1 l end |}.
Next Obligation.
  intros [|x l] Hl; [done|]. apply (first_least_spec l [x] x O); [done|]. by intros y ->%list_elem_of_singleton.
Qed.
(** A repeating task is canceled while it waits; a one-shot task is polled too
    early, then picked and run. *)
Definition demo_policy : RepeatPolicy :=
  {| rp_interval := 20; rp_max_interval := 0; rp_backs_off := false; rp_scaled := λ d, d; rp_jitter := 0 |}.
Definition demo_pre : list SchedEvent := [SvEvery 0 demo_policy (λ _, 0) 100; SvCancel 1].
Definition demo_mid : list SchedEvent := [SvPoll 16 105; SvNext; SvPoll 16 130].
Definition demo_events : list SchedEvent := demo_pre ++ SvSchedule 0 10 100 :: demo_mid.
Lemma scheduler_safe_witness : ∃ y os, @sched_run least_heap sched_sys_new (demo_events ++ [SvNext]) = Some (y, os)
  ∧ os !! 1%nat = Some (OutBool true) ∧ os !! 6%nat = Some (OutPicked 2) ∧ ∀ j, (1 < j)%nat → os !! j ≠ Some (OutPicked 1).
Proof.
  eexists _, _. split; [vm_compute; reflexivity|]. split; [reflexivity|]. split; [reflexivity|].
  intros j Hj. eapply (@scheduler_safe least_heap (demo_events ++ [SvNext])) with (i := 1%nat); [vm_compute; reflexivity|simpl; lia|reflexivity|reflexivity|exact Hj].
Defined.
Lemma scheduler_never_early_witness : ∃ y y' os, @sched_run least_heap sched_sys_new demo_events = Some (y, os)
  ∧ @sched_exec least_heap y SvNext = Some (y', OutPicked 2) ∧ 100 + clamp_duration 10 ≤ sy_poll_now y.
Proof.
  eexists _, _, _. split; [vm_compute; reflexivity|]. split; [vm_compute; reflexivity|].
  eapply (@scheduler_never_early least_heap demo_pre demo_mid 0 10 100 2);
    [vm_compute; reflexivity|simpl; lia|reflexivity|discriminate|simpl; lia| |vm_compute; reflexivity].
  repeat constructor; intros [].
Defined.
Lemma scheduler_keeps_tasks_witness : ∃ y os, @sched_run least_heap sched_sys_new (demo_pre ++ [SvSchedule 0 10 100]) = Some (y, os)
  ∧ ∃ r s' out, ts_records (sy_sched y) !! 2 = Some r ∧ @collect_ready least_heap (sy_sched y) 2 130 = (s', out)
  ∧ ((2, tr_generation r) ∈ ready_key <$> out
     ∨ ∃ x, x ∈ ts_delayed s' ∧ delayed_key x = (2, tr_generation r) ∧ 130 < dt_due x).
Proof.
  eexists _, _. split; [vm_compute; reflexivity|].
  edestruct (@scheduler_keeps_tasks least_heap (demo_pre ++ [SvSchedule 0 10 100])) with (id := 2) (max := 2) (now := 130)
    as (r & s' & out & Hr & _ & _ & Hc & Hd);
    [vm_compute; reflexivity|simpl; lia|reflexivity|reflexivity|vm_compute; reflexivity|simpl; lia|].
  exists r, s', out. split; [exact Hr|split; [exact Hc|exact Hd]].
Defined.
