(* ===== verification/MemoryPool.v ===== *)
(** * Buffer pool

    [core/memory/memory_pool.cpp]: fixed blocks of one chunk, handed out from a
    stack.  A block is its index; an address is its offset in the chunk.  A
    [PooledBuffer] releases its block once, when it is destroyed; a run of the
    buffer manager is a sequence of acquisitions and destructions. *)
From S2P Require Import Prelude.
From stdpp Require Import list.
Open Scope Z_scope.

Record MemoryPool := { mp_block_size : Z; mp_block_count : Z; mp_free : list Z }.
Definition memory_pool_new (blockSize blockCount : Z) : MemoryPool :=
  if (blockSize =? 0) || (blockCount =? 0) then {| mp_block_size := blockSize; mp_block_count := 0; mp_free := [] |}
  else {| mp_block_size := blockSize; mp_block_count := blockCount; mp_free := rev (seqZ 0 blockCount) |}.
Definition pool_acquire (p : MemoryPool) : MemoryPool * option Z :=
  match mp_free p with
  | [] => (p, None)
  | b :: free => ({| mp_block_size := mp_block_size p; mp_block_count := mp_block_count p; mp_free := free |}, Some b)
  end.
(** [Release] of the address [offset] bytes behind the chunk's start. *)
Definition pool_release (offset : Z) (p : MemoryPool) : MemoryPool :=
  if (mp_block_size p =? 0) || (mp_block_count p =? 0) then p
  else if (offset <? 0) || (mp_block_size p * mp_block_count p <=? offset) then p
  else if negb (offset mod mp_block_size p =? 0) then p
  else if mp_block_count p <=? Z.of_nat (length (mp_free p)) then p
  else {| mp_block_size := mp_block_size p; mp_block_count := mp_block_count p; mp_free := offset / mp_block_size p :: mp_free p |}.

(** [BufferManager::Acquire] and the destruction of the [i]-th live buffer. *)
Inductive PoolOp := PoAcquire | PoDestroy (i : nat).
Definition pool_exec (st : MemoryPool * list Z) (op : PoolOp) : option (MemoryPool * list Z * option Z) :=
  let '(p, live) := st in
  match op with
  | PoAcquire =>
      let '(p, b) := pool_acquire p in
      Some (p, match b with Some b => live ++ [b] | None => live end, b)
  | PoDestroy i => b ← live !! i; Some (pool_release (b * mp_block_size p) p, delete i live, None)
  end.
Fixpoint pool_run (st : MemoryPool * list Z) (ops : list PoolOp) : option (MemoryPool * list Z) :=
  match ops with
  | [] => Some st
  | op :: ops => '(st, _) ← pool_exec st op; pool_run st ops
  end.

(** Every block is free or owned, once. *)
Record pool_inv (p : MemoryPool) (live : list Z) (size count : Z) : Prop := {
  pi_size : mp_block_size p = size ∧ mp_block_count p = count;
  pi_blocks : live ++ mp_free p ≡ₚ seqZ 0 count;
}.
Lemma pool_new_inv size count : 0 < size → 0 < count → pool_inv (memory_pool_new size count) [] size count.
Proof.
  intros Hs Hc. unfold memory_pool_new. destruct (Z.eqb_spec size 0); [lia|]. destruct (Z.eqb_spec count 0); [lia|].
  constructor; simpl; [done|]. symmetry. apply Permutation_rev.
Qed.
Lemma pool_exec_inv p live size count op p' live' r : 0 < size → 0 < count → pool_inv p live size count →
  pool_exec (p, live) op = Some (p', live', r) → pool_inv p' live' size count.
Proof.
  intros Hs Hc [[Hsz Hct] Hb]. destruct op as [|i]; cbn [pool_exec].
  - unfold pool_acquire. destruct (mp_free p) as [|b free] eqn:Hf; intros [= <- <- <-].
    + by constructor; [|rewrite Hf].
    + constructor; simpl; [done|]. by rewrite <- app_assoc.
  - intros (b & Hi & H)%bind_Some. injection H as <- <- <-.
    assert (Hin : b ∈ seqZ 0 count) by (rewrite <- Hb; apply elem_of_app; left; by eapply list_elem_of_lookup_2).
    apply elem_of_seqZ in Hin.
    assert (Hlen : (length live + length (mp_free p) = Z.to_nat count)%nat) by (rewrite <- length_app, Hb; apply length_seqZ).
    pose proof (lookup_lt_Some _ _ _ Hi). unfold pool_release. rewrite Hsz, Hct.
    destruct (Z.eqb_spec size 0); [lia|]. destruct (Z.eqb_spec count 0); [lia|]. simpl.
    destruct (Z.ltb_spec (b * size) 0); [nia|]. destruct (Z.leb_spec (size * count) (b * size)); [nia|]. simpl.
    rewrite Z_mod_mult. simpl. destruct (Z.leb_spec count (Z.of_nat (length (mp_free p)))); [lia|].
    rewrite Z.div_mul by lia. constructor; simpl; [done|]. rewrite <- Hb.
    rewrite <- Permutation_middle. rewrite app_comm_cons. apply Permutation_app_tail. symmetry. by apply delete_Permutation.
Qed.
Lemma pool_run_inv ops : ∀ p live size count p' live', 0 < size → 0 < count → pool_inv p live size count →
  pool_run (p, live) ops = Some (p', live') → pool_inv p' live' size count.
Proof.
  induction ops as [|op ops IH]; intros p live size count p' live' Hs Hc Hinv H; cbn [pool_run] in H; [by simplify_eq|].
  apply bind_Some in H as ([[p1 live1] r] & Hx & H). eapply IH; [done|done| |exact H]. by eapply pool_exec_inv.
Qed.
(** No two live buffers share memory.  Whatever sequence of acquisitions and
    destructions, the blocks owned by live buffers are distinct and inside the
    chunk, an acquisition fails exactly when all blocks are owned, and a block
    handed out was free. *)
Theorem pool_exclusive (size count : Z) (ops : list PoolOp) (p : MemoryPool) (live : list Z) :
  0 < size → 0 < count → pool_run (memory_pool_new size count, []) ops = Some (p, live) →
  NoDup live ∧ Forall (λ b, 0 ≤ b < count) live
  ∧ (pool_acquire p = (p, None) ↔ Z.of_nat (length live) = count)
  ∧ (∀ p' b, pool_acquire p = (p', Some b) → 0 ≤ b < count ∧ b ∉ live).
Proof.
  intros Hs Hc H. pose proof (pool_run_inv _ _ _ _ _ _ _ Hs Hc (pool_new_inv _ _ Hs Hc) H) as [[Hsz Hct] Hb].
  assert (Hnd : NoDup (live ++ mp_free p)) by (rewrite Hb; apply NoDup_seqZ).
  assert (Hrange : ∀ b, b ∈ live ++ mp_free p → 0 ≤ b < count) by (intros b; rewrite Hb, elem_of_seqZ; lia).
  assert (Hlen : (length live + length (mp_free p) = Z.to_nat count)%nat) by (rewrite <- length_app, Hb; apply length_seqZ).
  apply NoDup_app in Hnd as (Hl & Hdis & Hf). split_and!.
  - done.
  - apply Forall_forall. intros b Hin. apply Hrange, elem_of_app. by left.
  - unfold pool_acquire. destruct (mp_free p) as [|b free]; simpl in Hlen; split; intros; try done; lia.
  - intros p' b. unfold pool_acquire. destruct (mp_free p) as [|x free]; [done|]. intros [= <- <-]. split.
    + apply Hrange, elem_of_app. right. by left.
    + intros Hin. apply (Hdis _ Hin). by left.
Qed.
Lemma pool_exclusive_witness : ∃ p live,
  pool_run (memory_pool_new 2048 3, []) [PoAcquire; PoAcquire; PoDestroy 0; PoAcquire; PoAcquire] = Some (p, live)
  ∧ live = [1; 2; 0] ∧ NoDup live ∧ pool_acquire p = (p, None).
Proof.
  eexists _, _. split; [vm_compute; reflexivity|]. split; [reflexivity|].
  edestruct (pool_exclusive 2048 3 [PoAcquire; PoAcquire; PoDestroy 0; PoAcquire; PoAcquire]) as (H1 & _ & H3 & _);
    [lia|lia|vm_compute; reflexivity|]. split; [exact H1|]. reflexivity.
Defined.
(** A block released twice while others are out is handed to two owners: the
    free list is only checked for its size. *)
Lemma double_release_aliases : ∃ p,
  let p0 := memory_pool_new 2048 2 in
  let '(p1, a) := pool_acquire p0 in
  let '(p2, b) := pool_acquire p1 in
  let p3 := pool_release (2048 * default 0 a) (pool_release (2048 * default 0 a) p2) in
  p3 = p ∧ ∃ p4 p5, pool_acquire p = (p4, a) ∧ pool_acquire p4 = (p5, a).
Proof. eexists. vm_compute. split; [reflexivity|]. eexists _, _. split; reflexivity. Qed.
