(* ===== verification/Dispatch.v ===== *)
(** * Message dispatch

    [core/net/dispatcher.cpp] and [core/net/transport_router.cpp]: the handler
    table, the policy checks before a handler may run, and where it runs.  A
    dispatch is modelled by its decision and the metrics it records; the results
    of the calls it makes on the way (is the session shared, did the serialized
    context or the worker queue accept the task) are its arguments.  Handlers are
    abstract; [Session] runs the decisions. *)
From S2P Require Import Prelude Packet Opcodes.
From stdpp Require Import list gmap strings.
Open Scope Z_scope.

Definition satisfies_required_state (required current : SessionStatus) : bool :=
  match required with
  | ssAny => true
  | ssAuthenticated => bool_decide (current = ssAuthenticated) || bool_decide (current = ssInRoom) || bool_decide (current = ssAdmin)
  | ssInRoom => bool_decide (current = ssInRoom) || bool_decide (current = ssAdmin)
  | ssAdmin => bool_decide (current = ssAdmin)
  end.
Definition kDispatchProcessingPlaceCount : Z := 3.
Definition processing_place_index (place : ProcessingPlace) : Z :=
  match place with ppInline => 0 | ppWorker => 1 | ppRoomStrand => 2 end.

Inductive DispatchMetric :=
  | dmCall (place : Z)
  | dmReject (place : Z).
Section Dispatch.
Context {H : Type}.
Record Entry := { en_handler : H; en_policy : OpcodePolicy }.
Definition register_handler (msg_id : Z) (handler : H) (policy : OpcodePolicy) (table : gmap Z Entry) : gmap Z Entry :=
  <[msg_id := {| en_handler := handler; en_policy := policy |}]> table.
(** What the dispatch does with a message it handles. *)
Inductive Decision :=
  | dReply (code : Z) (text : string)
  | dRun (handler : H) (place : Z)
  | dPost (handler : H) (place : Z)
  | dEnqueue (handler : H) (place : Z).
(** The answers of the calls: [shared_from_this], [post_serialized], the worker
    queue if there is one and its [TryPush]. *)
Record Answers := { an_shared : bool; an_posted : bool; an_queue : option bool }.

(** [Dispatcher::dispatch]; [None] is [false]. *)
Definition dispatch (table : gmap Z Entry) (msg_id : Z) (status : SessionStatus) (transport : TransportKind) (a : Answers)
    : option (list DispatchMetric * Decision) :=
  match table !! msg_id with
  | None => None
  | Some entry =>
      let policy := en_policy entry in
      if negb (transport_allows (op_transport policy) transport) then Some ([], dReply FORBIDDEN "forbidden")
      else if negb (satisfies_required_state (required_state policy) status) then Some ([], dReply FORBIDDEN "forbidden")
      else
        let place := processing_place policy in
        let index := processing_place_index place in
        if kDispatchProcessingPlaceCount <=? index then Some ([], dReply INTERNAL_ERROR "unsupported processing place")
        else if decide (place = ppInline) then Some ([dmCall index], dRun (en_handler entry) index)
        else if negb (an_shared a) then
          Some ([dmCall index; dmReject index], dReply SERVER_BUSY "dispatch context unavailable")
        else if decide (place = ppRoomStrand) then
          if an_posted a then Some ([dmCall index], dPost (en_handler entry) index)
          else Some ([dmCall index; dmReject index], dReply SERVER_BUSY "dispatch context unavailable")
        else
          match an_queue a with
          | None => Some ([dmCall index; dmReject index], dReply SERVER_BUSY "worker queue unavailable")
          | Some true => Some ([dmCall index], dEnqueue (en_handler entry) index)
          | Some false => Some ([dmCall index; dmReject index], dReply SERVER_BUSY "worker queue full")
          end
  end.
(** [TransportRouter::dispatch]: the session comes as a shared pointer, which may
    be null. *)
Definition router_dispatch (table : gmap Z Entry) (msg_id : Z) (session : option SessionStatus) (transport : TransportKind)
    (posted : bool) (queue : option bool) : option (list DispatchMetric * Decision) :=
  match session with
  | None => None
  | Some status =>
    match table !! msg_id with
    | None => None
    | Some entry =>
      let policy := en_policy entry in
      if negb (transport_allows (op_transport policy) transport) then Some ([], dReply FORBIDDEN "forbidden")
      else if negb (satisfies_required_state (required_state policy) status) then Some ([], dReply FORBIDDEN "forbidden")
      else
        let place := processing_place policy in
        let index := processing_place_index place in
        if kDispatchProcessingPlaceCount <=? index then Some ([], dReply INTERNAL_ERROR "unsupported processing place")
        else if decide (place = ppInline) then Some ([dmCall index], dRun (en_handler entry) index)
        else if decide (place = ppRoomStrand) then
          if posted then Some ([dmCall index], dPost (en_handler entry) index)
          else Some ([dmCall index; dmReject index], dReply SERVER_BUSY "dispatch context unavailable")
        else
          match queue with
          | None => Some ([dmCall index; dmReject index], dReply SERVER_BUSY "worker queue unavailable")
          | Some true => Some ([dmCall index], dEnqueue (en_handler entry) index)
          | Some false => Some ([dmCall index; dmReject index], dReply SERVER_BUSY "worker queue full")
          end
    end
  end.

(** ** What a dispatch guarantees *)
Definition allowed (policy : OpcodePolicy) (status : SessionStatus) (transport : TransportKind) : bool :=
  transport_allows (op_transport policy) transport && satisfies_required_state (required_state policy) status.
Definition has_context (place : ProcessingPlace) (a : Answers) : bool :=
  match place with
  | ppInline => true
  | ppRoomStrand => an_shared a && an_posted a
  | ppWorker => an_shared a && bool_decide (an_queue a = Some true)
  end.
Definition placed (entry : Entry) : Decision :=
  match processing_place (en_policy entry) with
  | ppInline => dRun (en_handler entry) 0
  | ppWorker => dEnqueue (en_handler entry) 1
  | ppRoomStrand => dPost (en_handler entry) 2
  end.
Definition handler_of (d : Decision) : option H :=
  match d with dReply _ _ => None | dRun h _ | dPost h _ | dEnqueue h _ => Some h end.
Lemma dispatch_cases table msg_id status transport a : dispatch table msg_id status transport a =
  entry ← table !! msg_id;
  if allowed (en_policy entry) status transport then
    if has_context (processing_place (en_policy entry)) a
    then Some ([dmCall (processing_place_index (processing_place (en_policy entry)))], placed entry)
    else let i := processing_place_index (processing_place (en_policy entry)) in
         Some ([dmCall i; dmReject i], dReply SERVER_BUSY
           (if negb (an_shared a) then "dispatch context unavailable"
            else match processing_place (en_policy entry), an_queue a with
                 | ppWorker, None => "worker queue unavailable"
                 | ppWorker, _ => "worker queue full"
                 | _, _ => "dispatch context unavailable"
                 end))
  else Some ([], dReply FORBIDDEN "forbidden").
Proof.
  unfold dispatch, allowed. destruct (table !! msg_id) as [entry|]; [|done]. simpl.
  destruct (transport_allows _ _); [|done]. destruct (satisfies_required_state _ _); [|done]. simpl.
  unfold has_context, placed. destruct (processing_place (en_policy entry)); simpl; [done| |].
  - destruct (an_shared a), (an_queue a) as [[]|]; done.
  - destruct (an_shared a), (an_posted a); done.
Qed.
Lemma dispatch_allowed table msg_id status transport a m d h : dispatch table msg_id status transport a = Some (m, d) →
  handler_of d = Some h → ∃ entry, table !! msg_id = Some entry ∧ h = en_handler entry
    ∧ allowed (en_policy entry) status transport = true.
Proof.
  rewrite dispatch_cases. destruct (table !! msg_id) as [entry|]; [|done]. simpl.
  destruct (allowed _ _ _) eqn:Ha; [|by intros [= <- <-]]. destruct (has_context _ _); intros [= <- <-]; [|done].
  unfold placed, handler_of. destruct (processing_place _); intros [= <-]; eauto.
Qed.
End Dispatch.
Arguments Entry : clear implicits.
Arguments Decision : clear implicits.

(** C30: dispatch is complete mediation with no silent drop.  A message is left to
    the caller exactly when no handler is registered for it; otherwise either its
    own handler is given control, at the place its policy names, or the client is
    sent exactly one error: FORBIDDEN when the transport or the session's state is
    not what the policy demands, SERVER_BUSY when the policy is satisfied but the
    execution context refuses.  The transport router decides the same way for
    every live session. *)
Theorem dispatch_exact {H : Type} (table : gmap Z (Entry H)) (msg_id : Z) (status : SessionStatus) (transport : TransportKind) (a : Answers) :
  (dispatch table msg_id status transport a = None ↔ table !! msg_id = None)
  ∧ (∀ m d, dispatch table msg_id status transport a = Some (m, d) → ∃ entry, table !! msg_id = Some entry
     ∧ (d = placed entry ∧ allowed (en_policy entry) status transport = true ∧ has_context (processing_place (en_policy entry)) a = true
        ∨ (∃ text, d = dReply SERVER_BUSY text) ∧ allowed (en_policy entry) status transport = true
            ∧ has_context (processing_place (en_policy entry)) a = false
        ∨ d = dReply FORBIDDEN "forbidden" ∧ allowed (en_policy entry) status transport = false))
  ∧ (an_shared a = true →
     router_dispatch table msg_id (Some status) transport (an_posted a) (an_queue a) = dispatch table msg_id status transport a).
Proof.
  split_and!.
  - rewrite dispatch_cases. destruct (table !! msg_id); simpl; [|done]. split; [|done]. repeat case_match; done.
  - intros m d Hd. rewrite dispatch_cases in Hd. destruct (table !! msg_id) as [entry|]; [|done]. exists entry. split; [done|].
    simpl in Hd. destruct (allowed _ _ _); [|right; right; naive_solver].
    destruct (has_context _ _); injection Hd as <- <-; [by left|right; left; eauto].
  - intros Hs. unfold dispatch, router_dispatch. rewrite Hs. done.
Qed.
Lemma dispatch_exact_witness :
  let table := register_handler 0x0100 7 {| required_state := ssAuthenticated; processing_place := ppWorker;
    op_transport := tmTcp; op_delivery := dcReliableOrdered; op_channel := 0 |} ∅ in
  let a := {| an_shared := true; an_posted := true; an_queue := Some true |} in
  router_dispatch table 0x0100 (Some ssInRoom) tkTcp true (Some true) = Some ([dmCall 1], dEnqueue 7 1).
Proof.
  intros table a. destruct (dispatch_exact table 0x0100 ssInRoom tkTcp a) as (_ & _ & Hr).
  specialize (Hr eq_refl). change (an_posted a) with true in Hr. change (an_queue a) with (Some true) in Hr.
  rewrite Hr. vm_compute. reflexivity.
Defined.
