(* ===== verification/Connection.v ===== *)
(** * Transport connections

    [core/net/connection.cpp]: the byte-stream connection the gateway's client
    side derives from.  The strand serialises the steps; a derived class acts
    through its hooks, of which only [on_read] can change the connection here, by
    stopping it ([stops]).  [cn_writing] is the buffer of the write in progress. *)
From S2P Require Import Prelude Frames.
From stdpp Require Import list.
Open Scope Z_scope.

Record Connection := {
  cn_started : bool;
  cn_stopped : bool;
  cn_finalized : bool;
  cn_queue : list (list Z);
  cn_queued_bytes : Z;
  cn_writing : option (list Z);
  cn_reading : bool;
}.
Definition conn_new : Connection :=
  {| cn_started := false; cn_stopped := false; cn_finalized := false; cn_queue := []; cn_queued_bytes := 0; cn_writing := None; cn_reading := false |}.
Definition set_queue_ (q : list (list Z)) (n : Z) (w : option (list Z)) (c : Connection) : Connection :=
  {| cn_started := cn_started c; cn_stopped := cn_stopped c; cn_finalized := cn_finalized c; cn_queue := q; cn_queued_bytes := n;
     cn_writing := w; cn_reading := cn_reading c |}.
Definition set_flags (started stopped finalized reading : bool) (c : Connection) : Connection :=
  {| cn_started := started; cn_stopped := stopped; cn_finalized := finalized; cn_queue := cn_queue c;
     cn_queued_bytes := cn_queued_bytes c; cn_writing := cn_writing c; cn_reading := reading |}.
(** The hooks called and the bytes that reach the socket. *)
Inductive ConnOut :=
  | CoConnect
  | CoRead (bs : list Z)
  | CoAccepted (bs : list Z)
  | CoWritten (bs : list Z)
  | CoError
  | CoDisconnect.

Section Connection.
Context (send_queue_max_bytes : Z).
Definition finalize_stop (c : Connection) : Connection * list ConnOut :=
  (set_flags (cn_started c) true true (cn_reading c) (set_queue_ [] 0 (cn_writing c) c), [CoDisconnect]).
(** [stop] on the strand. *)
Definition conn_stop (c : Connection) : Connection * list ConnOut :=
  if cn_stopped c then (c, []) else finalize_stop c.
Definition conn_do_write (c : Connection) : Connection :=
  match cn_queue c with
  | [] => c
  | buffer :: _ => set_queue_ (cn_queue c) (cn_queued_bytes c) (Some buffer) c
  end.
(** The posted part of [async_send]. *)
Definition conn_send (payload : list Z) (c : Connection) : Connection * list ConnOut :=
  let size := Z.of_nat (length payload) in
  if cn_stopped c then (c, [])
  else if (0 <? send_queue_max_bytes)
       && (send_queue_max_bytes - Z.min send_queue_max_bytes (cn_queued_bytes c) <? size)
  then let '(c, out) := conn_stop c in (c, CoError :: out)
  else
    let idle := match cn_queue c with [] => true | _ => false end in
    let c := set_queue_ (cn_queue c ++ [payload]) (cn_queued_bytes c +₆₄ size) (cn_writing c) c in
    (if idle then conn_do_write c else c, [CoAccepted payload]).
Definition handle_write (ok : bool) (buffer : list Z) (c : Connection) : Connection * list ConnOut :=
  let c := set_queue_ (cn_queue c) (cn_queued_bytes c) None c in
  if ok then
    let size := Z.of_nat (length buffer) in
    let n := if size <=? cn_queued_bytes c then cn_queued_bytes c - size else 0 in
    let q := tail (cn_queue c) in
    (conn_do_write (set_queue_ q n None c), [CoWritten buffer])
  else let '(c, out) := conn_stop c in (c, CoError :: out).
Definition handle_read (r : option (list Z)) (stops : bool) (c : Connection) : Connection * list ConnOut :=
  let c := set_flags (cn_started c) (cn_stopped c) (cn_finalized c) false c in
  match r with
  | None => let '(c, out) := conn_stop c in (c, CoError :: out)
  | Some bs =>
      let seen := match bs with [] => [] | _ => [CoRead bs] end in
      let '(c, out) := if stops then conn_stop c else (c, []) in
      (set_flags (cn_started c) (cn_stopped c) (cn_finalized c) (negb (cn_stopped c)) c, seen ++ out)
  end.
Inductive ConnEvent :=
  | CeStart
  | CeSend (payload : list Z)
  | CeWrote (ok : bool)
  | CeRead (r : option (list Z)) (stops : bool)
  | CeStopFlag
  | CeFinalize.
Definition conn_exec (c : Connection) (ev : ConnEvent) : option (Connection * list ConnOut) :=
  match ev with
  | CeStart =>
      if cn_started c then None
      else if cn_stopped c then Some (c, []) else Some (set_flags true (cn_stopped c) (cn_finalized c) true c, [CoConnect])
  | CeSend payload => Some (conn_send payload c)
  | CeWrote ok => match cn_writing c with Some buffer => Some (handle_write ok buffer c) | None => None end
  | CeRead r stops => if cn_reading c then Some (handle_read r stops c) else None
  | CeStopFlag => if cn_stopped c then None else Some (set_flags (cn_started c) true (cn_finalized c) (cn_reading c) c, [])
  | CeFinalize => if cn_stopped c && negb (cn_finalized c) then Some (finalize_stop c) else None
  end.
Fixpoint conn_run (c : Connection) (evs : list ConnEvent) : option (Connection * list ConnOut) :=
  match evs with
  | [] => Some (c, [])
  | ev :: evs => '(c, o) ← conn_exec c ev; '(c, os) ← conn_run c evs; Some (c, o ++ os)
  end.

Definition conn_accepted (os : list ConnOut) : list (list Z) := omap (λ o, match o with CoAccepted b => Some b | _ => None end) os.
Definition conn_written (os : list ConnOut) : list (list Z) := omap (λ o, match o with CoWritten b => Some b | _ => None end) os.
Definition disconnects (os : list ConnOut) : list unit := omap (λ o, match o with CoDisconnect => Some tt | _ => None end) os.
Definition bytes_of (q : list (list Z)) : Z := Z.of_nat (length (concat q)).
(** Refusing by remaining space is the budget test of the other queues. *)
Lemma remaining_is_budget queued incoming : 0 ≤ queued ≤ send_queue_max_bytes →
  (0 <? send_queue_max_bytes) && (send_queue_max_bytes - Z.min send_queue_max_bytes queued <? incoming)
  = exceeds_queue_budget send_queue_max_bytes queued incoming.
Proof.
  intros Hq. unfold exceeds_queue_budget. destruct (Z.eqb_spec send_queue_max_bytes 0); [by destruct (Z.ltb_spec 0 send_queue_max_bytes); [lia|]|].
  destruct (Z.ltb_spec 0 send_queue_max_bytes); [|lia]. simpl.
  destruct (Z.ltb_spec send_queue_max_bytes incoming), (Z.ltb_spec (send_queue_max_bytes - Z.min send_queue_max_bytes queued) incoming),
    (Z.ltb_spec (send_queue_max_bytes - incoming) queued); try done; lia.
Qed.
Record conn_inv (c : Connection) (os : list ConnOut) : Prop := {
  ci_fifo : ∃ dropped, conn_accepted os = conn_written os ++ cn_queue c ++ dropped ∧ (dropped ≠ [] → cn_finalized c = true)
    ∧ ∀ b, cn_writing c = Some b → head (cn_queue c ++ dropped) = Some b;
  ci_writing : cn_stopped c = false → cn_writing c = head (cn_queue c);
  ci_bytes : 0 < send_queue_max_bytes < 2 ^ 64 → cn_queued_bytes c = bytes_of (cn_queue c) ∧ bytes_of (cn_queue c) ≤ send_queue_max_bytes;
  ci_final : cn_finalized c = true → cn_stopped c = true ∧ cn_queue c = [];
  ci_disconnect : disconnects os = if cn_finalized c then [tt] else [];
}.
Lemma conn_accepted_app a b : conn_accepted (a ++ b) = conn_accepted a ++ conn_accepted b.  Proof. apply omap_app. Qed.
Lemma conn_written_app a b : conn_written (a ++ b) = conn_written a ++ conn_written b.  Proof. apply omap_app. Qed.
Lemma disconnects_app a b : disconnects (a ++ b) = disconnects a ++ disconnects b.  Proof. apply omap_app. Qed.
#[local] Hint Rewrite conn_accepted_app conn_written_app disconnects_app app_nil_r : couts.
Lemma bytes_of_cons b q : bytes_of (b :: q) = Z.of_nat (length b) + bytes_of q.
Proof. unfold bytes_of. simpl. rewrite length_app. lia. Qed.
Lemma bytes_of_snoc q b : bytes_of (q ++ [b]) = bytes_of q + Z.of_nat (length b).
Proof. unfold bytes_of. rewrite concat_app. simpl. rewrite app_nil_r, length_app. lia. Qed.
Lemma finalize_inv c os out : conn_inv c os → cn_finalized c = false → conn_accepted out = [] → conn_written out = [] → disconnects out = [] →
  conn_inv (finalize_stop c).1 (os ++ out ++ (finalize_stop c).2).
Proof.
  intros [(dropped & Hf & Hdr & Hw) _ _ _ Hd] Hn H1 H2 H3. rewrite Hn in *.
  assert (dropped = []) as -> by (destruct dropped; [done|by specialize (Hdr ltac:(done))]). rewrite app_nil_r in Hf, Hw.
  constructor; autorewrite with couts; simpl; rewrite ?H1, ?H2, ?H3, ?app_nil_r; try done.
  - exists (cn_queue c). split_and!; auto.
  - intros. unfold bytes_of. simpl. lia.
  - by rewrite Hd.
Qed.
(** Stopping on the strand, [out] being quiet. *)
Lemma conn_stop_inv c os out : conn_inv c os → conn_accepted out = [] → conn_written out = [] → disconnects out = [] →
  conn_inv (conn_stop c).1 (os ++ out ++ (conn_stop c).2).
Proof.
  intros Hi H1 H2 H3. unfold conn_stop. destruct (cn_stopped c) eqn:Hs.
  - destruct Hi as [Hf Hw Hb Hn Hd]. rewrite app_nil_r. constructor; autorewrite with couts; rewrite ?H1, ?H2, ?H3, ?app_nil_r; done.
  - apply finalize_inv; try done. destruct (cn_finalized c) eqn:Hf; [|done]. apply Hi in Hf as [Hf _]. congruence.
Qed.
Lemma conn_send_inv c os payload : conn_inv c os → conn_inv (conn_send payload c).1 (os ++ (conn_send payload c).2).
Proof.
  intros Hi. unfold conn_send. destruct (cn_stopped c) eqn:Hs; [by rewrite app_nil_r|].
  destruct (_ && _) eqn:Hx.
  { pose proof (conn_stop_inv c os [CoError] Hi eq_refl eq_refl eq_refl) as H. by destruct (conn_stop c). }
  assert (Hnf : cn_finalized c = false) by (destruct (cn_finalized c) eqn:Hf; [apply Hi in Hf as [Hf _]; congruence|done]).
  destruct Hi as [(dropped & Hf & Hdr & Hw) Hwr Hb Hn Hd]. rewrite Hnf in *.
  assert (dropped = []) as -> by (destruct dropped; [done|by specialize (Hdr ltac:(done))]). rewrite app_nil_r in Hf, Hw.
  assert (Hbytes : 0 < send_queue_max_bytes < 2 ^ 64 → cn_queued_bytes c +₆₄ Z.of_nat (length payload) = bytes_of (cn_queue c ++ [payload])
    ∧ bytes_of (cn_queue c ++ [payload]) ≤ send_queue_max_bytes).
  { intros Hm. destruct (Hb Hm) as [Hb1 Hb2]. rewrite bytes_of_snoc. assert (0 ≤ bytes_of (cn_queue c)) by (unfold bytes_of; lia).
    destruct (Z.ltb_spec 0 send_queue_max_bytes); [|lia]. apply Z.ltb_ge in Hx. split; [mach|lia]. }
  specialize (Hwr Hs). cbn [fst snd]. destruct (cn_queue c) as [|b0 q0] eqn:Hq; simpl.
  - constructor; autorewrite with couts; simpl; rewrite ?Hnf; try done.
    exists []. rewrite Hf, app_nil_r. split_and!; [done|done|]. by intros b [= <-].
  - constructor; autorewrite with couts; simpl; rewrite ?Hnf; try done.
    exists []. rewrite Hf, app_nil_r, <- app_assoc. split_and!; [done|done|]. intros b Hbw. by apply Hw in Hbw.
Qed.
Lemma handle_write_inv c os ok buffer : cn_writing c = Some buffer → conn_inv c os →
  conn_inv (handle_write ok buffer c).1 (os ++ (handle_write ok buffer c).2).
Proof.
  intros Hbw Hi. unfold handle_write. destruct ok.
  - destruct Hi as [(dropped & Hf & Hdr & Hw) Hwr Hb Hn Hd]. specialize (Hw _ Hbw). cbn [fst snd cn_queue cn_queued_bytes set_queue_].
    set (n := if _ <=? _ then _ else _).
    assert (Hbytes : 0 < send_queue_max_bytes < 2 ^ 64 → n = bytes_of (tail (cn_queue c)) ∧ bytes_of (tail (cn_queue c)) ≤ send_queue_max_bytes).
    { intros Hm. destruct (Hb Hm) as [Hb1 Hb2]. unfold n. destruct (cn_queue c) as [|x q] eqn:Hq; simpl in *.
      - change (bytes_of []) with 0 in *. rewrite Hb1. destruct (Z.leb_spec (Z.of_nat (length buffer)) 0); lia.
      - injection Hw as ->. rewrite bytes_of_cons in *. rewrite Hb1. assert (0 ≤ bytes_of q) by (unfold bytes_of; lia).
        destruct (Z.leb_spec (Z.of_nat (length buffer)) (Z.of_nat (length buffer) + bytes_of q)); lia. }
    constructor; autorewrite with couts.
    + destruct (cn_queue c) as [|x q] eqn:Hq; simpl in *.
      * destruct dropped as [|y dropped]; [done|]. injection Hw as ->. exists dropped. rewrite Hf. simpl. rewrite <- app_assoc. split_and!; [done|auto|done].
      * injection Hw as ->. exists dropped. unfold conn_do_write. simpl. destruct q as [|y q]; simpl; rewrite Hf, <- app_assoc; split_and!; try done.
    + intros Hs. unfold conn_do_write. simpl. by destruct (tail (cn_queue c)).
    + unfold conn_do_write. simpl. by destruct (tail (cn_queue c)).
    + intros Hfin. assert (Hfin' : cn_finalized c = true) by (unfold conn_do_write in Hfin; simpl in Hfin; by destruct (tail (cn_queue c))).
      destruct (Hn Hfin') as [Hs Hq]. unfold conn_do_write. simpl. rewrite Hq. done.
    + rewrite Hd. unfold conn_do_write. simpl. by destruct (tail (cn_queue c)).
  - assert (Heq : conn_stop (set_queue_ (cn_queue c) (cn_queued_bytes c) None c) =
      (set_queue_ (cn_queue (conn_stop c).1) (cn_queued_bytes (conn_stop c).1) None (conn_stop c).1, (conn_stop c).2)).
    { unfold conn_stop. simpl. by destruct (cn_stopped c). }
    rewrite Heq. cbn [fst snd]. pose proof (conn_stop_inv c os [CoError] Hi eq_refl eq_refl eq_refl) as [(dropped & Hf & Hdr & Hw) _ Hb Hn Hd].
    constructor; try done; [by exists dropped|]. unfold conn_stop. by destruct (cn_stopped c) eqn:Hs; simpl; [congruence|].
Qed.
Lemma flags_inv c os out started stopped reading : conn_inv c os → conn_accepted out = [] → conn_written out = [] → disconnects out = [] →
  (cn_stopped c = true → stopped = true) → conn_inv (set_flags started stopped (cn_finalized c) reading c) (os ++ out).
Proof.
  intros [Hf Hw Hb Hn Hd] H1 H2 H3 Hs. constructor; autorewrite with couts; rewrite ?H1, ?H2, ?H3, ?app_nil_r; simpl; try done.
  - intros Hst. apply Hw. destruct (cn_stopped c); [by specialize (Hs eq_refl); congruence|done].
  - intros Hfin. destruct (Hn Hfin). auto.
Qed.
Lemma handle_read_inv c os r stops : conn_inv c os → conn_inv (handle_read r stops c).1 (os ++ (handle_read r stops c).2).
Proof.
  intros Hi. unfold handle_read. pose proof (flags_inv c os [] (cn_started c) (cn_stopped c) false Hi eq_refl eq_refl eq_refl (λ H, H)) as Hi0.
  rewrite app_nil_r in Hi0. set (c0 := set_flags _ _ _ _ c) in *. destruct r as [bs|].
  - destruct stops.
    + pose proof (conn_stop_inv c0 os match bs with [] => [] | _ => [CoRead bs] end Hi0) as H.
      destruct (conn_stop c0) as [c1 o1]. simpl in *. rewrite <- (app_nil_r (os ++ _)).
      apply flags_inv; try done. by destruct bs; apply H.
    + simpl. rewrite app_nil_r. apply (flags_inv c0); try done; by destruct bs.
  - pose proof (conn_stop_inv c0 os [CoError] Hi0 eq_refl eq_refl eq_refl) as H. by destruct (conn_stop c0).
Qed.
Lemma conn_exec_inv c os ev c' o : conn_exec c ev = Some (c', o) → conn_inv c os → conn_inv c' (os ++ o).
Proof.
  intros H Hi. destruct ev as [|payload|ok|r stops| |]; cbn [conn_exec] in H.
  - destruct (cn_started c); [done|]. destruct (cn_stopped c) eqn:Hs; injection H as <- <-; [by rewrite app_nil_r|].
    apply (flags_inv c); try done. congruence.
  - pose proof (conn_send_inv c os payload Hi) as H'. injection H as H. by rewrite H in H'.
  - destruct (cn_writing c) as [buffer|] eqn:Hw; [|done]. pose proof (handle_write_inv c os ok buffer Hw Hi) as H'.
    assert (Heq : handle_write ok buffer c = (c', o)) by congruence. by rewrite Heq in H'.
  - destruct (cn_reading c); [|done]. pose proof (handle_read_inv c os r stops Hi) as H'.
    assert (Heq : handle_read r stops c = (c', o)) by congruence. by rewrite Heq in H'.
  - destruct (cn_stopped c); [done|]. injection H as <- <-. by apply (flags_inv c).
  - destruct (cn_stopped c && negb (cn_finalized c)) eqn:Hx; [|done]. apply andb_true_iff in Hx as [_ Hx%negb_true_iff].
    pose proof (finalize_inv c os [] Hi Hx eq_refl eq_refl eq_refl) as H'. injection H as <- <-. done.
Qed.
Lemma conn_run_inv evs : ∀ c os c' out, conn_run c evs = Some (c', out) → conn_inv c os → conn_inv c' (os ++ out).
Proof.
  induction evs as [|ev evs IH]; intros c os c' out H Hi; cbn [conn_run] in H; [injection H as <- <-; by rewrite app_nil_r|].
  apply bind_Some in H as ([c1 o1] & Hx & H). apply bind_Some in H as ([c2 o2] & Hr & H). injection H as <- <-.
  rewrite app_assoc. eapply IH; [exact Hr|]. by eapply conn_exec_inv.
Qed.
Lemma conn_new_ok : conn_inv conn_new [].
Proof. constructor; try done; [by exists []|]. intros ?. unfold bytes_of. simpl. lia. Qed.
End Connection.

(** A connection writes its accepted buffers in order, once, and disconnects
    once.  Whatever the interleaving of sends, completions, reads and stops, the
    buffers written are a prefix of those accepted; only a stop gives up the rest;
    the queue stays within its budget with an exact byte count; while the
    connection is not stopped the front of the queue is being written; and
    [on_disconnect] is called exactly once, when the stop is carried out. *)
Theorem connection_fifo (max : Z) (evs : list ConnEvent) (c : Connection) (os : list ConnOut) :
  conn_run max conn_new evs = Some (c, os) →
  (∃ dropped, conn_accepted os = conn_written os ++ cn_queue c ++ dropped ∧ (dropped ≠ [] → cn_finalized c = true))
  ∧ (cn_stopped c = false → cn_writing c = head (cn_queue c))
  ∧ (0 < max < 2 ^ 64 → cn_queued_bytes c = bytes_of (cn_queue c) ∧ bytes_of (cn_queue c) ≤ max)
  ∧ disconnects os = if cn_finalized c then [tt] else [].
Proof.
  intros H. destruct (conn_run_inv max evs _ [] _ _ H (conn_new_ok max)) as [(dropped & Hf & Hdr & _) Hw Hb _ Hd].
  split_and!; eauto.
Qed.
Lemma connection_fifo_witness : ∃ c os,
  conn_run 10 conn_new [CeStart; CeSend [1; 2]; CeSend [3]; CeRead (Some [9]) false; CeWrote true; CeSend [4; 5; 6; 7; 8; 9; 10; 11; 12; 13]; CeWrote true] = Some (c, os)
  ∧ conn_accepted os = [[1; 2]; [3]] ∧ conn_written os = [[1; 2]; [3]] ∧ cn_stopped c = true
  ∧ disconnects os = if cn_finalized c then [tt] else [].
Proof.
  eexists _, _. split; [vm_compute; reflexivity|]. split; [reflexivity|]. split; [reflexivity|]. split; [reflexivity|].
  eapply (connection_fifo 10 [CeStart; CeSend [1; 2]; CeSend [3]; CeRead (Some [9]) false; CeWrote true; CeSend [4; 5; 6; 7; 8; 9; 10; 11; 12; 13]; CeWrote true]).
  vm_compute; reflexivity.
Defined.
