(* ===== verification/Session.v ===== *)
(** * TCP packet sessions

    [core/net/session.cpp]: framing of the incoming bytes, dispatch, the bounded
    send queue, stop and close.  The strand is a FIFO of posted work; code that runs on it is
    one step.  An asynchronous operation is started by one step, completed by the
    system in another ([SeIo], [SeWriteIo]) and handled in a third, so a close may
    come in between.  Other threads enter through [SeMake], [SePost] and [SeStop].
    What a handler does is part of the event that runs it; clocks and the buffer
    pool's answers are event data. *)
From S2P Require Import Prelude Text Packet Frames Opcodes Dispatch.
From stdpp Require Import list gmap strings.
Open Scope Z_scope.

(** ** Sessions *)
Record SessionOptions := {
  so_recv_max_payload : Z;
  so_send_queue_max : Z;
  so_heartbeat_interval_ms : Z;
  so_read_timeout_ms : Z;
  so_write_timeout_ms : Z;
}.
Definition session_options_default : SessionOptions :=
  {| so_recv_max_payload := 32 * 1024; so_send_queue_max := 256 * 1024; so_heartbeat_interval_ms := 10000;
     so_read_timeout_ms := 15000; so_write_timeout_ms := 15000 |}.
(** A read: none, waiting for bytes, or completed and not handled yet, [None]
    being an error. *)
Inductive ReadOp :=
  | RdNone
  | RdHeader
  | RdBody
  | RdHeaderDone (result : option (list Z))
  | RdBodyDone (result : option (list Z)).
Inductive WriteOp := WrNone | WrBusy | WrDone (ok : bool).
Record Task := { tk_handler : Z; tk_msg_id : Z; tk_payload : list Z }.
Inductive StrandItem := StTask (t : Task) | StSend (packet : list Z) | StClose.
Record Session := {
  ss_status : SessionStatus;
  ss_tx_seq : Z;
  ss_stopped : bool;
  ss_open : bool;
  ss_in : list Z;
  ss_header : PacketHeader;
  ss_read : ReadOp;
  ss_queue : list (list Z);
  ss_queued_bytes : Z;
  ss_write : WriteOp;
  ss_strand : list StrandItem;
  ss_jobs : list Task;
  ss_made : list (list Z);
}.
Definition no_header : PacketHeader := {| length_ := 0; msg_id := 0; hdr_flags := 0; seq_ := 0; utc_ts_ms32 := 0 |}.
Definition session_new : Session :=
  {| ss_status := ssAny; ss_tx_seq := 1; ss_stopped := false; ss_open := true; ss_in := []; ss_header := no_header;
     ss_read := RdNone; ss_queue := []; ss_queued_bytes := 0; ss_write := WrNone; ss_strand := []; ss_jobs := []; ss_made := [] |}.
Definition set_read (r : ReadOp) (s : Session) : Session :=
  {| ss_status := ss_status s; ss_tx_seq := ss_tx_seq s; ss_stopped := ss_stopped s; ss_open := ss_open s; ss_in := ss_in s;
     ss_header := ss_header s; ss_read := r; ss_queue := ss_queue s; ss_queued_bytes := ss_queued_bytes s; ss_write := ss_write s;
     ss_strand := ss_strand s; ss_jobs := ss_jobs s; ss_made := ss_made s |}.
Definition set_input (bs : list Z) (h : PacketHeader) (s : Session) : Session :=
  {| ss_status := ss_status s; ss_tx_seq := ss_tx_seq s; ss_stopped := ss_stopped s; ss_open := ss_open s; ss_in := bs;
     ss_header := h; ss_read := ss_read s; ss_queue := ss_queue s; ss_queued_bytes := ss_queued_bytes s; ss_write := ss_write s;
     ss_strand := ss_strand s; ss_jobs := ss_jobs s; ss_made := ss_made s |}.
Definition set_send (q : list (list Z)) (n : Z) (w : WriteOp) (s : Session) : Session :=
  {| ss_status := ss_status s; ss_tx_seq := ss_tx_seq s; ss_stopped := ss_stopped s; ss_open := ss_open s; ss_in := ss_in s;
     ss_header := ss_header s; ss_read := ss_read s; ss_queue := q; ss_queued_bytes := n; ss_write := w;
     ss_strand := ss_strand s; ss_jobs := ss_jobs s; ss_made := ss_made s |}.
Definition set_work (strand : list StrandItem) (jobs : list Task) (made : list (list Z)) (s : Session) : Session :=
  {| ss_status := ss_status s; ss_tx_seq := ss_tx_seq s; ss_stopped := ss_stopped s; ss_open := ss_open s; ss_in := ss_in s;
     ss_header := ss_header s; ss_read := ss_read s; ss_queue := ss_queue s; ss_queued_bytes := ss_queued_bytes s;
     ss_write := ss_write s; ss_strand := strand; ss_jobs := jobs; ss_made := made |}.
Definition set_life (stopped open : bool) (s : Session) : Session :=
  {| ss_status := ss_status s; ss_tx_seq := ss_tx_seq s; ss_stopped := stopped; ss_open := open; ss_in := ss_in s;
     ss_header := ss_header s; ss_read := ss_read s; ss_queue := ss_queue s; ss_queued_bytes := ss_queued_bytes s;
     ss_write := ss_write s; ss_strand := ss_strand s; ss_jobs := ss_jobs s; ss_made := ss_made s |}.
Definition set_session_status (st : SessionStatus) (s : Session) : Session :=
  {| ss_status := st; ss_tx_seq := ss_tx_seq s; ss_stopped := ss_stopped s; ss_open := ss_open s; ss_in := ss_in s;
     ss_header := ss_header s; ss_read := ss_read s; ss_queue := ss_queue s; ss_queued_bytes := ss_queued_bytes s;
     ss_write := ss_write s; ss_strand := ss_strand s; ss_jobs := ss_jobs s; ss_made := ss_made s |}.
Definition bump_seq (s : Session) : Session :=
  {| ss_status := ss_status s; ss_tx_seq := ss_tx_seq s +₃₂ 1; ss_stopped := ss_stopped s; ss_open := ss_open s; ss_in := ss_in s;
     ss_header := ss_header s; ss_read := ss_read s; ss_queue := ss_queue s; ss_queued_bytes := ss_queued_bytes s;
     ss_write := ss_write s; ss_strand := ss_strand s; ss_jobs := ss_jobs s; ss_made := ss_made s |}.

(** What a step shows. *)
Inductive Out :=
  | OArrived (bs : list Z)
  | ODispatched (h : PacketHeader) (payload : list Z) (status : SessionStatus)
  | OAccepted (t : Task)
  | ORan (t : Task)
  | OMade (seq : Z)
  | OQueued (packet : list Z)
  | OWritten (packet : list Z)
  | ODropped
  | OClosed.
(** The clock and whether the pool has a block, where a packet is built. *)
Record Supply := { sp_now : Z; sp_buffer : bool }.
(** What a handler may do with the session, on its strand. *)
Inductive Action :=
  | ActSend (msg flags : Z) (payload : list Z) (sup : Supply)
  | ActError (code : Z) (text : string) (sup : Supply)
  | ActStatus (st : SessionStatus)
  | ActStop.

Section Session.
Context (options : option SessionOptions) (block_size : Z) (table : gmap Z (Entry Z)).

Definition make_packet (msg flags : Z) (payload : list Z) (seq now : Z) (buffer : bool) : option (list Z) :=
  let packet_size := Z.of_nat k_header_bytes + Z.of_nat (length payload) in
  if block_size <? packet_size then None
  else if negb buffer then None
  else
    let h := {| length_ := u16 (Z.of_nat (length payload)); msg_id := msg; hdr_flags := flags; seq_ := seq; utc_ts_ms32 := now |} in
    Some (encode_header h (replicate k_header_bytes 0) ++ payload).
Definition error_payload (code : Z) (msg : list Z) : list Z :=
  let len := u16 (Z.min (Z.of_nat (length msg)) 400) in
  write_be16 len 2 (write_be16 code 0 (replicate 4 0)) ++ take (Z.to_nat len) msg.
Definition hello_payload (now64 : Z) : list Z :=
  let hb := match options with Some o => so_heartbeat_interval_ms o / 10 | None => 0 end in
  let p := write_be16 1 2 (write_be16 1 0 (replicate 12 0)) in
  let p := write_be16 (Z.lor 0x0001 0x0002) 4 p in
  let p := write_be16 (u16 hb) 6 p in
  write_be32 (Z.land (Z.shiftr (u64 now64) 32) 0xFFFFFFFF) 8 p.
Definition now32 (now64 : Z) : Z := u32 (Z.land now64 0xFFFFFFFF).

(** ** Close and send *)
(** The close; operations in progress stay pending and complete later, with an
    error unless the system was done with them already. *)
Definition close_now (s : Session) : Session * list Out := (set_life (ss_stopped s) false s, [OClosed]).
(** [stop] called on the strand, where the dispatched close runs at once. *)
Definition stop (s : Session) : Session * list Out :=
  if ss_stopped s then (s, []) else close_now (set_life true (ss_open s) s).
Definition do_write (s : Session) : Session :=
  match ss_queue s with
  | [] => set_send [] (ss_queued_bytes s) WrNone s
  | q => set_send q (ss_queued_bytes s) (if ss_open s then WrBusy else WrDone false) s
  end.
(** The strand part of [async_send]. *)
Definition enqueue (packet : list Z) (s : Session) : Session * list Out :=
  let size := Z.of_nat (length packet) in
  if ss_stopped s then (s, [])
  else if match options with
          | Some o => exceeds_queue_budget (so_send_queue_max o) (ss_queued_bytes s) size
          | None => false
          end
  then let '(s, out) := stop s in (s, ODropped :: out)
  else
    let kick_write := match ss_queue s with [] => true | _ => false end in
    let s := set_send (ss_queue s ++ [packet]) (ss_queued_bytes s +₆₄ size) (ss_write s) s in
    (if kick_write then do_write s else s, [OQueued packet]).
(** [async_send], [send_error] and [send_hello] on the strand. *)
Definition send_packet (msg flags : Z) (payload : list Z) (sup : Supply) (s : Session) : Session * list Out :=
  let seq := ss_tx_seq s in
  let s := bump_seq s in
  match make_packet msg flags payload seq (now32 (sp_now sup)) (sp_buffer sup) with
  | None => (s, [OMade seq; ODropped])
  | Some packet => let '(s, out) := enqueue packet s in (s, OMade seq :: out)
  end.
Definition send_error (code : Z) (text : string) (sup : Supply) (s : Session) : Session * list Out :=
  send_packet 0x0004 0 (error_payload code (bytes text)) sup s.
Definition send_hello (sup : Supply) (s : Session) : Session * list Out :=
  send_packet 0x0001 0 (hello_payload (sp_now sup)) sup s.

(** ** Handlers *)
Definition act (st : Session * list Out) (a : Action) : Session * list Out :=
  let '(s, out) := st in
  let '(s, o) := match a with
                 | ActSend msg flags payload sup => send_packet msg flags payload sup s
                 | ActError code text sup => send_error code text sup s
                 | ActStatus status => (set_session_status status s, [])
                 | ActStop => stop s
                 end in
  (s, out ++ o).
(** What the handler does and whether it throws. *)
Record Behaviour := { bh_actions : list Action; bh_throws : bool; bh_supply : Supply }.
Definition run_handler_with_guard (t : Task) (b : Behaviour) (s : Session) : Session * list Out :=
  let st := foldl act (s, [ORan t]) (bh_actions b) in
  if bh_throws b then act st (ActError INTERNAL_ERROR "internal error" (bh_supply b)) else st.

(** ** Reading *)
Definition do_read_header (buffer : bool) (s : Session) : Session * list Out :=
  if buffer then (set_read (if ss_open s then RdHeader else RdHeaderDone None) s, []) else stop (set_read RdNone s).
(** What the environment answers while one read is handled: supplies for an error
    reply, blocks for the body and for the next header, the worker queue, the
    handler's behaviour. *)
Record ReadAnswers := {
  ra_reply : Supply;
  ra_body_buffer : bool;
  ra_next_buffer : bool;
  ra_queue : option bool;
  ra_behaviour : Behaviour;
}.
Definition then_ (st : Session * list Out) (k : Session → Session * list Out) : Session * list Out :=
  let '(s, out) := st in let '(s, o) := k s in (s, out ++ o).
Definition dispatch_message (payload : list Z) (a : ReadAnswers) (s : Session) : Session * list Out :=
  let h := ss_header s in
  let seen := ODispatched h payload (ss_status s) in
  let answers := {| an_shared := true; an_posted := true; an_queue := ra_queue a |} in
  then_ match dispatch table (msg_id h) (ss_status s) tkTcp answers with
        | None => then_ (s, [seen]) (send_error UNKNOWN_MSG_ID "unknown msg" (ra_reply a))
        | Some (_, dReply code text) => then_ (s, [seen]) (send_error code text (ra_reply a))
        | Some (_, dRun handler _) =>
            let t := {| tk_handler := handler; tk_msg_id := msg_id h; tk_payload := payload |} in
            then_ (s, [seen; OAccepted t]) (run_handler_with_guard t (ra_behaviour a))
        | Some (_, dPost handler _) =>
            let t := {| tk_handler := handler; tk_msg_id := msg_id h; tk_payload := payload |} in
            (set_work (ss_strand s ++ [StTask t]) (ss_jobs s) (ss_made s) s, [seen; OAccepted t])
        | Some (_, dEnqueue handler _) =>
            let t := {| tk_handler := handler; tk_msg_id := msg_id h; tk_payload := payload |} in
            (set_work (ss_strand s) (ss_jobs s ++ [t]) (ss_made s) s, [seen; OAccepted t])
        end (do_read_header (ra_next_buffer a)).
Definition do_read_body (a : ReadAnswers) (s : Session) : Session * list Out :=
  let body_len := length_ (ss_header s) in
  if body_len =? 0 then dispatch_message [] a s
  else if block_size <? body_len then stop s
  else if negb (ra_body_buffer a) then stop s
  else (set_read (if ss_open s then RdBody else RdBodyDone None) s, []).
Definition header_read (result : option (list Z)) (a : ReadAnswers) (s : Session) : Session * list Out :=
  let s := set_read RdNone s in
  match result with
  | None => stop s
  | Some bs =>
      let s := set_input (ss_in s) (decode_header bs) s in
      if match options with
         | Some o => (0 <? so_recv_max_payload o) && (so_recv_max_payload o <? length_ (ss_header s))
         | None => false
         end
      then then_ (send_error LENGTH_LIMIT_EXCEEDED "payload too large" (ra_reply a) s) stop
      else do_read_body a s
  end.
Definition body_read (result : option (list Z)) (a : ReadAnswers) (s : Session) : Session * list Out :=
  let s := set_read RdNone s in
  match result with
  | None => stop s
  | Some bs => dispatch_message bs a s
  end.
(** [do_write]'s completion handler. *)
Definition write_handled (ok : bool) (s : Session) : Session * list Out :=
  match ok, ss_queue s with
  | true, packet :: rest =>
      let size := Z.of_nat (length packet) in
      let n := if size <=? ss_queued_bytes s then ss_queued_bytes s - size else 0 in
      (do_write (set_send rest n (ss_write s) s), [OWritten packet])
  | _, _ => stop (set_send (ss_queue s) (ss_queued_bytes s) WrNone s)
  end.

(** ** Steps *)
Inductive SessionEvent :=
  | SeStart (hello : Supply) (buffer : bool)
  | SeArrive (bs : list Z)
  | SeIo
  | SeIoError
  | SeRead (a : ReadAnswers)
  | SeWriteIo (ok : bool)
  | SeWrote
  | SeStrand (b : Behaviour)
  | SeWorker (i : nat)
  | SeTimeout
  | SeHeartbeat (sup : Supply)
  | SeMake (msg flags : Z) (payload : list Z) (sup : Supply)
  | SePost (i : nat)
  | SeStop.
Definition read_need (s : Session) : nat := match ss_read s with RdHeader => k_header_bytes | _ => Z.to_nat (length_ (ss_header s)) end.
Definition read_done (r : option (list Z)) (s : Session) : Session :=
  match ss_read s with
  | RdHeader => set_read (RdHeaderDone r) s
  | RdBody => set_read (RdBodyDone r) s
  | _ => s
  end.
Definition reading (s : Session) : bool := match ss_read s with RdHeader | RdBody => true | _ => false end.
Definition strand_item (it : StrandItem) (b : Behaviour) (s : Session) : Session * list Out :=
  match it with
  | StTask t => if ss_stopped s then (s, []) else run_handler_with_guard t b s
  | StSend packet => enqueue packet s
  | StClose => close_now s
  end.
Definition session_exec (s : Session) (ev : SessionEvent) : option (Session * list Out) :=
  match ev with
  | SeStart hello buffer =>
      match ss_read s with
      | RdNone => if ss_stopped s then None else Some (then_ (send_hello hello s) (do_read_header buffer))
      | _ => None
      end
  | SeArrive bs => if ss_open s then Some (set_input (ss_in s ++ bs) (ss_header s) s, [OArrived bs]) else None
  | SeIo =>
      let n := read_need s in
      if reading s && (n <=? length (ss_in s))%nat
      then Some (read_done (Some (take n (ss_in s))) (set_input (drop n (ss_in s)) (ss_header s) s), [])
      else None
  | SeIoError => if reading s then Some (read_done None s, []) else None
  | SeRead a =>
      match ss_read s with
      | RdHeaderDone r => Some (header_read r a s)
      | RdBodyDone r => Some (body_read r a s)
      | _ => None
      end
  | SeWriteIo ok =>
      match ss_write s with
      | WrBusy => Some (set_send (ss_queue s) (ss_queued_bytes s) (WrDone ok) s, [])
      | _ => None
      end
  | SeWrote => match ss_write s with WrDone ok => Some (write_handled ok s) | _ => None end
  | SeStrand b =>
      match ss_strand s with
      | it :: rest => Some (strand_item it b (set_work rest (ss_jobs s) (ss_made s) s))
      | [] => None
      end
  | SeWorker i =>
      t ← ss_jobs s !! i;
      Some (set_work (ss_strand s ++ [StTask t]) (delete i (ss_jobs s)) (ss_made s) s, [])
  | SeTimeout => Some (if ss_stopped s then (s, []) else stop s)
  | SeHeartbeat sup => Some (if ss_stopped s then (s, []) else send_packet 0x0002 0 [] sup s)
  | SeMake msg flags payload sup =>
      let seq := ss_tx_seq s in
      let s := bump_seq s in
      Some match make_packet msg flags payload seq (now32 (sp_now sup)) (sp_buffer sup) with
           | None => (s, [OMade seq; ODropped])
           | Some packet => (set_work (ss_strand s) (ss_jobs s) (ss_made s ++ [packet]) s, [OMade seq])
           end
  | SePost i =>
      packet ← ss_made s !! i;
      Some (set_work (ss_strand s ++ [StSend packet]) (ss_jobs s) (delete i (ss_made s)) s, [])
  | SeStop =>
      Some (if ss_stopped s then (s, [])
            else (set_work (ss_strand s ++ [StClose]) (ss_jobs s) (ss_made s) (set_life true (ss_open s) s), []))
  end.
Fixpoint session_run (s : Session) (evs : list SessionEvent) : option (Session * list Out) :=
  match evs with
  | [] => Some (s, [])
  | ev :: evs => '(s, o) ← session_exec s ev; '(s, os) ← session_run s evs; Some (s, o ++ os)
  end.
End Session.

(** ** Reading a run's outputs *)
Definition arrived (os : list Out) : list Z := concat (omap (λ o, match o with OArrived bs => Some bs | _ => None end) os).
Definition dispatched (os : list Out) : list (PacketHeader * list Z) :=
  omap (λ o, match o with ODispatched h payload _ => Some (h, payload) | _ => None end) os.
Definition accepted (os : list Out) : list Task := omap (λ o, match o with OAccepted t => Some t | _ => None end) os.
Definition ran (os : list Out) : list Task := omap (λ o, match o with ORan t => Some t | _ => None end) os.
Definition made (os : list Out) : list Z := omap (λ o, match o with OMade n => Some n | _ => None end) os.
Definition queued (os : list Out) : list (list Z) := omap (λ o, match o with OQueued p => Some p | _ => None end) os.
Definition written (os : list Out) : list (list Z) := omap (λ o, match o with OWritten p => Some p | _ => None end) os.
Definition closes (os : list Out) : list unit := omap (λ o, match o with OClosed => Some tt | _ => None end) os.
Lemma arrived_app a b : arrived (a ++ b) = arrived a ++ arrived b.
Proof. unfold arrived. by rewrite omap_app, concat_app. Qed.
Lemma dispatched_app a b : dispatched (a ++ b) = dispatched a ++ dispatched b.  Proof. apply omap_app. Qed.
Lemma accepted_app a b : accepted (a ++ b) = accepted a ++ accepted b.  Proof. apply omap_app. Qed.
Lemma ran_app a b : ran (a ++ b) = ran a ++ ran b.  Proof. apply omap_app. Qed.
Lemma made_app a b : made (a ++ b) = made a ++ made b.  Proof. apply omap_app. Qed.
Lemma queued_app a b : queued (a ++ b) = queued a ++ queued b.  Proof. apply omap_app. Qed.
Lemma written_app a b : written (a ++ b) = written a ++ written b.  Proof. apply omap_app. Qed.
Lemma closes_app a b : closes (a ++ b) = closes a ++ closes b.  Proof. apply omap_app. Qed.
#[local] Hint Rewrite arrived_app dispatched_app accepted_app ran_app made_app queued_app written_app closes_app app_nil_r : outs.

(** ** Frames *)
Definition is_frame (f : list Z) : Prop := next_frame f = Some (f, []).
Definition message_of (f : list Z) : PacketHeader * list Z := (decode_header f, drop k_header_bytes f).
(** A frame the session takes: within the configured limit, its body in one block. *)
Definition fits (options : option SessionOptions) (block_size : Z) (h : PacketHeader) : Prop :=
  (∀ o, options = Some o → 0 < so_recv_max_payload o → length_ h ≤ so_recv_max_payload o) ∧ (length_ h = 0 ∨ length_ h ≤ block_size).
Lemma is_frame_intro hb payload : length hb = k_header_bytes → Z.of_nat (length payload) = length_ (decode_header hb) →
  is_frame (hb ++ payload) ∧ message_of (hb ++ payload) = (decode_header hb, payload).
Proof.
  intros Hl Hp. unfold is_frame, message_of, next_frame. rewrite decode_header_app, length_app by lia.
  rewrite Hl. rewrite <- Hp. rewrite Nat2Z.id.
  destruct (Nat.ltb_spec (k_header_bytes + length payload) k_header_bytes); [lia|].
  destruct (Nat.ltb_spec (k_header_bytes + length payload) (k_header_bytes + length payload)); [lia|].
  rewrite take_ge, drop_ge by (rewrite length_app; lia). rewrite <- Hl, drop_app_length. done.
Qed.
Lemma frames_of_frames fs rest : Forall is_frame fs → frames_of (concat fs ++ rest) = (fs ++ (frames_of rest).1, (frames_of rest).2).
Proof.
  induction 1 as [|f fs Hf _ IH]; simpl; [by destruct (frames_of rest)|].
  rewrite <- app_assoc, frames_of_step, (next_frame_app _ _ _ _ Hf). simpl. by rewrite IH.
Qed.

(** ** What sending does *)
Definition total (q : list (list Z)) : Z := foldr (λ p n, Z.of_nat (length p) + n) 0 q.
Lemma total_app a b : total (a ++ b) = total a + total b.
Proof. induction a as [|p a IH]; cbn [app total foldr]; [done|]. unfold total in *. rewrite IH. lia. Qed.
Lemma total_nonneg q : 0 ≤ total q.
Proof. induction q as [|p q IH]; unfold total in *; simpl; lia. Qed.
Definition seq_of (packet : list Z) : Z := seq_ (decode_header packet).

(** The sequence numbers of [k] packets from [n] on. *)
Fixpoint seqs_from (k : nat) (n : Z) : list Z := match k with O => [] | S k => n :: seqs_from k (n +₃₂ 1) end.
Fixpoint seq_after (k : nat) (n : Z) : Z := match k with O => n | S k => seq_after k (n +₃₂ 1) end.
Lemma seq_after_add a b n : seq_after (a + b) n = seq_after b (seq_after a n).
Proof. revert n. induction a as [|a IH]; intros n; simpl; [done|]. by rewrite IH. Qed.
Lemma seqs_from_add a b n : seqs_from (a + b) n = seqs_from a n ++ seqs_from b (seq_after a n).
Proof. revert n. induction a as [|a IH]; intros n; simpl; [done|]. by rewrite IH. Qed.

Section SessionLemmas.
Context (options : option SessionOptions) (block_size : Z) (table : gmap Z (Entry Z)).

(** The send queue's accounting. *)
Record send_ok (s : Session) : Prop := {
  so_bytes : ∀ o, options = Some o → 0 < so_send_queue_max o < 2 ^ 64 →
    ss_queued_bytes s = total (ss_queue s) ∧ total (ss_queue s) ≤ so_send_queue_max o;
  so_idle : ss_queue s = [] → ss_write s = WrNone;
  so_busy : ss_stopped s = false → ss_queue s ≠ [] → ss_write s ≠ WrNone;
}.
(** What code on the strand may do to a session besides reading; [own] if it
    only queues packets it numbered itself. *)
Record sends_as (own : bool) (s s' : Session) (out : list Out) : Prop := {
  sd_input : ss_in s' = ss_in s ∧ ss_header s' = ss_header s ∧ ss_read s' = ss_read s;
  sd_work : ss_strand s' = ss_strand s ∧ ss_jobs s' = ss_jobs s ∧ ss_made s' = ss_made s;
  sd_none : arrived out = [] ∧ dispatched out = [] ∧ accepted out = [] ∧ written out = [] ∧ ran out = [];
  sd_stopped : ss_stopped s = true → ss_stopped s' = true ∧ ss_open s' = ss_open s ∧ queued out = [] ∧ closes out = [];
  sd_live : ss_stopped s = false → if ss_stopped s' then ss_open s' = false ∧ closes out = [tt]
                                   else ss_open s' = ss_open s ∧ closes out = [];
  sd_queue : ss_queue s' = ss_queue s ++ queued out;
  sd_ok : send_ok s → send_ok s';
  sd_made : ∃ k : nat, ss_tx_seq s' = seq_after k (ss_tx_seq s) ∧ made out = seqs_from k (ss_tx_seq s);
  sd_order : own = true → (seq_of <$> queued out) `sublist_of` made out;
  sd_frames : block_size ≤ 65549 → Forall is_frame (queued out);
}.
Abbreviation sends := (sends_as true).
Lemma sends_nil own s : sends_as own s s [].
Proof. constructor; try done; try (by intros ->); simpl; [by rewrite app_nil_r|by exists O]. Qed.
Lemma sends_trans own s1 s2 s3 a b : sends_as own s1 s2 a → sends_as own s2 s3 b → sends_as own s1 s3 (a ++ b).
Proof.
  intros [(I1 & I2 & I3) (W1 & W2 & W3) (N1 & N2 & N3 & N4 & N5) St1 Lv1 Q1 O1 (k1 & M1 & M1') D1 F1].
  intros [(I1' & I2' & I3') (W1' & W2' & W3') (N1' & N2' & N3' & N4' & N5') St2 Lv2 Q2 O2 (k2 & M2 & M2') D2 F2].
  constructor; autorewrite with outs; rewrite ?N1, ?N2, ?N3, ?N4, ?N5; cbn [app]; try (split_and!; congruence).
  - intros H. destruct (St1 H) as (H1 & H2 & -> & ->). destruct (St2 H1) as (H3 & H4 & -> & ->). split_and!; first [done|congruence].
  - intros H. specialize (Lv1 H). destruct (ss_stopped s2) eqn:H2.
    + destruct (St2 eq_refl) as (-> & -> & _ & ->). destruct Lv1 as (-> & ->). done.
    + specialize (Lv2 eq_refl). destruct Lv1 as [Ho ->]. rewrite Ho in Lv2. done.
  - by rewrite Q2, Q1, app_assoc.
  - auto.
  - exists (k1 + k2)%nat. rewrite M2, M2', M1', M1. by rewrite seqs_from_add, seq_after_add.
  - intros Ho. rewrite fmap_app. by apply sublist_app; auto.
  - intros H. apply Forall_app; auto.
Qed.
Lemma sends_stop own s : sends_as own s (stop s).1 (stop s).2.
Proof.
  unfold stop. destruct (ss_stopped s) eqn:H; [apply sends_nil|].
  constructor; try done; try (by intros ?; congruence); simpl; [by rewrite app_nil_r| |by exists O].
  intros [? ? ?]. by constructor.
Qed.
(** Results of the step functions as pairs. *)
Lemma then_eq {st k} : then_ st k = ((k st.1).1, st.2 ++ (k st.1).2).
Proof. unfold then_. destruct st as [s out]. simpl. by destruct (k s). Qed.
Lemma session_do_write_ok s : (∀ o, options = Some o → 0 < so_send_queue_max o < 2 ^ 64 →
    ss_queued_bytes s = total (ss_queue s) ∧ total (ss_queue s) ≤ so_send_queue_max o) → send_ok (do_write s).
Proof.
  intros Hb. unfold do_write. destruct (ss_queue s) as [|p q] eqn:Hq; constructor; simpl; try done.
  destruct (ss_open s); done.
Qed.
Lemma budget_add o q n size : 0 < so_send_queue_max o < 2 ^ 64 → n = total q → 0 ≤ size →
  exceeds_queue_budget (so_send_queue_max o) n size = false → n +₆₄ size = total q + size ∧ total q + size ≤ so_send_queue_max o.
Proof.
  intros Ho -> Hs. unfold exceeds_queue_budget. pose proof (total_nonneg q).
  destruct (Z.eqb_spec (so_send_queue_max o) 0); [lia|]. destruct (Z.ltb_spec (so_send_queue_max o) size); [done|].
  intros ?%Z.ltb_ge. split; [mach|lia].
Qed.
Lemma enqueue_sends packet s : is_frame packet ∨ 65549 < block_size →
  let st := enqueue options packet s in sends_as false s st.1 st.2 ∧ queued st.2 ∈ [[]; [packet]]
  ∧ made st.2 = [] ∧ ss_tx_seq st.1 = ss_tx_seq s.
Proof.
  intros Hf st. unfold st, enqueue. destruct (ss_stopped s) eqn:Hst; [split; [apply sends_nil|by repeat constructor]|].
  destruct (match options with Some o => _ | None => false end) eqn:Hx.
  { unfold stop. rewrite Hst. split; [|by repeat constructor].
    constructor; try done; simpl; [congruence|by rewrite app_nil_r| |by exists O]. intros [? ? ?]. by constructor. }
  set (s1 := set_send _ _ _ s). assert (Hb : send_ok s → ∀ o, options = Some o → 0 < so_send_queue_max o < 2 ^ 64 →
    ss_queued_bytes s1 = total (ss_queue s1) ∧ total (ss_queue s1) ≤ so_send_queue_max o).
  { intros [Hb _ _] o Ho Hm. destruct (Hb o Ho Hm) as [Hb1 Hb2]. rewrite Ho in Hx.
    destruct (budget_add o (ss_queue s) (ss_queued_bytes s) (Z.of_nat (length packet)) Hm Hb1 ltac:(lia) Hx) as [He Hle].
    unfold s1. simpl. rewrite total_app. change (total [packet]) with (Z.of_nat (length packet) + 0). rewrite He. split; lia. }
  assert (Hone : ∀ s', ss_in s' = ss_in s1 → ss_header s' = ss_header s1 → ss_read s' = ss_read s1 → ss_strand s' = ss_strand s1 →
    ss_jobs s' = ss_jobs s1 → ss_made s' = ss_made s1 → ss_stopped s' = false → ss_open s' = ss_open s1 → ss_queue s' = ss_queue s1 →
    ss_tx_seq s' = ss_tx_seq s1 → (send_ok s → send_ok s') → sends_as false s s' [OQueued packet]).
  { intros s' I1 I2 I3 W1 W2 W3 L1 L2 Q M K. constructor; simpl; try (split_and!; congruence); try congruence; try done.
    - intros _. rewrite L1. split; [exact L2|done].
    - exists O. by rewrite M.
    - intros Hbs. constructor; [|done]. destruct Hf; [done|lia]. }
  simpl. split; [|split_and!; [right; by left|done|destruct (ss_queue s); [unfold do_write; by destruct (ss_queue s1)|done]]].
  destruct (ss_queue s) as [|p0 q0] eqn:Hq; simpl.
  - apply Hone; try done; try (unfold do_write; by destruct (ss_queue s1)). intros Hok. by apply session_do_write_ok, Hb.
  - apply Hone; try done. intros Hok. constructor; [by apply Hb|by destruct q0|]. intros _ _.
    unfold s1. simpl. apply Hok; [done|]. by rewrite Hq.
Qed.
Lemma sends_enqueue seq packet s : is_frame packet ∨ 65549 < block_size → seq_of packet = seq → seq = ss_tx_seq s →
  let st := enqueue options packet (bump_seq s) in sends s st.1 (OMade seq :: st.2).
Proof.
  intros Hf Hseq Hn st. destruct (enqueue_sends packet (bump_seq s) Hf) as ([Hi Hw Hno Hs Hl Hq Hok _ _ Hfr] & Hqd & Hm & Ht).
  fold st in Hi, Hw, Hno, Hs, Hl, Hq, Hok, Hfr, Hqd, Hm, Ht. constructor; try done.
  - intros Hk. apply Hok. destruct Hk. by constructor.
  - exists 1%nat. change (made (OMade seq :: st.2)) with (seq :: made st.2). by rewrite Ht, Hm, Hn.
  - intros _. change (made (OMade seq :: st.2)) with (seq :: made st.2). change (queued (OMade seq :: st.2)) with (queued st.2).
    rewrite Hm. apply elem_of_cons in Hqd as [->|Hqd]; [apply sublist_nil_l|]. apply list_elem_of_singleton in Hqd as ->.
    simpl. by rewrite Hseq.
Qed.
Lemma header_bytes h : let hb := encode_header h (replicate k_header_bytes 0) in length hb = k_header_bytes
  ∧ length_ (decode_header hb) = u16 (length_ h) ∧ (is_u32 (seq_ h) → seq_ (decode_header hb) = seq_ h).
Proof.
  intros hb. unfold hb. rewrite encode_header_bytes by done. split; [done|]. unfold decode_header. split.
  - cbn [length_]. rewrite drop_0, be16_alt. cbn [app]. rewrite read_be16_cons by mach. mach.
  - cbn [seq_]. intros Hs. change (drop 6 _) with (be32 (seq_ h) ++ be32 (utc_ts_ms32 h) ++ drop 14 (replicate k_header_bytes 0)).
    by apply read_be32_be32.
Qed.
Lemma make_packet_some msg flags payload seq now buffer packet : make_packet block_size msg flags payload seq now buffer = Some packet →
  is_u32 seq → seq_of packet = seq ∧ (is_frame packet ∨ 65549 < block_size).
Proof.
  unfold make_packet. destruct (Z.ltb_spec block_size (Z.of_nat k_header_bytes + Z.of_nat (length payload))) as [|Hb]; [done|].
  destruct buffer; [|done]. intros Heq%(inj Some) Hs. subst packet.
  match goal with |- context [encode_header ?x _] => set (h := x) end.
  destruct (header_bytes h) as (Hl & Hlen & Hseq). set (hb := encode_header h (replicate k_header_bytes 0)) in *.
  change (Z.of_nat k_header_bytes) with 14 in Hb. split.
  - unfold seq_of. rewrite decode_header_app by lia. by apply Hseq.
  - destruct (decide (65549 < block_size)); [by right|left]. apply is_frame_intro; [done|]. rewrite Hlen. simpl. mach.
Qed.
Lemma seq_after_range k n : is_u32 n → is_u32 (seq_after k n).
Proof. revert n. induction k as [|k IH]; intros n Hn; simpl; [done|]. apply IH. auto with mach. Qed.
Lemma sends_range own s s' out : sends_as own s s' out → is_u32 (ss_tx_seq s) → is_u32 (ss_tx_seq s').
Proof. intros H Hr. destruct (sd_made _ _ _ _ H) as (k & -> & _). by apply seq_after_range. Qed.
Lemma sends_nothing s : sends s (bump_seq s) [OMade (ss_tx_seq s); ODropped].
Proof.
  constructor; try done; simpl; try (by intros ->); [by rewrite app_nil_r| |by exists 1%nat|intros _; apply sublist_nil_l].
  intros [? ? ?]. by constructor.
Qed.
Lemma sends_packet msg flags payload sup s : is_u32 (ss_tx_seq s) →
  sends s (send_packet options block_size msg flags payload sup s).1 (send_packet options block_size msg flags payload sup s).2.
Proof.
  intros Hr. unfold send_packet. destruct (make_packet _ _ _ _ _ _ _) as [packet|] eqn:Hm.
  - destruct (make_packet_some _ _ _ _ _ _ _ Hm Hr) as [Hseq Hf].
    pose proof (sends_enqueue _ packet s Hf Hseq eq_refl) as H. by destruct (enqueue options packet (bump_seq s)).
  - apply sends_nothing.
Qed.
Lemma sends_act st a : is_u32 (ss_tx_seq st.1) → ∃ o, (act options block_size st a).2 = st.2 ++ o
  ∧ sends st.1 (act options block_size st a).1 o.
Proof.
  intros Hr. destruct st as [s out]. unfold act. simpl in Hr.
  destruct a as [msg flags payload sup|code text sup|status|].
  - pose proof (sends_packet msg flags payload sup s Hr) as H. destruct (send_packet _ _ _ _ _ _ _) as [s' o]. simpl in *. eauto.
  - unfold send_error. pose proof (sends_packet 4 0 (error_payload code (bytes text)) sup s Hr) as H.
    destruct (send_packet _ _ _ _ _ _ _) as [s' o]. simpl in *. eauto.
  - exists []. split; [done|]. simpl. destruct (sends_nil true s). constructor; try done. intros [? ? ?]. by constructor.
  - pose proof (sends_stop true s) as H. destruct (stop s) as [s' o]. simpl in *. eauto.
Qed.
Lemma sends_acts acts : ∀ st, is_u32 (ss_tx_seq st.1) → ∃ o, (foldl (act options block_size) st acts).2 = st.2 ++ o
  ∧ sends st.1 (foldl (act options block_size) st acts).1 o.
Proof.
  induction acts as [|a acts IH]; intros st Hr; simpl.
  - exists []. rewrite app_nil_r. split; [done|apply sends_nil].
  - destruct (sends_act st a Hr) as (o1 & H1 & S1). pose proof (sends_range _ _ _ _ S1 Hr) as Hr1.
    destruct (IH _ Hr1) as (o2 & H2 & S2). exists (o1 ++ o2). rewrite H2, H1, app_assoc. split; [done|]. by eapply sends_trans.
Qed.
Lemma sends_handler t b s : is_u32 (ss_tx_seq s) → ∃ o,
  (run_handler_with_guard options block_size t b s).2 = ORan t :: o ∧ sends s (run_handler_with_guard options block_size t b s).1 o.
Proof.
  intros Hr. unfold run_handler_with_guard. destruct (sends_acts (bh_actions b) (s, [ORan t]) Hr) as (o & H & S).
  set (st := foldl _ _ _) in *. destruct (bh_throws b); [|by exists o].
  destruct (sends_act st (ActError INTERNAL_ERROR "internal error" (bh_supply b))) as (o2 & H2 & S2); [by eapply sends_range|].
  exists (o ++ o2). rewrite H2, H. split; [done|]. by eapply sends_trans.
Qed.

(** ** Invariant; [own] when every packet is built on the strand *)
Context (own : bool).
Lemma sends_own s s' out : sends s s' out → sends_as own s s' out.
Proof. intros []. constructor; auto. Qed.
Definition tasks_of (l : list StrandItem) : list Task := omap (λ it, match it with StTask t => Some t | _ => None end) l.
Definition sends_of (l : list StrandItem) : list (list Z) := omap (λ it, match it with StSend p => Some p | _ => None end) l.
Definition closes_of (l : list StrandItem) : list unit := omap (λ it, match it with StClose => Some tt | _ => None end) l.
(** The bytes taken from the socket for a message not dispatched yet. *)
Definition partial_ok (r : ReadOp) (h : PacketHeader) (partial : list Z) : Prop :=
  match r with
  | RdNone | RdHeaderDone None | RdBodyDone None => True
  | RdHeader => partial = []
  | RdHeaderDone (Some bs) => partial = bs ∧ length bs = k_header_bytes
  | RdBody => length partial = k_header_bytes ∧ h = decode_header partial ∧ fits options block_size h
  | RdBodyDone (Some bs) => ∃ hb, partial = hb ++ bs ∧ length hb = k_header_bytes ∧ h = decode_header hb ∧ Z.of_nat (length bs) = length_ h
                              ∧ fits options block_size h
  end.
Definition good_frame (f : list Z) : Prop := is_frame f ∧ fits options block_size (decode_header f).
Record stream_inv (s : Session) (os : list Out) (fs : list (list Z)) (partial : list Z) : Prop := {
  st_frames : Forall good_frame fs;
  st_dispatched : dispatched os = message_of <$> fs;
  st_arrived : arrived os = concat fs ++ partial ++ ss_in s;
}.
Definition policy_ok (os : list Out) (t : Task) : Prop :=
  ∃ h status entry, ODispatched h (tk_payload t) status ∈ os ∧ msg_id h = tk_msg_id t ∧ table !! tk_msg_id t = Some entry
    ∧ tk_handler t = en_handler entry ∧ allowed (en_policy entry) status tkTcp = true.
Record work_inv (s : Session) (os : list Out) : Prop := {
  wi_seq : is_u32 (ss_tx_seq s) ∧ ∃ k, ss_tx_seq s = seq_after k 1 ∧ made os = seqs_from k 1;
  wi_send : send_ok s;
  wi_queue : queued os = written os ++ ss_queue s;
  wi_frames : block_size ≤ 65549 → Forall is_frame (queued os ++ ss_made s ++ sends_of (ss_strand s));
  wi_tasks : ∃ skipped, accepted os ≡ₚ ran os ++ skipped ++ tasks_of (ss_strand s) ++ ss_jobs s ∧ (skipped ≠ [] → ss_stopped s = true);
  wi_allowed : ∀ t, t ∈ accepted os → policy_ok os t;
  wi_life : closes os ++ closes_of (ss_strand s) = if ss_stopped s then [tt] else [];
  wi_open : ss_open s = match closes os with [] => true | _ => false end;
  wi_order : own = true → (seq_of <$> queued os) `sublist_of` made os ∧ ss_made s = [] ∧ sends_of (ss_strand s) = [];
}.
Lemma policy_ok_app os out t : policy_ok os t → policy_ok (os ++ out) t.
Proof. intros (h & st & e & H & ?). exists h, st, e. split; [|done]. apply elem_of_app. by left. Qed.
Lemma sends_inv s s' os out : sends_as own s s' out → work_inv s os → work_inv s' (os ++ out).
Proof.
  intros [(I1 & I2 & I3) (W1 & W2 & W3) (N1 & N2 & N3 & N4 & N5) St Lv Q O (k & M & M') D F].
  intros [(Hr & k0 & Hs1 & Hs2) Hk Hq Hf (skipped & Ht & Hsk) Ha Hl Ho Hor].
  constructor; autorewrite with outs; rewrite ?W1, ?W2, ?W3, ?N3, ?N4, ?N5.
  - split; [rewrite M; by apply seq_after_range|]. exists (k0 + k)%nat. by rewrite M, M', Hs1, Hs2, seqs_from_add, seq_after_add.
  - auto.
  - by rewrite Hq, Q, app_nil_r, app_assoc.
  - intros Hb. specialize (Hf Hb). specialize (F Hb). rewrite !Forall_app in *. tauto.
  - exists skipped. rewrite !app_nil_r. split; [done|]. intros Hn. destruct (St (Hsk Hn)). done.
  - intros t Hin. rewrite app_nil_r in Hin. by apply policy_ok_app, Ha.
  - destruct (ss_stopped s) eqn:Hst.
    + destruct (St eq_refl) as (-> & _ & _ & ->). by rewrite app_nil_r.
    + apply app_nil in Hl as [-> ->]. specialize (Lv eq_refl). destruct (ss_stopped s'); by destruct Lv as [_ ->].
  - destruct (ss_stopped s) eqn:Hst.
    + destruct (St eq_refl) as (_ & -> & _ & ->). by rewrite app_nil_r.
    + apply app_nil in Hl as [Hl _]. rewrite Hl in *. specialize (Lv eq_refl). destruct (ss_stopped s'); by destruct Lv as [-> ->].
  - intros Hown. destruct (Hor Hown) as (? & ? & ?). split_and!; [|done..]. rewrite fmap_app. by apply sublist_app; auto.
Qed.
(** Steps that leave what the rest depends on alone. *)
Record same_work (s s' : Session) : Prop := {
  sw_seq : ss_tx_seq s' = ss_tx_seq s;
  sw_life : ss_stopped s' = ss_stopped s ∧ ss_open s' = ss_open s;
  sw_send : ss_queue s' = ss_queue s ∧ ss_queued_bytes s' = ss_queued_bytes s ∧ ss_write s' = ss_write s;
  sw_work : ss_strand s' = ss_strand s ∧ ss_jobs s' = ss_jobs s ∧ ss_made s' = ss_made s;
}.
Lemma send_ok_same s s' : same_work s s' → send_ok s → send_ok s'.
Proof. intros [_ [H1 _] (H2 & H3 & H4) _] [? ? ?]. constructor; by rewrite ?H1, ?H2, ?H3, ?H4. Qed.
Lemma same_work_inv s s' os out : same_work s s' → made out = [] → queued out = [] → written out = [] → accepted out = [] → ran out = [] →
  closes out = [] → work_inv s os → work_inv s' (os ++ out).
Proof.
  intros Hs M Q W A R C [(Hr & k0 & Hs1 & Hs2) Hk Hq Hf (skipped & Ht & Hsk) Ha Hl Ho Hor].
  pose proof Hs as [H1 [H2 H3] (H4 & H5 & H6) (H7 & H8 & H9)].
  constructor; autorewrite with outs; rewrite ?H1, ?H2, ?H3, ?H4, ?H7, ?H8, ?H9, ?M, ?Q, ?W, ?A, ?R, ?C, ?app_nil_r; eauto.
  - by eapply send_ok_same.
  - intros t Hin. by apply policy_ok_app, Ha.
Qed.
Lemma sends_stream s s' os out fs partial : sends s s' out → stream_inv s os fs partial → stream_inv s' (os ++ out) fs partial.
Proof.
  intros [(I1 & I2 & I3) _ (N1 & N2 & _) _ _ _ _ _ _ _] [Hf Hd Ha].
  constructor; autorewrite with outs; rewrite ?N1, ?N2, ?I1, ?app_nil_r; done.
Qed.
(** The state between two reads. *)
Record between_reads (s : Session) (os : list Out) (fs : list (list Z)) (partial : list Z) : Prop := {
  br_stream : stream_inv s os fs partial;
  br_work : work_inv s os;
}.
Lemma sends_between s s' os out fs partial : sends s s' out → between_reads s os fs partial → between_reads s' (os ++ out) fs partial.
Proof. intros H [? ?]. constructor; [by eapply sends_stream|by eapply sends_inv; [apply sends_own|]]. Qed.
Lemma same_between s s' os fs partial partial' : same_work s s' → partial' ++ ss_in s' = partial ++ ss_in s →
  between_reads s os fs partial → between_reads s' os fs partial'.
Proof.
  intros Hs Hp [[Hf Hd Ha] Hw]. constructor.
  - constructor; [done|done|]. by rewrite Hp.
  - rewrite <- (app_nil_r os). by apply (same_work_inv s).
Qed.
(** The whole invariant. *)
Definition session_inv (s : Session) (os : list Out) : Prop :=
  ∃ fs partial, between_reads s os fs partial ∧ partial_ok (ss_read s) (ss_header s) partial
    ∧ (ss_read s = RdNone → ss_stopped s = true ∨ fs = [] ∧ partial = []).
Lemma stopped_by_stop s : ss_stopped (stop s).1 = true.
Proof. unfold stop. destruct (ss_stopped s) eqn:H; [done|]. done. Qed.
Lemma stop_inv s os fs partial : between_reads s os fs partial → ss_read s = RdNone → session_inv (stop s).1 (os ++ (stop s).2).
Proof.
  intros Hb Hr. exists fs, partial. pose proof (sends_stop true s) as Hs. destruct (sd_input _ _ _ _ Hs) as (_ & _ & Hr').
  rewrite Hr', Hr. split_and!; [by eapply sends_between|done|]. intros _. left. apply stopped_by_stop.
Qed.
Lemma read_header_inv buffer s os fs : between_reads s os fs [] → ss_read s = RdNone →
  session_inv (do_read_header buffer s).1 (os ++ (do_read_header buffer s).2).
Proof.
  intros Hb Hr. unfold do_read_header. destruct buffer; simpl.
  - rewrite app_nil_r. exists fs, []. split_and!; [by apply (same_between s _ _ _ [] [])|by destruct (ss_open s)|by destruct (ss_open s)].
  - apply (stop_inv _ _ fs []); [|done]. by apply (same_between s _ _ _ [] []).
Qed.
Lemma then_inv st k os fs s0 : sends s0 st.1 st.2 → between_reads s0 os fs [] → ss_read s0 = RdNone →
  session_inv (then_ st (do_read_header k)).1 (os ++ (then_ st (do_read_header k)).2).
Proof.
  intros Hs Hb Hr. rewrite then_eq. simpl. rewrite app_assoc. apply (read_header_inv _ _ _ fs).
  - by eapply sends_between.
  - by destruct (sd_input _ _ _ _ Hs) as (_ & _ & ->).
Qed.
Lemma seen_between s os fs hb payload status : between_reads s os fs (hb ++ payload) → length hb = k_header_bytes →
  ss_header s = decode_header hb → Z.of_nat (length payload) = length_ (ss_header s) → fits options block_size (ss_header s) →
  between_reads s (os ++ [ODispatched (ss_header s) payload status]) (fs ++ [hb ++ payload]) [].
Proof.
  intros [[Hf Hd Ha] Hw] Hl Hh Hp Hfit. destruct (is_frame_intro hb payload Hl) as [Hfr Hm]; [by rewrite <- Hh|]. constructor.
  - constructor; autorewrite with outs.
    + apply Forall_app_2; [done|]. constructor; [|done]. split; [done|]. rewrite decode_header_app by lia. by rewrite <- Hh.
    + rewrite Hd, fmap_app. simpl. by rewrite Hm, Hh.
    + rewrite Ha, concat_app. simpl. rewrite !app_nil_r, <- !app_assoc. done.
  - by apply (same_work_inv s).
Qed.
(** A handler given control, at once or later. *)
Lemma accept_inv s s' os t out : policy_ok os t → work_inv s os → ss_tx_seq s' = ss_tx_seq s → ss_stopped s' = ss_stopped s →
  ss_open s' = ss_open s → ss_queue s' = ss_queue s → ss_queued_bytes s' = ss_queued_bytes s → ss_write s' = ss_write s →
  ss_made s' = ss_made s → sends_of (ss_strand s') = sends_of (ss_strand s) → closes_of (ss_strand s') = closes_of (ss_strand s) →
  accepted out = [t] → made out = [] → queued out = [] → written out = [] → closes out = [] →
  ran out ++ tasks_of (ss_strand s') ++ ss_jobs s' ≡ₚ t :: tasks_of (ss_strand s) ++ ss_jobs s →
  work_inv s' (os ++ out).
Proof.
  intros Hp [(Hr & k0 & Hs1 & Hs2) [? ? ?] Hq Hf (skipped & Ht & Hsk) Ha Hl Ho Hor] H1 H2 H3 H4 H5 H6 H7 H8 H9 A M Q W C T.
  constructor; autorewrite with outs; rewrite ?H1, ?H2, ?H3, ?H4, ?H7, ?H8, ?H9, ?A, ?M, ?Q, ?W, ?C, ?app_nil_r; eauto.
  - constructor; by rewrite ?H2, ?H4, ?H5, ?H6.
  - exists skipped. split; [|done]. rewrite Ht, <- !app_assoc. apply Permutation_app_head.
    rewrite (Permutation_app_comm (ran out)), <- !app_assoc. apply Permutation_app_head. rewrite (app_assoc _ _ (ran out)).
    rewrite (Permutation_app_comm _ (ran out)), T. rewrite (app_assoc (tasks_of _)), Permutation_app_comm. done.
  - intros x [Hx| ->%list_elem_of_singleton]%elem_of_app; apply policy_ok_app; auto.
Qed.
Lemma tasks_of_app a b : tasks_of (a ++ b) = tasks_of a ++ tasks_of b.  Proof. apply omap_app. Qed.
Lemma sends_of_app a b : sends_of (a ++ b) = sends_of a ++ sends_of b.  Proof. apply omap_app. Qed.
Lemma closes_of_app a b : closes_of (a ++ b) = closes_of a ++ closes_of b.  Proof. apply omap_app. Qed.
Lemma read_between s os fs partial r : between_reads s os fs partial → between_reads (set_read r s) os fs partial.
Proof. intros H. by apply (same_between s _ _ _ partial partial). Qed.
Lemma accept_between s s' os fs out : between_reads s os fs [] → arrived out = [] → dispatched out = [] → ss_in s' = ss_in s →
  work_inv s' (os ++ out) → between_reads s' (os ++ out) fs [].
Proof.
  intros [[Hf Hd Ha] _] H1 H2 H3 Hw. constructor; [|done].
  constructor; autorewrite with outs; by rewrite ?H1, ?H2, ?H3, ?app_nil_r.
Qed.
Lemma reply_inv s os fs seen code text sup buffer : between_reads s (os ++ [seen]) fs [] → ss_read s = RdNone →
  let st := then_ (then_ (s, [seen]) (send_error options block_size code text sup)) (do_read_header buffer) in
  session_inv st.1 (os ++ st.2).
Proof.
  intros Hb Hr st. assert (Hu : is_u32 (ss_tx_seq s)) by apply Hb.
  pose proof (sends_packet 4 0 (error_payload code (bytes text)) sup s Hu) as Hs. unfold st.
  rewrite (then_eq (st := (s, [seen]))). unfold send_error. cbn [fst snd].
  destruct (send_packet _ _ _ _ _ _ _) as [s1 o1]. cbn [fst snd] in *. rewrite then_eq. cbn [fst snd].
  rewrite <- app_assoc, (app_assoc os). rewrite (app_assoc _ o1). apply (read_header_inv _ _ _ fs).
  - by eapply sends_between.
  - by destruct (sd_input _ _ _ _ Hs) as (_ & _ & ->).
Qed.
Lemma run_inv s os fs seen t b buffer : between_reads s (os ++ [seen]) fs [] → ss_read s = RdNone → policy_ok (os ++ [seen]) t →
  let st := then_ (then_ (s, [seen; OAccepted t]) (run_handler_with_guard options block_size t b)) (do_read_header buffer) in
  session_inv st.1 (os ++ st.2).
Proof.
  intros Hb Hr Hp st. assert (Hu : is_u32 (ss_tx_seq s)) by apply Hb. destruct (sends_handler t b s Hu) as (o & Ho & Hs).
  unfold st. rewrite (then_eq (st := (s, [seen; OAccepted t]))). cbn [fst snd]. rewrite Ho, then_eq. cbn [fst snd].
  rewrite app_assoc. apply (read_header_inv _ _ _ fs); [|by destruct (sd_input _ _ _ _ Hs) as (_ & _ & ->)].
  replace (os ++ [seen; OAccepted t] ++ ORan t :: o) with (((os ++ [seen]) ++ [OAccepted t; ORan t]) ++ o) by (by rewrite <- !app_assoc).
  eapply sends_between; [exact Hs|]. apply (accept_between s); try done. by apply (accept_inv s _ _ t); [|apply Hb|..].
Qed.
Lemma defer_inv s os fs seen t strand jobs buffer : between_reads s (os ++ [seen]) fs [] → ss_read s = RdNone → policy_ok (os ++ [seen]) t →
  sends_of strand = sends_of (ss_strand s) → closes_of strand = closes_of (ss_strand s) →
  tasks_of strand ++ jobs ≡ₚ t :: tasks_of (ss_strand s) ++ ss_jobs s →
  let st := then_ (set_work strand jobs (ss_made s) s, [seen; OAccepted t]) (do_read_header buffer) in
  session_inv st.1 (os ++ st.2).
Proof.
  intros Hb Hr Hp H1 H2 H3 st. unfold st. rewrite then_eq. cbn [fst snd]. rewrite app_assoc. apply (read_header_inv _ _ _ fs); [|done].
  replace (os ++ [seen; OAccepted t]) with ((os ++ [seen]) ++ [OAccepted t]) by (by rewrite <- app_assoc).
  apply (accept_between s); try done. by apply (accept_inv s _ _ t); [|apply Hb|..].
Qed.
Lemma dispatch_message_inv s os fs hb payload a : between_reads s os fs (hb ++ payload) → length hb = k_header_bytes →
  ss_header s = decode_header hb → Z.of_nat (length payload) = length_ (ss_header s) → fits options block_size (ss_header s) → ss_read s = RdNone →
  let st := dispatch_message options block_size table payload a s in session_inv st.1 (os ++ st.2).
Proof.
  intros Hb Hl Hh Hp Hfit Hr st. pose proof (seen_between s os fs hb payload (ss_status s) Hb Hl Hh Hp Hfit) as Hseen.
  unfold st, dispatch_message. set (h := ss_header s) in *. set (seen := ODispatched h payload (ss_status s)) in *.
  set (ans := {| an_shared := true |}).
  destruct (dispatch table (msg_id h) (ss_status s) tkTcp ans) as [[ms d]|] eqn:Hd; [|by eapply reply_inv].
  assert (Hpol : ∀ handler, handler_of d = Some handler →
    policy_ok (os ++ [seen]) {| tk_handler := handler; tk_msg_id := msg_id h; tk_payload := payload |}).
  { intros handler Hh'. destruct (dispatch_allowed _ _ _ _ _ _ _ _ Hd Hh') as (entry & He & -> & Hal).
    exists h, (ss_status s), entry. split_and!; try done. apply elem_of_app. right. by left. }
  destruct d as [code text|handler place|handler place|handler place].
  - by eapply reply_inv.
  - eapply run_inv; eauto.
  - eapply defer_inv; eauto; [by rewrite sends_of_app, app_nil_r|by rewrite closes_of_app, app_nil_r|].
    rewrite tasks_of_app, <- app_assoc. apply Permutation_sym, Permutation_middle.
  - eapply defer_inv; eauto. by rewrite app_assoc, <- Permutation_cons_append.
Qed.
(** ** Every step keeps the invariant *)
Lemma fits_intro h : match options with Some o => (0 <? so_recv_max_payload o) && (so_recv_max_payload o <? length_ h) | None => false end = false →
  length_ h = 0 ∨ length_ h ≤ block_size → fits options block_size h.
Proof. intros H Hb. split; [|done]. intros o -> Hm. apply andb_false_iff in H as [H|H]; lia. Qed.
Lemma header_read_inv s os r a : session_inv s os → ss_read s = RdHeaderDone r →
  let st := header_read options block_size table r a s in session_inv st.1 (os ++ st.2).
Proof.
  intros (fs & partial & Hb & Hp & _) Hr st. rewrite Hr in Hp. unfold st, header_read.
  pose proof (read_between s os fs partial RdNone Hb) as Hb0. destruct r as [bs|]; [|by eapply stop_inv].
  destruct Hp as [-> Hl]. set (s1 := set_input _ _ _).
  assert (Hb1 : between_reads s1 os fs bs) by (by apply (same_between (set_read RdNone s) _ _ _ bs bs)).
  assert (Hu : is_u32 (ss_tx_seq s1)) by apply Hb1.
  destruct (match options with Some o => _ | None => false end) eqn:Hlim.
  { rewrite then_eq. cbn [fst snd]. pose proof (sends_packet 4 0 (error_payload LENGTH_LIMIT_EXCEEDED (bytes "payload too large")) (ra_reply a) s1 Hu) as Hs.
    unfold send_error. destruct (send_packet _ _ _ _ _ _ _) as [s2 o2]. cbn [fst snd] in *. rewrite app_assoc. apply (stop_inv _ _ fs bs).
    - by eapply sends_between.
    - by destruct (sd_input _ _ _ _ Hs) as (_ & _ & ->). }
  unfold do_read_body. destruct (Z.eqb_spec (length_ (ss_header s1)) 0) as [H0|H0].
  { apply (dispatch_message_inv s1 os fs bs []); try done; [by rewrite app_nil_r|]. by apply (fits_intro (ss_header s1) Hlim); left. }
  destruct (Z.ltb_spec block_size (length_ (ss_header s1))) as [|Hbl]; [by eapply stop_inv|]. destruct (ra_body_buffer a); [|by eapply stop_inv].
  cbn [negb fst snd]. rewrite app_nil_r. exists fs, bs. pose proof (fits_intro (ss_header s1) Hlim (or_intror Hbl)) as Hfit.
  split_and!; [by apply read_between|by destruct (ss_open s1)|by destruct (ss_open s1)].
Qed.
Lemma body_read_inv s os r a : session_inv s os → ss_read s = RdBodyDone r →
  let st := body_read options block_size table r a s in session_inv st.1 (os ++ st.2).
Proof.
  intros (fs & partial & Hb & Hp & _) Hr st. rewrite Hr in Hp. unfold st, body_read.
  pose proof (read_between s os fs partial RdNone Hb) as Hb0. destruct r as [bs|]; [|by eapply stop_inv].
  destruct Hp as (hb & -> & Hl & Hh & Hlen & Hfit). by apply (dispatch_message_inv _ _ fs hb bs).
Qed.
Lemma io_inv s os : session_inv s os → reading s = true → (read_need s ≤ length (ss_in s))%nat →
  session_inv (read_done (Some (take (read_need s) (ss_in s))) (set_input (drop (read_need s) (ss_in s)) (ss_header s) s)) os.
Proof.
  intros (fs & partial & Hb & Hp & _) Hrd Hn. unfold reading, read_need, read_done in *. cbn [ss_read set_input].
  destruct (ss_read s) eqn:Hr; try done; simpl in Hp.
  - subst partial. exists fs, (take k_header_bytes (ss_in s)). simpl. split_and!; [|done|by rewrite length_take; lia|done].
    apply (same_between s _ _ _ []); [done| |done]. simpl. by rewrite take_drop.
  - destruct Hp as (Hl & Hh & Hfit). set (n := Z.to_nat (length_ (ss_header s))) in *.
    exists fs, (partial ++ take n (ss_in s)). simpl. split_and!; [| |done].
    + apply (same_between s _ _ _ partial); [done| |done]. simpl. by rewrite <- app_assoc, take_drop.
    + exists partial. split_and!; try done. rewrite length_take. unfold n in *.
      pose proof (frame_length_range partial). rewrite Hh in *. lia.
Qed.
Lemma between_inv s s' os out : ss_read s' = ss_read s → ss_header s' = ss_header s → ss_in s' = ss_in s →
  arrived out = [] → dispatched out = [] → (ss_stopped s = true → ss_stopped s' = true) →
  (work_inv s os → work_inv s' (os ++ out)) → session_inv s os → session_inv s' (os ++ out).
Proof.
  intros H1 H2 H3 H4 H5 H6 Hw (fs & partial & [[Hf Hd Ha] Hwk] & Hp & Hn). exists fs, partial. rewrite H1, H2. split_and!; [|done|].
  - constructor; [|auto]. constructor; autorewrite with outs; by rewrite ?H3, ?H4, ?H5, ?app_nil_r.
  - intros Hr. destruct (Hn Hr); auto.
Qed.
Lemma sends_session s s' os out : sends_as own s s' out → session_inv s os → session_inv s' (os ++ out).
Proof.
  intros Hs. pose proof (sd_input _ _ _ _ Hs) as (H1 & H2 & H3). pose proof (sd_none _ _ _ _ Hs) as (H4 & H5 & _).
  apply between_inv; try done; [|by eapply sends_inv]. intros Hst. by apply (sd_stopped _ _ _ _ Hs).
Qed.
Lemma failed_write_inv s os : session_inv s os →
  let st := stop (set_send (ss_queue s) (ss_queued_bytes s) WrNone s) in session_inv st.1 (os ++ st.2).
Proof.
  intros Hinv st. assert (Heq : st = (set_send (ss_queue s) (ss_queued_bytes s) WrNone (stop s).1, (stop s).2)).
  { unfold st, stop. simpl. by destruct (ss_stopped s) eqn:Hst. }
  rewrite Heq. cbn [fst snd]. pose proof (sends_stop true s) as [Hi Hw Hn Hs Hl Hq Hok Hm Ho Hf].
  apply (sends_session s); [apply sends_own|done]. constructor; try done.
  - simpl. rewrite <- Hq. unfold stop. by destruct (ss_stopped s).
  - intros [Hb _ _]. constructor; simpl; [done|done|]. by rewrite stopped_by_stop.
Qed.
Lemma wrote_inv s os ok : ss_write s = WrDone ok → session_inv s os →
  let st := write_handled ok s in session_inv st.1 (os ++ st.2).
Proof.
  intros Hw Hinv st. unfold st, write_handled.
  destruct ok, (ss_queue s) as [|p q] eqn:Hq; try (rewrite <- Hq; by apply failed_write_inv). cbn [fst snd].
  set (n := if _ <=? _ then _ else _). set (s1 := set_send q n (ss_write s) s).
  assert (Hd : ∀ T (f : Session → T), (∀ q n w s, f (set_send q n w s) = f s) → f (do_write s1) = f s).
  { intros T f Hf. unfold do_write. destruct (ss_queue s1); unfold s1; by rewrite !Hf. }
  assert (Hqd : ss_queue (do_write s1) = q) by (unfold do_write; simpl; by destruct q).
  apply (between_inv s); try (by apply Hd); try done; [by rewrite (Hd _ ss_stopped)|].
  intros [(Hr & k0 & Hs1 & Hs2) [Hb ? ?] Hwq Hf (skipped & Ht & Hsk) Ha Hl Ho Hor].
  constructor; autorewrite with outs; rewrite ?(Hd _ ss_tx_seq), ?(Hd _ ss_made), ?(Hd _ ss_strand), ?(Hd _ ss_jobs), ?(Hd _ ss_stopped), ?(Hd _ ss_open) by done;
    rewrite ?app_nil_r; eauto.
  - apply session_do_write_ok. intros o Heo Hmo. destruct (Hb o Heo Hmo) as [H1 H2]. rewrite Hq in H1, H2.
    change (total (p :: q)) with (Z.of_nat (length p) + total q) in *. pose proof (total_nonneg q). unfold s1, n. simpl.
    destruct (Z.leb_spec (Z.of_nat (length p)) (ss_queued_bytes s)); lia.
  - rewrite Hwq, Hq, Hqd. simpl. by rewrite <- app_assoc.
  - intros t Hin. by apply policy_ok_app, Ha.
Qed.
(** One item of the strand. *)
Lemma strand_inv s os it rest b : ss_strand s = it :: rest → session_inv s os →
  let st := strand_item options block_size it b (set_work rest (ss_jobs s) (ss_made s) s) in session_inv st.1 (os ++ st.2).
Proof.
  intros Hs Hinv st. unfold st, strand_item. set (s1 := set_work rest (ss_jobs s) (ss_made s) s).
  destruct it as [t|packet|].
  - destruct (ss_stopped s1) eqn:Hst.
    + apply (between_inv s); try done. intros [Hq Hk Hwq Hf (skipped & Ht & Hsk) Ha Hl Ho Hor]. rewrite app_nil_r. rewrite Hs in *. constructor; try done.
      * destruct Hk. by constructor.
      * exists (skipped ++ [t]). split; [|by intros _]. rewrite Ht. apply Permutation_app_head. simpl. rewrite <- app_assoc. done.
    + assert (Hu : is_u32 (ss_tx_seq s1)) by (destruct Hinv as (? & ? & [_ [[Hu _] _]] & _); exact Hu).
      destruct (sends_handler t b s1 Hu) as (o & -> & Hsd). replace (os ++ ORan t :: o) with ((os ++ [ORan t]) ++ o) by (by rewrite <- app_assoc).
      eapply sends_session; [exact (sends_own _ _ _ Hsd)|]. apply (between_inv s); try done.
      intros [Hq Hk Hwq Hf (skipped & Ht & Hsk) Ha Hl Ho Hor]. rewrite Hs in *. constructor; autorewrite with outs; try done.
      * destruct Hk. by constructor.
      * exists skipped. split; [|done]. rewrite Ht. simpl. rewrite <- !app_assoc. apply Permutation_app_head.
        simpl. by rewrite <- Permutation_middle.
      * intros x Hx. by apply policy_ok_app, Ha.
  - assert (Hf : is_frame packet ∨ 65549 < block_size).
    { destruct Hinv as (? & ? & [_ [_ _ _ Hf _ _ _ _ _]] & _). destruct (decide (block_size ≤ 65549)) as [Hb|]; [left|right; lia].
      specialize (Hf Hb). rewrite Hs, !Forall_app in Hf. destruct Hf as (_ & _ & Hf). simpl in Hf. by inversion Hf. }
    assert (Hno : own = false).
    { destruct Hinv as (? & ? & [_ Hw] & _). destruct own eqn:Hown; [|done]. destruct (wi_order _ _ Hw Hown) as (_ & _ & H). by rewrite Hs in H. }
    destruct (enqueue_sends packet s1 Hf) as [Hsd _]. rewrite <- Hno in Hsd. eapply sends_session; [exact Hsd|].
    rewrite <- (app_nil_r os). apply (between_inv s); try done. rewrite app_nil_r. intros [Hq Hk Hwq Hfr Ht Ha Hl Ho Hor].
    rewrite Hs in *. constructor; try done; [destruct Hk; by constructor| |intros Hown; congruence].
    intros Hb. specialize (Hfr Hb). rewrite !Forall_app in *. simpl in Hfr. rewrite Forall_cons in Hfr. tauto.
  - apply (between_inv s); try done. intros [Hq Hk Hwq Hf Ht Ha Hl Ho Hor]. rewrite Hs in *. simpl in Hl. cbn [close_now fst snd].
    destruct (closes os) as [|? [|? ?]] eqn:Hc; destruct (ss_stopped s) eqn:Hst; try done; simplify_eq/=.
    constructor; autorewrite with outs; try done.
    + destruct Hk. by constructor.
    + destruct Ht as (skipped & Ht & _). exists skipped. by split.
    + intros x Hx. by apply policy_ok_app, Ha.
    + rewrite Hc. simpl. rewrite Hst. congruence.
    + by rewrite Hc.
Qed.
Definition on_strand (ev : SessionEvent) : bool := match ev with SeMake _ _ _ _ => false | _ => true end.
Lemma work_list_inv s os strand jobs made : closes_of strand = closes_of (ss_strand s) →
  (tasks_of strand ++ jobs ≡ₚ tasks_of (ss_strand s) ++ ss_jobs s) →
  made ++ sends_of strand ≡ₚ ss_made s ++ sends_of (ss_strand s) → session_inv s os → session_inv (set_work strand jobs made s) os.
Proof.
  intros Hc Ht Hm Hinv. rewrite <- (app_nil_r os). apply (between_inv s); try done. rewrite app_nil_r.
  intros [Hq Hk Hwq Hf (skipped & Hts & Hsk) Ha Hl Ho Hor]. constructor; simpl; try done.
  - destruct Hk. by constructor.
  - intros Hb. rewrite Hm. by apply Hf.
  - exists skipped. by rewrite Ht.
  - by rewrite Hc.
  - intros Hown. destruct (Hor Hown) as (H1 & H2 & H3). split; [done|]. rewrite H2, H3 in Hm. symmetry in Hm.
    by apply app_nil, Permutation_nil_r.
Qed.
Lemma external_stop_inv s os : session_inv s os → ss_stopped s = false →
  session_inv (set_work (ss_strand s ++ [StClose]) (ss_jobs s) (ss_made s) (set_life true (ss_open s) s)) os.
Proof.
  intros Hinv Hst. rewrite <- (app_nil_r os). apply (between_inv s); try done. rewrite app_nil_r.
  intros [Hq Hk Hwq Hf (skipped & Hts & Hsk) Ha Hl Ho Hor]. rewrite Hst in *. constructor; simpl; try done.
  - destruct Hk. by constructor.
  - by rewrite sends_of_app, app_nil_r.
  - exists skipped. split; [|by intros _]. by rewrite tasks_of_app, app_nil_r.
  - rewrite closes_of_app, app_assoc, Hl. done.
  - by rewrite sends_of_app, app_nil_r.
Qed.
Lemma external_make_inv s os packet : is_frame packet ∨ 65549 < block_size → own = false → session_inv s os →
  session_inv (set_work (ss_strand s) (ss_jobs s) (ss_made s ++ [packet]) (bump_seq s)) (os ++ [OMade (ss_tx_seq s)]).
Proof.
  intros Hf Hown Hinv. apply (between_inv s); try done.
  intros [(Hr & k & Hs1 & Hs2) Hk Hwq Hfr (skipped & Hts & Hsk) Ha Hl Ho Hor]. constructor; autorewrite with outs; simpl; try done.
  - split; [auto with mach|]. exists (k + 1)%nat. rewrite seqs_from_add, seq_after_add, Hs2, Hs1. done.
  - destruct Hk. by constructor.
  - intros Hb. specialize (Hfr Hb). rewrite !Forall_app in *. rewrite Forall_singleton. destruct Hf; [tauto|lia].
  - eauto.
  - intros t Hin. by apply policy_ok_app, Ha.
  - congruence.
Qed.
Lemma tx_range s os : session_inv s os → is_u32 (ss_tx_seq s).
Proof. intros (? & ? & [_ [[H _] _]] & _). exact H. Qed.
Lemma session_exec_inv s os ev s' o : (own = true → on_strand ev = true) →
  session_exec options block_size table s ev = Some (s', o) → session_inv s os → session_inv s' (os ++ o).
Proof.
  intros Hown H Hinv. pose proof (tx_range _ _ Hinv) as Hu. destruct ev as [hello buffer|bs| | |a|ok| |b|i| |sup|msg flags payload sup|i|].
  - cbn [session_exec] in H. destruct (ss_read s) eqn:Hr; try done. destruct (ss_stopped s) eqn:Hst; [done|].
    assert (H' : then_ (send_hello options block_size hello s) (do_read_header buffer) = (s', o)) by congruence. clear H.
    destruct Hinv as (fs & partial & Hb & _ & Hn). destruct (Hn Hr) as [?|[-> ->]]; [congruence|].
    pose proof (then_inv (send_hello options block_size hello s) buffer os [] s (sends_packet _ _ _ _ s Hu) Hb Hr) as Hi.
    by rewrite H' in Hi.
  - cbn [session_exec] in H. destruct (ss_open s); [|done]. injection H as <- <-.
    destruct Hinv as (fs & partial & [[Hf Hd Ha] Hw] & Hp & Hn). exists fs, partial. split_and!; [|done|done]. constructor.
    + constructor; autorewrite with outs; [done|done|]. rewrite Ha. unfold arrived. simpl. by rewrite app_nil_r, <- !app_assoc.
    + by apply (same_work_inv s).
  - cbn [session_exec] in H. destruct (reading s) eqn:Hrd; [|done]. destruct (Nat.leb_spec (read_need s) (length (ss_in s))); [|done].
    injection H as <- <-. rewrite app_nil_r. by apply io_inv.
  - cbn [session_exec] in H. destruct (reading s) eqn:Hrd; [|done]. injection H as <- <-. rewrite app_nil_r.
    destruct Hinv as (fs & partial & Hb & Hp & Hn). unfold reading, read_done in *.
    exists fs, partial. destruct (ss_read s); try done; (split_and!; [by apply read_between|done|done]).
  - cbn [session_exec] in H. destruct (ss_read s) as [| | |r|r] eqn:Hr; try done.
    + assert (H' : header_read options block_size table r a s = (s', o)) by congruence.
      pose proof (header_read_inv s os r a Hinv Hr) as Hi. by rewrite H' in Hi.
    + assert (H' : body_read options block_size table r a s = (s', o)) by congruence.
      pose proof (body_read_inv s os r a Hinv Hr) as Hi. by rewrite H' in Hi.
  - cbn [session_exec] in H. destruct (ss_write s) eqn:Hw; try done. injection H as <- <-.
    apply (between_inv s); try done. intros [Hq Hk Hwq Hf Ht Ha Hl Ho Hor]. rewrite app_nil_r. constructor; try done.
    destruct Hk as [? Hi ?]. constructor; simpl; [done| |done]. intros Hq0. specialize (Hi Hq0). congruence.
  - cbn [session_exec] in H. destruct (ss_write s) as [| |ok] eqn:Hw; try done.
    assert (H' : write_handled ok s = (s', o)) by congruence. pose proof (wrote_inv s os ok Hw Hinv) as Hi. by rewrite H' in Hi.
  - cbn [session_exec] in H. destruct (ss_strand s) as [|it rest] eqn:Hs; [done|].
    match type of H with Some ?x = _ => assert (H' : x = (s', o)) by congruence end.
    pose proof (strand_inv s os it rest b Hs Hinv) as Hi. by rewrite H' in Hi.
  - cbn [session_exec] in H. apply bind_Some in H as (t & Ht & H). injection H as <- <-. rewrite app_nil_r.
    apply work_list_inv; [by rewrite closes_of_app, app_nil_r| |by rewrite sends_of_app, app_nil_r|done].
    rewrite tasks_of_app, <- app_assoc. apply Permutation_app_head. simpl. symmetry. by apply delete_Permutation.
  - cbn [session_exec] in H. destruct (ss_stopped s); [injection H as <- <-; by rewrite app_nil_r|].
    assert (H' : stop s = (s', o)) by congruence. pose proof (sends_session _ _ os _ (sends_stop own s) Hinv) as Hi. by rewrite H' in Hi.
  - cbn [session_exec] in H. destruct (ss_stopped s); [injection H as <- <-; by rewrite app_nil_r|].
    assert (H' : send_packet options block_size 2 0 [] sup s = (s', o)) by congruence.
    pose proof (sends_session _ _ os _ (sends_own _ _ _ (sends_packet 2 0 [] sup s Hu)) Hinv) as Hi. by rewrite H' in Hi.
  - cbn [session_exec] in H. assert (own = false) by (destruct own; [by specialize (Hown eq_refl)|done]).
    destruct (make_packet _ _ _ _ _ _ _) as [packet|] eqn:Hm; injection H as <- <-.
    + apply external_make_inv; [|done|done]. by apply (make_packet_some _ _ _ _ _ _ _ Hm).
    + eapply sends_session; [apply sends_own, sends_nothing|done].
  - cbn [session_exec] in H. apply bind_Some in H as (p & Hp & H). injection H as <- <-. rewrite app_nil_r.
    apply work_list_inv; [by rewrite closes_of_app, app_nil_r|by rewrite tasks_of_app, app_nil_r| |done].
    rewrite sends_of_app. etrans; [|apply Permutation_app_tail; symmetry; by apply delete_Permutation].
    rewrite app_assoc. apply Permutation_sym, Permutation_cons_append.
  - cbn [session_exec] in H. destruct (ss_stopped s) eqn:Hst; injection H as <- <-; rewrite app_nil_r; [done|]. by apply external_stop_inv.
Qed.
Lemma session_run_inv evs : ∀ s os s' out, Forall (λ ev, own = true → on_strand ev = true) evs →
  session_run options block_size table s evs = Some (s', out) → session_inv s os → session_inv s' (os ++ out).
Proof.
  induction evs as [|ev evs IH]; intros s os s' out Hown H Hinv; cbn [session_run] in H.
  - injection H as <- <-. by rewrite app_nil_r.
  - apply Forall_cons in Hown as [He Hown]. apply bind_Some in H as ([s1 o1] & Hx & H).
    apply bind_Some in H as ([s2 o2] & Hr & H). injection H as <- <-. rewrite app_assoc. apply (IH s1); [done|done|].
    by eapply session_exec_inv.
Qed.
Lemma session_new_inv : session_inv session_new [].
Proof.
  exists [], []. split_and!; [|done|by right]. constructor; [by constructor|]. constructor; try done.
  - split; [by split|]. by exists O.
  - constructor; try done. intros o Ho Hm. simpl. unfold total. simpl. lia.
  - by exists [].
  - by intros t ?%elem_of_nil.
Qed.
End SessionLemmas.
Lemma session_reach options block_size table evs s os : session_run options block_size table session_new evs = Some (s, os) →
  session_inv options block_size table false s os.
Proof. intros H. apply (session_run_inv _ _ _ _ evs session_new []); [by apply Forall_true|done|apply session_new_inv]. Qed.

(** ** Properties *)
(** How a completed read is handled, when the pool has its blocks: a header whose
    frame does not fit stops the session, one without body is dispatched, any other
    makes it wait for the body; a body is dispatched under its header; and after a
    dispatch the session reads on. *)
Definition reads_exactly (options : option SessionOptions) (block_size : Z) (s s' : Session) (o : list Out) : Prop :=
  match ss_read s with
  | RdHeaderDone (Some bs) =>
      let h := decode_header bs in
      (¬ fits options block_size h → dispatched o = [] ∧ ss_stopped s' = true ∧ ss_read s' = RdNone)
      ∧ (fits options block_size h → length_ h = 0 → dispatched o = [(h, [])])
      ∧ (fits options block_size h → length_ h ≠ 0 → o = [] ∧ ss_stopped s' = ss_stopped s ∧ ss_header s' = h
           ∧ ss_read s' = if ss_open s then RdBody else RdBodyDone None)
  | RdBodyDone (Some bs) => dispatched o = [(ss_header s, bs)]
  | _ => dispatched o = [] ∧ ss_stopped s' = true ∧ ss_read s' = RdNone
  end
  ∧ (dispatched o ≠ [] → ss_read s' = if ss_open s' then RdHeader else RdHeaderDone None).
Section Reads.
Context (options : option SessionOptions) (block_size : Z) (table : gmap Z (Entry Z)).
Lemma dispatch_message_reads payload a s : is_u32 (ss_tx_seq s) → ra_next_buffer a = true →
  let st := dispatch_message options block_size table payload a s in
  dispatched st.2 = [(ss_header s, payload)] ∧ ss_read st.1 = if ss_open st.1 then RdHeader else RdHeaderDone None.
Proof.
  intros Hu Hn st. unfold st, dispatch_message. rewrite Hn. set (seen := ODispatched _ _ _).
  assert (Hk : ∀ s1 o1, dispatched o1 = [(ss_header s, payload)] → let r := then_ (s1, o1) (do_read_header true) in
    dispatched r.2 = [(ss_header s, payload)] ∧ ss_read r.1 = if ss_open r.1 then RdHeader else RdHeaderDone None).
  { intros s1 o1 H1. cbv zeta. rewrite then_eq. cbn. by rewrite app_nil_r. }
  assert (Hs : ∀ code text sup, let r := then_ (then_ (s, [seen]) (send_error options block_size code text sup)) (do_read_header true) in
    dispatched r.2 = [(ss_header s, payload)] ∧ ss_read r.1 = if ss_open r.1 then RdHeader else RdHeaderDone None).
  { intros code text sup. cbv zeta. unfold send_error. pose proof (sends_packet options block_size 4 0 (error_payload code (bytes text)) sup s Hu) as Hp.
    rewrite (then_eq (st := (s, [seen]))). cbn [fst snd]. apply Hk. rewrite dispatched_app. by destruct (sd_none _ _ _ _ _ _ Hp) as (_ & -> & _). }
  destruct (dispatch _ _ _ _ _) as [[ms d]|]; [|apply Hs]. destruct d as [code text|handler place|handler place|handler place]; [apply Hs| |by apply Hk..].
  rewrite (then_eq (st := (s, [seen; OAccepted _]))). cbn [fst snd]. apply Hk.
  match goal with |- context [run_handler_with_guard _ _ ?t ?b s] => destruct (sends_handler options block_size t b s Hu) as (o & -> & Hp) end.
  rewrite dispatched_app. change (dispatched (ORan _ :: o)) with (dispatched o). by destruct (sd_none _ _ _ _ _ _ Hp) as (_ & -> & _).
Qed.
Lemma stop_reads s : dispatched (stop s).2 = [] ∧ ss_stopped (stop s).1 = true ∧ ss_read (stop s).1 = ss_read s.
Proof. unfold stop. by destruct (ss_stopped s) eqn:E. Qed.
Lemma over_limit_not_fits h : match options with Some o => (0 <? so_recv_max_payload o) && (so_recv_max_payload o <? length_ h) | None => false end = true →
  ¬ fits options block_size h.
Proof. destruct options as [o|]; [|done]. intros [H1 H2]%andb_true_iff [Hf _]. specialize (Hf o eq_refl). lia. Qed.
Lemma read_step_exact s a s' o : is_u32 (ss_tx_seq s) → ra_body_buffer a = true → ra_next_buffer a = true →
  session_exec options block_size table s (SeRead a) = Some (s', o) → reads_exactly options block_size s s' o.
Proof.
  intros Hu Hb Hn H. unfold reads_exactly. cbn [session_exec] in H. destruct (ss_read s) as [| | |r|r] eqn:Hr; try done.
  - assert (H' : header_read options block_size table r a s = (s', o)) by congruence. clear H. unfold header_read in H'.
    destruct r as [bs|]; [|destruct (stop_reads (set_read RdNone s)) as (H1 & H2 & H3); rewrite H' in H1, H2, H3; cbn [fst snd set_read ss_read] in H1, H2, H3; by rewrite H1].
    cbv zeta in H'. remember (set_input _ _ _) as s1 eqn:Es1.
    assert (ss_header s1 = decode_header bs ∧ ss_read s1 = RdNone ∧ ss_open s1 = ss_open s ∧ ss_stopped s1 = ss_stopped s ∧ ss_tx_seq s1 = ss_tx_seq s)
      as (Hh & Hr1 & Ho1 & Hst1 & Ht1) by by subst s1.
    rewrite <- Ht1 in Hu. rewrite <- Ho1, <- Hst1. clear Es1 Ht1 Ho1 Hst1 Hr. unfold do_read_body in H'. rewrite Hh in H'.
    set (h := decode_header bs) in *. cbv zeta. destruct (match options with Some o => _ | None => false end) eqn:Hlim.
    { pose proof (sends_packet options block_size 4 0 (error_payload LENGTH_LIMIT_EXCEEDED (bytes "payload too large")) (ra_reply a) s1 Hu) as Hp.
      rewrite then_eq in H'. unfold send_error in H'. destruct (send_packet _ _ _ _ _ _ _) as [s2 o2]. cbn [fst snd] in *.
      destruct (sd_input _ _ _ _ _ _ Hp) as (_ & _ & Hrd). destruct (sd_none _ _ _ _ _ _ Hp) as (_ & Hd & _). destruct (stop_reads s2) as (H1 & H2 & H3).
      destruct (stop s2) as [s3 o3]. cbn [fst snd] in *. injection H' as <- <-. rewrite dispatched_app, Hd, H1, H2, H3, Hrd.
      pose proof (over_limit_not_fits h Hlim). done. }
    destruct (Z.eqb_spec (length_ h) 0) as [H0|H0].
    { pose proof (dispatch_message_reads [] a s1 Hu Hn) as [H1 H2]. rewrite H' in H1, H2. cbn [fst snd] in *. rewrite H1, Hh.
      pose proof (fits_intro _ block_size h Hlim (or_introl H0)). done. }
    destruct (Z.ltb_spec block_size (length_ h)) as [Hbl|Hbl].
    { destruct (stop_reads s1) as (H1 & H2 & H3). rewrite H' in H1, H2, H3. cbn [fst snd] in *. rewrite H1, H2, H3.
      assert (¬ fits options block_size h) by (intros [_ [|]]; lia). done. }
    rewrite Hb in H'. injection H' as <- <-. pose proof (fits_intro _ block_size h Hlim (or_intror Hbl)). done.
  - assert (H' : body_read options block_size table r a s = (s', o)) by congruence. clear H. unfold body_read in H'.
    destruct r as [bs|]; [|destruct (stop_reads (set_read RdNone s)) as (H1 & H2 & H3); rewrite H' in H1, H2, H3; cbn [fst snd set_read ss_read] in H1, H2, H3; by rewrite H1].
    pose proof (dispatch_message_reads bs a (set_read RdNone s) Hu Hn) as [H1 H2]. rewrite H' in H1, H2. cbn [fst snd] in *. by rewrite H1.
Qed.
End Reads.
(** C27: a session dispatches exactly the frames of its byte stream, up to the
    first that does not fit.  However the bytes arrive, whatever handlers, other
    threads, timers and failures do, the messages dispatched are the first complete
    frames of the received bytes, decoded, in order and once each, and all of them
    fit: their length is within the configured limit and the body within one
    block.  While the session waits for more bytes it has dispatched every complete
    frame.  A header or body that was read is handled as [reads_exactly] says, so
    a frame that fits is never refused as long as the pool has blocks, and one that
    does not fit stops the session; it only ends reading when it is stopped. *)
Theorem session_stream_exact (options : option SessionOptions) (block_size : Z) (table : gmap Z (Entry Z))
    (evs : list SessionEvent) (s : Session) (os : list Out) :
  session_run options block_size table session_new evs = Some (s, os) →
  (∃ later, message_of <$> (frames_of (arrived os)).1 = dispatched os ++ later)
  ∧ Forall (λ m, fits options block_size m.1) (dispatched os)
  ∧ (reading s = true → (length (ss_in s) < read_need s)%nat → dispatched os = message_of <$> (frames_of (arrived os)).1)
  ∧ (∀ a s' o, ra_body_buffer a = true → ra_next_buffer a = true →
       session_exec options block_size table s (SeRead a) = Some (s', o) → reads_exactly options block_size s s' o)
  ∧ (ss_read s = RdNone → ss_stopped s = true ∨ dispatched os = []).
Proof.
  intros H. pose proof (tx_range _ _ _ _ _ _ (session_reach _ _ _ _ _ _ H)) as Hu.
  destruct (session_reach _ _ _ _ _ _ H) as (fs & partial & [[Hf Hd Ha] _] & Hp & Hn).
  assert (Hfs : Forall is_frame fs) by (eapply Forall_impl; [exact Hf|]; by intros ? []).
  rewrite Ha, frames_of_frames by done. cbn [fst]. rewrite fmap_app, Hd. split_and!.
  - eauto.
  - apply Forall_fmap. eapply Forall_impl; [exact Hf|]. by intros f [_ ?].
  - unfold reading, read_need. intros Hr Hl. assert (Hnf : next_frame (partial ++ ss_in s) = None).
    { unfold next_frame. rewrite length_app. destruct (ss_read s); try done; simpl in Hp.
      - subst partial. simpl. by destruct (Nat.ltb_spec (length (ss_in s)) k_header_bytes); [|lia].
      - destruct Hp as (Hpl & Hh & _). destruct (Nat.ltb_spec (length partial + length (ss_in s)) k_header_bytes); [lia|].
        rewrite decode_header_app by lia. rewrite <- Hh. by destruct (Nat.ltb_spec (length partial + length (ss_in s))
          (k_header_bytes + Z.to_nat (length_ (ss_header s)))); [|lia]. }
    by rewrite frames_of_step, Hnf, app_nil_r.
  - intros a s' o Hb Hnb Hx. by eapply read_step_exact.
  - intros Hr. destruct (Hn Hr) as [|[-> _]]; auto.
Qed.
(** C37: the send queue delivers what it accepts, within its budget.  The packets
    written are the packets accepted, in order, the rest is still queued; the
    queued bytes never exceed a configured budget and the byte counter is exact; a
    session that is not stopped and has packets queued always has a write in
    progress.  With blocks of at most 65549 bytes the peer's framing recovers
    exactly the written packets; and when every packet is built on the strand,
    sequence numbers are handed out consecutively from 1 and packets are queued
    in their order. *)
Theorem session_send_exact (options : option SessionOptions) (block_size : Z) (table : gmap Z (Entry Z))
    (evs : list SessionEvent) (s : Session) (os : list Out) :
  session_run options block_size table session_new evs = Some (s, os) →
  queued os = written os ++ ss_queue s
  ∧ (∀ o, options = Some o → 0 < so_send_queue_max o < 2 ^ 64 →
      ss_queued_bytes s = total (ss_queue s) ∧ total (ss_queue s) ≤ so_send_queue_max o)
  ∧ (ss_stopped s = false → ss_queue s ≠ [] → ss_write s ≠ WrNone)
  ∧ (block_size ≤ 65549 → frames_of (concat (written os)) = (written os, []))
  ∧ (Forall (λ ev, on_strand ev = true) evs → (∃ k, made os = seqs_from k 1) ∧ (seq_of <$> queued os) `sublist_of` made os).
Proof.
  intros H. pose proof (session_reach _ _ _ _ _ _ H) as (fs & partial & [_ [_ Hk Hq Hf _ _ _ _ _]] & _ & _).
  split_and!; try apply Hk; [done| |].
  - intros Hb. specialize (Hf Hb). rewrite Hq, !Forall_app in Hf. destruct Hf as ((Hw & _) & _).
    pose proof (frames_of_frames (written os) [] Hw) as Hfr. by rewrite !app_nil_r in Hfr.
  - intros Hown. assert (Hi : session_inv options block_size table true s os).
    { apply (session_run_inv _ _ _ _ evs session_new []); [|done|apply session_new_inv]. eapply Forall_impl; [exact Hown|done]. }
    destruct Hi as (? & ? & [_ [(_ & k & _ & Hm) _ _ _ _ _ _ _ Hor]] & _). destruct (Hor eq_refl) as (Hs & _). eauto.
Qed.
(** After a stop the waiting messages are dropped: only a message that is read then,
    and whose handler runs inline, can still run. *)
Definition runs_inline (table : gmap Z (Entry Z)) (o : list Out) : Prop :=
  ran o `sublist_of` accepted o ∧ ∀ t, t ∈ ran o → ∃ entry, table !! tk_msg_id t = Some entry ∧ processing_place (en_policy entry) = ppInline.
Section Stopped.
Context (options : option SessionOptions) (block_size : Z) (table : gmap Z (Entry Z)).
Definition keeps_stopped (st : Session * list Out) : Prop := ss_stopped st.1 = true ∧ runs_inline table st.2.
Lemma runs_inline_nil : runs_inline table [].  Proof. by split; [|intros t ?%elem_of_nil]. Qed.
Lemma runs_inline_app a b : runs_inline table a → runs_inline table b → runs_inline table (a ++ b).
Proof.
  intros [H1 H2] [H3 H4]. split; rewrite ran_app, ?accepted_app; [by apply sublist_app|]. intros t [|]%elem_of_app; auto.
Qed.
Lemma sends_keep own s s' out : sends_as options block_size own s s' out → ss_stopped s = true → keeps_stopped (s', out).
Proof.
  intros Hs Hst. destruct (sd_none _ _ _ _ _ _ Hs) as (_ & _ & H1 & _ & H2). split; [by apply (sd_stopped _ _ _ _ _ _ Hs)|]. split; cbn [snd].
  - by rewrite H1, H2.
  - rewrite H2. by intros t ?%elem_of_nil.
Qed.
Lemma keeps_then st k : keeps_stopped st → (∀ s, ss_stopped s = true → ss_tx_seq s = ss_tx_seq st.1 → keeps_stopped (k s)) → keeps_stopped (then_ st k).
Proof. intros [H1 H2] Hk. rewrite then_eq. destruct (Hk st.1 H1 eq_refl). split; [done|]. by apply runs_inline_app. Qed.
Lemma read_header_keeps buffer s : ss_stopped s = true → keeps_stopped (do_read_header buffer s).
Proof.
  intros Hs. unfold do_read_header, stop. destruct buffer; cbn [ss_stopped set_read]; rewrite ?Hs; by split; [|apply runs_inline_nil].
Qed.
Lemma dispatch_message_keeps payload a s : is_u32 (ss_tx_seq s) → ss_stopped s = true → keeps_stopped (dispatch_message options block_size table payload a s).
Proof.
  intros Hu Hst. unfold dispatch_message. apply keeps_then; [|intros; by apply read_header_keeps]. set (seen := ODispatched _ _ _).
  assert (Hone : ∀ s1 o1, ss_stopped s1 = true → ran o1 = [] → keeps_stopped (s1, o1)).
  { intros s1 o1 H1 H2. split; [done|]. split; cbn [snd]; rewrite H2; [apply sublist_nil_l|]. by intros t ?%elem_of_nil. }
  assert (Hs : ∀ code text sup, keeps_stopped (then_ (s, [seen]) (send_error options block_size code text sup))).
  { intros code text sup. apply keeps_then; [by apply Hone|]. intros s1 H1 H2. cbn [fst] in H2. unfold send_error.
    pose proof (sends_packet options block_size 4 0 (error_payload code (bytes text)) sup s1) as Hp. rewrite H2 in Hp. specialize (Hp Hu).
    destruct (send_packet _ _ _ _ _ _ _). by eapply sends_keep. }
  destruct (dispatch _ _ _ _ _) as [[ms d]|] eqn:Hd; [|apply Hs]. destruct d as [code text|handler place|handler place|handler place]; [apply Hs| |by apply Hone..].
  rewrite then_eq. cbn [fst snd]. set (t := {| tk_handler := handler |}). destruct (sends_handler options block_size t (ra_behaviour a) s Hu) as (o & -> & Hp).
  destruct (sends_keep _ _ _ _ Hp Hst) as [H1 H2]. split; [done|]. cbn [snd].
  change (runs_inline table ([seen; OAccepted t; ORan t] ++ o)). apply runs_inline_app; [|done]. split; [done|].
  intros t' ->%list_elem_of_singleton. cbn [tk_msg_id t]. revert Hd. unfold dispatch. destruct (table !! _) as [entry|]; [|done].
  repeat case_match; try done. eauto.
Qed.
Lemma stop_keeps s : ss_stopped s = true → keeps_stopped (stop s).
Proof. intros H. unfold stop. rewrite H. split; [done|apply runs_inline_nil]. Qed.
Lemma read_keeps s a st : is_u32 (ss_tx_seq s) → ss_stopped s = true → session_exec options block_size table s (SeRead a) = Some st → keeps_stopped st.
Proof.
  intros Hu Hst. cbn [session_exec]. destruct (ss_read s) as [| | |r|r]; try done; intros [= <-].
  - unfold header_read. destruct r as [bs|]; [|by apply stop_keeps]. cbv zeta. destruct (match options with Some o => _ | None => false end).
    { apply keeps_then; [|intros; by apply stop_keeps]. unfold send_error. set (s1 := set_input _ _ _).
      pose proof (sends_packet options block_size 4 0 (error_payload LENGTH_LIMIT_EXCEEDED (bytes "payload too large")) (ra_reply a) s1 Hu) as Hp.
      destruct (send_packet _ _ _ _ _ _ _). by eapply sends_keep. }
    unfold do_read_body. repeat case_match; first [by apply dispatch_message_keeps|by apply stop_keeps|by split; [|apply runs_inline_nil]].
  - unfold body_read. destruct r as [bs|]; [by apply dispatch_message_keeps|by apply stop_keeps].
Qed.
Lemma step_keeps s ev st : is_u32 (ss_tx_seq s) → ss_stopped s = true → session_exec options block_size table s ev = Some st → keeps_stopped st.
Proof.
  intros Hu Hst. assert (Hq : ∀ s' o, ss_stopped s' = true → ran o = [] → keeps_stopped (s', o)).
  { intros s' o H1 H2. split; [done|]. split; cbn [snd]; rewrite H2; [apply sublist_nil_l|]. by intros t ?%elem_of_nil. }
  destruct ev; try (by apply read_keeps); cbn [session_exec]; rewrite ?Hst; intros H.
  - by destruct (ss_read s).
  - case_match; [|done]. injection H as <-. by apply Hq.
  - case_match; [|done]. injection H as <-. apply Hq; [|done]. unfold read_done. by case_match.
  - case_match; [|done]. injection H as <-. apply Hq; [|done]. unfold read_done. by case_match.
  - destruct (ss_write s); try done. injection H as <-. by apply Hq.
  - destruct (ss_write s) as [| |ok]; try done. injection H as <-. unfold write_handled.
    destruct ok, (ss_queue s); try (by apply stop_keeps). apply Hq; [|done]. unfold do_write. by case_match.
  - destruct (ss_strand s) as [|it rest]; [done|]. injection H as <-. unfold strand_item. destruct it; cbn [ss_stopped set_work]; rewrite ?Hst; try (by apply Hq).
    unfold enqueue. cbn [ss_stopped set_work]. rewrite Hst. by apply Hq.
  - apply bind_Some in H as (t & _ & H). injection H as <-. by apply Hq.
  - injection H as <-. by apply Hq.
  - injection H as <-. by apply Hq.
  - destruct (make_packet _ _ _ _ _ _ _); injection H as <-; by apply Hq.
  - apply bind_Some in H as (p & _ & H). injection H as <-. by apply Hq.
  - injection H as <-. by apply Hq.
Qed.
Lemma run_keeps evs : ∀ s os st, session_inv options block_size table false s os → ss_stopped s = true →
  session_run options block_size table s evs = Some st → keeps_stopped st.
Proof.
  induction evs as [|ev evs IH]; intros s os st Hinv Hst H; cbn [session_run] in H; [injection H as <-; by split; [|apply runs_inline_nil]|].
  apply bind_Some in H as ([s1 o1] & Hx & H). apply bind_Some in H as ([s2 o2] & Hr & H). injection H as <-.
  destruct (step_keeps s ev (s1, o1) (tx_range _ _ _ _ _ _ Hinv) Hst Hx) as [Hs1 Ho1].
  assert (Hinv1 : session_inv options block_size table false s1 (os ++ o1)) by by eapply session_exec_inv.
  destruct (IH s1 (os ++ o1) _ Hinv1 Hs1 Hr) as [Hs2 Ho2]. split; [done|]. by apply runs_inline_app.
Qed.
End Stopped.
(** C28: handlers only run for messages the policy allowed, once, and a stopped
    session drops what waits.  Every handler run belongs to its own dispatched
    message, whose handler it is and whose policy admitted the session's state at
    the dispatch; an accepted message is still waiting, has run, or was skipped
    because the session had been stopped.  Whatever happens after a stop, of the
    messages accepted before it none runs any more: only a message read after the
    stop can still run, and only if its handler runs inline.  The session closes at
    most once and only when stopped. *)
Theorem session_runs_allowed (options : option SessionOptions) (block_size : Z) (table : gmap Z (Entry Z))
    (evs : list SessionEvent) (s : Session) (os : list Out) :
  session_run options block_size table session_new evs = Some (s, os) →
  (∃ skipped, accepted os ≡ₚ ran os ++ skipped ++ tasks_of (ss_strand s) ++ ss_jobs s ∧ (skipped ≠ [] → ss_stopped s = true))
  ∧ (∀ t, t ∈ ran os → policy_ok table os t)
  ∧ (ss_stopped s = true → ∀ evs' s' os', session_run options block_size table s evs' = Some (s', os') →
       ss_stopped s' = true ∧ runs_inline table os')
  ∧ (closes os = [] ∨ closes os = [tt] ∧ ss_stopped s = true ∧ ss_open s = false).
Proof.
  intros H. pose proof (session_reach _ _ _ _ _ _ H) as Hinv.
  pose proof Hinv as (fs & partial & [_ [_ _ _ _ (skipped & Ht & Hsk) Ha Hl Ho _]] & _ & _).
  split_and!; [by exists skipped| | |].
  - intros t Hin. apply Ha. rewrite Ht. apply elem_of_app. by left.
  - intros Hst evs' s' os' Hr. exact (run_keeps _ _ _ evs' s os _ Hinv Hst Hr).
  - destruct (closes os) as [|[] l]; [by left|right]. destruct (ss_stopped s); [|done]. by destruct l as [|[] l].
Qed.

(** ** Witnesses *)
(** Two messages in three segments, the second split inside its header: a login
    answered by its handler, then an unknown message. *)
Definition demo_table : gmap Z (Entry Z) :=
  register_handler 0x0010 7 {| required_state := ssAny; processing_place := ppInline; op_transport := tmTcp;
                               op_delivery := dcReliableOrdered; op_channel := 0 |} ∅.
Definition demo_supply : Supply := {| sp_now := 1000; sp_buffer := true |}.
Definition demo_answers : ReadAnswers :=
  {| ra_reply := demo_supply; ra_body_buffer := true; ra_next_buffer := true; ra_queue := None;
     ra_behaviour := {| bh_actions := [ActStatus ssAuthenticated; ActSend 0x0011 0 [1; 2; 3] demo_supply]; bh_throws := false;
                        bh_supply := demo_supply |} |}.
Definition demo_first : list Z := [0; 2; 0; 16; 0; 0; 0; 0; 0; 1; 0; 0; 0; 0; 65; 66].
Definition demo_second : list Z := [0; 0; 9; 9; 0; 0; 0; 0; 0; 2; 0; 0; 0; 0].
Definition demo_session_events : list SessionEvent :=
  [SeStart demo_supply true; SeArrive (demo_first ++ take 5 demo_second); SeIo; SeRead demo_answers; SeIo; SeRead demo_answers;
   SeArrive (drop 5 demo_second); SeIo; SeRead demo_answers; SeWriteIo true; SeWrote].
Definition demo_run : option (Session * list Out) :=
  Eval vm_compute in session_run (Some session_options_default) 32782 demo_table session_new demo_session_events.
Definition demo_end : Session := default session_new (fst <$> demo_run).
Definition demo_out : list Out := default [] (snd <$> demo_run).
Lemma session_stream_exact_witness :
  session_run (Some session_options_default) 32782 demo_table session_new demo_session_events = Some (demo_end, demo_out)
  ∧ dispatched demo_out = message_of <$> (frames_of (arrived demo_out)).1 ∧ length (dispatched demo_out) = 2%nat.
Proof.
  split; [vm_compute; reflexivity|]. split; [|reflexivity].
  apply (session_stream_exact (Some session_options_default) 32782 demo_table demo_session_events demo_end demo_out);
    [vm_compute; reflexivity|reflexivity|vm_compute; lia].
Defined.
Lemma session_send_exact_witness :
  session_run (Some session_options_default) 32782 demo_table session_new demo_session_events = Some (demo_end, demo_out)
  ∧ (seq_of <$> queued demo_out) = [1; 2; 3] ∧ queued demo_out = written demo_out ++ ss_queue demo_end.
Proof.
  split; [vm_compute; reflexivity|]. split; [vm_compute; reflexivity|].
  apply (session_send_exact (Some session_options_default) 32782 demo_table demo_session_events demo_end demo_out). vm_compute; reflexivity.
Defined.
Lemma session_runs_allowed_witness :
  session_run (Some session_options_default) 32782 demo_table session_new demo_session_events = Some (demo_end, demo_out)
  ∧ ran demo_out = [{| tk_handler := 7; tk_msg_id := 16; tk_payload := [65; 66] |}]
  ∧ ∀ t, t ∈ ran demo_out → policy_ok demo_table demo_out t.
Proof.
  split; [vm_compute; reflexivity|]. split; [reflexivity|].
  apply (session_runs_allowed (Some session_options_default) 32782 demo_table demo_session_events demo_end demo_out). vm_compute; reflexivity.
Defined.
(** Two threads that send outside the strand: the packet numbered first is queued
    last. *)
Lemma external_sends_swap : ∃ s os,
  session_run (Some session_options_default) 32782 ∅ session_new
    [SeMake 0x0101 0 [1] demo_supply; SeMake 0x0101 0 [2] demo_supply; SePost 1; SePost 0;
     SeStrand (ra_behaviour demo_answers); SeStrand (ra_behaviour demo_answers)] = Some (s, os)
  ∧ made os = [1; 2] ∧ (seq_of <$> queued os) = [2; 1].
Proof. eexists _, _. split; [vm_compute; reflexivity|]. split; vm_compute; reflexivity. Qed.
