(* ===== verification/ChatState.v ===== *)
(** * State of the chat service

    [server/chat/chat_service_state.hpp] and the functions that run under its
    mutex: rooms ([chat_room_state.cpp]), blacklists ([chat_blacklist_state.cpp]),
    authorization ([chat_command_authorization.cpp]), spam moderation
    ([chat_spam_moderation.cpp]).

    The source identifies a session in two ways, and the model keeps both.  A
    [weak_ptr] names a session object, which is never confused with another one
    and can be locked while the object exists; the tables keyed by [Session*] name
    an address, which a later session may get again.  [live] maps the existing
    objects to their addresses.  A set of weak pointers is visited in an
    unspecified order.  Times of the steady clock are nanoseconds. *)
From S2P Require Import Prelude Containers Text.
From stdpp Require Import list gmap strings sorting.
Open Scope Z_scope.
Open Scope record_scope.

Record TimedPenalty := { expires_at : Z; penalty_reason : string }.
Record ChatServiceState := mkChatServiceState {
  rooms : gmap string (gset Z);
  room_ids : gmap string string;
  room_passwords : gmap string string;
  room_owners : gmap string string;
  room_invites : gmap string (gset string);
  user : gmap Z string;
  user_uuid : gmap Z string;
  session_uuid : gmap Z string;
  logical_session_id : gmap Z string;
  logical_session_expires : gmap Z Z;
  cur_world : gmap Z string;
  cur_room : gmap Z string;
  session_ip : gmap Z string;
  session_hwid_hash : gmap Z string;
  user_last_ip : gmap string string;
  user_last_hwid_hash : gmap string string;
  authed : gset Z;
  guest : gset Z;
  by_user : gmap string (gset Z);
  by_session_id : gmap Z Z;
  muted_users : gmap string TimedPenalty;
  banned_users : gmap string TimedPenalty;
  banned_ips : gmap string Z;
  banned_hwid_hashes : gmap string Z;
  spam_events : gmap string (list Z);
  spam_violations : gmap string Z;
  user_blacklists : gmap string (gset string);
}.
#[export] Instance eta_chat_state : Eta ChatServiceState := λ s, mkChatServiceState
  (rooms s) (room_ids s) (room_passwords s) (room_owners s) (room_invites s) (user s) (user_uuid s) (session_uuid s)
  (logical_session_id s) (logical_session_expires s) (cur_world s) (cur_room s) (session_ip s) (session_hwid_hash s)
  (user_last_ip s) (user_last_hwid_hash s) (authed s) (guest s) (by_user s) (by_session_id s) (muted_users s)
  (banned_users s) (banned_ips s) (banned_hwid_hashes s) (spam_events s) (spam_violations s) (user_blacklists s).
Definition chat_state_new : ChatServiceState :=
  mkChatServiceState ∅ ∅ ∅ ∅ ∅ ∅ ∅ ∅ ∅ ∅ ∅ ∅ ∅ ∅ ∅ ∅ ∅ ∅ ∅ ∅ ∅ ∅ ∅ ∅ ∅ ∅ ∅.

(** The part of [ChatServiceRuntimeState] that the functions below read. *)
Record ChatServiceRuntimeState := {
  admin_users : gset string;
  spam_message_threshold : Z;
  spam_window_sec : Z;
  spam_mute_sec : Z;
  spam_ban_sec : Z;
  spam_ban_violation_threshold : Z;
}.
Definition runtime_state_default (admins : gset string) : ChatServiceRuntimeState :=
  {| admin_users := admins; spam_message_threshold := 6; spam_window_sec := 5; spam_mute_sec := 30;
     spam_ban_sec := 600; spam_ban_violation_threshold := 3 |}.

(** The order in which a set of weak pointers is visited. *)
Class WeakOrder := {
  in_order : gset Z → list Z;
  in_order_perm : ∀ X, in_order X ≡ₚ elements X;
}.
#[export] Instance elements_order : WeakOrder :=
  {| in_order := elements; in_order_perm := λ X, reflexivity (elements X) |}.

Section Rooms.
Context `{WO : WeakOrder} (live : gmap Z Z).

(** [weak.lock()] and [session.get()] *)
Definition alive (o : Z) : Prop := is_Some (live !! o).
#[global] Instance alive_dec o : Decision (alive o).
Proof. apply _. Defined.
Definition ptr (o : Z) : Z := default 0 (live !! o).
Definition prune (X : gset Z) : gset Z := filter alive X.
Definition locked (X : gset Z) : list Z := filter alive (in_order X).
Definition collect_room_sessions (X : gset Z) : gset Z * list Z := (prune X, locked X).

Definition erase_room_metadata (room : string) (s : ChatServiceState) : ChatServiceState :=
  s <| rooms ::= delete room |> <| room_passwords ::= delete room |> <| room_owners ::= delete room |>
    <| room_invites ::= delete room |>.
Fixpoint last_or_named (names : list string) (new_owner : string) : string :=
  match names with
  | [] => new_owner
  | name :: names => if bool_decide (name ≠ "guest") then name else last_or_named names name
  end.
Definition select_replacement_room_owner (s : ChatServiceState) (members : gset Z) : string :=
  last_or_named (omap (λ o, user s !! ptr o) (locked members)) EmptyString.

Definition blocks (s : ChatServiceState) (receiver sender : string) : bool :=
  match user_blacklists s !! receiver with Some B => bool_decide (sender ∈ B) | None => false end.
Definition receives (s : ChatServiceState) (sender : string) (o : Z) : bool :=
  match user s !! ptr o with Some receiver => negb (blocks s receiver sender) | None => false end.
Definition collect_room_targets (room sender : string) (s : ChatServiceState) : ChatServiceState * list Z :=
  match rooms s !! room with
  | None => (s, [])
  | Some X =>
      let '(X', targets) := collect_room_sessions X in
      let s := s <| rooms ::= <[room := X']> |> in
      (s, if bool_decide (sender = EmptyString) then targets else filter (λ o, receives s sender o = true) targets)
  end.
Definition collect_room_user_names (room : string) (s : ChatServiceState) : ChatServiceState * list string :=
  match rooms s !! room with
  | None => (s, [])
  | Some X => (s <| rooms ::= <[room := prune X]> |>, (λ o, default "guest" (user s !! ptr o)) <$> locked X)
  end.
Fixpoint passed_before (o : Z) (l : list Z) : list Z :=
  match l with [] => [] | x :: l => if x =? o then [] else x :: passed_before o l end.
(** The search stops at the session and erases the expired members it passed. *)
Definition room_contains_session (room : string) (o : Z) (s : ChatServiceState) : ChatServiceState * bool :=
  match rooms s !! room with
  | None => (s, false)
  | Some X =>
      let found := bool_decide (o ∈ locked X) in
      let passed := if found then passed_before o (in_order X) else in_order X in
      (s <| rooms ::= <[room := filter (λ m, alive m ∨ m ∉ passed) X]> |>, found)
  end.
Definition room_exists (s : ChatServiceState) (room : string) : bool := bool_decide (is_Some (rooms s !! room)).
Definition room_is_locked (s : ChatServiceState) (room : string) : bool := bool_decide (is_Some (room_passwords s !! room)).
Definition find_room_owner (s : ChatServiceState) (room : string) : option string := room_owners s !! room.

Definition remove_session_from_room (o : Z) (room sender : string) (s : ChatServiceState) : ChatServiceState * list Z :=
  match rooms s !! room with
  | None => (s, [])
  | Some X =>
      let was_owner := bool_decide (room ≠ "lobby") && bool_decide (room_owners s !! room = Some sender) in
      let '(s, targets) := collect_room_targets room sender (s <| rooms ::= <[room := X ∖ {[o]}]> |>) in
      match rooms s !! room with
      | None => (s, targets)
      | Some X =>
          if bool_decide (X = ∅) && bool_decide (room ≠ "lobby") then (erase_room_metadata room s, targets)
          else if was_owner && bool_decide (room ≠ "lobby") then
            match room_owners s !! room with
            | Some _ =>
                let new_owner := select_replacement_room_owner s X in
                (if bool_decide (new_owner = EmptyString) then s else s <| room_owners ::= <[room := new_owner]> |>, targets)
            | None => (s, targets)
            end
          else (s, targets)
      end
  end.
Definition place_session_in_room (o : Z) (room sender : string) (consume_invite assign_owner : bool) (s : ChatServiceState)
    : ChatServiceState :=
  let s := s <| cur_room ::= <[ptr o := room]> |> <| rooms ::= <[room := default ∅ (rooms s !! room) ∪ {[o]}]> |> in
  if bool_decide (room = "lobby") || negb assign_owner then s
  else
    let s := if bool_decide (room_owners s !! room = None) && bool_decide (sender ≠ "guest")
             then s <| room_owners ::= <[room := sender]> |> else s in
    if negb consume_invite then s
    else match room_invites s !! room with
         | None => s
         | Some invited =>
             let invited := invited ∖ {[sender]} in
             if bool_decide (invited = ∅) then s <| room_invites ::= delete room |>
             else s <| room_invites ::= <[room := invited]> |>
         end.
End Rooms.

(** ** Blacklists *)
Inductive BlacklistCommandKind := bkInvalid | bkList | bkAdd | bkRemove.
Record BlacklistCommand := { bc_kind : BlacklistCommandKind; bc_target_user : string }.
Definition space : char := of_code 32.
Fixpoint skip_spaces (s : string) : string :=
  match s with String c s' => if bool_decide (c = space) then skip_spaces s' else s | EmptyString => s end.
Fixpoint drop_spaces (s : string) : string :=
  match s with
  | String c s' =>
      let r := drop_spaces s' in
      if bool_decide (r = EmptyString) && bool_decide (c = space) then EmptyString else String c r
  | EmptyString => EmptyString
  end.
Definition trim_copy (value : string) : string := drop_spaces (skip_spaces value).
(** [std::getline] on the rest of the stream. *)
Definition get_line (rest : string) : string := match cut newline rest with Some (line, _) => line | None => rest end.
Definition parse_blacklist_command (text : string) : BlacklistCommand :=
  match after_prefix "/block " text with
  | Some target => {| bc_kind := bkAdd; bc_target_user := trim_copy target |}
  | None =>
  match after_prefix "/unblock " text with
  | Some target => {| bc_kind := bkRemove; bc_target_user := trim_copy target |}
  | None =>
  match after_prefix "/blacklist" text with
  | None => {| bc_kind := bkInvalid; bc_target_user := EmptyString |}
  | Some rest =>
      let args := trim_copy rest in
      if bool_decide (args = EmptyString) || bool_decide (args = "list")
      then {| bc_kind := bkList; bc_target_user := EmptyString |}
      else
        let '(op, rest) := next_word args in
        let op := lower op in
        {| bc_kind := if bool_decide (op = "add") then bkAdd else if bool_decide (op = "remove") then bkRemove else bkInvalid;
           bc_target_user := trim_copy (get_line rest) |}
  end end end.
Definition name_le (a b : string) : Prop := String.leb a b = true.
#[export] Instance name_le_dec a b : Decision (name_le a b).
Proof. unfold name_le; apply _. Defined.
Definition sort_names (names : list string) : list string := merge_sort name_le names.
Definition collect_blacklisted_users (s : ChatServiceState) (actor : string) : list string :=
  sort_names (elements (default ∅ (user_blacklists s !! actor))).
Definition add_blacklist_entry (actor target_user : string) (s : ChatServiceState) : ChatServiceState * bool :=
  let B := default ∅ (user_blacklists s !! actor) in
  (s <| user_blacklists ::= <[actor := B ∪ {[target_user]}]> |>, bool_decide (target_user ∉ B)).
Definition remove_blacklist_entry (actor target_user : string) (s : ChatServiceState) : ChatServiceState * bool :=
  match user_blacklists s !! actor with
  | None => (s, false)
  | Some B =>
      let B' := B ∖ {[target_user]} in
      (if bool_decide (B' = ∅) then s <| user_blacklists ::= delete actor |>
       else s <| user_blacklists ::= <[actor := B']> |>, bool_decide (target_user ∈ B))
  end.

(** ** Authorization *)
Section Authorization.
Context (live : gmap Z Z) (runtime : ChatServiceRuntimeState).

Definition actor_name (s : ChatServiceState) (o : Z) : string := default "guest" (user s !! ptr live o).
Definition actor_can_manage_room (s : ChatServiceState) (o : Z) (room : string) : bool :=
  let actor := actor_name s o in
  if bool_decide (actor = "guest") then false
  else if bool_decide (actor ∈ admin_users runtime) then true
  else bool_decide (find_room_owner s room = Some actor).
Definition actor_is_admin (s : ChatServiceState) (o : Z) : bool :=
  let actor := actor_name s o in bool_decide (actor ≠ "guest") && bool_decide (actor ∈ admin_users runtime).

(** ** Moderation of sent messages *)
Definition seconds (n : Z) : Z := n * 1000000000.
Record ChatSendModerationResult := {
  mr_sender : string;
  sender_is_muted : bool;
  sender_is_banned : bool;
  spam_escalated : bool;
  spam_escalated_to_ban : bool;
  moderation_reason : string;
  penalized_sessions : list Z;
}.
Definition or_default (reason fallback : string) : string := if bool_decide (reason = EmptyString) then fallback else reason.
(** A penalty that has run out is erased when it is looked up. *)
Definition check_penalty (table : gmap string TimedPenalty) (name : string) (now : Z) (fallback : string)
    : gmap string TimedPenalty * option string :=
  match table !! name with
  | Some p => if expires_at p <=? now then (delete name table, None) else (table, Some (or_default (penalty_reason p) fallback))
  | None => (table, None)
  end.
Definition ban_last_seen (name : string) (expires : Z) (s : ChatServiceState) : ChatServiceState :=
  let s := match user_last_ip s !! name with
           | Some ip => if bool_decide (ip = EmptyString) then s else s <| banned_ips ::= <[ip := expires]> |>
           | None => s
           end in
  match user_last_hwid_hash s !! name with
  | Some hwid => if bool_decide (hwid = EmptyString) then s else s <| banned_hwid_hashes ::= <[hwid := expires]> |>
  | None => s
  end.
(** The sessions of a name that still exist; the others are erased. *)
Definition user_sessions `{WeakOrder} (name : string) (s : ChatServiceState) : ChatServiceState * list Z :=
  match by_user s !! name with
  | Some X => (s <| by_user ::= <[name := prune live X]> |>, locked live X)
  | None => (s, [])
  end.
Fixpoint drop_before (cutoff : Z) (events : list Z) : list Z :=
  match events with t :: rest => if t <? cutoff then drop_before cutoff rest else events | [] => [] end.
Definition evaluate_chat_send_moderation `{WeakOrder} (o now : Z) (s : ChatServiceState)
    : ChatServiceState * ChatSendModerationResult :=
  let sender := actor_name s o in
  let result muted banned escalated to_ban reason penalized :=
    {| mr_sender := sender; sender_is_muted := muted; sender_is_banned := banned; spam_escalated := escalated;
       spam_escalated_to_ban := to_ban; moderation_reason := reason; penalized_sessions := penalized |} in
  if bool_decide (sender = "guest") then (s, result false false false false EmptyString [])
  else
    let '(muted, mute_reason) := check_penalty (muted_users s) sender now "temporarily muted" in
    let s := s <| muted_users := muted |> in
    let '(banned, ban_reason) := check_penalty (banned_users s) sender now "temporarily banned" in
    let s := s <| banned_users := banned |> in
    let is_muted := bool_decide (is_Some mute_reason) in
    let is_banned := bool_decide (is_Some ban_reason) in
    if is_muted || is_banned
    then (s, result is_muted is_banned false false (default (default EmptyString mute_reason) ban_reason) [])
    else
      let events := drop_before (now - seconds (spam_window_sec runtime)) (default [] (spam_events s !! sender)) ++ [now] in
      if Z.of_nat (length events) <=? spam_message_threshold runtime
      then (s <| spam_events ::= <[sender := events]> |>, result false false false false EmptyString [])
      else
        let violations := default 0 (spam_violations s !! sender) +₃₂ 1 in
        let s := s <| spam_events ::= <[sender := []]> |> <| spam_violations ::= <[sender := violations]> |> in
        if spam_ban_violation_threshold runtime <=? violations then
          let reason := "temporarily banned for repeated spam" in
          let expires := now + seconds (spam_ban_sec runtime) in
          let s := ban_last_seen sender expires
            (s <| banned_users ::= <[sender := {| expires_at := expires; penalty_reason := reason |}]> |>) in
          let '(s, sessions) := user_sessions sender s in
          (s, result false false true true reason sessions)
        else
          let reason := "temporarily muted for spam" in
          (s <| muted_users ::= <[sender := {| expires_at := now + seconds (spam_mute_sec runtime); penalty_reason := reason |}]> |>,
           result false false true false reason []).
(** The message goes on to the room. *)
Definition passes (r : ChatSendModerationResult) : bool :=
  bool_decide (mr_sender r ≠ "guest") && negb (sender_is_banned r) && negb (sender_is_muted r) && negb (spam_escalated r).
End Authorization.
