(* ===== verification/ChatHandlers.v ===== *)
(** * Handlers of the chat service

    [server/chat/handlers_*.cpp], [session_events.cpp], [chat_slash_commands.cpp],
    [chat_message_delivery.cpp] and the parts of [chat_service_core.cpp] they
    call.  A handler runs as a job on a worker thread and takes the state's mutex
    for one section at a time; each such section is a function on the state, and a
    handler is a program of sections and outputs in the monad [Chat], which also
    carries the early returns.  [ChatWorld] interleaves the sections.

    What other components answer is an argument: results of hooks, replies of
    Redis and the database, fresh UUIDs and names, the clock.  Time stamps inside
    messages are left out; a protobuf message is its fields. *)
From S2P Require Import Prelude Containers Text Packet ChatState.
From stdpp Require Import list gmap strings.
Open Scope Z_scope.
Open Scope record_scope.

(** ** Outputs *)
Record LoginRes := {
  lr_effective_user : string;
  lr_session_id : Z;
  lr_message : string;
  lr_is_admin : bool;
  lr_resumed : bool;
  lr_logical_session_id : string;
  lr_resume_token : string;
  lr_resume_expires : Z;
  lr_world_id : string;
}.
Inductive Message :=
  | mError (code : Z) (text : string)
  | mChat (room sender text : string) (sender_sid flags : Z)
  | mWhisper (sender recipient text : string) (outgoing : bool)
  | mWhisperResult (ok : bool) (reason : string)
  | mSnapshot (room : string)
  | mRoomUsers (room : string) (names : list string)
  | mRooms
  | mRefresh
  | mLogin (res : LoginRes)
  | mPong (payload : list Z).
Inductive RedisCommand :=
  | rcSadd (key member : string)
  | rcSrem (key member : string)
  | rcDel (key : string)
  | rcSetex (key value : string) (ttl : Z)
  (** The payload is [gw=<gateway_id>], then a newline and the serialized body. *)
  | rcPublish (channel gateway_id : string) (body : option Message).
Inductive DbCommand :=
  | dbTouchLogin (uid ip : string)
  | dbMessage (room_id room : string) (uid : option string) (text : string)
  | dbJoin (uid room_id : string)
  | dbSeen (uid room_id : string) (last_id : Z)
  | dbCloseRoom (room_id : string).
Inductive Out :=
  | OSend (o : Z) (m : Message)
  | OStop (o : Z)
  | OAuthenticated (o : Z)
  | ORedis (c : RedisCommand)
  | ODb (c : DbCommand)
  | OEvent (type session_id : string) (uid room_id : option string) (fields : list (string * string)).

Record ContinuityLease := {
  cl_logical_session_id : string;
  cl_resume_token : string;
  cl_user_id : string;
  cl_effective_user : string;
  cl_world_id : string;
  cl_lease_room : string;
  cl_expires_unix_ms : Z;
  cl_resumed : bool;
}.

(** ** The handler monad: state, outputs, early return *)
Definition Chat (A : Type) : Type := ChatServiceState → ChatServiceState * list Out * option A.
#[export] Instance chat_ret : MRet Chat := λ A x s, (s, [], Some x).
#[export] Instance chat_bind : MBind Chat := λ A B k m s,
  match m s with
  | (s, out, Some x) => let '(s, out', r) := k x s in (s, out ++ out', r)
  | (s, out, None) => (s, out, None)
  end.
Definition return_ {A} (out : list Out) : Chat A := λ s, (s, out, None).
Definition tell (out : list Out) : Chat unit := λ s, (s, out, Some tt).
Definition section {A} (f : ChatServiceState → ChatServiceState * A) : Chat A := λ s, let '(s, x) := f s in (s, [], Some x).
Definition modify (f : ChatServiceState → ChatServiceState) : Chat unit := λ s, (f s, [], Some tt).
Definition gets {A} (f : ChatServiceState → A) : Chat A := λ s, (s, [], Some (f s)).
(** A section that may send an answer and end the handler. *)
Definition guarded {A} (f : ChatServiceState → ChatServiceState * (list Out * option A)) : Chat A := λ s,
  let '(s, (out, r)) := f s in (s, out, r).
Definition when (b : bool) (m : Chat unit) : Chat unit := if b then m else mret tt.
Fixpoint for_each {A} (f : A → Chat unit) (l : list A) : Chat unit :=
  match l with [] => mret tt | x :: l => f x;; for_each f l end.

Record ChatConfig := {
  cc_redis : bool;
  cc_db : bool;
  cc_pubsub : bool;
  cc_write_behind : bool;
  cc_gateway_id : string;
  cc_presence_prefix : string;
  cc_presence_ttl : Z;
  cc_continuity_prefix : string;
}.
Definition FLAG_SELF : Z := 0x0100.
Definition non_empty (text : string) : bool := bool_decide (text ≠ EmptyString).
Definition some_if (text : string) : option string := if non_empty text then Some text else None.
Definition send_system_notice (o : Z) (text : string) : Out := OSend o (mChat "(system)" "(system)" text 0 0).
Definition send_error_to (o code : Z) (text : string) : Out := OSend o (mError code text).

(** ** Hooks

    The outcome of the native plugin chain, when one is configured, and of the
    Lua hooks, which run when the chain did not stop the default action. *)
Record HookOutcome := { ho_notices : list string; ho_stop_default : bool; ho_deny_reason : string }.
Record HookAnswers := { ha_native : option HookOutcome; ha_lua : HookOutcome }.
Definition hook_passes : HookAnswers :=
  {| ha_native := None; ha_lua := {| ho_notices := []; ho_stop_default := false; ho_deny_reason := EmptyString |} |}.
Definition hook_notices (o : Z) (h : HookOutcome) : list Out :=
  send_system_notice o <$> filter (λ n, n ≠ EmptyString) (ho_notices h).
(** [maybe_handle_login_hook], [maybe_handle_join_hook], [maybe_handle_leave_hook] *)
Definition maybe_handle_hook (what : string) (o : Z) (h : HookAnswers) : list Out * bool :=
  let lua :=
    (hook_notices o (ha_lua h)
       ++ if ho_stop_default (ha_lua h)
          then [send_error_to o FORBIDDEN (or_default (ho_deny_reason (ha_lua h)) (what +:+ " denied by lua script"))] else [],
     ho_stop_default (ha_lua h)) in
  match ha_native h with
  | None => lua
  | Some native =>
      if ho_stop_default native
      then (hook_notices o native ++ [send_error_to o FORBIDDEN (or_default (ho_deny_reason native) (what +:+ " denied by plugin"))],
            true)
      else (hook_notices o native ++ lua.1, lua.2)
  end.

Section Handlers.
Context `{WO : WeakOrder} `{MI : !MapIteration string}.
Context (live : gmap Z Z) (runtime : ChatServiceRuntimeState) (config : ChatConfig).
(** [SHA256] in hexadecimal (empty on failure) and [std::hash] in hexadecimal. *)
Context (sha256_hex legacy_hash : string → string).
(** The database's id for a room name, found or created; [None] when it fails. *)
Context (db_room_id : string → option string).
(** Redis answers [SMEMBERS room:users:...] for a snapshot. *)
Context (names_loaded : bool).

(** ** Passwords and identifiers *)
Definition kRoomPasswordHashPrefix : string := "sha256:".
Definition hash_room_password (password : string) : string :=
  let digest := sha256_hex password in
  if non_empty digest then kRoomPasswordHashPrefix +:+ digest else EmptyString.
Definition hash_hwid_token (token : string) : string :=
  if non_empty token && non_empty (sha256_hex token) then "hwid:" +:+ sha256_hex token else EmptyString.
Definition is_modern_room_password_hash (stored_hash : string) : bool := String.prefix kRoomPasswordHashPrefix stored_hash.
Definition verify_room_password (password stored_hash : string) : bool :=
  if negb (non_empty stored_hash) then false
  else if is_modern_room_password_hash stored_hash then bool_decide (hash_room_password password = stored_hash)
  else bool_decide (legacy_hash password = stored_hash).
Definition get_or_create_session_uuid (o : Z) (fresh : string) (s : ChatServiceState) : ChatServiceState * string :=
  match session_uuid s !! ptr live o with
  | Some id => if non_empty id then (s, id) else (s <| session_uuid ::= <[ptr live o := fresh]> |>, fresh)
  | None => (s <| session_uuid ::= <[ptr live o := fresh]> |>, fresh)
  end.
Definition ensure_room_id_ci (room : string) (s : ChatServiceState) : ChatServiceState * string :=
  if negb (cc_db config) then (s, EmptyString)
  else match room_ids s !! room with
       | Some id => (s, id)
       | None => match db_room_id room with
                 | Some id => (s <| room_ids ::= emplace room id |>, id)
                 | None => (s, EmptyString)
                 end
       end.
Definition emit_write_behind_event (type session_id : string) (uid room_id : string) (fields : list (string * string)) : list Out :=
  if cc_write_behind config && cc_redis config && non_empty session_id
  then [OEvent type session_id (some_if uid) (some_if room_id)
          (filter (λ kv, kv.1 ≠ EmptyString ∧ kv.2 ≠ EmptyString) fields)] else [].

(** ** Lists, snapshots, refresh *)
(** The loop over the rooms erases expired members and then empty rooms. *)
Definition summarize (st : ChatServiceState * list (string * Z * bool)) (entry : string * gset Z)
    : ChatServiceState * list (string * Z * bool) :=
  let '(s, acc) := st in
  let '(room, X) := entry in
  let s := s <| rooms ::= <[room := prune live X]> |> in
  if bool_decide (prune live X = ∅) && bool_decide (room ≠ "lobby") then (erase_room_metadata room s, acc)
  else (s, acc ++ [(room, Z.of_nat (size (prune live X)), room_is_locked s room)]).
Definition collect_local_room_summaries (s : ChatServiceState) : ChatServiceState * list (string * Z * bool) :=
  foldl summarize (s, []) (iterate (rooms s)).
Definition send_snapshot (o : Z) (room : string) : Chat unit :=
  section collect_local_room_summaries;;
  (if cc_redis config && names_loaded then mret [] else section (collect_room_user_names live room));;
  rid ← gets (λ s, default EmptyString (room_ids s !! room));
  (if non_empty rid then mret rid else section (ensure_room_id_ci room));;
  tell [OSend o (mSnapshot room)].
Definition send_rooms_list (o : Z) : Chat unit :=
  section collect_local_room_summaries;; tell [OSend o mRooms].
Definition broadcast_refresh (room : string) : Chat unit :=
  targets ← section (collect_room_targets live room EmptyString);
  tell ((λ t, OSend t mRefresh) <$> targets);;
  when (cc_redis config && cc_pubsub config)
    (tell [ORedis (rcPublish (cc_presence_prefix config +:+ "fanout:refresh:" +:+ room) (cc_gateway_id config) None)]).
Definition make_presence_key (category id : string) : string := cc_presence_prefix config +:+ category +:+ id.
Definition touch_user_presence (uid : string) : list Out :=
  if cc_redis config && non_empty uid then [ORedis (rcSetex (make_presence_key "presence:user:" uid) "1" (cc_presence_ttl config))] else [].
(** [redis_names]: the members Redis answered, [None] when the command failed. *)
Definition send_room_users (o : Z) (target : string) (redis_names : option (list string)) : Chat unit :=
  is_locked ← gets (λ s, room_is_locked s target);
  is_member ← section (room_contains_session live target o);
  viewer ← gets (λ s, default EmptyString (user s !! ptr live o));
  if is_locked && negb is_member then return_ [send_system_notice o "room is locked"]
  else
    let names := if cc_redis config then default [] redis_names else [] in
    names ← (match names with [] => section (collect_room_user_names live target) | _ => mret names end);
    blocked ← gets (λ s, default ∅ (user_blacklists s !! viewer));
    tell [OSend o (mRoomUsers target (filter (λ n, n ∉ blocked) names))].

(** [persist_continuity_room], [_world] and [_world_owner] differ in the key. *)
Definition persist_continuity (key value : string) (expires now_ms : Z) : list Out :=
  if negb (cc_redis config) || negb (non_empty value) || (expires =? 0) then []
  else if expires <=? now_ms then [ORedis (rcDel (cc_continuity_prefix config +:+ key))]
  else [ORedis (rcSetex (cc_continuity_prefix config +:+ key) value (u32 (Z.max 1 ((expires -₆₄ now_ms +₆₄ 999) / 1000))))].
Definition persist_continuity_room (logical room : string) (expires now_ms : Z) : list Out :=
  if non_empty logical then persist_continuity ("room:" +:+ logical) room expires now_ms else [].

(** ** Joining a room *)
Record Joined := {
  jn_sender : string;
  jn_previous_room : string;
  jn_new_hash : option string;
  jn_user_uuid : string;
  jn_logical : string;
  jn_expires : Z;
  jn_targets : list Z;
}.
Definition text_at (table : gmap Z string) (a : Z) : string := default EmptyString (table !! a).
Definition is_invited (s : ChatServiceState) (room sender : string) : bool :=
  match room_invites s !! room with Some invited => bool_decide (sender ∈ invited) | None => false end.
(** What to do about the password of an admitted session: nothing, a new stored
    hash, or a failure to hash. *)
Definition join_password (room password expected : string) : option (option string) :=
  if non_empty expected then
    if verify_room_password password expected && non_empty password && negb (is_modern_room_password_hash expected)
    then Some (some_if (hash_room_password password)) else Some None
  else if non_empty password && bool_decide (room ≠ "lobby") then
    if non_empty (hash_room_password password) then Some (Some (hash_room_password password)) else None
  else Some None.
Definition join_section (o : Z) (room password : string) (redis_password : option string) (hook : HookAnswers)
    (s : ChatServiceState) : ChatServiceState * (list Out * option Joined) :=
  let a := ptr live o in
  if bool_decide (a ∉ authed s) then (s, ([send_error_to o UNAUTHORIZED "unauthorized"], None))
  else
    let sender := actor_name live s o in
    let '(notices, denied) := maybe_handle_hook "join" o hook in
    if denied then (s, (notices, None))
    else
      let is_admin_user := bool_decide (sender ∈ admin_users runtime) in
      let is_room_owner := bool_decide (room ≠ "lobby") && bool_decide (room_owners s !! room = Some sender) in
      let has_room_invite := bool_decide (room ≠ "lobby") && is_invited s room sender in
      let s := match redis_password with Some pw => s <| room_passwords ::= <[room := pw]> |> | None => s end in
      let expected := or_default (default EmptyString redis_password) (default EmptyString (room_passwords s !! room)) in
      let has_password := non_empty expected in
      let password_ok := has_password && non_empty password && verify_room_password password expected in
      let exists_ := room_exists s room || bool_decide (is_Some (room_owners s !! room)) || room_is_locked s room || has_password in
      if bool_decide (room ≠ "lobby") && exists_ && negb is_admin_user && negb is_room_owner && negb has_room_invite && negb password_ok
      then (s, (notices ++ [send_error_to o FORBIDDEN (if has_password then "room locked" else "invite required")], None))
      else
        match join_password room password expected with
        | None => (s, (notices ++ [send_error_to o INTERNAL_ERROR "password hash failed"], None))
        | Some new_hash =>
            let s := match new_hash with Some h => s <| room_passwords ::= <[room := h]> |> | None => s end in
            let current := cur_room s !! a in
            let s := match current with
                     | Some r => if bool_decide (r ≠ room) then (remove_session_from_room live o r sender s).1 else s
                     | None => s
                     end in
            let s := place_session_in_room live o room sender has_room_invite true s in
            let '(s', targets) := collect_room_targets live room sender s in
            (s', (notices, Some {| jn_sender := sender; jn_previous_room := default EmptyString current; jn_new_hash := new_hash;
                       jn_user_uuid := text_at (user_uuid s) a; jn_logical := text_at (logical_session_id s) a;
                       jn_expires := default 0 (logical_session_expires s !! a); jn_targets := targets |}))
        end.
(** The room's id, owner and invitations are forgotten once Redis counts no user. *)
Definition forget_room (room : string) (s : ChatServiceState) : ChatServiceState :=
  s <| room_ids ::= delete room |> <| room_owners ::= delete room |> <| room_invites ::= delete room |>.
Record JoinAnswers := {
  ja_uuid : string;
  ja_redis_password : option string;
  ja_hook : HookAnswers;
  ja_now_ms : Z;
  ja_last_id : Z;
  ja_remaining : option Z;
  ja_previous_found : option (option string);
}.
(** The Redis half of leaving [room]: [remaining] is the reply of [SCARD], [found]
    the room's id in the database, when there is one, unless the database fails. *)
Definition clear_if_empty (room : string) (remaining : option Z) (found : option (option string)) : Chat unit :=
  if bool_decide (room ≠ "lobby") && bool_decide (remaining = Some 0) then
    tell [ORedis (rcSrem "rooms:active" room); ORedis (rcDel ("room:password:" +:+ room))];;
    match found with
    | Some id => tell (match id with Some id => [ODb (dbCloseRoom id)] | None => [] end);; modify (forget_room room)
    | None => mret tt
    end
  else mret tt.
Definition join_job (o : Z) (room_arg password : string) (a : JoinAnswers) : Chat unit :=
  session_id ← section (get_or_create_session_uuid o (ja_uuid a));
  let room := or_default room_arg "lobby" in
  j ← guarded (join_section o room password (if cc_redis config then ja_redis_password a else None) (ja_hook a));
  let moved := non_empty (jn_previous_room j) && bool_decide (jn_previous_room j ≠ room) in
  tell (match jn_new_hash j with
        | Some h => if cc_redis config then [ORedis (rcSetex ("room:password:" +:+ room) h 86400)] else []
        | None => []
        end ++ persist_continuity_room (jn_logical j) room (jn_expires j) (ja_now_ms a)
        ++ ((λ t, OSend t (mChat room "(system)" (jn_sender j +:+ " 님이 입장했습니다") 0 0)) <$> jn_targets j));;
  uid ← gets (λ s, text_at (user_uuid s) (ptr live o));
  rid ← (if cc_db config && non_empty uid then section (ensure_room_id_ci room) else mret EmptyString);
  when (non_empty rid) (tell (ODb (dbJoin uid rid) :: if 0 <? ja_last_id a then [ODb (dbSeen uid rid (ja_last_id a))] else []));;
  when (cc_redis config)
    (when moved
       (tell [ORedis (rcSrem ("room:users:" +:+ jn_previous_room j) (jn_sender j))];;
        clear_if_empty (jn_previous_room j) (ja_remaining a)
          (if cc_db config then ja_previous_found a else None));;
     tell ([ORedis (rcSadd ("room:users:" +:+ room) (jn_sender j))]
           ++ (if bool_decide (room ≠ "lobby") then [ORedis (rcSadd "rooms:active" room)] else [])
           ++ if non_empty (jn_user_uuid j) && non_empty rid
              then [ORedis (rcSadd (make_presence_key "presence:room:" rid) (jn_user_uuid j))] else []));;
  tell (emit_write_behind_event "room_join" session_id (jn_user_uuid j) rid
          ([("room", room); ("user_name", jn_sender j)] ++ if moved then [("prev_room", jn_previous_room j)] else []));;
  send_snapshot o room;;
  broadcast_refresh "lobby";;
  when (bool_decide (room ≠ "lobby")) (broadcast_refresh room);;
  when (moved && bool_decide (jn_previous_room j ≠ "lobby")) (broadcast_refresh (jn_previous_room j)).
(** [read_lp_utf8] into a string that is left unchanged when the read fails. *)
Definition read_text (payload : list Z) : option (string * list Z) :=
  match read_lp_utf8 payload with Some (bs, rest) => Some (text_of bs, rest) | None => None end.
Definition on_join (o : Z) (payload : list Z) (queued : bool) (a : JoinAnswers) : Chat unit :=
  match read_text payload with
  | None => return_ [send_error_to o INVALID_PAYLOAD "bad join payload"]
  | Some (room, rest) =>
      let password := match read_text rest with Some (pw, _) => pw | None => EmptyString end in
      if queued then join_job o room password a else return_ [send_error_to o SERVER_BUSY "server busy"]
  end.

(** ** Leaving a room *)
Record Left := { lf_room : string; lf_sender : string; lf_user_uuid : string; lf_logical : string; lf_expires : Z; lf_targets : list Z }.
Definition leave_section (o : Z) (room : string) (hook : HookAnswers) (s : ChatServiceState)
    : ChatServiceState * (list Out * option Left) :=
  let a := ptr live o in
  if bool_decide (a ∉ authed s) then (s, ([send_error_to o UNAUTHORIZED "unauthorized"], None))
  else match cur_room s !! a with
  | None => (s, ([send_error_to o NO_ROOM "no current room"], None))
  | Some current =>
      if non_empty room && bool_decide (current ≠ room) then (s, ([send_error_to o ROOM_MISMATCH "room mismatch"], None))
      else if room_exists s current then
        let sender := actor_name live s o in
        let '(notices, denied) := maybe_handle_hook "leave" o hook in
        if denied then (s, (notices, None))
        else
          let '(s', targets) := remove_session_from_room live o current sender s in
          (place_session_in_room live o "lobby" sender false true s',
           (notices, Some {| lf_room := current; lf_sender := sender; lf_user_uuid := text_at (user_uuid s) a;
                             lf_logical := text_at (logical_session_id s) a;
                             lf_expires := default 0 (logical_session_expires s !! a); lf_targets := targets |}))
      else
        (place_session_in_room live o "lobby" EmptyString false true s,
         ([], Some {| lf_room := current; lf_sender := EmptyString; lf_user_uuid := EmptyString; lf_logical := EmptyString;
                      lf_expires := 0; lf_targets := [] |}))
  end.
Record LeaveAnswers := {
  la_uuid : string;
  la_hook : HookAnswers;
  la_now_ms : Z;
  la_remaining : option Z;
  la_db_closes : bool;
}.
Definition leave_job (o : Z) (room : string) (a : LeaveAnswers) : Chat unit :=
  session_id ← section (get_or_create_session_uuid o (la_uuid a));
  l ← guarded (leave_section o room (la_hook a));
  let left_room := lf_room l in
  tell (persist_continuity_room (lf_logical l) "lobby" (lf_expires l) (la_now_ms a));;
  when (non_empty left_room)
    (tell ((λ t, OSend t (mChat left_room "(system)" (lf_sender l +:+ " 님이 퇴장합니다") 0 (if t =? o then FLAG_SELF else 0)))
             <$> lf_targets l));;
  room_uuid ← (if cc_redis config && non_empty left_room then
    uid ← gets (λ s, text_at (user_uuid s) (ptr live o));
    rid ← section (ensure_room_id_ci left_room);
    tell (if non_empty uid then
            if non_empty rid
            then [ORedis (rcSrem (make_presence_key "presence:room:" rid) uid); ORedis (rcSrem ("room:users:" +:+ left_room) (lf_sender l))]
            else []
          else [ORedis (rcSrem ("room:users:" +:+ left_room) (lf_sender l))]);;
    clear_if_empty left_room (la_remaining a)
      (if cc_db config && non_empty rid && la_db_closes a then Some (Some rid) else None);;
    tell [ORedis (rcSadd "room:users:lobby" (lf_sender l))];;
    mret rid
  else mret EmptyString);
  lobby_targets ← section (collect_room_targets live "lobby" (lf_sender l));
  tell ((λ t, OSend t (mChat "lobby" "(system)" (lf_sender l +:+ " 님이 입장했습니다") 0 0)) <$> lobby_targets);;
  broadcast_refresh "lobby";;
  when (non_empty left_room && bool_decide (left_room ≠ "lobby")) (broadcast_refresh left_room);;
  when (non_empty left_room)
    (rid ← (if non_empty room_uuid then mret room_uuid else section (ensure_room_id_ci left_room));
     tell (emit_write_behind_event "room_leave" session_id (lf_user_uuid l) rid
       [("room", left_room); ("user_name", lf_sender l); ("next_room", "lobby")]));;
  send_snapshot o "lobby".
Definition on_leave (o : Z) (payload : list Z) (queued : bool) (a : LeaveAnswers) : Chat unit :=
  let room := match read_text payload with Some (room, _) => room | None => EmptyString end in
  if queued then leave_job o room a else return_ [send_error_to o SERVER_BUSY "server busy"].

(** ** Closing a session *)
Record Closed := { cl_name : string; cl_room : string; cl_user_uuid : string; cl_targets : list Z }.
Definition remove_from_name (o : Z) (name : string) (s : ChatServiceState) : ChatServiceState :=
  match by_user s !! name with Some X => s <| by_user ::= <[name := X ∖ {[o]}]> |> | None => s end.
(** The entries under the session's address; [user_uuid] keeps its entry. *)
Definition forget_session (o session_id : Z) (name : string) (s : ChatServiceState) : ChatServiceState :=
  let a := ptr live o in
  let s := s <| by_session_id ::= delete session_id |> <| authed ::= (.∖ {[a]}) |> <| guest ::= (.∖ {[a]}) |> in
  let s := if non_empty name then remove_from_name o name s else s in
  s <| user ::= delete a |> <| session_uuid ::= delete a |> <| logical_session_id ::= delete a |>
    <| logical_session_expires ::= delete a |> <| cur_world ::= delete a |> <| session_ip ::= delete a |>
    <| session_hwid_hash ::= delete a |>.
Definition close_section (o session_id : Z) (s : ChatServiceState) : ChatServiceState * Closed :=
  let a := ptr live o in
  let name := actor_name live s o in
  let uuid := text_at (user_uuid s) a in
  let s := forget_session o session_id name s in
  match cur_room s !! a with
  | None => (s, {| cl_name := name; cl_room := EmptyString; cl_user_uuid := uuid; cl_targets := [] |})
  | Some room =>
      let '(s, targets) := if room_exists s room then remove_session_from_room live o room name s else (s, []) in
      (s <| cur_room ::= delete a |>, {| cl_name := name; cl_room := room; cl_user_uuid := uuid; cl_targets := targets |})
  end.
Definition on_session_close (o session_id : Z) (fresh : string) (remaining : option Z) : Chat unit :=
  session_id_str ← section (get_or_create_session_uuid o fresh);
  c ← section (close_section o session_id);
  tell ((λ t, OSend t (mChat (cl_room c) "(system)" (cl_name c +:+ " 님이 연결 종료되었습니다") 0 0)) <$> cl_targets c);;
  room_uuid ← (if cc_redis config && non_empty (cl_room c) then
    uid ← gets (λ s, text_at (user_uuid s) (ptr live o));
    rid ← (if non_empty uid then section (ensure_room_id_ci (cl_room c)) else mret EmptyString);
    tell ((if non_empty uid && non_empty rid then [ORedis (rcSrem (make_presence_key "presence:room:" rid) uid)] else [])
          ++ [ORedis (rcSrem ("room:users:" +:+ cl_room c) (cl_name c))]
          ++ if bool_decide (cl_room c ≠ "lobby")
             then ORedis (rcSadd "room:users:lobby" (cl_name c))
                  :: (if bool_decide (remaining = Some 0) then [ORedis (rcSrem "rooms:active" (cl_room c))] else [])
             else []);;
    mret rid
  else mret EmptyString);
  when (non_empty (cl_room c))
    (tell (emit_write_behind_event "session_close" session_id_str (cl_user_uuid c) room_uuid
             [("room", cl_room c); ("user_name", cl_name c)]);;
     broadcast_refresh (cl_room c)).

(** ** Logging in *)
(** The expired sessions that the search for a live one passes are erased. *)
Fixpoint expired_prefix (l : list Z) : list Z :=
  match l with o :: l => if decide (alive live o) then [] else o :: expired_prefix l | [] => [] end.
Definition name_free (s : ChatServiceState) (name : string) : bool := bool_decide (default ∅ (by_user s !! name) = ∅).
Definition temp_name (names : list string) (s : ChatServiceState) : string :=
  match head (filter (λ n, name_free s n = true) (take 4 names)) with
  | Some n => n
  | None => default EmptyString (names !! 4%nat)
  end.
Definition ensure_unique_or_error (o : Z) (desired : string) (names : list string) (s : ChatServiceState)
    : ChatServiceState * (list Out * option string) :=
  if non_empty desired && bool_decide (desired ≠ "guest") then
    match by_user s !! desired with
    | Some X =>
        let s := s <| by_user ::= <[desired := X ∖ list_to_set (expired_prefix (in_order X))]> |> in
        match locked live X with
        | [] => (s, ([], Some desired))
        | _ => (s, ([send_error_to o NAME_TAKEN "name taken"], None))
        end
    | None => (s, ([], Some desired))
    end
  else (s, ([], Some (temp_name names s))).
Definition check_expiry (table : gmap string Z) (key : string) (now : Z) : gmap string Z * bool :=
  match table !! key with
  | Some e => if e <=? now then (delete key table, false) else (table, true)
  | None => (table, false)
  end.
(** The reason to refuse the login, empty when there is none. *)
Definition login_ban_check (name ip hwid : string) (now : Z) (s : ChatServiceState) : ChatServiceState * string :=
  let '(banned, reason) := check_penalty (banned_users s) name now "temporarily banned" in
  let s := s <| banned_users := banned |> in
  let deny := default EmptyString reason in
  let '(s, deny) :=
    if negb (non_empty deny) && non_empty ip then
      let '(ips, hit) := check_expiry (banned_ips s) ip now in
      (s <| banned_ips := ips |>, if hit then "temporarily banned (ip)" else deny)
    else (s, deny) in
  if negb (non_empty deny) && non_empty hwid then
    let '(hwids, hit) := check_expiry (banned_hwid_hashes s) hwid now in
    (s <| banned_hwid_hashes := hwids |>, if hit then "temporarily banned (device)" else deny)
  else (s, deny).
Record Login := {
  lg_user : string;
  lg_guest : bool;
  lg_ip : string;
  lg_hwid : string;
  lg_user_uuid : string;
  lg_logical : string;
  lg_expires : Z;
  lg_world : string;
  lg_room : string;
  lg_resumed : bool;
}.
Definition login_commit (o : Z) (l : Login) (s : ChatServiceState) : ChatServiceState :=
  let a := ptr live o in
  let name := lg_user l in
  let s := match user s !! a with Some old => remove_from_name o old s | None => s end in
  let s := s <| user ::= <[a := name]> |>
             <| by_user ::= <[name := default ∅ (by_user s !! name) ∪ {[o]}]> |>
             <| authed ::= ({[a]} ∪.) |>
             <| guest ::= (λ g, if lg_guest l then g ∪ {[a]} else g ∖ {[a]}) |>
             <| session_ip ::= <[a := lg_ip l]> |> <| session_hwid_hash ::= <[a := lg_hwid l]> |> in
  let s := if non_empty (lg_ip l) then s <| user_last_ip ::= <[name := lg_ip l]> |> else s in
  let s := if non_empty (lg_hwid l) then s <| user_last_hwid_hash ::= <[name := lg_hwid l]> |> else s in
  let s := if non_empty (lg_user_uuid l) then s <| user_uuid ::= <[a := lg_user_uuid l]> |> else s in
  let s := if non_empty (lg_logical l)
           then s <| logical_session_id ::= <[a := lg_logical l]> |> <| logical_session_expires ::= <[a := lg_expires l]> |> else s in
  place_session_in_room live o (or_default (lg_room l) "lobby") name false (negb (lg_resumed l))
    (s <| cur_world ::= <[a := lg_world l]> |>).
Definition store_user_uuid (o : Z) (uid : string) (s : ChatServiceState) : ChatServiceState :=
  s <| user_uuid ::= <[ptr live o := uid]> |>.
Definition store_lease (o : Z) (l : ContinuityLease) (s : ChatServiceState) : ChatServiceState :=
  s <| logical_session_id ::= <[ptr live o := cl_logical_session_id l]> |>
    <| logical_session_expires ::= <[ptr live o := cl_expires_unix_ms l]> |>
    <| cur_world ::= <[ptr live o := cl_world_id l]> |>.
Definition kResumePrefix : string := "resume:".
Definition extract_resume_token (token : string) : option string :=
  match after_prefix kResumePrefix token with Some t => some_if t | None => None end.
(** What the services answer during one login: the session's fresh UUID, the
    runtime's default world, the result of [try_resume_continuity_lease], drawn
    temporary names, the hooks, the clocks, the database's id for the user
    (found or created; empty on failure) and the lease issued for a user id, name,
    world and room ([ChatContinuity] has the function, which writes the lease's
    records itself). *)
Record LoginAnswers := {
  an_uuid : string;
  an_default_world : string;
  an_resume : option ContinuityLease;
  an_names : list string;
  an_hook : HookAnswers;
  an_now : Z;
  an_now_ms : Z;
  an_uid : string;
  an_lease : string → string → string → string → option ContinuityLease;
}.
Definition continuity_records (logical world room owner : string) (expires now_ms : Z) : list Out :=
  (if non_empty logical then persist_continuity ("world:" +:+ logical) world expires now_ms else [])
  ++ (if non_empty world then persist_continuity ("world-owner:" +:+ world) owner expires now_ms else [])
  ++ persist_continuity_room logical room expires now_ms.
Definition login_job (o session_id : Z) (user_arg token ip owner : string) (a : LoginAnswers) : Chat unit :=
  session_id_str ← section (get_or_create_session_uuid o (an_uuid a));
  modify (λ s, s <| by_session_id ::= <[session_id := o]> |>);;
  let resume := an_resume a in
  let refused := bool_decide (is_Some (extract_resume_token token)) && bool_decide (resume = None) in
  (if refused then return_ [send_error_to o UNAUTHORIZED "invalid resume token"] else mret tt);;
  let requested := match resume with Some l => cl_effective_user l | None => user_arg end in
  let guest_mode := match resume with Some _ => false | None => negb (non_empty user_arg) || bool_decide (user_arg = "guest") end in
  new_user ← guarded (ensure_unique_or_error o requested (an_names a));
  (if non_empty new_user then mret tt else return_ []);;
  let hwid := match resume with Some _ => EmptyString | None => hash_hwid_token token end in
  let l := {| lg_user := new_user; lg_guest := guest_mode; lg_ip := ip; lg_hwid := hwid;
              lg_user_uuid := match resume with Some l => cl_user_id l | None => EmptyString end;
              lg_logical := match resume with Some l => cl_logical_session_id l | None => EmptyString end;
              lg_expires := match resume with Some l => cl_expires_unix_ms l | None => 0 end;
              lg_world := match resume with Some l => or_default (cl_world_id l) (an_default_world a) | None => an_default_world a end;
              lg_room := match resume with Some l => or_default (cl_lease_room l) "lobby" | None => "lobby" end;
              lg_resumed := bool_decide (is_Some resume) |} in
  let '(notices, denied) := maybe_handle_hook "login" o (an_hook a) in
  tell notices;;
  (if denied then return_ [] else mret tt);;
  deny_reason ← section (login_ban_check new_user ip hwid (an_now a));
  (if non_empty deny_reason then return_ [send_error_to o FORBIDDEN deny_reason] else mret tt);;
  modify (login_commit o l);;
  known ← gets (λ s, text_at (user_uuid s) (ptr live o));
  let uid := if cc_db config then or_default known (an_uid a) else EmptyString in
  when (cc_db config && negb (non_empty known) && non_empty uid) (modify (store_user_uuid o uid));;
  let tracked := or_default uid (lg_user_uuid l) in
  when (cc_db config) (tell [ODb (dbTouchLogin uid ip)]);;
  rid ← section (ensure_room_id_ci (lg_room l));
  when (non_empty rid) (tell [ODb (dbMessage rid (lg_room l) None ("(login ip=" +:+ ip +:+ ")"))]);;
  let lease := if negb (non_empty (lg_logical l)) && non_empty tracked then an_lease a tracked new_user (lg_world l) (lg_room l) else None in
  when (bool_decide (is_Some lease)) (modify (λ s, match lease with Some l => store_lease o l s | None => s end));;
  let logical := match lease with Some l => cl_logical_session_id l | None => lg_logical l end in
  let resume_token := match lease with Some l => cl_resume_token l | None => match resume with Some l => cl_resume_token l | None => EmptyString end end in
  let expires := match lease with Some l => cl_expires_unix_ms l | None => lg_expires l end in
  let world := match lease with Some l => cl_world_id l | None => lg_world l end in
  let room := match lease with Some l => cl_lease_room l | None => lg_room l end in
  when (non_empty (lg_logical l)) (tell (continuity_records logical world room owner expires (an_now_ms a)));;
  tell [OAuthenticated o;
        OSend o (mLogin {| lr_effective_user := new_user; lr_session_id := session_id;
                           lr_message := if lg_resumed l then "resumed" else "ok";
                           lr_is_admin := bool_decide (new_user ∈ admin_users runtime); lr_resumed := lg_resumed l;
                           lr_logical_session_id := logical; lr_resume_token := resume_token; lr_resume_expires := expires;
                           lr_world_id := world |})];;
  when (cc_redis config)
    (uid ← gets (λ s, text_at (user_uuid s) (ptr live o));
     tell (touch_user_presence uid
           ++ (if non_empty logical then continuity_records logical world room owner expires (an_now_ms a) else [])
           ++ (if bool_decide (room ≠ "lobby")
               then [ORedis (rcSrem "room:users:lobby" new_user); ORedis (rcSadd "rooms:active" room)] else [])
           ++ [ORedis (rcSadd ("room:users:" +:+ room) new_user)]);;
     broadcast_refresh room);;
  tell (emit_write_behind_event "session_login" session_id_str tracked rid
    ([("room", room); ("world_id", world); ("user_name", new_user)]
     ++ (if lg_resumed l then [("resumed", "1")] else []) ++ [("ip", ip)])).
Definition kProtocolVersionMajor : Z := 1.
Definition kProtocolVersionMinor : Z := 1.
Definition is_protocol_version_compatible (client_major client_minor : Z) : bool :=
  (client_major =? kProtocolVersionMajor) && (client_minor <=? kProtocolVersionMinor).
Definition on_login (o session_id : Z) (payload : list Z) (queued : bool) (ip owner : string) (a : LoginAnswers) : Chat unit :=
  let bad := return_ [send_error_to o INVALID_PAYLOAD "bad login payload"] in
  let push user_arg token :=
    if queued then login_job o session_id user_arg token ip owner a else return_ [send_error_to o SERVER_BUSY "server busy"] in
  match read_text payload with
  | None => bad
  | Some (user_arg, rest) =>
      match read_text rest with
      | None => bad
      | Some (token, []) => push user_arg token
      | Some (token, rest) =>
          if (length rest =? 4)%nat then
            if is_protocol_version_compatible (read_be16 rest) (read_be16 (drop 2 rest)) then push user_arg token
            else return_ [send_error_to o UNSUPPORTED_VERSION "unsupported version"]
          else bad
      end
  end.

(** ** Whispers *)
Definition send_whisper_result (o : Z) (ok : bool) (reason : string) : Out := OSend o (mWhisperResult ok reason).
Definition eligible (s : ChatServiceState) (o : Z) : bool :=
  bool_decide (ptr live o ∈ authed s) && negb (bool_decide (ptr live o ∈ guest s)).
(** Looking up the targets erases the recipient's expired sessions.  The result is
    the targets, whether a session was passed over, and who blocks whom. *)
Definition whisper_section (o : Z) (sender target : string) (s : ChatServiceState)
    : ChatServiceState * (list Z * bool * bool * bool) :=
  let blocked_by_sender := blocks s sender target in
  let blocked_by_target := blocks s target sender in
  let blocked := blocked_by_sender || blocked_by_target in
  let '(s, sessions) := user_sessions live target s in
  let others := filter (λ p, p ≠ o) sessions in
  let targets := if blocked then [] else filter (λ p, eligible s p = true) others in
  (s, (targets, blocked || existsb (λ p, negb (eligible s p)) others, blocked_by_sender, blocked_by_target)).
(** [published]: the reply of [PUBLISH]. *)
Definition dispatch_whisper (o : Z) (target text : string) (published : bool) : Chat unit :=
  if negb (non_empty target) || negb (non_empty text)
  then tell [send_system_notice o "usage: /whisper <user> <message>"; send_whisper_result o false "invalid payload"]
  else
    is_authed ← gets (λ s, bool_decide (ptr live o ∈ authed s));
    if negb is_authed then tell [send_error_to o UNAUTHORIZED "unauthorized"]
    else
      sender ← gets (λ s, actor_name live s o);
      is_guest ← gets (λ s, bool_decide (ptr live o ∈ guest s));
      if bool_decide (sender = "guest") || is_guest
      then tell [send_system_notice o "login required for whisper"; send_whisper_result o false "login required";
                 send_error_to o UNAUTHORIZED "guest cannot whisper"]
      else if bool_decide (target = sender)
      then tell [send_system_notice o "cannot whisper to yourself"; send_whisper_result o false "cannot whisper to yourself"]
      else
        r ← section (whisper_section o sender target);
        let '(targets, ineligible, blocked_by_sender, _) := (r : list Z * bool * bool * bool) in
        let outgoing := [OSend o (mWhisper sender target text true); send_whisper_result o true EmptyString] in
        match targets with
        | [] =>
            if ineligible then
              if blocked_by_sender
              then tell [send_system_notice o "whisper denied: unblock target first"; send_whisper_result o false "recipient blocked by sender"]
              else tell [send_system_notice o ("user cannot receive whispers (login required): " +:+ target);
                         send_whisper_result o false "recipient not eligible"]
            else
              let routed := cc_redis config && cc_pubsub config in
              tell (if routed then [ORedis (rcPublish (cc_presence_prefix config +:+ "fanout:whisper") (cc_gateway_id config)
                                                    (Some (mWhisper sender target text false)))] else []);;
              tell (if routed && published then outgoing
                    else [send_system_notice o ("user not found: " +:+ target); send_whisper_result o false "user not found"])
        | _ => tell (((λ t, OSend t (mWhisper sender target text false)) <$> targets) ++ outgoing)
        end.
(** A whisper published by another server. *)
Definition deliver_remote_whisper (sender recipient text : string) : Chat unit :=
  if negb (non_empty sender) || negb (non_empty recipient) || negb (non_empty text) then mret tt
  else
    blocked ← gets (λ s, blocks s recipient sender);
    if (blocked : bool) then mret tt
    else
      sessions ← section (user_sessions live recipient);
      targets ← gets (λ s, filter (λ p, eligible s p = true) sessions);
      tell ((λ t, OSend t (mWhisper sender recipient text false)) <$> targets).

(** ** Chat messages *)
Record ChatAnswers := {
  ca_now : Z;
  ca_published : bool;
  ca_redis_names : option (list string);
  ca_hook_notices : list string;
  ca_hook_stops : bool;
  ca_hook_text : string → string;
  ca_message_id : option Z;
  ca_last_id : Z;
}.
Definition collect_chat_broadcast_targets (room sender : string) (s : ChatServiceState) : ChatServiceState * list Z :=
  match rooms s !! room with
  | None => (s, [])
  | Some X =>
      let '(X', targets) := collect_room_sessions live X in
      let s := s <| rooms ::= <[room := X']> |> in
      (s, filter (λ o, receives live s sender o = true) targets)
  end.
Definition send_local_chat_broadcast (o : Z) (targets : list Z) (room sender text : string) (sid : Z) : list Out :=
  match targets with
  | [] => [OSend o (mChat room sender text sid FLAG_SELF)]
  | _ => (λ t, OSend t (mChat room sender text sid (if t =? o then FLAG_SELF else 0))) <$> targets
  end.
Definition dispatch_room_message (o sid : Z) (room sender text : string) (message_id : option Z) : Chat unit :=
  targets ← section (collect_chat_broadcast_targets room sender);
  rid ← section (ensure_room_id_ci room);
  uuid ← gets (λ s, user_uuid s !! ptr live o);
  when (non_empty rid) (tell [ODb (dbMessage rid room uuid text)]);;
  tell (send_local_chat_broadcast o targets room sender text sid);;
  when (bool_decide (is_Some uuid)) (tell (touch_user_presence (default EmptyString uuid)));;
  when (cc_redis config && cc_pubsub config)
    (tell [ORedis (rcPublish (cc_presence_prefix config +:+ "fanout:room:" +:+ room) (cc_gateway_id config) (Some (mChat room sender text sid 0)))]);;
  match message_id with
  | Some id => when (non_empty rid && negb (id =? 0) && non_empty (default EmptyString uuid))
                 (tell [ODb (dbSeen (default EmptyString uuid) rid id)])
  | None => mret tt
  end.
Definition handle_refresh (o last_id : Z) : Chat unit :=
  current ← gets (λ s, default "lobby" (cur_room s !! ptr live o));
  send_snapshot o current;;
  uid ← gets (λ s, text_at (user_uuid s) (ptr live o));
  if negb (cc_db config) || negb (non_empty uid) then mret tt
  else
    rid ← section (ensure_room_id_ci current);
    when (non_empty rid && (0 <? last_id)) (tell [ODb (dbSeen uid rid last_id)]).

(** ** Slash commands *)
Definition parse_duration_sec (raw : string) (fallback min_value max_value : Z) : Z :=
  match stoul raw with
  | Some parsed => if (parsed <? min_value) || (max_value <? parsed) then fallback else u32 parsed
  | None => fallback
  end.
(** Where the session is the actor of a command on [room] that needs the owner or
    an administrator. *)
Definition invite_section (o : Z) (target_user target_room : string) (s : ChatServiceState) : ChatServiceState * bool :=
  if actor_can_manage_room live runtime s o target_room
  then (s <| room_invites ::= <[target_room := default ∅ (room_invites s !! target_room) ∪ {[target_user]}]> |>, true)
  else (s, false).
Definition kick_one (target_user target_room : string) (st : ChatServiceState * list Z) (c : Z) : ChatServiceState * list Z :=
  let '(s, kicked) := st in
  if bool_decide (cur_room s !! ptr live c = Some target_room)
  then (place_session_in_room live c "lobby" target_user false true
          (remove_session_from_room live c target_room target_user s).1, kicked ++ [c])
  else (s, kicked).
Definition kick_section (o : Z) (target_user target_room : string) (s : ChatServiceState) : ChatServiceState * option (list Z) :=
  if actor_can_manage_room live runtime s o target_room then
    let '(s, sessions) := user_sessions live target_user s in
    let '(s, kicked) := foldl (kick_one target_user target_room) (s, []) sessions in
    (s, Some kicked)
  else (s, None).
Definition remove_room_section (o : Z) (target_room : string) (s : ChatServiceState) : ChatServiceState * option (list Z) :=
  if actor_can_manage_room live runtime s o target_room then
    let '(s, moved) := match rooms s !! target_room with
      | Some X =>
          let s := foldl (λ s c, place_session_in_room live c "lobby" "guest" false true s) s (locked live X) in
          (s <| rooms ::= delete target_room |>, locked live X)
      | None => (s, [])
      end in
    (s <| room_passwords ::= delete target_room |> <| room_owners ::= delete target_room |>
       <| room_invites ::= delete target_room |>, Some moved)
  else (s, None).
Definition mute_section (o : Z) (target_user : string) (duration now : Z) (s : ChatServiceState) : ChatServiceState * bool :=
  if actor_is_admin live runtime s o
  then (s <| muted_users ::= <[target_user := {| expires_at := now + seconds duration; penalty_reason := "muted by admin" |}]> |>, true)
  else (s, false).
(** [None]: denied; otherwise whether the table changed. *)
Definition unmute_section (o : Z) (target_user : string) (s : ChatServiceState) : ChatServiceState * option bool :=
  if actor_is_admin live runtime s o
  then (s <| muted_users ::= delete target_user |>, Some (bool_decide (is_Some (muted_users s !! target_user))))
  else (s, None).
Definition ban_section (o : Z) (target_user : string) (duration now : Z) (s : ChatServiceState) : ChatServiceState * option (list Z) :=
  if actor_is_admin live runtime s o then
    let expires := now + seconds duration in
    let s := ban_last_seen target_user expires
      (s <| banned_users ::= <[target_user := {| expires_at := expires; penalty_reason := "banned by admin" |}]> |>) in
    let '(s, sessions) := user_sessions live target_user s in (s, Some sessions)
  else (s, None).
Definition unban_section (o : Z) (target_user : string) (s : ChatServiceState) : ChatServiceState * option bool :=
  if actor_is_admin live runtime s o then
    let changed := bool_decide (is_Some (banned_users s !! target_user)) in
    let s := s <| banned_users ::= delete target_user |> in
    let '(s, changed) := match user_last_ip s !! target_user with
      | Some ip => if non_empty ip then (s <| banned_ips ::= delete ip |>, bool_decide (is_Some (banned_ips s !! ip)) || changed)
                   else (s, changed)
      | None => (s, changed)
      end in
    let '(s, changed) := match user_last_hwid_hash s !! target_user with
      | Some h => if non_empty h then (s <| banned_hwid_hashes ::= delete h |>,
                                       bool_decide (is_Some (banned_hwid_hashes s !! h)) || changed) else (s, changed)
      | None => (s, changed)
      end in
    (s, Some changed)
  else (s, None).
Definition gkick_section (o : Z) (target_user : string) (s : ChatServiceState) : ChatServiceState * option (list Z) :=
  if actor_is_admin live runtime s o
  then let '(s, sessions) := user_sessions live target_user s in (s, Some sessions)
  else (s, None).
Definition disconnect (text : string) (sessions : list Z) : list Out :=
  concat ((λ t, [send_system_notice t text; OStop t]) <$> sessions).

(** [text.find_first_not_of(' ')] and what follows; [None] when there is nothing. *)
Definition after_spaces (text : string) : option string := some_if (skip_spaces text).
Definition slash_whisper (o : Z) (args : string) (published : bool) : Chat unit :=
  let usage := tell [send_system_notice o "usage: /whisper <user> <message>"; send_whisper_result o false "invalid payload"] in
  match cut space (or_default (skip_spaces args) args) with
  | None => usage
  | Some (target_user, whisper_text) =>
      let whisper_text := or_default (skip_spaces whisper_text) whisper_text in
      if negb (non_empty target_user) || negb (non_empty whisper_text) then usage
      else dispatch_whisper o target_user whisper_text published
  end.
Definition slash_invite (o : Z) (current_room args : string) : Chat unit :=
  let '(target_user, rest) := next_word args in
  let target_room := or_default (next_word rest).1 current_room in
  if negb (non_empty target_user) || negb (non_empty target_room) || bool_decide (target_room = "lobby")
  then tell [send_system_notice o "usage: /invite <user> [room]"]
  else
    allowed ← section (invite_section o target_user target_room);
    tell [send_system_notice o (if (allowed : bool) then "invited user: " +:+ target_user +:+ " room=" +:+ target_room
                                else "invite denied: owner/admin only")].
Definition slash_kick (o : Z) (current_room args : string) : Chat unit :=
  let '(target_user, rest) := next_word args in
  let target_room := or_default (next_word rest).1 current_room in
  if negb (non_empty target_user) || negb (non_empty target_room) || bool_decide (target_room = "lobby")
  then tell [send_system_notice o "usage: /kick <user> [room]"]
  else
    r ← section (kick_section o target_user target_room);
    match r : option (list Z) with
    | None => tell [send_system_notice o "kick denied: owner/admin only"]
    | Some kicked =>
        for_each (λ k, tell [send_system_notice k ("kicked from room: " +:+ target_room)];; send_snapshot k "lobby") kicked;;
        when (bool_decide (kicked ≠ [])) (broadcast_refresh target_room;; broadcast_refresh "lobby");;
        tell [send_system_notice o (if bool_decide (kicked = []) then "kick target not found in room" else "kick applied")]
    end.
Definition slash_room_remove (o : Z) (current_room args : string) : Chat unit :=
  let target_room := or_default (next_word args).1 current_room in
  if negb (non_empty target_room) || bool_decide (target_room = "lobby")
  then tell [send_system_notice o "usage: /room remove [room]"]
  else
    r ← section (remove_room_section o target_room);
    match r : option (list Z) with
    | None => tell [send_system_notice o "room remove denied: owner/admin only"]
    | Some moved =>
        for_each (λ k, tell [send_system_notice k ("room removed: " +:+ target_room)];; send_snapshot k "lobby") moved;;
        when (cc_redis config)
          (tell [ORedis (rcSrem "rooms:active" target_room); ORedis (rcDel ("room:password:" +:+ target_room));
                 ORedis (rcDel ("room:users:" +:+ target_room))]);;
        broadcast_refresh target_room;;
        broadcast_refresh "lobby";;
        tell [send_system_notice o ("room removed: " +:+ target_room)]
    end.
Definition slash_mute (o : Z) (args : string) (now : Z) : Chat unit :=
  let '(target_user, rest) := next_word args in
  if negb (non_empty target_user) then tell [send_system_notice o "usage: /mute <user> [seconds]"]
  else
    let duration := parse_duration_sec (next_word rest).1 (spam_mute_sec runtime) 5 86400 in
    allowed ← section (mute_section o target_user duration now);
    tell [send_system_notice o (if (allowed : bool)
            then "mute applied: user=" +:+ target_user +:+ " duration=" +:+ print_u64 duration +:+ "s" else "mute denied: admin only")].
Definition slash_unmute (o : Z) (args : string) : Chat unit :=
  let target_user := (next_word args).1 in
  if negb (non_empty target_user) then tell [send_system_notice o "usage: /unmute <user>"]
  else
    r ← section (unmute_section o target_user);
    tell [send_system_notice o match r : option bool with
            | None => "unmute denied: admin only"
            | Some true => "unmute applied: user=" +:+ target_user
            | Some false => "unmute no-op: user not muted"
            end].
Definition slash_ban (o : Z) (args : string) (now : Z) : Chat unit :=
  let '(target_user, rest) := next_word args in
  if negb (non_empty target_user) then tell [send_system_notice o "usage: /ban <user> [seconds]"]
  else
    let duration := parse_duration_sec (next_word rest).1 (spam_ban_sec runtime) 10 604800 in
    r ← section (ban_section o target_user duration now);
    match r : option (list Z) with
    | None => tell [send_system_notice o "ban denied: admin only"]
    | Some sessions =>
        tell (disconnect "temporarily banned" sessions
              ++ [send_system_notice o ("ban applied: user=" +:+ target_user +:+ " duration=" +:+ print_u64 duration +:+ "s")])
    end.
Definition slash_unban (o : Z) (args : string) : Chat unit :=
  let target_user := (next_word args).1 in
  if negb (non_empty target_user) then tell [send_system_notice o "usage: /unban <user>"]
  else
    r ← section (unban_section o target_user);
    tell [send_system_notice o match r : option bool with
            | None => "unban denied: admin only"
            | Some true => "unban applied: user=" +:+ target_user
            | Some false => "unban no-op: user not banned"
            end].
Definition slash_gkick (o : Z) (args : string) : Chat unit :=
  let target_user := (next_word args).1 in
  if negb (non_empty target_user) then tell [send_system_notice o "usage: /gkick <user>"]
  else
    r ← section (gkick_section o target_user);
    match r : option (list Z) with
    | None => tell [send_system_notice o "global kick denied: admin only"]
    | Some sessions =>
        tell (disconnect "disconnected by administrator" sessions
              ++ [send_system_notice o (if bool_decide (sessions = []) then "global kick target not found" else "global kick applied")])
    end.
Definition join_names (names : list string) : string := String.concat ", " names.
Definition slash_blacklist (o : Z) (text : string) : Chat unit :=
  actor ← gets (λ s, actor_name live s o);
  if negb (non_empty actor) || bool_decide (actor = "guest")
  then tell [send_system_notice o "blacklist denied: login required"]
  else
    let command := parse_blacklist_command text in
    let usage := tell [send_system_notice o "usage: /blacklist <add|remove|list> [user]"] in
    match bc_kind command with
    | bkList =>
        blocked ← gets (λ s, collect_blacklisted_users s actor);
        tell [send_system_notice o ("blacklist: " +:+ match blocked : list string with [] => "(empty)" | _ => join_names blocked end)]
    | bkInvalid => usage
    | kind =>
        if negb (non_empty (bc_target_user command)) then usage
        else if bool_decide (bc_target_user command = actor)
        then tell [send_system_notice o "blacklist denied: cannot target yourself"]
        else match kind with
        | bkAdd =>
            changed ← section (add_blacklist_entry actor (bc_target_user command));
            tell [send_system_notice o (if (changed : bool) then "blacklist add: " +:+ bc_target_user command else "blacklist add no-op")]
        | _ =>
            changed ← section (remove_blacklist_entry actor (bc_target_user command));
            tell [send_system_notice o (if (changed : bool) then "blacklist remove: " +:+ bc_target_user command
                                        else "blacklist remove no-op")]
        end
    end.
(** The prefixes are tried in the order of the source; [false]: not a command. *)
Definition try_handle_slash_command (o : Z) (current_room text : string) (a : ChatAnswers) : Chat bool :=
  let handled (m : Chat unit) : Chat bool := m;; mret true in
  let on_prefix (prefix : string) (k : string → Chat unit) (otherwise : Chat bool) : Chat bool :=
    match after_prefix prefix text with Some args => handled (k args) | None => otherwise end in
  if negb (String.prefix "/" text) then mret false
  else if bool_decide (text = "/refresh") then handled (handle_refresh o (ca_last_id a))
  else if bool_decide (text = "/rooms") then handled (send_rooms_list o)
  else
    on_prefix "/who" (λ rest, send_room_users o (default current_room (after_spaces rest)) (ca_redis_names a)) $
    on_prefix "/whisper " (λ args, slash_whisper o args (ca_published a)) $
    on_prefix "/w " (λ args, slash_whisper o args (ca_published a)) $
    on_prefix "/invite " (slash_invite o current_room) $
    on_prefix "/kick " (slash_kick o current_room) $
    on_prefix "/room remove" (slash_room_remove o current_room) $
    on_prefix "/mute " (λ args, slash_mute o args (ca_now a)) $
    on_prefix "/unmute " (slash_unmute o) $
    on_prefix "/ban " (λ args, slash_ban o args (ca_now a)) $
    on_prefix "/unban " (slash_unban o) $
    on_prefix "/gkick " (slash_gkick o) $
    on_prefix "/block " (λ _, slash_blacklist o text) $
    on_prefix "/unblock " (λ _, slash_blacklist o text) $
    on_prefix "/blacklist" (λ _, slash_blacklist o text) $
    mret false.

(** ** Sending a message *)
Definition chat_guard (o : Z) (room : string) (s : ChatServiceState) : ChatServiceState * (list Out * option string) :=
  let a := ptr live o in
  if bool_decide (a ∉ authed s) then (s, ([send_error_to o UNAUTHORIZED "unauthorized"], None))
  else match cur_room s !! a with
  | None => (s, ([send_error_to o NO_ROOM "no current room"], None))
  | Some authoritative =>
      if non_empty room && bool_decide (room ≠ authoritative) then (s, ([send_error_to o ROOM_MISMATCH "room mismatch"], None))
      else (s, ([], Some authoritative))
  end.
(** What the sender and, after a ban, the sessions of the name are told. *)
Definition refusal (o : Z) (r : ChatSendModerationResult) : list Out :=
  if bool_decide (mr_sender r = "guest") then [send_error_to o UNAUTHORIZED "guest cannot chat"]
  else
    let told := [send_system_notice o (moderation_reason r); send_error_to o FORBIDDEN (moderation_reason r)] in
    if sender_is_banned r then told ++ [OStop o]
    else if sender_is_muted r then told
    else told ++ if spam_escalated_to_ban r then disconnect (moderation_reason r) (penalized_sessions r) else [].
Definition chat_job (o sid : Z) (room text : string) (a : ChatAnswers) : Chat unit :=
  if bool_decide (text = "/refresh") then handle_refresh o (ca_last_id a)
  else
    current_room ← guarded (chat_guard o room);
    handled ← try_handle_slash_command o current_room text a;
    if (handled : bool) then mret tt
    else
      r ← section (evaluate_chat_send_moderation live runtime o (ca_now a));
      if passes r then
        tell (send_system_notice o <$> filter (λ n, n ≠ EmptyString) (ca_hook_notices a));;
        if ca_hook_stops a then mret tt
        else dispatch_room_message o sid current_room (mr_sender r) (ca_hook_text a text) (ca_message_id a)
      else tell (refusal o r).
Definition on_chat_send (o sid : Z) (payload : list Z) (queued : bool) (a : ChatAnswers) : Chat unit :=
  match read_text payload with
  | None => return_ [send_error_to o INVALID_PAYLOAD "bad chat payload"]
  | Some (room, rest) =>
      match read_text rest with
      | None => return_ [send_error_to o INVALID_PAYLOAD "bad chat payload"]
      | Some (text, _) => if queued then chat_job o sid room text a else return_ [send_error_to o SERVER_BUSY "server busy"]
      end
  end.
Definition on_whisper (o : Z) (payload : list Z) (queued published : bool) : Chat unit :=
  match read_text payload with
  | None => return_ [send_error_to o INVALID_PAYLOAD "bad whisper payload"]
  | Some (target, rest) =>
      match read_text rest with
      | None => return_ [send_error_to o INVALID_PAYLOAD "bad whisper payload"]
      | Some (text, _) => if queued then dispatch_whisper o target text published
                          else return_ [send_error_to o SERVER_BUSY "server busy"]
      end
  end.
Definition on_room_users_request (o : Z) (payload : list Z) (queued : bool) (redis_names : option (list string)) : Chat unit :=
  let requested := match read_text payload with Some (r, _) => r | None => EmptyString end in
  if queued then
    current ← gets (λ s, default "lobby" (cur_room s !! ptr live o));
    send_room_users o (or_default requested current) redis_names
  else return_ [send_error_to o SERVER_BUSY "server busy"].
Definition on_rooms_request (o : Z) (queued : bool) : Chat unit :=
  if queued then send_rooms_list o else return_ [send_error_to o SERVER_BUSY "server busy"].
Definition on_refresh_request (o : Z) (queued : bool) (last_id : Z) : Chat unit :=
  if queued then handle_refresh o last_id else return_ [send_error_to o SERVER_BUSY "server busy"].
Definition on_ping (o : Z) (payload : list Z) : Chat unit :=
  tell [OSend o (mPong payload)];;
  is_authed ← gets (λ s, bool_decide (ptr live o ∈ authed s));
  when is_authed (uid ← gets (λ s, text_at (user_uuid s) (ptr live o)); tell (touch_user_presence uid)).
(** A broadcast received from another server. *)
Definition broadcast_room (room sender text : string) (sid : Z) : Chat unit :=
  targets ← section (collect_room_targets live room sender);
  tell ((λ t, OSend t (mChat room sender text sid 0)) <$> targets).
End Handlers.
