(* ===== verification/ChatAdmin.v ===== *)
(** * Administration of the chat service

    The control-plane commands and the functions offered to Lua scripts in
    [server/chat/chat_service_core.cpp], and the settings that can be changed at
    run time ([core/config/runtime_settings.hpp]).  Whether a hook denies a command
    and whether the job queue takes it are inputs; [ChatWorld] interleaves the
    sections with those of the handlers, and [ChatBans] shows that bans hold and
    that settings stay in range. *)
From S2P Require Import Prelude Containers Text Packet ChatState ChatHandlers.
From stdpp Require Import list gmap strings.
Open Scope Z_scope.
Open Scope record_scope.

(** ** Payloads for hooks *)
Definition backslash : char := of_code 92.
Definition quote : char := of_code 34.
Definition json_escape_char (c : char) : string :=
  if code c =? 92 then String backslash (String backslash EmptyString)
  else if code c =? 34 then String backslash (String quote EmptyString)
  else if code c =? 10 then String backslash "n"
  else if code c =? 13 then String backslash "r"
  else if code c =? 9 then String backslash "t"
  else String c EmptyString.
Fixpoint json_escape (value : string) : string :=
  match value with EmptyString => EmptyString | String c value => json_escape_char c +:+ json_escape value end.
Definition json_quoted (value : string) : string := String quote (json_escape value) +:+ String quote EmptyString.
Definition json_array_of_strings (values : list string) : string := "[" +:+ String.concat "," (json_quoted <$> values) +:+ "]".
Definition json_text_field (name value : string) : string := json_quoted name +:+ ":" +:+ json_quoted value.

(** ** Settings *)
Inductive RuntimeSettingKey :=
  | kPresenceTtlSec | kRecentHistoryLimit | kRoomRecentMaxlen | kChatSpamThreshold | kChatSpamWindowSec | kChatSpamMuteSec
  | kChatSpamBanSec | kChatSpamBanViolations.
Record RuntimeSettingRule := { rl_key_id : RuntimeSettingKey; rl_key_name : string; rl_min_value : Z; rl_max_value : Z }.
Definition rule (key : RuntimeSettingKey) (name : string) (min max : Z) : RuntimeSettingRule :=
  {| rl_key_id := key; rl_key_name := name; rl_min_value := min; rl_max_value := max |}.
Definition kRuntimeSettingRules : list RuntimeSettingRule :=
  [rule kPresenceTtlSec "presence_ttl_sec" 5 3600;
   rule kRecentHistoryLimit "recent_history_limit" 5 2000;
   rule kRoomRecentMaxlen "room_recent_maxlen" 5 5000;
   rule kChatSpamThreshold "chat_spam_threshold" 3 100;
   rule kChatSpamWindowSec "chat_spam_window_sec" 1 120;
   rule kChatSpamMuteSec "chat_spam_mute_sec" 5 86400;
   rule kChatSpamBanSec "chat_spam_ban_sec" 10 604800;
   rule kChatSpamBanViolations "chat_spam_ban_violations" 1 20].
Definition find_runtime_setting_rule (key : string) : option RuntimeSettingRule :=
  head (filter (λ r, rl_key_name r = key) kRuntimeSettingRules).
(** [parse_u32]: [std::stoull], the whole text, at most 32 bits. *)
Definition unsigned_part (raw : string) : string :=
  match raw with String c rest => if (code c =? 45) || (code c =? 43) then rest else raw | EmptyString => raw end.
Definition parse_u32 (raw : string) : option Z :=
  match stoul raw with
  | Some n => if bool_decide (digit_prefix (unsigned_part raw) = unsigned_part raw) && (n <? 2 ^ 32) then Some n else None
  | None => None
  end.
(** The settings: presence, history and the spam limits of the runtime state. *)
Record Tunables := mkTunables {
  presence_ttl : Z;
  recent_limit : Z;
  max_list_len : Z;
  spam : ChatServiceRuntimeState;
}.
#[export] Instance eta_tunables : Eta Tunables := λ t, mkTunables (presence_ttl t) (recent_limit t) (max_list_len t) (spam t).
#[export] Instance eta_runtime : Eta ChatServiceRuntimeState := λ r,
  {| admin_users := admin_users r; spam_message_threshold := spam_message_threshold r; spam_window_sec := spam_window_sec r;
     spam_mute_sec := spam_mute_sec r; spam_ban_sec := spam_ban_sec r; spam_ban_violation_threshold := spam_ban_violation_threshold r |}.
Definition apply_setting (key : RuntimeSettingKey) (n : Z) (t : Tunables) : Tunables :=
  match key with
  | kPresenceTtlSec => t <| presence_ttl := n |>
  | kRecentHistoryLimit =>
      let t := t <| recent_limit := n |> in if max_list_len t <? n then t <| max_list_len := n |> else t
  | kRoomRecentMaxlen => t <| max_list_len := n |>
  | kChatSpamThreshold => t <| spam ::= set spam_message_threshold (λ _, n) |>
  | kChatSpamWindowSec => t <| spam ::= set spam_window_sec (λ _, n) |>
  | kChatSpamMuteSec => t <| spam ::= set spam_mute_sec (λ _, n) |>
  | kChatSpamBanSec => t <| spam ::= set spam_ban_sec (λ _, n) |>
  | kChatSpamBanViolations => t <| spam ::= set spam_ban_violation_threshold (λ _, n) |>
  end.
Inductive SettingOutcome := soIgnored | soDenied | soDropped | soInvalidValue | soUnsupportedKey | soOutOfRange | soApplied (n : Z).
Definition setting_job (key value : string) (t : Tunables) : Tunables * SettingOutcome :=
  match parse_u32 (trim value) with
  | None => (t, soInvalidValue)
  | Some n =>
      match find_runtime_setting_rule (lower (trim key)) with
      | None => (t, soUnsupportedKey)
      | Some r =>
          let min_allowed := match rl_key_id r with
                             | kRoomRecentMaxlen => Z.max (rl_min_value r) (u32 (recent_limit t))
                             | _ => rl_min_value r
                             end in
          if (n <? min_allowed) || (rl_max_value r <? n) then (t, soOutOfRange)
          else (apply_setting (rl_key_id r) n t, soApplied n)
      end
  end.
Definition setting_payload (key value : string) : string :=
  "{" +:+ json_text_field "key" key +:+ "," +:+ json_text_field "value" value +:+ "}".
(** [denies]: the hook, given the command, payload and arguments. *)
Definition admin_apply_runtime_setting (denies : string → string → string → bool) (queued : bool) (key value : string) (t : Tunables)
    : Tunables * SettingOutcome :=
  if negb (non_empty key) || negb (non_empty value) then (t, soIgnored)
  else if denies "apply_runtime_setting" (setting_payload key value) (key +:+ "=" +:+ value) then (t, soDenied)
  else if queued then setting_job key value t else (t, soDropped).

Section Admin.
Context `{WO : WeakOrder} `{MI : !MapIteration string}.
Context (live : gmap Z Z) (runtime : ChatServiceRuntimeState).

(** ** Users *)
(** [seen.insert(session.get()).second] for each session in turn. *)
Definition add_unseen (acc : list Z) (c : Z) : list Z := if bool_decide (ptr live c ∈ ptr live <$> acc) then acc else acc ++ [c].
Definition add_user_sessions (name : string) (st : ChatServiceState * list Z) : ChatServiceState * list Z :=
  let '(s, acc) := st in let '(s, sessions) := user_sessions live name s in (s, foldl add_unseen acc sessions).
Definition disconnect_one (st : ChatServiceState * list Z) (name : string) : ChatServiceState * list Z :=
  let '(s, acc) := st in
  let '(s, sessions) := user_sessions live name s in
  (s, foldl add_unseen acc (filter (λ c, eligible live s c = true) sessions)).
Definition disconnect_section (users : list string) (s : ChatServiceState) : ChatServiceState * list Z :=
  foldl disconnect_one (s, []) users.
Definition disconnect_payload (users : list string) (reason : string) : string :=
  "{" +:+ json_quoted "users" +:+ ":" +:+ json_array_of_strings users +:+ "," +:+ json_text_field "reason" reason +:+ "}".
Definition stop_each (notice : string) (sessions : list Z) : list Out :=
  concat ((λ c, (if non_empty notice then [send_system_notice c notice] else []) ++ [OStop c]) <$> sessions).
Definition admin_disconnect_users (denies : string → string → string → bool) (queued : bool) (users : list string) (reason : string)
    : Chat unit :=
  let targets := filter (λ u, u ≠ EmptyString) users in
  if bool_decide (targets = []) then mret tt
  else if denies "disconnect_users" (disconnect_payload targets reason) EmptyString then mret tt
  else if queued then sessions ← section (disconnect_section targets); tell (stop_each reason sessions)
  else mret tt.

(** One user of a moderation command; unknown operations do nothing. *)
Definition moderate_one (op reason : string) (duration now : Z) (st : ChatServiceState * list Z) (name : string)
    : ChatServiceState * list Z :=
  let '(s, acc) := st in
  if bool_decide (op = "mute") then
    let expires := now + seconds (if 0 <? duration then duration else spam_mute_sec runtime) in
    (s <| muted_users ::= <[name := {| expires_at := expires; penalty_reason := or_default reason "muted by administrator" |}]> |>, acc)
  else if bool_decide (op = "unmute") then (s <| muted_users ::= delete name |>, acc)
  else if bool_decide (op = "ban") then
    let expires := now + seconds (if 0 <? duration then duration else spam_ban_sec runtime) in
    add_user_sessions name
      (ban_last_seen name expires
         (s <| banned_users ::= <[name := {| expires_at := expires; penalty_reason := or_default reason "banned by administrator" |}]> |>), acc)
  else if bool_decide (op = "unban") then
    let s := s <| banned_users ::= delete name |> in
    let s := match user_last_ip s !! name with
             | Some ip => if non_empty ip then s <| banned_ips ::= delete ip |> else s
             | None => s
             end in
    (match user_last_hwid_hash s !! name with
     | Some h => if non_empty h then s <| banned_hwid_hashes ::= delete h |> else s
     | None => s
     end, acc)
  else if bool_decide (op = "kick") then add_user_sessions name (s, acc)
  else (s, acc).
Definition moderation_section (op reason : string) (duration now : Z) (users : list string) (s : ChatServiceState)
    : ChatServiceState * list Z :=
  foldl (moderate_one op reason duration now) (s, []) users.
Definition moderation_job (op reason : string) (duration now : Z) (users : list string) : Chat unit :=
  sessions ← section (moderation_section op reason duration now users);
  when (bool_decide (op = "ban") || bool_decide (op = "kick"))
    (tell (disconnect (or_default reason (if bool_decide (op = "ban") then "temporarily banned" else "disconnected by administrator")) sessions)).
Definition moderation_targets (users : list string) : list string := filter (λ u, u ≠ EmptyString) (trim <$> users).
Definition moderation_payload (op reason : string) (duration : Z) (users : list string) : string :=
  "{" +:+ json_text_field "op" op +:+ "," +:+ json_quoted "users" +:+ ":" +:+ json_array_of_strings users +:+ ","
  +:+ json_quoted "duration_sec" +:+ ":" +:+ print_u64 duration +:+ "," +:+ json_text_field "reason" reason +:+ "}".
Definition admin_apply_user_moderation (denies : string → string → string → bool) (queued : bool) (op : string) (users : list string)
    (duration now : Z) (reason : string) : Chat unit :=
  let targets := moderation_targets users in
  if negb (non_empty op) || bool_decide (targets = []) then mret tt
  else if denies "apply_user_moderation" (moderation_payload op reason duration targets) op then mret tt
  else if queued then moderation_job (lower (trim op)) (trim reason) duration now targets
  else mret tt.
(** The result is whether the job was queued. *)
Definition apply_user_moderation_without_hook (queued : bool) (op : string) (users : list string) (duration now : Z) (reason : string)
    : Chat bool :=
  let targets := moderation_targets users in
  if negb (non_empty op) || bool_decide (targets = []) then mret false
  else if queued then moderation_job (lower (trim op)) (trim reason) duration now targets;; mret true
  else mret false.

(** ** Everyone *)
Definition everyone_in (st : ChatServiceState * list Z) (entry : string * gset Z) : ChatServiceState * list Z :=
  let '(s, acc) := st in
  let '(room, X) := entry in
  (s <| rooms ::= <[room := prune live X]> |>, foldl add_unseen acc (filter (λ c, eligible live s c = true) (locked live X))).
Definition collect_authenticated_session_targets (s : ChatServiceState) : ChatServiceState * list Z :=
  foldl everyone_in (s, []) (iterate (rooms s)).
Definition notify_everyone (notice : string) : Chat unit :=
  sessions ← section collect_authenticated_session_targets; tell ((λ c, send_system_notice c notice) <$> sessions).
Definition admin_broadcast_notice (denies : string → string → string → bool) (queued : bool) (text : string) : Chat unit :=
  if negb (non_empty text) then mret tt
  else if denies "announce" ("{" +:+ json_text_field "text" text +:+ "}") text then mret tt
  else when queued (notify_everyone text).
Definition broadcast_notice_to_all_sessions (queued : bool) (notice : string) : Chat bool :=
  if negb (non_empty notice) then mret false
  else if queued then notify_everyone notice;; mret true else mret false.

(** ** Functions for scripts *)
Definition find_session_by_id (session_id : Z) (s : ChatServiceState) : ChatServiceState * option Z :=
  if session_id =? 0 then (s, None)
  else match by_session_id s !! session_id with
  | Some o => if decide (alive live o) then (s, Some o) else (s <| by_session_id ::= delete session_id |>, None)
  | None => (s, None)
  end.
Definition lua_lookup (table : ChatServiceState → gmap Z string) (session_id : Z) (s : ChatServiceState) : ChatServiceState * option string :=
  let '(s, o) := find_session_by_id session_id s in (s, o ← o; table s !! ptr live o).
Definition lua_get_user_name : Z → ChatServiceState → ChatServiceState * option string := lua_lookup user.
Definition lua_get_user_room : Z → ChatServiceState → ChatServiceState * option string := lua_lookup cur_room.
Definition collect_authenticated_room_user_names (room : string) (s : ChatServiceState) : ChatServiceState * list string :=
  match rooms s !! room with
  | None => (s, [])
  | Some X =>
      (s <| rooms ::= <[room := prune live X]> |>,
       remove_dups (sort_names (omap (λ c, user s !! ptr live c) (filter (λ c, eligible live s c = true) (locked live X)))))
  end.
Definition lua_get_room_users (room : string) (s : ChatServiceState) : ChatServiceState * list string :=
  if non_empty room then collect_authenticated_room_user_names room s else (s, []).
Definition lua_get_room_list (s : ChatServiceState) : list string := sort_names (iterate (rooms s)).*1.
Definition lua_get_room_owner (room : string) (s : ChatServiceState) : option string :=
  if non_empty room then find_room_owner s room else None.
Definition lua_is_user_muted (name : string) (now : Z) (s : ChatServiceState) : ChatServiceState * bool :=
  if non_empty name then
    let '(muted, r) := check_penalty (muted_users s) name now "muted" in (s <| muted_users := muted |>, bool_decide (is_Some r))
  else (s, false).
Definition lua_is_user_banned (name : string) (now : Z) (s : ChatServiceState) : ChatServiceState * bool :=
  if non_empty name then
    let '(banned, r) := check_penalty (banned_users s) name now "banned" in (s <| banned_users := banned |>, bool_decide (is_Some r))
  else (s, false).
Definition lua_get_online_count (s : ChatServiceState) : nat :=
  size (list_to_set (filter (λ n, n ≠ EmptyString)
    (snd <$> filter (λ p, p.1 ∈ authed s ∧ p.1 ∉ guest s) (map_to_list (user s)))) : gset string).
Definition lua_send_notice (session_id : Z) (text : string) : Chat bool :=
  if (session_id =? 0) || negb (non_empty text) then mret false
  else o ← section (find_session_by_id session_id);
       match o with Some o => tell [send_system_notice o text];; mret true | None => mret false end.
Definition lua_broadcast_room (room text : string) : Chat bool :=
  if negb (non_empty room) || negb (non_empty text) then mret false
  else exists_ ← gets (λ s, room_exists s room);
       if (exists_ : bool) then
         broadcast_room live room "(system)" text 0;; mret true
       else mret false.
Definition lua_kick_user (session_id : Z) (reason : string) : Chat bool :=
  if session_id =? 0 then mret false
  else o ← section (find_session_by_id session_id);
       match o with Some o => tell (stop_each reason [o]);; mret true | None => mret false end.
Definition lua_mute_user (queued : bool) (name : string) (duration now : Z) (reason : string) : Chat bool :=
  if non_empty name then apply_user_moderation_without_hook queued "mute" [name] duration now reason else mret false.
Definition lua_ban_user (queued : bool) (name : string) (duration now : Z) (reason : string) : Chat bool :=
  if non_empty name then apply_user_moderation_without_hook queued "ban" [name] duration now reason else mret false.
End Admin.
