(* ===== verification/ChatFrames.v ===== *)
(** * What the sections leave alone

    Tables that a group of sections does not write.  A projection of the state is
    [Framed] when the upkeep of rooms and names does not show in it, [Settled] when
    moving a session does not either, and [Lenient] when penalties do not; a
    section then keeps it, whatever else it does. *)
From S2P Require Import Prelude Containers Text Packet ChatState ChatHandlers ChatAdmin.
From stdpp Require Import list gmap strings.
Open Scope Z_scope.
Open Scope record_scope.

Class Framed {T} (f : ChatServiceState → T) : Prop := {
  fr_rooms g s : f (s <| rooms ::= g |>) = f s;
  fr_passwords g s : f (s <| room_passwords ::= g |>) = f s;
  fr_owners g s : f (s <| room_owners ::= g |>) = f s;
  fr_invites g s : f (s <| room_invites ::= g |>) = f s;
  fr_by_user g s : f (s <| by_user ::= g |>) = f s;
}.
Class Settled {T} (f : ChatServiceState → T) : Prop := {
  st_framed :: Framed f;
  st_cur g s : f (s <| cur_room ::= g |>) = f s;
}.
Class Lenient {T} (f : ChatServiceState → T) : Prop := {
  le_framed :: Framed f;
  le_muted g s : f (s <| muted_users ::= g |>) = f s;
  le_banned g s : f (s <| banned_users ::= g |>) = f s;
  le_ips g s : f (s <| banned_ips ::= g |>) = f s;
  le_hwids g s : f (s <| banned_hwid_hashes ::= g |>) = f s;
  le_events g s : f (s <| spam_events ::= g |>) = f s;
  le_violations g s : f (s <| spam_violations ::= g |>) = f s;
}.
Ltac framed := repeat constructor; intros; reflexivity.
#[export] Instance user_settled : Settled user. Proof. framed. Qed.
#[export] Instance user_lenient : Lenient user. Proof. framed. Qed.
#[export] Instance cur_room_lenient : Lenient cur_room. Proof. framed. Qed.
#[export] Instance blacklists_settled : Settled user_blacklists. Proof. framed. Qed.
#[export] Instance blacklists_lenient : Lenient user_blacklists. Proof. framed. Qed.
#[export] Instance banned_settled : Settled banned_users. Proof. framed. Qed.
#[export] Instance authed_settled : Settled authed. Proof. framed. Qed.
#[export] Instance authed_lenient : Lenient authed. Proof. framed. Qed.

Section Frames.
Context `{WO : WeakOrder} `{MI : !MapIteration string}.
Context (live : gmap Z Z) (runtime : ChatServiceRuntimeState).
Context {T : Type} (f : ChatServiceState → T).

Section Framed.
Context `{!Framed f}.
Lemma targets_framed room sender s : f (collect_room_targets live room sender s).1 = f s.
Proof. unfold collect_room_targets. destruct (rooms s !! room); [apply fr_rooms|done]. Qed.
Lemma erase_framed room s : f (erase_room_metadata room s) = f s.
Proof. unfold erase_room_metadata. by rewrite fr_invites, fr_owners, fr_passwords, fr_rooms. Qed.
Lemma remove_framed o room sender s : f (remove_session_from_room live o room sender s).1 = f s.
Proof.
  unfold remove_session_from_room. destruct (rooms s !! room) as [X|]; [|done].
  match goal with |- context [collect_room_targets live room sender ?t] =>
    pose proof (targets_framed room sender t) as Ht; destruct (collect_room_targets live room sender t) as [s1 targets] end.
  cbn [fst] in Ht. rewrite fr_rooms in Ht. repeat case_match; cbn [fst]; by rewrite ?erase_framed, ?fr_owners.
Qed.
Lemma sessions_framed name s : f (user_sessions live name s).1 = f s.
Proof. unfold user_sessions. destruct (by_user s !! name); [apply fr_by_user|done]. Qed.
Lemma summaries_framed s : f (collect_local_room_summaries live s).1 = f s.
Proof.
  unfold collect_local_room_summaries. enough (H : ∀ l st, f (foldl (summarize live) st l).1 = f st.1) by apply (H _ (s, [])).
  induction l as [|[r X] l IH]; intros [t acc]; [done|]. cbn [foldl]. rewrite IH. unfold summarize.
  case_match; cbn [fst]; by rewrite ?erase_framed, fr_rooms.
Qed.
Lemma everyone_framed s : f (collect_authenticated_session_targets live s).1 = f s.
Proof.
  unfold collect_authenticated_session_targets. enough (H : ∀ l st, f (foldl (everyone_in live) st l).1 = f st.1) by apply (H _ (s, [])).
  induction l as [|[r X] l IH]; intros [t acc]; [done|]. cbn [foldl]. rewrite IH. apply fr_rooms.
Qed.
Lemma disconnect_framed users s : f (disconnect_section live users s).1 = f s.
Proof.
  unfold disconnect_section. change s with (s, @nil Z).1 at 2. generalize (s, @nil Z). induction users as [|n users IH]; intros [t acc]; [done|].
  cbn [foldl]. rewrite IH. unfold disconnect_one. pose proof (sessions_framed n t). by destruct (user_sessions live n t).
Qed.
Lemma names_framed room s : f (collect_room_user_names live room s).1 = f s.
Proof. unfold collect_room_user_names. destruct (rooms s !! room); [apply fr_rooms|done]. Qed.
Lemma contains_framed room o s : f (room_contains_session live room o s).1 = f s.
Proof. unfold room_contains_session. destruct (rooms s !! room); [apply fr_rooms|done]. Qed.
Lemma room_names_framed room s : f (collect_authenticated_room_user_names live room s).1 = f s.
Proof. unfold collect_authenticated_room_user_names. destruct (rooms s !! room); [apply fr_rooms|done]. Qed.
Lemma invite_framed o name room s : f (invite_section live runtime o name room s).1 = f s.
Proof. unfold invite_section. destruct (actor_can_manage_room _ _ _ _ _); [apply fr_invites|done]. Qed.
Lemma unique_framed o desired names s : f (ensure_unique_or_error live o desired names s).1 = f s.
Proof. unfold ensure_unique_or_error. repeat case_match; cbn [fst]; by rewrite ?fr_by_user. Qed.
Lemma add_sessions_framed name st : f (add_user_sessions live name st).1 = f st.1.
Proof. destruct st as [s acc]. unfold add_user_sessions. pose proof (sessions_framed name s). by destruct (user_sessions live name s). Qed.
Lemma drop_name_framed o name s : f (remove_from_name o name s) = f s.
Proof. unfold remove_from_name. case_match; [apply fr_by_user|done]. Qed.
End Framed.

Section Settled.
Context `{!Settled f}.
Lemma place_settled o room sender consume assign s : f (place_session_in_room live o room sender consume assign s) = f s.
Proof.
  unfold place_session_in_room. destruct (_ || _); [by rewrite fr_rooms, st_cur|].
  repeat (case_match; try done); by rewrite ?fr_invites, ?fr_owners, fr_rooms, st_cur.
Qed.
Lemma join_settled sha legacy o room password redis_password hook s :
  f (join_section live runtime sha legacy o room password redis_password hook s).1 = f s.
Proof.
  unfold join_section. case_bool_decide; [done|]. destruct (maybe_handle_hook _ _ _) as [n [|]]; [done|]. cbv zeta.
  set (s1 := match redis_password with Some _ => _ | None => s end).
  assert (f s1 = f s) as Hs1 by (subst s1; case_match; by rewrite ?fr_passwords).
  clearbody s1. destruct (_ && negb _); [done|]. destruct (join_password _ _ _ _ _) as [h|]; [|done].
  match goal with |- context [collect_room_targets live room ?n ?t] =>
    pose proof (targets_framed room n t) as Ht; destruct (collect_room_targets live room n t) as [s2 targets] end.
  cbn [fst] in *. rewrite Ht, place_settled. destruct h; repeat case_match; by rewrite ?remove_framed, ?fr_passwords.
Qed.
Lemma leave_settled o room hook s : f (leave_section live o room hook s).1 = f s.
Proof.
  unfold leave_section. case_bool_decide; [done|]. destruct (cur_room s !! _) as [cur|]; [|done]. destruct (_ && _); [done|].
  destruct (room_exists s cur); [|cbn [fst]; by rewrite place_settled]. destruct (maybe_handle_hook _ _ _) as [n [|]]; [done|].
  pose proof (remove_framed o cur (actor_name live s o) s) as Hr.
  destruct (remove_session_from_room _ _ _ _ _) as [s' targets]. cbn [fst] in *. by rewrite place_settled.
Qed.
Lemma kick_settled o name room s : f (kick_section live runtime o name room s).1 = f s.
Proof.
  unfold kick_section. destruct (actor_can_manage_room _ _ _ _ _); [|done].
  pose proof (sessions_framed name s) as Hs. destruct (user_sessions live name s) as [s1 l]. cbn [fst] in Hs.
  assert (H : ∀ l st, f (foldl (kick_one live name room) st l).1 = f st.1).
  { clear l Hs s1. induction l as [|c l IH]; intros [t k]; [done|]. cbn [foldl]. rewrite IH. unfold kick_one.
    case_bool_decide; [|done]. cbn [fst]. by rewrite place_settled, remove_framed. }
  specialize (H l (s1, [])). destruct (foldl _ _ _) as [s2 k]. cbn [fst] in *. congruence.
Qed.
Lemma remove_room_settled o room s : f (remove_room_section live runtime o room s).1 = f s.
Proof.
  unfold remove_room_section. destruct (actor_can_manage_room _ _ _ _ _); [|done].
  assert (H : ∀ l t, f (foldl (λ s c, place_session_in_room live c "lobby" "guest" false true s) t l) = f t).
  { induction l as [|c l IH]; intros t; [done|]. cbn [foldl]. by rewrite IH, place_settled. }
  destruct (rooms s !! room) as [X|]; cbn [fst]; rewrite fr_invites, fr_owners, fr_passwords; [|done]. by rewrite fr_rooms, H.
Qed.
End Settled.

Section Lenient.
Context `{!Lenient f}.
Lemma ban_seen_lenient name expires s : f (ban_last_seen name expires s) = f s.
Proof. unfold ban_last_seen. repeat case_match; by rewrite ?le_hwids, ?le_ips. Qed.
Lemma moderate_lenient o now s : f (evaluate_chat_send_moderation live runtime o now s).1 = f s.
Proof.
  unfold evaluate_chat_send_moderation. case_bool_decide; [done|]. destruct (check_penalty _ _ _ _).
  destruct (check_penalty (banned_users _) _ _ _). destruct (_ || _); [cbn [fst]; by rewrite le_banned, le_muted|].
  destruct (_ <=? _); [cbn [fst]; by rewrite le_events, le_banned, le_muted|]. destruct (_ <=? _).
  - match goal with |- context [user_sessions live ?n ?t] => pose proof (sessions_framed n t) as Hs; destruct (user_sessions live n t) end.
    cbn [fst] in *. by rewrite Hs, ban_seen_lenient, le_banned, le_violations, le_events, le_banned, le_muted.
  - cbn [fst]. by rewrite le_muted, le_violations, le_events, le_banned, le_muted.
Qed.
Lemma ban_lenient o name duration now s : f (ban_section live runtime o name duration now s).1 = f s.
Proof.
  unfold ban_section. destruct (actor_is_admin _ _ _ _); [|done].
  match goal with |- context [user_sessions live ?n ?t] => pose proof (sessions_framed n t) as Hs; destruct (user_sessions live n t) end.
  cbn [fst] in *. by rewrite Hs, ban_seen_lenient, le_banned.
Qed.
Lemma mute_lenient o name duration now s : f (mute_section live runtime o name duration now s).1 = f s.
Proof. unfold mute_section. destruct (actor_is_admin _ _ _ _); [apply le_muted|done]. Qed.
Lemma unmute_lenient o name s : f (unmute_section live runtime o name s).1 = f s.
Proof. unfold unmute_section. destruct (actor_is_admin _ _ _ _); [apply le_muted|done]. Qed.
Lemma unban_lenient o name s : f (unban_section live runtime o name s).1 = f s.
Proof.
  unfold unban_section. destruct (actor_is_admin _ _ _ _); [|done].
  repeat (case_match; simplify_eq); cbn [fst]; by rewrite ?le_hwids, ?le_ips, le_banned.
Qed.
Lemma moderate_users_lenient op reason duration now users s : f (moderation_section live runtime op reason duration now users s).1 = f s.
Proof.
  unfold moderation_section. change s with (s, @nil Z).1 at 2. generalize (s, @nil Z). induction users as [|n users IH]; intros st; [done|].
  cbn [foldl]. rewrite IH. destruct st as [t acc]. unfold moderate_one. repeat case_bool_decide; cbn [fst]; rewrite ?add_sessions_framed; cbn [fst];
    rewrite ?ban_seen_lenient, ?le_banned, ?le_muted; try done. repeat case_match; by rewrite ?le_hwids, ?le_ips, ?le_banned.
Qed.
Lemma ban_check_lenient name ip hwid now s : f (login_ban_check name ip hwid now s).1 = f s.
Proof.
  unfold login_ban_check. destruct (check_penalty _ _ _ _) as [banned reason].
  set (s1 := s <| banned_users := banned |>). assert (H1 : f s1 = f s) by apply le_banned. clearbody s1.
  destruct (_ && non_empty ip); [destruct (check_expiry _ ip _) as [ips hit]|]; destruct (_ && non_empty hwid);
    try destruct (check_expiry _ hwid _) as [hwids hit']; cbn [fst]; by rewrite ?le_hwids, ?le_ips.
Qed.
Lemma is_muted_lenient name now s : f (lua_is_user_muted name now s).1 = f s.
Proof. unfold lua_is_user_muted. case_match; [|done]. destruct (check_penalty _ _ _ _). apply le_muted. Qed.
Lemma is_banned_lenient name now s : f (lua_is_user_banned name now s).1 = f s.
Proof. unfold lua_is_user_banned. case_match; [|done]. destruct (check_penalty _ _ _ _). apply le_banned. Qed.
End Lenient.
End Frames.

(** [autorewrite with frames]: every section the projection does not show. *)
#[export] Hint Rewrite @targets_framed @remove_framed @sessions_framed @summaries_framed @everyone_framed @disconnect_framed @names_framed
  @contains_framed @room_names_framed @invite_framed @unique_framed using apply _ : frames.
#[export] Hint Rewrite @join_settled @leave_settled @kick_settled @remove_room_settled using apply _ : frames.
#[export] Hint Rewrite @moderate_lenient @ban_lenient @mute_lenient @unmute_lenient @unban_lenient @moderate_users_lenient @ban_check_lenient
  @is_muted_lenient @is_banned_lenient using apply _ : frames.
