(* ===== verification/ChatWorld.v ===== *)
(** * The chat service under concurrency

    The jobs of [ChatHandlers] run on several worker threads, and sessions come
    and go.  A step is one section under the mutex (or the creation or destruction
    of a session object), so every interleaving of jobs is a sequence of steps.  A
    session object is destroyed only after its close section ran, and its address
    may then be given to a new one.

    Shown: as long as each session logs in at most once, before its close section
    runs and under a name that is still free, the tables describe the sessions
    exactly ([ChatInvariant]); [ChatRaces] states this as a property of runs and
    gives runs that break the tables when one of these conditions is dropped. *)
From S2P Require Import Prelude Containers Text Packet ChatState ChatHandlers ChatAdmin.
From stdpp Require Import list gmap strings.
Open Scope Z_scope.
Open Scope record_scope.

Record World := { w_chat : ChatServiceState; w_live : gmap Z Z; w_used : gset Z; w_closed : gset Z }.
Definition world_new : World := {| w_chat := chat_state_new; w_live := ∅; w_used := ∅; w_closed := ∅ |}.
Inductive Step :=
  | SpAccept (o a : Z)
  | SpDestroy (o : Z)
  | SpUuid (o : Z) (fresh : string)
  | SpRegister (o session_id : Z)
  | SpUnique (o : Z) (desired : string) (names : list string)
  | SpBanCheck (o : Z) (name ip hwid : string) (now : Z)
  | SpLogin (o : Z) (l : Login)
  | SpStoreUuid (o : Z) (uid : string)
  | SpStoreLease (o : Z) (l : ContinuityLease)
  | SpRoomId (room : string)
  | SpJoin (o : Z) (room password : string) (redis_password : option string) (hook : HookAnswers)
  | SpForget (room : string)
  | SpLeave (o : Z) (room : string) (hook : HookAnswers)
  | SpClose (o session_id : Z)
  | SpTargets (room sender : string)
  | SpNames (room : string)
  | SpContains (o : Z) (room : string)
  | SpSummaries
  | SpSessionsOf (name : string)
  | SpModerate (o now : Z)
  | SpInvite (o : Z) (name room : string)
  | SpKick (o : Z) (name room : string)
  | SpRemoveRoom (o : Z) (room : string)
  | SpMute (o : Z) (name : string) (duration now : Z)
  | SpUnmute (o : Z) (name : string)
  | SpBan (o : Z) (name : string) (duration now : Z)
  | SpUnban (o : Z) (name : string)
  | SpBlock (actor name : string)
  | SpUnblock (actor name : string)
  | SpModerateUsers (op reason : string) (duration now : Z) (users : list string)
  | SpDisconnect (users : list string)
  | SpEveryone
  | SpFind (session_id : Z)
  | SpRoomNames (room : string)
  | SpIsMuted (name : string) (now : Z)
  | SpIsBanned (name : string) (now : Z).

Section World.
Context `{WO : WeakOrder} `{MI : !MapIteration string}.
Context (runtime : ChatServiceRuntimeState) (config : ChatConfig).
Context (sha256_hex legacy_hash : string → string) (db_room_id : string → option string).

(** The session object a step's job holds. *)
Definition held (st : Step) : option Z :=
  match st with
  | SpUuid o _ | SpRegister o _ | SpUnique o _ _ | SpBanCheck o _ _ _ _ | SpLogin o _ | SpStoreUuid o _ | SpStoreLease o _
  | SpJoin o _ _ _ _ | SpLeave o _ _ | SpClose o _ | SpContains o _ | SpModerate o _ | SpInvite o _ _ | SpKick o _ _
  | SpRemoveRoom o _ | SpMute o _ _ _ | SpUnmute o _ | SpBan o _ _ _ | SpUnban o _ => Some o
  | _ => None
  end.
Definition run_section (live : gmap Z Z) (st : Step) (s : ChatServiceState) : ChatServiceState :=
  match st with
  | SpAccept _ _ | SpDestroy _ => s
  | SpUuid o fresh => (get_or_create_session_uuid live o fresh s).1
  | SpRegister o session_id => s <| by_session_id ::= <[session_id := o]> |>
  | SpUnique o desired names => (ensure_unique_or_error live o desired names s).1
  | SpBanCheck _ name ip hwid now => (login_ban_check name ip hwid now s).1
  | SpLogin o l => login_commit live o l s
  | SpStoreUuid o uid => store_user_uuid live o uid s
  | SpStoreLease o l => store_lease live o l s
  | SpRoomId room => (ensure_room_id_ci config db_room_id room s).1
  | SpJoin o room password redis_password hook =>
      (join_section live runtime sha256_hex legacy_hash o room password redis_password hook s).1
  | SpForget room => forget_room room s
  | SpLeave o room hook => (leave_section live o room hook s).1
  | SpClose o session_id => (close_section live o session_id s).1
  | SpTargets room sender => (collect_room_targets live room sender s).1
  | SpNames room => (collect_room_user_names live room s).1
  | SpContains o room => (room_contains_session live room o s).1
  | SpSummaries => (collect_local_room_summaries live s).1
  | SpSessionsOf name => (user_sessions live name s).1
  | SpModerate o now => (evaluate_chat_send_moderation live runtime o now s).1
  | SpInvite o name room => (invite_section live runtime o name room s).1
  | SpKick o name room => (kick_section live runtime o name room s).1
  | SpRemoveRoom o room => (remove_room_section live runtime o room s).1
  | SpMute o name duration now => (mute_section live runtime o name duration now s).1
  | SpUnmute o name => (unmute_section live runtime o name s).1
  | SpBan o name duration now => (ban_section live runtime o name duration now s).1
  | SpUnban o name => (unban_section live runtime o name s).1
  | SpBlock actor name => (add_blacklist_entry actor name s).1
  | SpUnblock actor name => (remove_blacklist_entry actor name s).1
  | SpModerateUsers op reason duration now users => (moderation_section live runtime op reason duration now users s).1
  | SpDisconnect users => (disconnect_section live users s).1
  | SpEveryone => (collect_authenticated_session_targets live s).1
  | SpFind session_id => (find_session_by_id live session_id s).1
  | SpRoomNames room => (collect_authenticated_room_user_names live room s).1
  | SpIsMuted name now => (lua_is_user_muted name now s).1
  | SpIsBanned name now => (lua_is_user_banned name now s).1
  end.
(** A login commits a name that passed [ensure_unique_or_error], never empty; the
    service addresses the lobby by name only, so a kick or removal names another
    room. *)
Definition possible (st : Step) : bool :=
  match st with
  | SpLogin _ l => non_empty (lg_user l)
  | SpKick _ _ room | SpRemoveRoom _ room => bool_decide (room ≠ "lobby")
  | _ => true
  end.
Definition admitted (w : World) (st : Step) : bool :=
  possible st && match held st with Some o => bool_decide (is_Some (w_live w !! o)) | None => true end.
Definition after_section (w : World) (st : Step) : World :=
  {| w_chat := run_section (w_live w) st (w_chat w); w_live := w_live w; w_used := w_used w;
     w_closed := match st with SpClose o _ => {[o]} ∪ w_closed w | _ => w_closed w end |}.
Definition world_exec (w : World) (st : Step) : option World :=
  match st with
  | SpAccept o a =>
      if bool_decide (o ∉ w_used w) && bool_decide (Forall (λ p, p.2 ≠ a) (map_to_list (w_live w)))
      then Some {| w_chat := w_chat w; w_live := <[o := a]> (w_live w); w_used := {[o]} ∪ w_used w; w_closed := w_closed w |} else None
  | SpDestroy o =>
      if bool_decide (o ∈ w_closed w)
      then Some {| w_chat := w_chat w; w_live := delete o (w_live w); w_used := w_used w; w_closed := w_closed w |} else None
  | _ => if admitted w st then Some (after_section w st) else None
  end.
Fixpoint world_run (w : World) (steps : list Step) : option World :=
  match steps with
  | [] => Some w
  | st :: steps => match world_exec w st with Some w => world_run w steps | None => None end
  end.
(** A login that comes in time: the session is open and has not logged in before,
    and no session holds the name. *)
Definition timely (w : World) (st : Step) : bool :=
  match st with
  | SpLogin o l =>
      bool_decide (o ∉ w_closed w) && bool_decide (user (w_chat w) !! ptr (w_live w) o = None)
      && bool_decide (locked (w_live w) (default ∅ (by_user (w_chat w) !! lg_user l)) = [])
  | _ => true
  end.
Fixpoint timely_run (w : World) (steps : list Step) : bool :=
  match steps with
  | [] => true
  | st :: steps => timely w st && match world_exec w st with Some w => timely_run w steps | None => true end
  end.
End World.

(** ** The invariant *)
Section Invariant.
Context `{WO : WeakOrder} `{MI : !MapIteration string} (live : gmap Z Z).

Definition members_of (s : ChatServiceState) (room : string) (o : Z) : Prop := ∃ X, rooms s !! room = Some X ∧ o ∈ X.
Definition holds_name (s : ChatServiceState) (name : string) (o : Z) : Prop := ∃ X, by_user s !! name = Some X ∧ o ∈ X.
Record ChatInvariant (closed : gset Z) (s : ChatServiceState) : Prop := {
  ci_inj : ∀ o o' a, live !! o = Some a → live !! o' = Some a → o = o';
  (** a logged-in session is in its current room and in no other *)
  ci_member : ∀ o room, members_of s room o ↔ ∃ a, live !! o = Some a ∧ cur_room s !! a = Some room;
  ci_rooms : ∀ room X, rooms s !! room = Some X → room ≠ "lobby" → X ≠ ∅;
  (** an entry belongs to an open session that exists *)
  ci_open : ∀ a, is_Some (cur_room s !! a) → ∃ o, live !! o = Some a ∧ o ∉ closed;
  ci_user : ∀ a, is_Some (user s !! a) ↔ is_Some (cur_room s !! a);
  ci_authed : ∀ a, a ∈ authed s ↔ is_Some (cur_room s !! a);
  ci_named : ∀ a name, user s !! a = Some name → name ≠ EmptyString;
  (** names and sessions correspond one to one *)
  ci_name : ∀ o name, holds_name s name o ↔ ∃ a, live !! o = Some a ∧ user s !! a = Some name;
  ci_unique : ∀ a a' name, user s !! a = Some name → user s !! a' = Some name → a = a';
  (** a room's owner is one of its members, and the lobby has none *)
  ci_owner : ∀ room name, room_owners s !! room = Some name →
    room ≠ "lobby" ∧ ∃ a, cur_room s !! a = Some room ∧ user s !! a = Some name;
}.

Lemma ptr_live o a : live !! o = Some a → ptr live o = a.
Proof. unfold ptr. by intros ->. Qed.
Lemma elem_locked X o : o ∈ locked live X ↔ o ∈ X ∧ alive live o.
Proof. unfold locked. rewrite list_elem_of_filter, (in_order_perm X), elem_of_elements. tauto. Qed.
Lemma prune_all X : (∀ o, o ∈ X → alive live o) → prune live X = X.
Proof. intros H. unfold prune. apply set_eq. intros o. rewrite elem_of_filter. naive_solver. Qed.
Lemma invariant_ext closed s s' : ChatInvariant closed s → rooms s' = rooms s → cur_room s' = cur_room s → user s' = user s →
  authed s' = authed s → by_user s' = by_user s → (∀ room name, room_owners s' !! room = Some name → room_owners s !! room = Some name) →
  ChatInvariant closed s'.
Proof.
  intros [] Hr Hc Hu Ha Hb Ho. constructor; unfold members_of, holds_name in *; rewrite ?Hr, ?Hc, ?Hu, ?Ha, ?Hb; eauto.
Qed.

Context (closed : gset Z).
Abbreviation inv := (ChatInvariant closed).
Lemma member_alive s room X o : inv s → rooms s !! room = Some X → o ∈ X → alive live o.
Proof.
  intros I HX Ho. assert (members_of s room o) as Hm by (by exists X). apply (ci_member _ _ I) in Hm as (a & Ha & _). by exists a.
Qed.
Lemma holder_alive s name X o : inv s → by_user s !! name = Some X → o ∈ X → alive live o.
Proof.
  intros I HX Ho. assert (holds_name s name o) as Hm by (by exists X). apply (ci_name _ _ I) in Hm as (a & Ha & _). by exists a.
Qed.

(** Looking members up erases nothing: they are all alive. *)
Lemma set_rooms_same s room X : rooms s !! room = Some X → s <| rooms ::= <[room := X]> |> = s.
Proof. intros H. destruct s. unfold set. simpl in *. by rewrite insert_id. Qed.
Lemma set_by_user_same s name X : by_user s !! name = Some X → s <| by_user ::= <[name := X]> |> = s.
Proof. intros H. destruct s. unfold set. simpl in *. by rewrite insert_id. Qed.
Lemma targets_same s room sender X : rooms s !! room = Some X → (∀ o, o ∈ X → alive live o) →
  (collect_room_targets live room sender s).1 = s.
Proof.
  intros HX Hal. unfold collect_room_targets, collect_room_sessions. rewrite HX. cbn [fst]. rewrite prune_all by done.
  by apply set_rooms_same.
Qed.
Lemma targets_inv s room sender : inv s → (collect_room_targets live room sender s).1 = s.
Proof.
  intros I. destruct (rooms s !! room) as [X|] eqn:HX; [|unfold collect_room_targets; by rewrite HX].
  eapply targets_same; eauto using member_alive.
Qed.
Lemma user_sessions_inv s name : inv s → (user_sessions live name s).1 = s.
Proof.
  intros I. unfold user_sessions. destruct (by_user s !! name) as [X|] eqn:HX; [|done]. cbn [fst].
  rewrite prune_all by eauto using holder_alive. by apply set_by_user_same.
Qed.

(** What taking [o] out of a room does. *)
Lemma last_or_named_elem names acc : last_or_named names acc ∈ acc :: names.
Proof.
  revert acc. induction names as [|n names IH]; intros acc; simpl; [by left|]. case_bool_decide; [right; by left|].
  specialize (IH n). right. exact IH.
Qed.
Lemma last_or_named_found names acc : names ≠ [] → last_or_named names acc ∈ names.
Proof.
  destruct names as [|n names]; [done|]. intros _. simpl. case_bool_decide; [by left|]. apply last_or_named_elem.
Qed.
Record Removed (o : Z) (room sender : string) (X : gset Z) (s s' : ChatServiceState) : Prop := {
  rm_cur : cur_room s' = cur_room s;
  rm_user : user s' = user s;
  rm_by_user : by_user s' = by_user s;
  rm_authed : authed s' = authed s;
  rm_rooms : ∀ r, rooms s' !! r = if bool_decide (r = room) then if bool_decide (X ∖ {[o]} = ∅ ∧ room ≠ "lobby") then None
                                  else Some (X ∖ {[o]}) else rooms s !! r;
  rm_owner : ∀ r name, room_owners s' !! r = Some name →
    room_owners s !! r = Some name ∧ (r ≠ room ∨ room = "lobby" ∨ name ≠ sender)
    ∨ r = room ∧ room ≠ "lobby" ∧ ∃ m, m ∈ X ∖ {[o]} ∧ user s !! ptr live m = Some name;
}.
Lemma removed s o room sender X : rooms s !! room = Some X → (∀ m, m ∈ X → alive live m) →
  (∀ m, m ∈ X ∖ {[o]} → ∃ name, user s !! ptr live m = Some name ∧ name ≠ EmptyString) →
  Removed o room sender X s (remove_session_from_room live o room sender s).1.
Proof.
  intros HX Hal Hnm. unfold remove_session_from_room. rewrite HX.
  set (s0 := s <| rooms ::= <[room := X ∖ {[o]}]> |>).
  assert (Hs0 : rooms s0 !! room = Some (X ∖ {[o]})) by (subst s0; cbn; apply lookup_insert_eq).
  destruct (collect_room_targets live room sender s0) as [s1 targets] eqn:Ht.
  assert (s1 = s0) as ->.
  { change s1 with (s1, targets).1. rewrite <- Ht. eapply targets_same; [exact Hs0|]. intros m Hm. apply Hal. set_solver. }
  rewrite Hs0.
  assert (Hr : ∀ r, rooms s0 !! r = if bool_decide (r = room) then Some (X ∖ {[o]}) else rooms s !! r).
  { intros r. subst s0. cbn. case_bool_decide; [subst; apply lookup_insert_eq|by apply lookup_insert_ne]. }
  destruct (decide (X ∖ {[o]} = ∅ ∧ room ≠ "lobby")) as [[He Hl]|Hkeep].
  - rewrite !bool_decide_eq_true_2 by done. cbn [andb fst]. constructor; try done; cbn.
    + intros r. case_bool_decide as Hrr; [subst; rewrite bool_decide_eq_true_2 by done; apply lookup_delete_eq|].
      rewrite lookup_delete_ne, lookup_insert_ne by done. done.
    + intros r name [Hne Ho]%lookup_delete_Some. left. split; [done|]. by left.
  - assert (bool_decide (X ∖ {[o]} = ∅) && bool_decide (room ≠ "lobby") = false) as ->.
    { apply not_true_is_false. intros [H1%bool_decide_eq_true H2%bool_decide_eq_true]%andb_true_iff. auto. }
    assert (Hrooms : ∀ r, rooms s0 !! r = if bool_decide (r = room) then if bool_decide (X ∖ {[o]} = ∅ ∧ room ≠ "lobby") then None
        else Some (X ∖ {[o]}) else rooms s !! r).
    { intros r. rewrite Hr. by rewrite (bool_decide_eq_false_2 _ Hkeep). }
    destruct (decide (room ≠ "lobby")) as [Hl|Hl]; [rewrite !(bool_decide_eq_true_2 _ Hl)|rewrite !(bool_decide_eq_false_2 _ Hl)]; cbn [andb].
    2:{ cbn [fst]. constructor; try done. intros r name Ho. left. split; [exact Ho|]. right. left. by apply dec_stable. }
    destruct (decide (room_owners s !! room = Some sender)) as [Hown|Hown];
      [rewrite (bool_decide_eq_true_2 _ Hown)|rewrite (bool_decide_eq_false_2 _ Hown)]; cbn [andb].
    2:{ cbn [fst]. constructor; try done. intros r name Ho. left. split; [exact Ho|].
        destruct (decide (r = room)) as [->|]; [|by left]. right. right. intros ->. by apply Hown. }
    change (room_owners s0 !! room) with (room_owners s !! room). rewrite Hown.
    assert (Hin : select_replacement_room_owner live s0 (X ∖ {[o]}) ∈ omap (λ m, user s0 !! ptr live m) (locked live (X ∖ {[o]}))).
    { apply last_or_named_found. destruct (set_choose_or_empty (X ∖ {[o]})) as [[m Hm]|He].
      - intros He. destruct (Hnm m Hm) as (name & Hu & _).
        assert (name ∈ omap (λ m, user s0 !! ptr live m) (locked live (X ∖ {[o]}))) as Hin.
        { apply list_elem_of_omap. exists m. split; [|exact Hu]. apply elem_locked. split; [done|]. apply Hal. set_solver. }
        rewrite He in Hin. by apply not_elem_of_nil in Hin.
      - destruct Hkeep. split; [by apply leibniz_equiv|done]. }
    apply list_elem_of_omap in Hin as (m & [Hm _]%elem_locked & Hu). change (user s0) with (user s) in Hu.
    destruct (Hnm m Hm) as (name & Hu' & Hne). rewrite Hu in Hu'. injection Hu' as <-.
    rewrite (bool_decide_eq_false_2 _ Hne). cbn [fst]. constructor; try done. cbn.
    intros r name [[<- <-]|[Hrr Ho]]%lookup_insert_Some; [right; eauto|]. left. split; [exact Ho|]. by left.
Qed.
Record Placed (o : Z) (room sender : string) (s s' : ChatServiceState) : Prop := {
  pl_cur : cur_room s' = <[ptr live o := room]> (cur_room s);
  pl_user : user s' = user s;
  pl_by_user : by_user s' = by_user s;
  pl_authed : authed s' = authed s;
  pl_rooms : rooms s' = <[room := default ∅ (rooms s !! room) ∪ {[o]}]> (rooms s);
  pl_owner : ∀ r name, room_owners s' !! r = Some name →
    room_owners s !! r = Some name ∨ r = room ∧ room ≠ "lobby" ∧ name = sender;
}.
Lemma placed s o room sender consume assign : Placed o room sender s (place_session_in_room live o room sender consume assign s).
Proof.
  unfold place_session_in_room. case_bool_decide as Hl; cbn [orb]; [by constructor; auto|].
  destruct assign; cbn [negb]; [|by constructor; auto].
  case_bool_decide; cbn [andb]; [case_bool_decide|]; destruct consume; cbn [negb]; repeat case_match;
    constructor; try done; cbn; intros r name; rewrite ?lookup_insert_Some; naive_solver.
Qed.
Lemma removed_members s s' o room sender X r m : Removed o room sender X s s' → rooms s !! room = Some X →
  members_of s' r m ↔ members_of s r m ∧ (m ≠ o ∨ r ≠ room).
Proof.
  intros [_ _ _ _ Hr _] HX. unfold members_of. rewrite Hr. destruct (decide (r = room)) as [->|Hne];
    [rewrite HX, bool_decide_eq_true_2 by done|rewrite bool_decide_eq_false_2 by done].
  - case_bool_decide as He; [destruct He as [He _]|]; split.
    + by intros (? & ? & ?).
    + intros ((? & [= <-] & Hm) & [|]); [|done]. assert (m ∈ X ∖ {[o]}) as Hin by set_solver. rewrite He in Hin. set_solver.
    + intros (? & [= <-] & Hm). split; [exists X|left]; set_solver.
    + intros ((? & [= <-] & Hm) & [|]); [|done]. eexists. split; [done|]. set_solver.
  - naive_solver.
Qed.
Lemma insert_members (R : gmap string (gset Z)) room o r m :
  (∃ X, <[room := default ∅ (R !! room) ∪ {[o]}]> R !! r = Some X ∧ m ∈ X) ↔ (∃ X, R !! r = Some X ∧ m ∈ X) ∨ r = room ∧ m = o.
Proof.
  destruct (decide (r = room)) as [->|Hne].
  - rewrite lookup_insert_eq. destruct (R !! room) as [X|]; simpl; split.
    + intros (? & [= <-] & Hm). assert (m ∈ X ∨ m = o) as [|] by set_solver; eauto.
    + intros [(? & [= <-] & Hm)|[_ ->]]; eexists; (split; [done|]); set_solver.
    + intros (? & [= <-] & Hm). right. split; [done|]. set_solver.
    + intros [(? & ? & ?)|[_ ->]]; [done|]. eexists; (split; [done|]). set_solver.
  - rewrite lookup_insert_ne by done. naive_solver.
Qed.
Lemma placed_members s s' o room sender r m : Placed o room sender s s' →
  members_of s' r m ↔ members_of s r m ∨ r = room ∧ m = o.
Proof. intros [_ _ _ _ Hr _]. unfold members_of. rewrite Hr. apply insert_members. Qed.
(** A session moves: it leaves the room it is in and enters another. *)
Lemma moved_inv s s1 s2 o a X room name from : inv s → live !! o = Some a → user s !! a = Some name → cur_room s !! a = Some from →
  rooms s !! from = Some X → Removed o from name X s s1 → Placed o room name s1 s2 → inv s2.
Proof.
  intros I Ha Hu Hc HX Hrm Hpl.
  assert (Hcur : cur_room s2 = <[a := room]> (cur_room s)).
  { rewrite (pl_cur _ _ _ _ _ Hpl), (rm_cur _ _ _ _ _ _ Hrm). by rewrite (ptr_live _ _ Ha). }
  assert (Hus : user s2 = user s) by (rewrite (pl_user _ _ _ _ _ Hpl); apply Hrm).
  assert (Hbu : by_user s2 = by_user s) by (rewrite (pl_by_user _ _ _ _ _ Hpl); apply Hrm).
  assert (Hau : authed s2 = authed s) by (rewrite (pl_authed _ _ _ _ _ Hpl); apply Hrm).
  assert (Hsome : ∀ b, is_Some (cur_room s2 !! b) ↔ is_Some (cur_room s !! b)).
  { intros b. rewrite Hcur. destruct (decide (b = a)) as [->|]; [|by rewrite lookup_insert_ne]. rewrite lookup_insert_eq, Hc. naive_solver. }
  constructor.
  - apply (ci_inj _ _ I).
  - intros m r. rewrite (placed_members _ _ _ _ _ _ _ Hpl), (removed_members _ _ _ _ _ _ _ _ Hrm HX), (ci_member _ _ I), Hcur.
    split.
    + intros [[(b & Hb & Hcb) Hor]|[-> ->]]; [|exists a; by rewrite lookup_insert_eq].
      exists b. split; [done|]. rewrite lookup_insert_ne; [done|]. intros <-.
      assert (m = o) as -> by (by eapply (ci_inj _ _ I)). rewrite Hc in Hcb. injection Hcb as <-. by destruct Hor.
    + intros (b & Hb & [[<- <-]|[Hne Hcb]]%lookup_insert_Some).
      * right. split; [done|]. by eapply (ci_inj _ _ I).
      * left. split; [by exists b|]. left. intros ->. rewrite Ha in Hb. by injection Hb.
  - intros r Y HY Hl. rewrite (pl_rooms _ _ _ _ _ Hpl) in HY.
    apply lookup_insert_Some in HY as [[<- <-]|[Hne HY]]; [set_solver|]. rewrite (rm_rooms _ _ _ _ _ _ Hrm) in HY.
    case_bool_decide; [subst; case_bool_decide; [done|]; injection HY as <-; naive_solver|]. by eapply (ci_rooms _ _ I).
  - intros b Hb. apply (ci_open _ _ I). by apply Hsome.
  - intros b. rewrite Hus, Hsome. apply (ci_user _ _ I).
  - intros b. rewrite Hau, Hsome. apply (ci_authed _ _ I).
  - rewrite Hus. apply (ci_named _ _ I).
  - intros m n. unfold holds_name. rewrite Hus, Hbu. apply (ci_name _ _ I).
  - rewrite Hus. apply (ci_unique _ _ I).
  - intros r n Ho. rewrite Hus, Hcur. apply (pl_owner _ _ _ _ _ Hpl) in Ho as [Ho|(-> & Hl & ->)].
    2:{ split; [done|]. exists a. by rewrite lookup_insert_eq. }
    apply (rm_owner _ _ _ _ _ _ Hrm) in Ho as [[Ho Hor]|(-> & Hl & m & Hm & Hum)].
    + destruct (ci_owner _ _ I _ _ Ho) as (Hl & b & Hcb & Hub). split; [done|]. exists b. split; [|done].
      rewrite lookup_insert_ne; [done|]. intros <-. rewrite Hc in Hcb. rewrite Hu in Hub. injection Hcb as ->. injection Hub as ->.
      naive_solver.
    + assert (members_of s from m) as (b & Hb & Hcb)%(ci_member _ _ I) by (exists X; set_solver).
      rewrite (ptr_live _ _ Hb) in Hum. split; [done|]. exists b. split; [|done]. rewrite lookup_insert_ne; [done|]. intros <-.
      assert (m = o) as -> by (by eapply (ci_inj _ _ I)). set_solver.
Qed.
Lemma current_room_exists s o a room : inv s → live !! o = Some a → cur_room s !! a = Some room →
  ∃ X, rooms s !! room = Some X ∧ o ∈ X.
Proof. intros I Ha Hc. apply (ci_member _ _ I). eauto. Qed.
Lemma member_named s room X m : inv s → rooms s !! room = Some X → m ∈ X →
  ∃ name, user s !! ptr live m = Some name ∧ name ≠ EmptyString.
Proof.
  intros I HX Hm. assert (members_of s room m) as (b & Hb & Hcb)%(ci_member _ _ I) by (by exists X).
  assert (is_Some (user s !! b)) as [name Hn] by (apply (ci_user _ _ I); eauto). rewrite (ptr_live _ _ Hb).
  exists name. split; [done|]. by eapply (ci_named _ _ I).
Qed.
Lemma removed_inv s o room sender X : inv s → rooms s !! room = Some X →
  Removed o room sender X s (remove_session_from_room live o room sender s).1.
Proof.
  intros I HX. apply removed; [done|eauto using member_alive|]. intros m Hm. eapply member_named; [done..|]. set_solver.
Qed.
Lemma move_inv s o a from room name consume assign : inv s → live !! o = Some a → user s !! a = Some name →
  cur_room s !! a = Some from →
  inv (place_session_in_room live o room name consume assign (remove_session_from_room live o from name s).1).
Proof.
  intros I Ha Hu Hc. destruct (current_room_exists _ _ _ _ I Ha Hc) as (X & HX & _).
  eapply moved_inv; [done..| |apply placed]. by apply removed_inv.
Qed.
Lemma stay_inv s o a room name consume assign : inv s → live !! o = Some a → user s !! a = Some name →
  cur_room s !! a = Some room → inv (place_session_in_room live o room name consume assign s).
Proof.
  intros I Ha Hu Hc. pose proof (placed s o room name consume assign) as Hpl.
  set (s' := place_session_in_room live o room name consume assign s) in *.
  assert (Hcur : cur_room s' = cur_room s) by (rewrite (pl_cur _ _ _ _ _ Hpl), (ptr_live _ _ Ha); by apply insert_id).
  destruct (current_room_exists _ _ _ _ I Ha Hc) as (X & HX & HoX).
  assert (Hro : rooms s' = rooms s).
  { rewrite (pl_rooms _ _ _ _ _ Hpl), HX. cbn. apply insert_id. rewrite HX. f_equal. set_solver. }
  destruct Hpl as [_ Hus Hbu Hau _ Hown]. clearbody s'. destruct I. constructor; unfold members_of, holds_name in *;
    rewrite ?Hcur, ?Hus, ?Hbu, ?Hau, ?Hro; try done.
  intros r n Ho. apply Hown in Ho as [Ho|(-> & Hl & ->)]; [by apply ci_owner0|]. split; [done|]. eauto.
Qed.

(** A session logs in for the first time. *)
Lemma login_tables s o a l : live !! o = Some a → user s !! a = None →
  let s' := login_commit live o l s in
  user s' = <[a := lg_user l]> (user s) ∧ authed s' = {[a]} ∪ authed s
  ∧ by_user s' = <[lg_user l := default ∅ (by_user s !! lg_user l) ∪ {[o]}]> (by_user s)
  ∧ ∃ room, cur_room s' = <[a := room]> (cur_room s) ∧ rooms s' = <[room := default ∅ (rooms s !! room) ∪ {[o]}]> (rooms s)
      ∧ ∀ r name, room_owners s' !! r = Some name → room_owners s !! r = Some name ∨ r = room ∧ room ≠ "lobby" ∧ name = lg_user l.
Proof.
  intros Ha Hu. unfold login_commit. rewrite (ptr_live _ _ Ha), Hu.
  match goal with |- context [place_session_in_room live o ?r ?n ?c ?b ?t] =>
    destruct (placed t o r n c b) as [Hc Hus Hbu Hau Hro Hown]; set (t0 := t) in * end.
  assert (Ht : user t0 = <[a := lg_user l]> (user s) ∧ authed t0 = {[a]} ∪ authed s
    ∧ by_user t0 = <[lg_user l := default ∅ (by_user s !! lg_user l) ∪ {[o]}]> (by_user s)
    ∧ cur_room t0 = cur_room s ∧ rooms t0 = rooms s ∧ room_owners t0 = room_owners s).
  { subst t0. destruct (non_empty (lg_ip l)), (non_empty (lg_hwid l)), (non_empty (lg_user_uuid l)), (non_empty (lg_logical l)); done. }
  destruct Ht as (T1 & T2 & T3 & T4 & T5 & T6). cbv zeta. rewrite Hus, Hau, Hbu, T1, T2, T3. split_and!; try done.
  eexists. rewrite Hc, Hro, T4, T5. rewrite (ptr_live _ _ Ha). split_and!; [done|done|]. intros r name Ho.
  apply Hown in Ho. by rewrite T6 in Ho.
Qed.
Lemma login_inv s o a l : inv s → live !! o = Some a → o ∉ closed → user s !! a = None → lg_user l ≠ EmptyString →
  locked live (default ∅ (by_user s !! lg_user l)) = [] → inv (login_commit live o l s).
Proof.
  intros I Ha Hop Hu Hne Hfree. destruct (login_tables s o a l Ha Hu) as (Hus & Hau & Hbu & room & Hcur & Hro & Hown).
  set (s' := login_commit live o l s) in *. clearbody s'.
  assert (Hnc : cur_room s !! a = None).
  { apply eq_None_not_Some. rewrite <- (ci_user _ _ I), Hu. by intros [? ?]. }
  assert (Hnew : ∀ b, user s !! b ≠ Some (lg_user l)).
  { intros b Hb. assert (is_Some (cur_room s !! b)) as (m & Hm & _)%(ci_open _ _ I) by (apply (ci_user _ _ I); eauto).
    assert (holds_name s (lg_user l) m) as (Y & HY & HmY) by (apply (ci_name _ _ I); eauto).
    rewrite HY in Hfree. assert (m ∈ locked live Y) as Hin by (apply elem_locked; split; [done|by exists b]).
    cbn in Hfree. rewrite Hfree in Hin. by apply not_elem_of_nil in Hin. }
  assert (Hno : ∀ Y, by_user s !! lg_user l = Some Y → ∀ m, m ∉ Y).
  { intros Y HY m Hm. assert (holds_name s (lg_user l) m) as (b & _ & Hb)%(ci_name _ _ I) by (by exists Y). by apply (Hnew b). }
  constructor.
  - apply (ci_inj _ _ I).
  - intros m r. unfold members_of. rewrite Hro, Hcur.
    rewrite insert_members. fold (members_of s r m). rewrite (ci_member _ _ I). split.
    + intros [(b & Hb & Hcb)|[-> ->]]; [exists b|exists a; by rewrite lookup_insert_eq]. split; [done|].
      rewrite lookup_insert_ne; [done|]. intros <-. by rewrite Hnc in Hcb.
    + intros (b & Hb & [[<- <-]|[Hne' Hcb]]%lookup_insert_Some); [right; split; [done|]; by eapply (ci_inj _ _ I)|left; eauto].
  - intros r Y. rewrite Hro. intros [[<- <-]|[_ HY]]%lookup_insert_Some Hl; [set_solver|by eapply (ci_rooms _ _ I)].
  - intros b. rewrite Hcur. destruct (decide (b = a)) as [->|]; [eauto|rewrite lookup_insert_ne by done; apply (ci_open _ _ I)].
  - intros b. rewrite Hus, Hcur. destruct (decide (b = a)) as [->|]; [rewrite !lookup_insert_eq; naive_solver|].
    rewrite !lookup_insert_ne by done. apply (ci_user _ _ I).
  - intros b. rewrite Hau, Hcur, elem_of_union, elem_of_singleton, (ci_authed _ _ I).
    destruct (decide (b = a)) as [->|]; [rewrite lookup_insert_eq; naive_solver|]. rewrite lookup_insert_ne by done. naive_solver.
  - intros b n. rewrite Hus. intros [[_ <-]|[_ Hb]]%lookup_insert_Some; [done|by eapply (ci_named _ _ I)].
  - intros m n. unfold holds_name. rewrite Hus, Hbu. destruct (decide (n = lg_user l)) as [->|Hnn].
    + rewrite lookup_insert_eq. split.
      * intros (Y & [= <-] & [Hm|Hm]%elem_of_union); [destruct (by_user s !! lg_user l) eqn:HY; [|set_solver]; by destruct (Hno _ eq_refl m)|].
        apply elem_of_singleton in Hm as ->. exists a. by rewrite lookup_insert_eq.
      * intros (b & Hb & [[<- _]|[_ Hub]]%lookup_insert_Some); [|by destruct (Hnew b)].
        assert (m = o) as -> by (by eapply (ci_inj _ _ I)). eexists. split; [done|]. set_solver.
    + rewrite lookup_insert_ne by done. change (holds_name s n m ↔ ∃ b, live !! m = Some b ∧ <[a:=lg_user l]> (user s) !! b = Some n).
      rewrite (ci_name _ _ I). split; intros (b & Hb & Hub); exists b; (split; [done|]).
      * rewrite lookup_insert_ne; [done|]. intros <-. by rewrite Hu in Hub.
      * apply lookup_insert_Some in Hub as [[_ Hx]|[_ Hx]]; congruence.
  - intros b b' n. rewrite Hus. intros [[<- <-]|[? Hb]]%lookup_insert_Some [[<- Hn]|[? Hb']]%lookup_insert_Some; try done.
    + by destruct (Hnew b').
    + subst n. by destruct (Hnew b).
    + by eapply (ci_unique _ _ I).
  - intros r n Ho. rewrite Hcur, Hus. apply Hown in Ho as [Ho|(-> & Hl & ->)]; [|split; [done|]; exists a; by rewrite !lookup_insert_eq].
    destruct (ci_owner _ _ I _ _ Ho) as (Hl & b & Hcb & Hub). split; [done|]. exists b.
    rewrite !lookup_insert_ne; [done|intros <-; congruence..].
Qed.

(** A session closes: its entries go away. *)
Lemma remove_name_tables s o name :
  let s' := remove_from_name o name s in
  rooms s' = rooms s ∧ room_owners s' = room_owners s ∧ cur_room s' = cur_room s ∧ user s' = user s ∧ authed s' = authed s
  ∧ ∀ n m, holds_name s' n m ↔ holds_name s n m ∧ (n ≠ name ∨ m ≠ o).
Proof.
  unfold remove_from_name, holds_name. destruct (by_user s !! name) as [X|] eqn:HX; cbv zeta; split_and!; try done; intros n m.
  - cbn. destruct (decide (n = name)) as [->|]; [|rewrite lookup_insert_ne by done; naive_solver].
    rewrite lookup_insert_eq, HX. split.
    + intros (? & [= <-] & Hm). split; [exists X|right]; set_solver.
    + intros ((? & [= <-] & Hm) & [|]); [done|]. eexists. split; [done|]. set_solver.
  - split; [|naive_solver]. intros (X & Hn & Hm). split; [eauto|]. left. congruence.
Qed.
Lemma forget_tables s o a sid : inv s → live !! o = Some a →
  let s' := forget_session live o sid (actor_name live s o) s in
  rooms s' = rooms s ∧ room_owners s' = room_owners s ∧ cur_room s' = cur_room s ∧ user s' = delete a (user s)
  ∧ authed s' = authed s ∖ {[a]} ∧ ∀ n m, holds_name s' n m ↔ holds_name s n m ∧ m ≠ o.
Proof.
  intros I Ha. unfold forget_session, actor_name. rewrite (ptr_live _ _ Ha).
  set (name := default "guest" (user s !! a)). match goal with |- context [remove_from_name o _ ?t] => set (s0 := t) end.
  destruct (remove_name_tables s0 o name) as (R1 & R2 & R3 & R4 & R5 & R6).
  assert (Hh : ∀ n, holds_name s n o → name = n).
  { intros n (b & Hb & Hn)%(ci_name _ _ I). subst name. rewrite Ha in Hb. injection Hb as <-. by rewrite Hn. }
  destruct (non_empty name) eqn:Hnn; cbv zeta.
  - cbn. rewrite R1, R2, R3, R4, R5. split_and!; try done. intros n m.
    change (holds_name (remove_from_name o name s0) n m ↔ holds_name s n m ∧ m ≠ o). rewrite R6.
    change (holds_name s0 n m) with (holds_name s n m). split; [|naive_solver]. intros [Hm Hor]. split; [done|]. intros ->.
    pose proof (Hh _ Hm). naive_solver.
  - split_and!; try done. intros n m. change (holds_name s n m ↔ holds_name s n m ∧ m ≠ o). split; [|naive_solver]. intros Hm.
    split; [done|]. intros ->. pose proof (Hh _ Hm) as <-. apply (ci_name _ _ I) in Hm as (b & Hb & Hn).
    apply (ci_named _ _ I) in Hn. by apply bool_decide_eq_false in Hnn.
Qed.
(** The tables after the session [o] at [a] is gone from all of them. *)
Record Gone (o a : Z) (s s' : ChatServiceState) : Prop := {
  gn_cur : cur_room s' = delete a (cur_room s);
  gn_user : user s' = delete a (user s);
  gn_authed : authed s' = authed s ∖ {[a]};
  gn_holds : ∀ n m, holds_name s' n m ↔ holds_name s n m ∧ m ≠ o;
  gn_members : ∀ r m, members_of s' r m ↔ members_of s r m ∧ m ≠ o;
  gn_rooms : ∀ r X, rooms s' !! r = Some X → r ≠ "lobby" → X ≠ ∅;
  gn_owner : ∀ r n, room_owners s' !! r = Some n → r ≠ "lobby" ∧ ∃ b, b ≠ a ∧ cur_room s !! b = Some r ∧ user s !! b = Some n;
}.
Lemma gone_inv s s' o a : inv s → live !! o = Some a → Gone o a s s' → ChatInvariant ({[o]} ∪ closed) s'.
Proof.
  intros I Ha [Hcur Hus Hau Hh Hm Hr Ho].
  assert (Hlive : ∀ m b, live !! m = Some b → m ≠ o ↔ b ≠ a).
  { intros m b Hb. split; intros Hne ->; apply Hne; [by eapply (ci_inj _ _ I)|congruence]. }
  constructor; rewrite ?Hcur, ?Hus, ?Hau.
  - apply (ci_inj _ _ I).
  - intros m r. rewrite Hm, (ci_member _ _ I). split.
    + intros ((b & Hb & Hcb) & Hne%(Hlive _ _ Hb)). exists b. by rewrite lookup_delete_ne.
    + intros (b & Hb & [Hne Hcb]%lookup_delete_Some). split; [eauto|]. by eapply Hlive.
  - done.
  - intros b [r [Hne Hcb]%lookup_delete_Some]. destruct (ci_open _ _ I b) as (m & Hb & Hop); [eauto|]. exists m. split; [done|].
    assert (m ≠ o) by (by eapply Hlive). set_solver.
  - intros b. destruct (decide (b = a)) as [->|]; [by rewrite !lookup_delete_eq|]. rewrite !lookup_delete_ne by done. apply (ci_user _ _ I).
  - intros b. rewrite elem_of_difference, elem_of_singleton, (ci_authed _ _ I). destruct (decide (b = a)) as [->|].
    + rewrite lookup_delete_eq. split; [naive_solver|by intros [? ?]].
    + rewrite lookup_delete_ne by done. naive_solver.
  - intros b n [_ Hb]%lookup_delete_Some. by eapply (ci_named _ _ I).
  - intros m n. rewrite Hh, (ci_name _ _ I). split.
    + intros ((b & Hb & Hub) & Hne%(Hlive _ _ Hb)). exists b. by rewrite lookup_delete_ne.
    + intros (b & Hb & [Hne Hub]%lookup_delete_Some). split; [eauto|]. by eapply Hlive.
  - intros b b' n [_ Hb]%lookup_delete_Some [_ Hb']%lookup_delete_Some. by eapply (ci_unique _ _ I).
  - intros r n (Hl & b & Hne & Hcb & Hub)%Ho. split; [done|]. exists b. by rewrite !lookup_delete_ne.
Qed.
Lemma close_inv s o a sid : inv s → live !! o = Some a → ChatInvariant ({[o]} ∪ closed) (close_section live o sid s).1.
Proof.
  intros I Ha. destruct (forget_tables s o a sid I Ha) as (Hro & Hown & Hcur & Hus & Hau & Hby). unfold close_section.
  set (s0 := forget_session live o sid (actor_name live s o) s) in *. clearbody s0. rewrite (ptr_live _ _ Ha), Hcur.
  destruct (cur_room s !! a) as [room|] eqn:Hc; cbv zeta.
  2:{ assert (Hno : ∀ r, ¬ members_of s r o) by (intros r (b & Hb & Hcb)%(ci_member _ _ I); congruence).
      cbn [fst]. apply (gone_inv s _ o a); [done..|]. constructor; rewrite ?Hcur; try done; unfold members_of in *; rewrite ?Hro, ?Hown.
      - by rewrite delete_id.
      - intros r m. split; [|naive_solver]. intros Hm. split; [done|]. intros ->. by apply (Hno r).
      - apply (ci_rooms _ _ I).
      - intros r n (Hl & b & Hcb & Hub)%(ci_owner _ _ I). split; [done|]. exists b. split; [congruence|done]. }
  destruct (current_room_exists _ _ _ _ I Ha Hc) as (X & HX & HoX).
  assert (room_exists s0 room = true) as -> by (apply bool_decide_eq_true_2; rewrite Hro; eauto).
  assert (Hrm : Removed o room (actor_name live s o) X s0 (remove_session_from_room live o room (actor_name live s o) s0).1).
  { apply removed; [by rewrite Hro|eauto using member_alive|]. intros m Hm. destruct (member_named s room X m) as (n & Hn & Hne); [done..|set_solver|].
    exists n. split; [|done]. rewrite Hus. apply lookup_delete_Some. split; [|done]. intros Heq.
    assert (members_of s room m) as (b & Hb & _)%(ci_member _ _ I) by (exists X; set_solver). rewrite (ptr_live _ _ Hb) in Heq. subst b.
    assert (m = o) as -> by (by eapply (ci_inj _ _ I)). set_solver. }
  destruct (remove_session_from_room live o room (actor_name live s o) s0) as [s1 targets]. cbn [fst] in *.
  apply (gone_inv s _ o a); [done..|]. constructor; cbn.
  - by rewrite (rm_cur _ _ _ _ _ _ Hrm), Hcur.
  - by rewrite (rm_user _ _ _ _ _ _ Hrm).
  - by rewrite (rm_authed _ _ _ _ _ _ Hrm).
  - intros n m. unfold holds_name. cbn. rewrite (rm_by_user _ _ _ _ _ _ Hrm). apply Hby.
  - intros r m. change (members_of s1 r m ↔ members_of s r m ∧ m ≠ o). rewrite (removed_members _ _ _ _ _ _ _ _ Hrm) by (by rewrite Hro).
    unfold members_of. rewrite Hro. split; [|naive_solver]. intros [Hm Hor]. split; [done|]. intros ->.
    apply (ci_member _ _ I) in Hm as (b & Hb & Hcb). destruct Hor; [done|]. congruence.
  - intros r Y. rewrite (rm_rooms _ _ _ _ _ _ Hrm), Hro. case_bool_decide; [subst; case_bool_decide as Hk; [done|]|apply (ci_rooms _ _ I)].
    intros [= <-] Hl. naive_solver.
  - intros r n Ho. apply (rm_owner _ _ _ _ _ _ Hrm) in Ho as [[Ho Hor]|(-> & Hl & m & Hm & Hum)].
    + rewrite Hown in Ho. destruct (ci_owner _ _ I _ _ Ho) as (Hl & b & Hcb & Hub). split; [done|]. exists b. split; [|done].
      intros ->. unfold actor_name in Hor. rewrite (ptr_live _ _ Ha), Hub in Hor. cbn in Hor. naive_solver.
    + rewrite Hus in Hum. apply lookup_delete_Some in Hum as [Hne Hum]. split; [done|]. exists (ptr live m). split; [done|].
      assert (members_of s room m) as (b & Hb & Hcb)%(ci_member _ _ I) by (exists X; set_solver). by rewrite (ptr_live _ _ Hb) in *.
Qed.

Lemma authed_named s o a : inv s → live !! o = Some a → a ∈ authed s →
  ∃ name room, user s !! a = Some name ∧ cur_room s !! a = Some room ∧ actor_name live s o = name.
Proof.
  intros I Ha Hau. apply (ci_authed _ _ I) in Hau as [room Hc]. assert (is_Some (user s !! a)) as [name Hu] by (apply (ci_user _ _ I); eauto).
  exists name, room. split_and!; [done..|]. unfold actor_name. by rewrite (ptr_live _ _ Ha), Hu.
Qed.
Lemma join_inv runtime sha legacy o a room password redis_password hook s : inv s → live !! o = Some a →
  inv (join_section live runtime sha legacy o room password redis_password hook s).1.
Proof.
  intros I Ha. unfold join_section. rewrite (ptr_live _ _ Ha). case_bool_decide as Hau; [done|].
  destruct (authed_named _ _ _ I Ha Hau) as (name & cur & Hu & Hc & Hact). rewrite Hact.
  destruct (maybe_handle_hook _ _ _) as [notices [|]]; [done|]. cbv zeta.
  set (s1 := match redis_password with Some pw => s <| room_passwords ::= <[room := pw]> |> | None => s end).
  assert (inv s1) as I1 by (subst s1; case_match; [by eapply invariant_ext; [exact I|..]|done]).
  assert (user s1 !! a = Some name ∧ cur_room s1 !! a = Some cur) as [Hu1 Hc1] by (subst s1; by case_match).
  destruct (_ && negb _); [done|]. destruct (join_password _ _ _ _ _) as [new_hash|]; [|done].
  set (s2 := match new_hash with Some h => s1 <| room_passwords ::= <[room := h]> |> | None => s1 end).
  assert (inv s2) as I2 by (subst s2; case_match; [by eapply invariant_ext; [exact I1|..]|done]).
  assert (user s2 !! a = Some name ∧ cur_room s2 !! a = Some cur) as [Hu2 Hc2] by (subst s2; by case_match).
  clearbody s1 s2. rewrite Hc2.
  match goal with |- context [collect_room_targets live room name ?t] => set (s3 := t) end.
  assert (inv s3) as I3.
  { subst s3. destruct (decide (cur = room)) as [->|Hne].
    - rewrite (bool_decide_eq_false_2 (room ≠ room)) by auto. by eapply stay_inv.
    - rewrite (bool_decide_eq_true_2 _ Hne). by eapply move_inv. }
  pose proof (targets_inv s3 room name I3) as Ht. destruct (collect_room_targets live room name s3) as [s4 targets].
  cbn [fst] in *. by subst s4.
Qed.
Lemma leave_inv o a room hook s : inv s → live !! o = Some a → inv (leave_section live o room hook s).1.
Proof.
  intros I Ha. unfold leave_section. rewrite (ptr_live _ _ Ha). case_bool_decide as Hau; [done|].
  destruct (authed_named _ _ _ I Ha Hau) as (name & cur & Hu & Hc & Hact). rewrite Hc, Hact.
  destruct (_ && _); [done|]. destruct (current_room_exists _ _ _ _ I Ha Hc) as (X & HX & _).
  assert (room_exists s cur = true) as -> by (apply bool_decide_eq_true_2; eauto).
  destruct (maybe_handle_hook _ _ _) as [notices [|]]; [done|].
  pose proof (move_inv s o a cur "lobby" name false true I Ha Hu Hc) as Hm.
  by destruct (remove_session_from_room live o cur name s) as [s' targets].
Qed.
Lemma summaries_same s : inv s → (collect_local_room_summaries live s).1 = s.
Proof.
  intros I. unfold collect_local_room_summaries.
  enough (H : ∀ l acc, (∀ p, p ∈ l → rooms s !! p.1 = Some p.2) → (foldl (summarize live) (s, acc) l).1 = s).
  { apply H. intros [r X] Hp. apply elem_of_map_to_list. by rewrite <- (iterate_perm _ (rooms s)). }
  induction l as [|[r X] l IH]; intros acc Hl; [done|]. cbn [foldl].
  assert (HX : rooms s !! r = Some X) by (apply (Hl (r, X)); by left).
  unfold summarize at 2. rewrite (prune_all X) by eauto using member_alive. rewrite (set_rooms_same _ _ _ HX).
  assert (bool_decide (X = ∅) && bool_decide (r ≠ "lobby") = false) as ->.
  { apply not_true_is_false. intros [He%bool_decide_eq_true Hr%bool_decide_eq_true]%andb_true_iff. by apply (ci_rooms _ _ I _ _ HX). }
  apply IH. intros p Hp. apply Hl. by right.
Qed.
Lemma kick_one_inv target room st c a : inv st.1 → live !! c = Some a → user st.1 !! a = Some target →
  inv (kick_one live target room st c).1 ∧ user (kick_one live target room st c).1 = user st.1.
Proof.
  destruct st as [s kicked]. cbn [fst]. intros I Ha Hu. unfold kick_one. rewrite (ptr_live _ _ Ha). case_bool_decide as Hc; [|done].
  destruct (current_room_exists _ _ _ _ I Ha Hc) as (X & HX & _). cbn [fst]. split; [by eapply move_inv|].
  rewrite (pl_user _ _ _ _ _ (placed _ _ _ _ _ _)). apply (rm_user _ _ _ _ _ _ (removed_inv s c room target X I HX)).
Qed.
Lemma kick_inv runtime o target room s : inv s → inv (kick_section live runtime o target room s).1.
Proof.
  intros I. unfold kick_section. destruct (actor_can_manage_room _ _ _ _ _); [|done].
  pose proof (user_sessions_inv s target I) as Hs. unfold user_sessions in *. destruct (by_user s !! target) as [X|] eqn:HX; [|done].
  cbn [fst] in Hs. rewrite Hs.
  assert (Hl : ∀ c, c ∈ locked live X → ∃ a, live !! c = Some a ∧ user s !! a = Some target).
  { intros c [Hc _]%elem_locked. apply (ci_name _ _ I). by exists X. }
  enough (H : ∀ l st, inv st.1 → user st.1 = user s → (∀ c, c ∈ l → ∃ a, live !! c = Some a ∧ user s !! a = Some target) →
    inv (foldl (kick_one live target room) st l).1).
  { specialize (H (locked live X) (s, []) I eq_refl Hl). by destruct (foldl _ _ _) as [s' kicked]. }
  clear. induction l as [|c l IH]; intros st I Hu Hl; [done|]. cbn [foldl]. destruct (Hl c) as (a & Ha & Hua); [by left|].
  rewrite <- Hu in Hua. destruct (kick_one_inv target room st c a I Ha Hua) as [I' Hu']. apply IH; [done|by rewrite Hu'|].
  intros c' Hc'. apply Hl. by right.
Qed.

(** All members of a room move to the lobby, and the room goes away. *)
Lemma place_all l : ∀ s, (∀ c, c ∈ l → alive live c) →
  let s' := foldl (λ s c, place_session_in_room live c "lobby" "guest" false true s) s l in
  user s' = user s ∧ by_user s' = by_user s ∧ authed s' = authed s ∧ room_owners s' = room_owners s
  ∧ (∀ r, r ≠ "lobby" → rooms s' !! r = rooms s !! r) ∧ (∀ r m, members_of s' r m ↔ members_of s r m ∨ r = "lobby" ∧ m ∈ l)
  ∧ (∀ b, cur_room s' !! b = if bool_decide (b ∈ ptr live <$> l) then Some "lobby" else cur_room s !! b).
Proof.
  induction l as [|c l IH]; intros s Hal; [cbn; split_and!; try done; intros; set_solver|]. cbn [foldl].
  destruct (IH (place_session_in_room live c "lobby" "guest" false true s)) as (H1 & H2 & H3 & H4 & H5 & H6 & H7).
  { intros c' Hc'. apply Hal. by right. }
  pose proof (placed s c "lobby" "guest" false true) as Hpl.
  assert (Ho : room_owners (place_session_in_room live c "lobby" "guest" false true s) = room_owners s) by done.
  set (s1 := place_session_in_room live c "lobby" "guest" false true s) in *. clearbody s1. cbv zeta in *.
  split_and!; [rewrite H1; apply Hpl|rewrite H2; apply Hpl|rewrite H3; apply Hpl|by rewrite H4| | |].
  - intros r Hr. rewrite H5 by done. rewrite (pl_rooms _ _ _ _ _ Hpl). by apply lookup_insert_ne.
  - intros r m. rewrite H6, (placed_members _ _ _ _ _ _ _ Hpl), elem_of_cons. naive_solver.
  - intros b. rewrite H7, (pl_cur _ _ _ _ _ Hpl), fmap_cons. case_bool_decide as Hb; [rewrite bool_decide_eq_true_2; [done|by right]|].
    destruct (decide (b = ptr live c)) as [->|Hne]; [rewrite lookup_insert_eq, bool_decide_eq_true_2; [done|by left]|].
    rewrite lookup_insert_ne, bool_decide_eq_false_2; [done|set_solver|done].
Qed.
Lemma remove_room_inv runtime o room s : room ≠ "lobby" → inv s → inv (remove_room_section live runtime o room s).1.
Proof.
  intros Hl I. unfold remove_room_section. destruct (actor_can_manage_room _ _ _ _ _); [|done].
  destruct (rooms s !! room) as [X|] eqn:HX.
  2:{ cbn. eapply invariant_ext; [exact I|done..|]. cbn. by intros r n [_ Hr]%lookup_delete_Some. }
  destruct (place_all (locked live X) s) as (H1 & H2 & H3 & H4 & H5 & H6 & H7); [by intros c [_ Hc]%elem_locked|].
  set (s1 := foldl _ s (locked live X)) in *. clearbody s1. cbv zeta. cbn [fst].
  assert (Hb : ∀ b, b ∈ ptr live <$> locked live X ↔ cur_room s !! b = Some room).
  { intros b. rewrite list_elem_of_fmap. split.
    - intros (m & -> & [Hm _]%elem_locked). assert (members_of s room m) as (b & Hb & Hcb)%(ci_member _ _ I) by (by exists X).
      by rewrite (ptr_live _ _ Hb).
    - intros Hcb. destruct (ci_open _ _ I b) as (m & Hm & _); [eauto|]. exists m. split; [by rewrite (ptr_live _ _ Hm)|].
      apply elem_locked. split; [|by exists b]. assert (members_of s room m) as (Y & HY & HmY) by (apply (ci_member _ _ I); eauto). congruence. }
  assert (Hsome : ∀ b, is_Some (cur_room s1 !! b) ↔ is_Some (cur_room s !! b)).
  { intros b. rewrite H7. case_bool_decide as Hbb; [|done]. apply Hb in Hbb. rewrite Hbb. naive_solver. }
  constructor; cbn; rewrite ?H1, ?H3, ?H4; unfold holds_name; cbn; rewrite ?H2; try apply I.
  - intros m r. trans (members_of s1 r m ∧ r ≠ room).
    { unfold members_of. cbn. split; [intros (Y & [Hne HY]%lookup_delete_Some & Hm); eauto|].
      intros ((Y & HY & Hm) & Hne). exists Y. split; [|done]. by apply lookup_delete_Some. }
    rewrite H6, (ci_member _ _ I). split.
    + intros [[(b & Hm & Hcb)|[-> Hm]] Hne].
      * exists b. split; [done|]. rewrite H7, bool_decide_eq_false_2; [done|]. rewrite Hb. congruence.
      * assert (alive live m) as [b Hmb] by (by apply elem_locked in Hm as [_ ?]). exists b. split; [done|].
        rewrite H7, bool_decide_eq_true_2; [done|]. apply list_elem_of_fmap. exists m. by rewrite (ptr_live _ _ Hmb).
    + intros (b & Hm & Hcb). rewrite H7 in Hcb. case_bool_decide as Hbb.
      * injection Hcb as <-. split; [|done]. right. split; [done|]. apply list_elem_of_fmap in Hbb as (m' & Hbm & Hm').
        assert (alive live m') as [b' Hmb'] by (by apply elem_locked in Hm' as [_ ?]). rewrite (ptr_live _ _ Hmb') in Hbm. subst b'.
        by rewrite (ci_inj _ _ I _ _ _ Hm Hmb').
      * rewrite Hb in Hbb. split; [left; eauto|congruence].
  - intros r Y [Hne HY]%lookup_delete_Some Hr. rewrite H5 in HY by done. by eapply (ci_rooms _ _ I).
  - intros b Hbs%Hsome. by apply (ci_open _ _ I).
  - intros b. rewrite Hsome. apply (ci_user _ _ I).
  - intros b. rewrite Hsome. apply (ci_authed _ _ I).
  - intros r n [Hne (Hr & b & Hcb & Hub)%(ci_owner _ _ I)]%lookup_delete_Some. split; [done|]. exists b. split; [|done].
    rewrite H7, bool_decide_eq_false_2; [done|]. rewrite Hb. congruence.
Qed.

(** Sections that only look members up or change other tables. *)
Lemma names_same s room : inv s → (collect_room_user_names live room s).1 = s.
Proof.
  intros I. unfold collect_room_user_names. destruct (rooms s !! room) as [X|] eqn:HX; [|done]. cbn [fst].
  rewrite prune_all by eauto using member_alive. by apply set_rooms_same.
Qed.
Lemma contains_same s room o : inv s → (room_contains_session live room o s).1 = s.
Proof.
  intros I. unfold room_contains_session. destruct (rooms s !! room) as [X|] eqn:HX; [|done]. cbn [fst].
  match goal with |- s <| rooms ::= <[room := ?Y]> |> = s => assert (Y = X) as -> end; [|by apply set_rooms_same].
  apply set_eq. intros m. rewrite elem_of_filter. split; [by intros [_ ?]|]. intros Hm. split; [left|done]. by eapply member_alive.
Qed.
Lemma expired_prefix_nil l : (∀ m, m ∈ l → alive live m) → expired_prefix live l = [].
Proof. destruct l as [|m l]; [done|]. intros H. simpl. case_decide as Hd; [done|]. destruct Hd. apply H. by left. Qed.
Lemma unique_same s o desired names : inv s → (ensure_unique_or_error live o desired names s).1 = s.
Proof.
  intros I. unfold ensure_unique_or_error. destruct (_ && _); [|done]. destruct (by_user s !! desired) as [X|] eqn:HX; [|done].
  rewrite expired_prefix_nil.
  - rewrite list_to_set_nil, difference_empty_L, (set_by_user_same _ _ _ HX). by case_match.
  - intros m Hm. rewrite (in_order_perm X), elem_of_elements in Hm. by eapply holder_alive.
Qed.
Lemma ban_last_seen_inv s name expires : inv s → inv (ban_last_seen name expires s).
Proof.
  intros I. unfold ban_last_seen. set (s1 := match user_last_ip s !! name with Some _ => _ | None => s end).
  assert (inv s1) as I1 by (subst s1; repeat case_match; [done| |done]; by eapply invariant_ext; [exact I|..]).
  clearbody s1. repeat case_match; [done| |done]. by eapply invariant_ext; [exact I1|..].
Qed.
Lemma sessions_of_inv s name : inv s → inv (user_sessions live name s).1.
Proof. intros I. by rewrite user_sessions_inv. Qed.
Lemma moderate_inv runtime o now s : inv s → inv (evaluate_chat_send_moderation live runtime o now s).1.
Proof.
  intros I. unfold evaluate_chat_send_moderation. case_bool_decide; [done|]. destruct (check_penalty _ _ _ _) as [muted mr].
  destruct (check_penalty (banned_users _) _ _ _) as [banned br].
  destruct (_ || _); [by eapply invariant_ext; [exact I|..]|]. case_match; [by eapply invariant_ext; [exact I|..]|].
  case_match; [|by eapply invariant_ext; [exact I|..]].
  match goal with |- context [user_sessions live ?n ?t] => set (s1 := t) end.
  assert (inv s1) as I1 by (subst s1; apply ban_last_seen_inv; by eapply invariant_ext; [exact I|..]).
  pose proof (sessions_of_inv s1 (actor_name live s o) I1). by destruct (user_sessions live _ s1).
Qed.
Lemma ban_section_inv runtime o name duration now s : inv s → inv (ban_section live runtime o name duration now s).1.
Proof.
  intros I. unfold ban_section. destruct (actor_is_admin _ _ _ _); [|done].
  match goal with |- context [user_sessions live ?n ?t] => set (s1 := t) end.
  assert (inv s1) as I1 by (subst s1; apply ban_last_seen_inv; by eapply invariant_ext; [exact I|..]).
  pose proof (sessions_of_inv s1 name I1). by destruct (user_sessions live _ s1).
Qed.
Lemma add_sessions_inv name s acc : inv s → inv (add_user_sessions live name (s, acc)).1.
Proof.
  intros I. unfold add_user_sessions. pose proof (sessions_of_inv s name I). by destruct (user_sessions live name s).
Qed.
Lemma moderate_one_inv runtime op reason duration now name s acc : inv s → inv (moderate_one live runtime op reason duration now (s, acc) name).1.
Proof.
  intros I. unfold moderate_one. case_bool_decide; [by eapply invariant_ext; [exact I|..]|].
  case_bool_decide; [by eapply invariant_ext; [exact I|..]|].
  case_bool_decide; [apply add_sessions_inv, ban_last_seen_inv; by eapply invariant_ext; [exact I|..]|].
  case_bool_decide; [repeat case_match; by eapply invariant_ext; [exact I|..]|].
  case_bool_decide; [by apply add_sessions_inv|done].
Qed.
Lemma moderate_users_inv runtime op reason duration now users s : inv s → inv (moderation_section live runtime op reason duration now users s).1.
Proof.
  unfold moderation_section. change s with (s, @nil Z).1 at 1. generalize (s, @nil Z). induction users as [|n users IH]; intros st I; [done|].
  cbn [foldl]. apply IH. destruct st as [t acc]. by apply moderate_one_inv.
Qed.
Lemma disconnect_same users s : inv s → (disconnect_section live users s).1 = s.
Proof.
  intros I. unfold disconnect_section. generalize (@nil Z). induction users as [|n users IH]; intros acc; [done|]. cbn [foldl].
  unfold disconnect_one at 2. pose proof (user_sessions_inv s n I). destruct (user_sessions live n s) as [s' l]. cbn in *. subst s'. apply IH.
Qed.
Lemma everyone_same s : inv s → (collect_authenticated_session_targets live s).1 = s.
Proof.
  intros I. unfold collect_authenticated_session_targets.
  enough (H : ∀ l acc, (∀ p, p ∈ l → rooms s !! p.1 = Some p.2) → (foldl (everyone_in live) (s, acc) l).1 = s).
  { apply H. intros [r X] Hp. apply elem_of_map_to_list. by rewrite <- (iterate_perm _ (rooms s)). }
  induction l as [|[r X] l IH]; intros acc Hl; [done|]. cbn [foldl].
  assert (HX : rooms s !! r = Some X) by (apply (Hl (r, X)); by left).
  unfold everyone_in at 2. rewrite (prune_all X) by eauto using member_alive. rewrite (set_rooms_same _ _ _ HX).
  apply IH. intros p Hp. apply Hl. by right.
Qed.
Lemma room_names_same room s : inv s → (collect_authenticated_room_user_names live room s).1 = s.
Proof.
  intros I. unfold collect_authenticated_room_user_names. destruct (rooms s !! room) as [X|] eqn:HX; [|done]. cbn [fst].
  rewrite prune_all by eauto using member_alive. by apply set_rooms_same.
Qed.
Lemma other_section_inv runtime config sha legacy db st s : inv s → possible st = true →
  match st with SpLogin _ _ | SpClose _ _ | SpJoin _ _ _ _ _ | SpLeave _ _ _ => False | _ => True end →
  inv (run_section runtime config sha legacy db live st s).
Proof.
  intros I Hp Hst. destruct st; try done; cbn [run_section].
  all: rewrite ?names_same, ?contains_same, ?unique_same, ?user_sessions_inv, ?targets_inv, ?summaries_same, ?disconnect_same, ?everyone_same,
    ?room_names_same by done.
  all: eauto using kick_inv, moderate_inv, ban_section_inv, moderate_users_inv.
  all: try (apply remove_room_inv; [by apply bool_decide_eq_true in Hp|done]).
  all: try (by eapply invariant_ext; [exact I|..]).
  all: unfold get_or_create_session_uuid, login_ban_check, ensure_room_id_ci, forget_room, invite_section, mute_section, unmute_section,
    unban_section, add_blacklist_entry, remove_blacklist_entry, find_session_by_id, lua_is_user_muted, lua_is_user_banned;
    repeat case_match; simplify_eq; try done; eapply invariant_ext; try exact I; cbn; try done; try by intros ? ? [_ ?]%lookup_delete_Some.
Qed.
End Invariant.

(** ** Runs *)
Definition world_inv (w : World) : Prop :=
  ChatInvariant (w_live w) (w_closed w) (w_chat w) ∧ (∀ o, is_Some (w_live w !! o) → o ∈ w_used w) ∧ w_closed w ⊆ w_used w.
Section Run.
Context `{WO : WeakOrder} `{MI : !MapIteration string}.
Context (runtime : ChatServiceRuntimeState) (config : ChatConfig).
Context (sha256_hex legacy_hash : string → string) (db_room_id : string → option string).
Abbreviation exec := (world_exec runtime config sha256_hex legacy_hash db_room_id).
Abbreviation run := (world_run runtime config sha256_hex legacy_hash db_room_id).
Abbreviation timely_steps := (timely_run runtime config sha256_hex legacy_hash db_room_id).

Lemma world_accept_inv live closed used s o a : ChatInvariant live closed s → (∀ m, is_Some (live !! m) → m ∈ used) → closed ⊆ used →
  o ∉ used → (∀ m, live !! m ≠ Some a) → ChatInvariant (<[o := a]> live) closed s.
Proof.
  intros I Hu Hcl Ho Ha.
  assert (Hno : live !! o = None) by (apply eq_None_not_Some; intros Hs%Hu; done).
  assert (Hfree : cur_room s !! a = None).
  { apply eq_None_not_Some. intros (m & Hm & _)%(ci_open _ _ _ I). by apply (Ha m). }
  assert (Hfree' : user s !! a = None) by (apply eq_None_not_Some; rewrite (ci_user _ _ _ I), Hfree; by intros [? ?]).
  assert (Hl : ∀ m b, <[o := a]> live !! m = Some b ↔ live !! m = Some b ∨ m = o ∧ b = a).
  { intros m b. rewrite lookup_insert_Some. split; [naive_solver|]. intros [Hm|[-> ->]]; [|auto]. right. split; [congruence|done]. }
  constructor; try apply I.
  - intros m m' b [H1|[-> ->]]%Hl [H2|[-> H2]]%Hl; subst; try done; [by eapply (ci_inj _ _ _ I)|by destruct (Ha m)|by destruct (Ha m')].
  - intros m r. rewrite (ci_member _ _ _ I). setoid_rewrite Hl. naive_solver.
  - intros b (m & Hm & Hop)%(ci_open _ _ _ I). exists m. rewrite Hl. auto.
  - intros m n. rewrite (ci_name _ _ _ I). setoid_rewrite Hl. naive_solver.
Qed.
Lemma destroy_inv live closed s o : ChatInvariant live closed s → o ∈ closed → ChatInvariant (delete o live) closed s.
Proof.
  intros I Ho.
  assert (Hno : ∀ a r, live !! o = Some a → cur_room s !! a = Some r → False).
  { intros a r Ha Hc. destruct (ci_open _ _ _ I a) as (m & Hm & Hop); [eauto|]. by rewrite (ci_inj _ _ _ I _ _ _ Ha Hm) in Ho. }
  assert (Hnu : ∀ a n, live !! o = Some a → user s !! a = Some n → False).
  { intros a n Ha Hu. assert (is_Some (cur_room s !! a)) as [r Hr] by (apply (ci_user _ _ _ I); eauto). eauto. }
  constructor; try apply I.
  - intros m m' b [_ H1]%lookup_delete_Some [_ H2]%lookup_delete_Some. by eapply (ci_inj _ _ _ I).
  - intros m r. rewrite (ci_member _ _ _ I). setoid_rewrite lookup_delete_Some. naive_solver.
  - intros b Hb. destruct (ci_open _ _ _ I b Hb) as (m & Hm & Hop). exists m. rewrite lookup_delete_Some. naive_solver.
  - intros m n. rewrite (ci_name _ _ _ I). setoid_rewrite lookup_delete_Some. naive_solver.
Qed.
Lemma exec_section w st w' : exec w st = Some w' → (∃ o a, st = SpAccept o a) ∨ (∃ o, st = SpDestroy o)
  ∨ admitted w st = true ∧ w' = after_section runtime config sha256_hex legacy_hash db_room_id w st.
Proof.
  enough (Hx : (∃ o a, st = SpAccept o a) ∨ (∃ o, st = SpDestroy o)
    ∨ exec w st = if admitted w st then Some (after_section runtime config sha256_hex legacy_hash db_room_id w st) else None).
  { intros H. destruct Hx as [|[|Hx]]; [by left|by right; left|]. rewrite Hx in H. right. right. destruct (admitted w st); naive_solver. }
  destruct st; [left; eauto|right; left; eauto|right; right; reflexivity..].
Qed.
Lemma section_inv live closed s st : ChatInvariant live closed s → possible st = true →
  (∀ o, held st = Some o → is_Some (live !! o)) →
  (∀ o l, st = SpLogin o l → o ∉ closed ∧ user s !! ptr live o = None ∧ locked live (default ∅ (by_user s !! lg_user l)) = []) →
  ChatInvariant live (match st with SpClose o _ => {[o]} ∪ closed | _ => closed end)
    (run_section runtime config sha256_hex legacy_hash db_room_id live st s).
Proof.
  intros I Hp Hh Hl. destruct st as [| | | | | |o l| | | |o ? ? ? ?| |o ? ?|o ?| | | | | | | | | | | | | | | | | | | | | |];
    try (apply other_section_inv; [exact I|exact Hp|exact Logic.I]); destruct (Hh o eq_refl) as [a Ha]; cbn [run_section].
  - destruct (Hl o l eq_refl) as (Hop & Hnu & Hfree). rewrite (ptr_live _ _ _ Ha) in Hnu. apply bool_decide_eq_true in Hp.
    exact (login_inv _ _ _ _ _ _ I Ha Hop Hnu Hp Hfree).
  - exact (join_inv _ _ _ _ _ _ _ _ _ _ _ _ I Ha).
  - exact (leave_inv _ _ _ _ _ _ _ I Ha).
  - exact (close_inv _ _ _ _ _ _ I Ha).
Qed.
Lemma exec_inv w st w' : world_inv w → timely w st = true → exec w st = Some w' → world_inv w'.
Proof.
  intros (I & Hu & Hcl) Ht Hx. destruct (exec_section _ _ _ Hx) as [(o & a & ->)|[(o & ->)|[Hg ->]]].
  - unfold world_exec in Hx. destruct (_ && _) eqn:Hg; [|done]. injection Hx as <-.
    apply andb_true_iff in Hg as [Ho%bool_decide_eq_true Hf%bool_decide_eq_true]. split_and!; cbn; [| |set_solver].
    + eapply world_accept_inv; [done..|]. intros m Hm. rewrite Forall_forall in Hf. apply (Hf (m, a)); [by apply elem_of_map_to_list|done].
    + intros m. destruct (decide (m = o)) as [->|]; [set_solver|]. rewrite lookup_insert_ne by done. intros Hm%Hu. set_solver.
  - unfold world_exec in Hx. case_bool_decide as Hc; [|done]. injection Hx as <-. split_and!; cbn; [by apply destroy_inv| |done].
    intros m [b [_ Hb]%lookup_delete_Some]. apply Hu. eauto.
  - apply andb_true_iff in Hg as [Hp Hg]. assert (Hh : ∀ o, held st = Some o → is_Some (w_live w !! o)).
    { intros o Ho. rewrite Ho in Hg. by apply bool_decide_eq_true in Hg. }
    split_and!; [|done|].
    + apply section_inv; [done..|]. intros o l ->. cbn in Ht. rewrite !andb_true_iff, !bool_decide_eq_true in Ht. by destruct Ht as [[??]?].
    + cbn. destruct st as [| | | | | | | | | | | | |o ?| | | | | | | | | | | | | | | | | | | | | |]; try done.
      pose proof (Hu _ (Hh o eq_refl)). set_solver.
Qed.
Lemma world_run_inv steps : ∀ w w', world_inv w → timely_steps w steps = true → run w steps = Some w' → world_inv w'.
Proof.
  induction steps as [|st steps IH]; intros w w' I Ht H; simpl in *; [by injection H as <-|].
  apply andb_true_iff in Ht as [Ht Hts]. destruct (world_exec _ _ _ _ _ w st) as [w1|] eqn:Hx; [|done].
  eapply IH; [by eapply exec_inv|done|done].
Qed.
Lemma new_inv : world_inv world_new.
Proof.
  clear.
  split_and!; [|by intros o [? ?]|done]. constructor; unfold members_of, holds_name; cbn; intros; try set_solver.
  all: try (split; [by intros (? & ? & ?)|by intros (? & ? & ?)]). all: try done.
  - by destruct H as [? ?].
  - split; [set_solver|by intros [? ?]].
Qed.
End Run.
