(* ===== verification/ChatRaces.v ===== *)
(** * Chat sessions: exact tables, and the races that break them

    [ChatWorld]'s invariant as a property of whole runs, with the history of
    logins, and concrete runs of the same machine in which a late, repeated or
    concurrent login leaves the tables wrong. *)
From S2P Require Import Prelude Containers Text Packet ChatState ChatHandlers ChatAdmin ChatFrames ChatWorld.
From stdpp Require Import list gmap strings.
Open Scope Z_scope.
Open Scope record_scope.

Section History.
Context `{WO : WeakOrder} `{MI : !MapIteration string}.
Context (runtime : ChatServiceRuntimeState) (config : ChatConfig).
Context (sha256_hex legacy_hash : string → string) (db_room_id : string → option string).

(** Only a login enters a session into the user table. *)
Lemma login_user live o l s : user (login_commit live o l s) = <[ptr live o := lg_user l]> (user s).
Proof.
  unfold login_commit. rewrite (place_settled live user).
  assert (H : user (match user s !! ptr live o with Some old => remove_from_name o old s | None => s end) = user s).
  { case_match; [|done]. unfold remove_from_name. by case_match. }
  revert H. generalize (match user s !! ptr live o with Some old => remove_from_name o old s | None => s end). intros t Ht.
  destruct (non_empty (lg_ip l)), (non_empty (lg_hwid l)), (non_empty (lg_user_uuid l)), (non_empty (lg_logical l)); cbn; by rewrite Ht.
Qed.
Lemma close_user live o sid s : user (close_section live o sid s).1 = delete (ptr live o) (user s).
Proof.
  assert (H : ∀ name, user (forget_session live o sid name s) = delete (ptr live o) (user s)).
  { intros name. unfold forget_session, remove_from_name. cbn. by repeat case_match. }
  unfold close_section. cbv zeta. specialize (H (actor_name live s o)). revert H.
  generalize (forget_session live o sid (actor_name live s o) s). intros t Ht. case_match; [|done].
  destruct (room_exists t _); [|done]. match goal with |- context [remove_session_from_room live o ?r ?n t] =>
    pose proof (remove_framed live user o r n t); destruct (remove_session_from_room live o r n t) end. cbn in *. congruence.
Qed.
Lemma section_user live st s a n : user (run_section runtime config sha256_hex legacy_hash db_room_id live st s) !! a = Some n →
  user s !! a = Some n ∨ ∃ o l, st = SpLogin o l ∧ ptr live o = a.
Proof.
  destruct st; cbn [run_section]; autorewrite with frames; rewrite ?login_user, ?close_user; auto.
  all: try (intros H; left; revert H; unfold get_or_create_session_uuid, ensure_room_id_ci, add_blacklist_entry, remove_blacklist_entry,
    find_session_by_id; repeat case_match; simplify_eq; by auto).
  - intros [[<- _]|[_ ?]]%lookup_insert_Some; eauto.
  - intros [_ ?]%lookup_delete_Some. eauto.
Qed.
(** Whoever is logged in logged in itself: an address does not inherit a login. *)
Lemma run_history steps : ∀ w w', world_inv w → timely_run runtime config sha256_hex legacy_hash db_room_id w steps = true →
  world_run runtime config sha256_hex legacy_hash db_room_id w steps = Some w' →
  ∀ o a n, w_live w' !! o = Some a → user (w_chat w') !! a = Some n →
    (∃ l, SpLogin o l ∈ steps) ∨ w_live w !! o = Some a ∧ is_Some (user (w_chat w) !! a).
Proof.
  induction steps as [|st steps IH]; intros w w' I Ht H o a n Ha Hu; simpl in *; [injection H as <-; eauto|].
  apply andb_true_iff in Ht as [Ht Hts]. destruct (world_exec _ _ _ _ _ w st) as [w1|] eqn:Hx; [|done].
  pose proof (exec_inv _ _ _ _ _ _ _ _ I Ht Hx) as I1.
  destruct (IH w1 w' I1 Hts H o a n Ha Hu) as [[l Hl]|[Ha1 [n1 Hn1]]]; [left; exists l; by right|].
  destruct (exec_section _ _ _ _ _ _ _ _ Hx) as [(o' & a' & ->)|[(o' & ->)|[_ ->]]].
  - unfold world_exec in Hx. destruct (_ && _) eqn:Hg; [|done]. injection Hx as <-. cbn in *.
    apply lookup_insert_Some in Ha1 as [[<- <-]|[_ Ha1]]; [|eauto].
    apply andb_true_iff in Hg as [_ Hf%bool_decide_eq_true]. rewrite Forall_forall in Hf. destruct I as [I _].
    assert (is_Some (cur_room (w_chat w) !! a')) as (m & Hm & _)%(ci_open _ _ _ I) by (apply (ci_user _ _ _ I); eauto).
    destruct (Hf (m, a')); [by apply elem_of_map_to_list|done].
  - unfold world_exec in Hx. case_bool_decide; [|done]. injection Hx as <-. cbn in *.
    apply lookup_delete_Some in Ha1 as [_ Ha1]. eauto.
  - cbn in Ha1, Hn1. apply section_user in Hn1 as [Hn1|(o' & l & -> & Hp)]; [eauto|]. left. exists l.
    destruct I as [I _]. assert (o' = o) as ->; [|by left].
    unfold world_exec, admitted in Hx. cbn in Hx. destruct (_ && bool_decide _) eqn:Hg; [|done].
    apply andb_true_iff in Hg as [_ [b Hb]%bool_decide_eq_true]. rewrite (ptr_live _ _ _ Hb) in Hp. subst b. by eapply (ci_inj _ _ _ I).
Qed.
End History.

(** ** Runs *)
Section Exact.
Context `{WO : WeakOrder} `{MI : !MapIteration string}.

(** C5: In every interleaving of the handlers' locked sections, with sessions
    created, closed and destroyed and addresses reused, in which each login comes
    in time (the session still open, not logged in before, the name free), the
    tables describe the sessions exactly.  A session is authenticated exactly when
    it has a name and a current room; it is then a member of that room and of no
    other, it holds that name and no one else does, and it sent a login itself and
    has not been closed.  Rooms other than the lobby are never left empty, and a
    room's owner is a member of it. *)
Theorem chat_tables_exact runtime config sha256_hex legacy_hash db_room_id steps w
    (Ht : timely_run runtime config sha256_hex legacy_hash db_room_id world_new steps = true)
    (H : world_run runtime config sha256_hex legacy_hash db_room_id world_new steps = Some w) :
  let s := w_chat w in
  (∀ o a, w_live w !! o = Some a →
    (a ∈ authed s ↔ ∃ name room, user s !! a = Some name ∧ cur_room s !! a = Some room) ∧
    (∀ room, members_of s room o ↔ cur_room s !! a = Some room) ∧
    (∀ name, holds_name s name o ↔ user s !! a = Some name) ∧
    (a ∈ authed s → (∃ l, SpLogin o l ∈ steps) ∧ o ∉ w_closed w)) ∧
  (∀ a a' name, user s !! a = Some name → user s !! a' = Some name → a = a') ∧
  (∀ room X, rooms s !! room = Some X → room ≠ "lobby" → X ≠ ∅) ∧
  (∀ room name, room_owners s !! room = Some name →
    room ≠ "lobby" ∧ ∃ o, members_of s room o ∧ holds_name s name o).
Proof.
  pose proof (world_run_inv _ _ _ _ _ _ _ _ new_inv Ht H) as (I & _).
  pose proof (run_history _ _ _ _ _ _ _ _ new_inv Ht H) as Hh. cbv zeta. split_and!.
  - intros o a Ha. split_and!.
    + rewrite (ci_authed _ _ _ I). split.
      * intros Hc. pose proof Hc as [n Hn]%(ci_user _ _ _ I). destruct Hc as [r Hr]. eauto.
      * intros (? & r & _ & Hr). eauto.
    + intros room. rewrite (ci_member _ _ _ I). naive_solver.
    + intros name. rewrite (ci_name _ _ _ I). naive_solver.
    + intros Hc%(ci_authed _ _ _ I). pose proof Hc as [n Hn]%(ci_user _ _ _ I). split.
      * by destruct (Hh o a n Ha Hn) as [?|[? _]].
      * destruct (ci_open _ _ _ I _ Hc) as (m & Hm & Hcl). by rewrite (ci_inj _ _ _ I _ _ _ Ha Hm).
  - apply (ci_unique _ _ _ I).
  - apply (ci_rooms _ _ _ I).
  - intros room name Ho. destruct (ci_owner _ _ _ I _ _ Ho) as (Hl & a & Hc & Hu). split; [done|].
    destruct (ci_open _ _ _ I a) as (o & Ha & _); [eauto|]. exists o. rewrite (ci_member _ _ _ I), (ci_name _ _ _ I). split; eauto.
Qed.
End Exact.
Definition demo_config : ChatConfig := {| cc_redis := false; cc_db := false; cc_pubsub := false; cc_write_behind := false;
  cc_gateway_id := "gw"; cc_presence_prefix := EmptyString; cc_presence_ttl := 30; cc_continuity_prefix := EmptyString |}.
Definition demo_login (name uuid room : string) : Login := {| lg_user := name; lg_guest := false; lg_ip := "10.0.0.1"; lg_hwid := EmptyString;
  lg_user_uuid := uuid; lg_logical := EmptyString; lg_expires := 0; lg_world := "w"; lg_room := room; lg_resumed := false |}.
Definition demo_run : list Step → option World :=
  world_run (runtime_state_default {["root"]}) demo_config id id (λ _, None) world_new.
Definition demo_timely : list Step → bool :=
  timely_run (runtime_state_default {["root"]}) demo_config id id (λ _, None) world_new.
(** Two users meet in a room, its owner leaves the service, and its address is given to a third. *)
Definition meeting : list Step :=
  [SpAccept 1 100; SpLogin 1 (demo_login "ann" EmptyString "lobby"); SpAccept 2 200; SpLogin 2 (demo_login "bob" EmptyString "lobby");
   SpJoin 1 "den" EmptyString None hook_passes; SpInvite 1 "bob" "den"; SpJoin 2 "den" EmptyString None hook_passes;
   SpClose 1 11; SpDestroy 1; SpAccept 3 100].
(** Facts of a run's final state, by evaluation. *)
Lemma demo_facts steps (P : World → Prop) `{∀ w, Decision (P w)} :
  match demo_run steps with Some w => bool_decide (P w) | None => false end = true → ∃ w, demo_run steps = Some w ∧ P w.
Proof. destruct (demo_run steps) as [w|]; [|done]. intros Hp%bool_decide_eq_true. eauto. Qed.
Lemma chat_tables_exact_witness : ∃ w, demo_run meeting = Some w ∧ demo_timely meeting = true ∧
  room_owners (w_chat w) !! "den" = Some "bob" ∧ holds_name (w_chat w) "bob" 2 ∧ 100 ∉ authed (w_chat w).
Proof.
  destruct (demo_facts meeting (λ w, room_owners (w_chat w) !! "den" = Some "bob" ∧ w_live w !! 2 = Some 200
    ∧ user (w_chat w) !! 200 = Some "bob" ∧ w_live w !! 3 = Some 100)) as (w & H & Hd & H2 & Hu & H3); [by vm_compute|].
  exists w. assert (Ht : demo_timely meeting = true) by (by vm_compute).
  pose proof (chat_tables_exact _ _ _ _ _ meeting w Ht H) as (Hs & _ & _ & Ho). split_and!; [done..| |].
  - by apply (Hs 2 200 H2).
  - intros Ha%(Hs 3 100 H3). destruct Ha as [[l Hl] _]. repeat (apply elem_of_cons in Hl as [Hl|Hl]; [done|]). by apply elem_of_nil in Hl.
Defined.

(** ** Logins that come too late, twice or at once *)
(** The login job runs after the close section of its session: the next session
    at that address is authenticated as the earlier user without logging in. *)
Lemma stale_login_authenticates : ∃ w,
  demo_run [SpAccept 1 100; SpClose 1 11; SpLogin 1 (demo_login "root" "uuid-root" "lobby"); SpDestroy 1; SpAccept 2 100] = Some w ∧
  w_live w !! 2 = Some 100 ∧ 100 ∈ authed (w_chat w) ∧
  actor_is_admin (w_live w) (runtime_state_default {["root"]}) (w_chat w) 2 = true.
Proof. apply (demo_facts _ (λ w, _)). by vm_compute. Qed.

(** The name is free when both logins look, and both commit it. *)
Lemma login_race_shares_name : ∃ w,
  demo_run [SpAccept 1 100; SpAccept 2 200; SpUnique 1 "ann" []; SpUnique 2 "ann" [];
            SpLogin 1 (demo_login "ann" EmptyString "lobby"); SpLogin 2 (demo_login "ann" EmptyString "lobby")] = Some w ∧
  user (w_chat w) !! 100 = Some "ann" ∧ user (w_chat w) !! 200 = Some "ann".
Proof. apply (demo_facts _ (λ w, _)). by vm_compute. Qed.
(** A second login on the same session, resumed into another room, leaves it a
    member of both, and keeps the identifier of the first user when the second
    brings none. *)
Lemma relogin_two_rooms : ∃ w,
  demo_run [SpAccept 1 100; SpLogin 1 (demo_login "ann" "uuid-ann" "lobby"); SpLogin 1 (demo_login "bob" EmptyString "den")] = Some w ∧
  members_of (w_chat w) "lobby" 1 ∧ members_of (w_chat w) "den" 1 ∧
  user (w_chat w) !! 100 = Some "bob" ∧ user_uuid (w_chat w) !! 100 = Some "uuid-ann".
Proof.
  match goal with |- ∃ w, demo_run ?steps = _ ∧ _ =>
    destruct (demo_facts steps (λ w, 1 ∈ default ∅ (rooms (w_chat w) !! "lobby") ∧ 1 ∈ default ∅ (rooms (w_chat w) !! "den")
      ∧ user (w_chat w) !! 100 = Some "bob" ∧ user_uuid (w_chat w) !! 100 = Some "uuid-ann")) as (w & H & Hl & Hd & Hu); [by vm_compute|] end.
  exists w. split_and!; [done| | |apply Hu..]; unfold members_of; [destruct (rooms _ !! "lobby")|destruct (rooms _ !! "den")]; set_solver.
Qed.
(** Closing a session keeps the user identifier filed under its address. *)
Lemma closed_session_leaves_uuid : ∃ w,
  demo_run [SpAccept 1 100; SpLogin 1 (demo_login "ann" "uuid-ann" "lobby"); SpClose 1 11; SpDestroy 1; SpAccept 2 100;
            SpLogin 2 (demo_login "bob" EmptyString "lobby")] = Some w ∧
  user (w_chat w) !! 100 = Some "bob" ∧ user_uuid (w_chat w) !! 100 = Some "uuid-ann".
Proof. apply (demo_facts _ (λ w, _)). by vm_compute. Qed.
