(* ===== verification/ChatJobs.v ===== *)
(** * Whole jobs of the chat service

    [server/app/router.cpp] and the handlers it registers, seen from outside: a
    request runs one handler of [ChatHandlers].  Shown: the effect of a whole
    handler on the state is a run of the machine of [ChatWorld], so the facts
    about all interleavings hold of the handlers as they are written, and a login
    that is not interrupted comes in time.  With the opcode tables of [Opcodes]
    and the dispatch of [Dispatch], only a login or a ping reaches the service
    before the session is authenticated. *)
From S2P Require Import Prelude Containers Text Packet Opcodes Dispatch ChatState ChatHandlers ChatAdmin ChatWorld ChatRaces.
From stdpp Require Import list gmap strings.
Open Scope Z_scope.
Open Scope record_scope.

(** ** Requests *)
Inductive Request :=
  | RqLogin (payload : list Z) (ip owner : string) (a : LoginAnswers)
  | RqJoin (payload : list Z) (a : JoinAnswers)
  | RqLeave (payload : list Z) (a : LeaveAnswers)
  | RqChat (payload : list Z) (a : ChatAnswers)
  | RqWhisper (payload : list Z) (published : bool)
  | RqRooms
  | RqRoomUsers (payload : list Z) (redis_names : option (list string))
  | RqRefresh (last_id : Z)
  | RqPing (payload : list Z)
  (** the close callback of the session, and messages from other servers *)
  | RqClose (fresh : string) (remaining : option Z)
  | RqRemoteChat (room sender text : string) (sender_sid : Z)
  | RqRemoteWhisper (sender recipient text : string)
  (** the control plane, with the decision of its hook, and scripts *)
  | RqDisconnect (denies : string → string → string → bool) (users : list string) (reason : string)
  | RqAnnounce (denies : string → string → string → bool) (text : string)
  | RqModerate (denies : string → string → string → bool) (op : string) (users : list string) (duration now : Z) (reason : string)
  | RqLuaNotice (session_id : Z) (text : string)
  | RqLuaRoom (room text : string)
  | RqLuaAll (text : string)
  | RqLuaKick (session_id : Z) (reason : string)
  | RqLuaMute (name : string) (duration now : Z) (reason : string)
  | RqLuaBan (name : string) (duration now : Z) (reason : string).

Section Jobs.
Context `{WO : WeakOrder} `{MI : !MapIteration string}.
Context (runtime : ChatServiceRuntimeState) (config : ChatConfig).
Context (sha256_hex legacy_hash : string → string) (db_room_id : string → option string) (names_loaded : bool).

Definition handle (live : gmap Z Z) (o session_id : Z) (queued : bool) (rq : Request) : Chat unit :=
  match rq with
  | RqLogin payload ip owner a => on_login live runtime config sha256_hex db_room_id o session_id payload queued ip owner a
  | RqJoin payload a => on_join live runtime config sha256_hex legacy_hash db_room_id names_loaded o payload queued a
  | RqLeave payload a => on_leave live config db_room_id names_loaded o payload queued a
  | RqChat payload a => on_chat_send live runtime config db_room_id names_loaded o session_id payload queued a
  | RqWhisper payload published => on_whisper live config o payload queued published
  | RqRooms => on_rooms_request live o queued
  | RqRoomUsers payload names => on_room_users_request live config o payload queued names
  | RqRefresh last_id => on_refresh_request live config db_room_id names_loaded o queued last_id
  | RqPing payload => on_ping live config o payload
  | RqClose fresh remaining => on_session_close live config db_room_id o session_id fresh remaining
  | RqRemoteChat room sender text sid => broadcast_room live room sender text sid
  | RqRemoteWhisper sender recipient text => deliver_remote_whisper live sender recipient text
  | RqDisconnect denies users reason => admin_disconnect_users live denies queued users reason
  | RqAnnounce denies text => admin_broadcast_notice live denies queued text
  | RqModerate denies op users duration now reason => admin_apply_user_moderation live runtime denies queued op users duration now reason
  | RqLuaNotice target text => lua_send_notice live target text;; mret tt
  | RqLuaRoom room text => lua_broadcast_room live room text;; mret tt
  | RqLuaAll text => broadcast_notice_to_all_sessions live queued text;; mret tt
  | RqLuaKick target reason => lua_kick_user live target reason;; mret tt
  | RqLuaMute name duration now reason => lua_mute_user live runtime queued name duration now reason;; mret tt
  | RqLuaBan name duration now reason => lua_ban_user live runtime queued name duration now reason;; mret tt
  end.
End Jobs.

(** ** A handler is a run of sections *)
Section Runs.
Context `{WO : WeakOrder} `{MI : !MapIteration string}.
Context (live : gmap Z Z) (login : option (Prop * gset Z)) (runtime : ChatServiceRuntimeState) (config : ChatConfig).
Context (sha256_hex legacy_hash : string → string) (db_room_id : string → option string) (names_loaded : bool).
Abbreviation run_step st s := (run_section runtime config sha256_hex legacy_hash db_room_id live st s).

Definition is_section (st : Step) : bool := match st with SpAccept _ _ | SpDestroy _ => false | _ => true end.
(** What [timely] asks of the state: [login] is [None] in a handler without a
    login, and otherwise whether the login is expected in time and the sessions
    closed before, to which it adds none. *)
Definition in_time (s : ChatServiceState) (st : Step) : Prop :=
  match st with
  | SpLogin o l => ∃ (ready : Prop) closed, login = Some (ready, closed) ∧
      (ready → o ∉ closed ∧ user s !! ptr live o = None ∧ locked live (default ∅ (by_user s !! lg_user l)) = [])
  | SpClose _ _ => login = None
  | _ => True
  end.
Definition step_ok (s : ChatServiceState) (st : Step) : Prop :=
  is_section st = true ∧ possible st = true ∧ (∀ o, held st = Some o → is_Some (live !! o)) ∧ in_time s st.
Inductive Path : ChatServiceState → list Step → ChatServiceState → Prop :=
  | path_nil s : Path s [] s
  | path_cons s st steps s' : step_ok s st → Path (run_step st s) steps s' → Path s (st :: steps) s'.
Lemma path_app s steps s1 steps' s2 : Path s steps s1 → Path s1 steps' s2 → Path s (steps ++ steps') s2.
Proof. induction 1; simpl; [done|]. intros. constructor; auto. Qed.
Definition Runs {A} (m : Chat A) (s : ChatServiceState) (Q : A → ChatServiceState → Prop) : Prop :=
  (∃ steps, Path s steps (m s).1.1) ∧ ∀ x, (m s).2 = Some x → Q x (m s).1.1.
Lemma runs_bind {A B} (m : Chat A) (k : A → Chat B) s Q Q' : Runs m s Q' → (∀ x s', Q' x s' → Runs (k x) s' Q) → Runs (m ≫= k) s Q.
Proof.
  intros [[steps Hp] Hq] Hk. unfold Runs, mbind, chat_bind. destruct (m s) as [[s1 out] [x|]]; cbn in *; [|split; [eauto|done]].
  destruct (Hk x s1 (Hq x eq_refl)) as [[steps' Hp'] Hr]. destruct (k x s1) as [[s2 out'] r]. cbn in *.
  split; [eauto using path_app|done].
Qed.
Lemma runs_keep {A} (m : Chat A) s (Q : A → ChatServiceState → Prop) : (m s).1.1 = s → (∀ x, (m s).2 = Some x → Q x s) → Runs m s Q.
Proof. intros Hs HQ. split; rewrite Hs; [eexists; constructor|done]. Qed.
Lemma runs_step {A} (m : Chat A) s st (Q : A → ChatServiceState → Prop) : step_ok s st → (m s).1.1 = run_step st s →
  (∀ x, (m s).2 = Some x → Q x (run_step st s)) → Runs m s Q.
Proof. intros Hst Hs HQ. split; rewrite Hs; [|done]. exists [st]. repeat constructor; apply Hst. Qed.
Lemma runs_weaken {A} (m : Chat A) s (Q Q' : A → ChatServiceState → Prop) : Runs m s Q' → (∀ x s', Q' x s' → Q x s') → Runs m s Q.
Proof. intros [Hp Hq] H. split; eauto. Qed.

(** Handlers without a login, from any state. *)
Definition Job {A} (m : Chat A) : Prop := ∀ s, Runs m s (λ _ _, True).
Definition plain (st : Step) : Prop :=
  is_section st = true ∧ possible st = true ∧ (∀ o, held st = Some o → is_Some (live !! o))
  ∧ match st with SpLogin _ _ => False | SpClose _ _ => login = None | _ => True end.
Lemma plain_ok s st : plain st → step_ok s st.
Proof. intros (?&?&?&Hl). split_and!; [done..|]. by destruct st. Qed.
Lemma job_bind {A B} (m : Chat A) (k : A → Chat B) : Job m → (∀ x, Job (k x)) → Job (m ≫= k).
Proof. intros Hm Hk s. eapply runs_bind; [apply Hm|]. intros x s' _. apply Hk. Qed.
Lemma job_ret {A} (x : A) : Job (mret x).
Proof. intros s. by apply runs_keep. Qed.
Lemma job_return {A} out : Job (return_ out : Chat A).
Proof. intros s. by apply runs_keep. Qed.
Lemma job_tell out : Job (tell out).
Proof. intros s. by apply runs_keep. Qed.
Lemma job_gets {A} (f : ChatServiceState → A) : Job (gets f).
Proof. intros s. by apply runs_keep. Qed.
Lemma job_when b m : Job m → Job (when b m).
Proof. destruct b; [done|]. intros _. apply job_ret. Qed.
Lemma job_for_each {A} (f : A → Chat unit) l : (∀ x, Job (f x)) → Job (for_each f l).
Proof. intros Hf. induction l as [|x l IH]; simpl; [apply job_ret|]. apply job_bind; [apply Hf|done]. Qed.
Lemma job_section {A} (f : ChatServiceState → ChatServiceState * A) st : plain st → (∀ s, (f s).1 = run_step st s) → Job (section f).
Proof. intros Hp Hf s. apply (runs_step _ _ st); [by apply plain_ok| |done]. rewrite <- Hf. unfold section. by destruct (f s). Qed.
Lemma job_guarded {A} (f : ChatServiceState → ChatServiceState * (list Out * option A)) st :
  plain st → (∀ s, (f s).1 = run_step st s) → Job (guarded f).
Proof. intros Hp Hf s. apply (runs_step _ _ st); [by apply plain_ok| |done]. rewrite <- Hf. unfold guarded. by destruct (f s) as [? [? ?]]. Qed.
Lemma job_modify f st : plain st → (∀ s, f s = run_step st s) → Job (modify f).
Proof. intros Hp Hf s. apply (runs_step _ _ st); [by apply plain_ok|by rewrite <- Hf|done]. Qed.
Lemma job_read {A} (f : ChatServiceState → ChatServiceState * (list Out * option A)) : (∀ s, (f s).1 = s) → Job (guarded f).
Proof. intros Hf s. apply runs_keep; [|done]. unfold guarded. rewrite <- (Hf s) at 2. by destruct (f s) as [? [? ?]]. Qed.

(** *** The sections *)
Lemma plain_free st : is_section st = true → possible st = true → held st = None → plain st.
Proof. intros ? ? Hh. split_and!; [done..| |]; [by rewrite Hh|by destruct st]. Qed.
Ltac free := apply plain_free; done.
Lemma job_summaries : Job (section (collect_local_room_summaries live)).
Proof. apply (job_section _ SpSummaries); [free|by intros; cbn [run_section]]. Qed.
Lemma job_names room : Job (section (collect_room_user_names live room)).
Proof. apply (job_section _ (SpNames room)); [free|by intros; cbn [run_section]]. Qed.
Lemma job_room_id room : Job (section (ensure_room_id_ci config db_room_id room)).
Proof. apply (job_section _ (SpRoomId room)); [free|by intros; cbn [run_section]]. Qed.
Lemma job_targets room sender : Job (section (collect_room_targets live room sender)).
Proof. apply (job_section _ (SpTargets room sender)); [free|by intros; cbn [run_section]]. Qed.
Lemma job_chat_targets room sender : Job (section (collect_chat_broadcast_targets live room sender)).
Proof.
  apply (job_section _ (SpTargets room sender)); [free|]. intros s. cbn. unfold collect_chat_broadcast_targets, collect_room_targets.
  by destruct (rooms s !! room).
Qed.
Lemma job_sessions name : Job (section (user_sessions live name)).
Proof. apply (job_section _ (SpSessionsOf name)); [free|by intros; cbn [run_section]]. Qed.
Lemma job_whisper_targets o sender target : Job (section (whisper_section live o sender target)).
Proof.
  apply (job_section _ (SpSessionsOf target)); [free|]. intros s. cbn. unfold whisper_section. by destruct (user_sessions live target s).
Qed.
Lemma job_forget room : Job (modify (forget_room room)).
Proof. apply (job_modify _ (SpForget room)); [free|by intros; cbn [run_section]]. Qed.
Lemma job_block actor name : Job (section (add_blacklist_entry actor name)).
Proof. apply (job_section _ (SpBlock actor name)); [free|by intros; cbn [run_section]]. Qed.
Lemma job_unblock actor name : Job (section (remove_blacklist_entry actor name)).
Proof. apply (job_section _ (SpUnblock actor name)); [free|by intros; cbn [run_section]]. Qed.
Lemma job_moderate_users op reason duration now users : Job (section (moderation_section live runtime op reason duration now users)).
Proof. apply (job_section _ (SpModerateUsers op reason duration now users)); [free|by intros; cbn [run_section]]. Qed.
Lemma job_disconnect users : Job (section (disconnect_section live users)).
Proof. apply (job_section _ (SpDisconnect users)); [free|by intros; cbn [run_section]]. Qed.
Lemma job_everyone : Job (section (collect_authenticated_session_targets live)).
Proof. apply (job_section _ SpEveryone); [free|by intros; cbn [run_section]]. Qed.
Lemma job_find sid : Job (section (find_session_by_id live sid)).
Proof. apply (job_section _ (SpFind sid)); [free|by intros; cbn [run_section]]. Qed.
Lemma job_guard o room : Job (guarded (chat_guard live o room)).
Proof. apply job_read. intros s. unfold chat_guard. by repeat case_match. Qed.

Context (o : Z) (Ho : is_Some (live !! o)).
Lemma plain_held st : is_section st = true → possible st = true → held st = Some o →
  match st with SpLogin _ _ => False | SpClose _ _ => login = None | _ => True end → plain st.
Proof using Ho. intros ? ? Hh ?. split_and!; [done..| |done]. rewrite Hh. by intros ? [= <-]. Qed.
Ltac own := apply plain_held; done.
Lemma job_uuid fresh : Job (section (get_or_create_session_uuid live o fresh)).
Proof using Ho. apply (job_section _ (SpUuid o fresh)); [own|by intros; cbn [run_section]]. Qed.
Lemma job_contains room : Job (section (room_contains_session live room o)).
Proof using Ho. apply (job_section _ (SpContains o room)); [own|by intros; cbn [run_section]]. Qed.
Lemma job_join room password redis_password hook :
  Job (guarded (join_section live runtime sha256_hex legacy_hash o room password redis_password hook)).
Proof using Ho. apply (job_guarded _ (SpJoin o room password redis_password hook)); [own|by intros; cbn [run_section]]. Qed.
Lemma job_leave room hook : Job (guarded (leave_section live o room hook)).
Proof using Ho. apply (job_guarded _ (SpLeave o room hook)); [own|by intros; cbn [run_section]]. Qed.
Lemma job_close sid : login = None → Job (section (close_section live o sid)).
Proof using Ho. intros Hl. apply (job_section _ (SpClose o sid)); [own|by intros; cbn [run_section]]. Qed.
Lemma job_moderate now : Job (section (evaluate_chat_send_moderation live runtime o now)).
Proof using Ho. apply (job_section _ (SpModerate o now)); [own|by intros; cbn [run_section]]. Qed.
Lemma job_invite name room : Job (section (invite_section live runtime o name room)).
Proof using Ho. apply (job_section _ (SpInvite o name room)); [own|by intros; cbn [run_section]]. Qed.
Lemma job_kick name room : room ≠ "lobby" → Job (section (kick_section live runtime o name room)).
Proof using Ho. intros Hr. apply (job_section _ (SpKick o name room)); [|by intros; cbn [run_section]]. apply plain_held; try done. by apply bool_decide_eq_true. Qed.
Lemma job_remove_room room : room ≠ "lobby" → Job (section (remove_room_section live runtime o room)).
Proof using Ho. intros Hr. apply (job_section _ (SpRemoveRoom o room)); [|by intros; cbn [run_section]]. apply plain_held; try done. by apply bool_decide_eq_true. Qed.
Lemma job_mute name duration now : Job (section (mute_section live runtime o name duration now)).
Proof using Ho. apply (job_section _ (SpMute o name duration now)); [own|by intros; cbn [run_section]]. Qed.
Lemma job_unmute name : Job (section (unmute_section live runtime o name)).
Proof using Ho. apply (job_section _ (SpUnmute o name)); [own|by intros; cbn [run_section]]. Qed.
Lemma job_ban name duration now : Job (section (ban_section live runtime o name duration now)).
Proof using Ho. apply (job_section _ (SpBan o name duration now)); [own|by intros; cbn [run_section]]. Qed.
Lemma job_unban name : Job (section (unban_section live runtime o name)).
Proof using Ho. apply (job_section _ (SpUnban o name)); [own|by intros; cbn [run_section]]. Qed.
Lemma job_gkick name : Job (section (gkick_section live runtime o name)).
Proof using Ho.
  intros s. unfold section, gkick_section. destruct (actor_is_admin live runtime s o) eqn:Ha.
  - apply (runs_step _ _ (SpSessionsOf name)); [apply plain_ok; free| |done]. rewrite Ha. cbn. by destruct (user_sessions live name s).
  - apply runs_keep; [by rewrite Ha|done].
Qed.
End Runs.

Create HintDb jobs.
#[export] Hint Resolve job_ret job_return job_tell job_gets job_summaries job_names job_room_id job_targets job_chat_targets
  job_sessions job_whisper_targets job_forget job_block job_unblock job_guard job_uuid job_contains job_join job_leave job_close
  job_moderate job_invite job_mute job_unmute job_ban job_unban job_gkick job_moderate_users job_disconnect job_everyone job_find : jobs.
(** Walks through a program: sequencing, branches and loops. *)
Ltac job := repeat match goal with
  | |- Job _ _ _ _ _ _ _ (_ ≫= _) => apply job_bind; [|intros ?]
  | |- Job _ _ _ _ _ _ _ (when _ _) => apply job_when
  | |- Job _ _ _ _ _ _ _ (for_each _ _) => apply job_for_each; intros ?
  | |- Job _ _ _ _ _ _ _ (let _ := _ in _) => cbv zeta
  | |- Job _ _ _ _ _ _ _ (match ?x with _ => _ end) => destruct x eqn:?
  | |- Job _ _ _ _ _ _ _ (match ?x with _ => _ end _) => destruct x eqn:?
  | _ => solve [eauto with jobs]
  end.

Section Handlers.
Context `{WO : WeakOrder} `{MI : !MapIteration string}.
Context (live : gmap Z Z) (login : option (Prop * gset Z)) (runtime : ChatServiceRuntimeState) (config : ChatConfig).
Context (sha256_hex legacy_hash : string → string) (db_room_id : string → option string) (names_loaded : bool).
Abbreviation job := (Job live login runtime config sha256_hex legacy_hash db_room_id).
Lemma job_snapshot o room : job (send_snapshot live config db_room_id names_loaded o room).
Proof. unfold send_snapshot. job. Qed.
Lemma job_rooms_list o : job (send_rooms_list live o).
Proof. unfold send_rooms_list. job. Qed.
Lemma job_refresh room : job (broadcast_refresh live config room).
Proof. unfold broadcast_refresh. job. Qed.
Lemma job_clear room remaining found : job (clear_if_empty room remaining found).
Proof. unfold clear_if_empty. job. Qed.
End Handlers.
#[export] Hint Resolve job_snapshot job_rooms_list job_refresh job_clear : jobs.

Section Requests.
Context `{WO : WeakOrder} `{MI : !MapIteration string}.
Context (live : gmap Z Z) (login : option (Prop * gset Z)) (runtime : ChatServiceRuntimeState) (config : ChatConfig).
Context (sha256_hex legacy_hash : string → string) (db_room_id : string → option string) (names_loaded : bool).
Context (o : Z) (Ho : is_Some (live !! o)).
Abbreviation job := (Job live login runtime config sha256_hex legacy_hash db_room_id).
Lemma job_room_users target names : job (send_room_users live config o target names).
Proof using Ho. unfold send_room_users. job. Qed.
Lemma job_on_join payload queued a : job (on_join live runtime config sha256_hex legacy_hash db_room_id names_loaded o payload queued a).
Proof using Ho. unfold on_join, join_job. job. Qed.
Lemma job_on_leave payload queued a : job (on_leave live config db_room_id names_loaded o payload queued a).
Proof using Ho. unfold on_leave, leave_job. job. Qed.
Lemma job_on_close sid fresh remaining : login = None → job (on_session_close live config db_room_id o sid fresh remaining).
Proof using Ho. intros Hl. unfold on_session_close. job. Qed.
Lemma job_dispatch_whisper target text published : job (dispatch_whisper live config o target text published).
Proof using Ho. unfold dispatch_whisper. job. Qed.
Lemma job_message sid room sender text message_id : job (dispatch_room_message live config db_room_id o sid room sender text message_id).
Proof using Ho. unfold dispatch_room_message. job. Qed.
Lemma job_handle_refresh last_id : job (handle_refresh live config db_room_id names_loaded o last_id).
Proof using Ho. unfold handle_refresh. job. Qed.
Lemma job_slash_whisper args published : job (slash_whisper live config o args published).
Proof using Ho. pose proof job_dispatch_whisper. unfold slash_whisper. job. Qed.
Lemma job_slash_blacklist text : job (slash_blacklist live o text).
Proof using Ho. unfold slash_blacklist. job. Qed.
Lemma job_slash_kick room args : job (slash_kick live runtime config db_room_id names_loaded o room args).
Proof using Ho.
  unfold slash_kick. destruct (next_word args) as [user rest]. cbv zeta. destruct (_ || _ || _) eqn:Hg; [job|].
  apply orb_false_iff in Hg as [_ Hl%bool_decide_eq_false]. apply job_bind; [by apply job_kick|intros r]. job.
Qed.
Lemma job_slash_remove room args : job (slash_room_remove live runtime config db_room_id names_loaded o room args).
Proof using Ho.
  unfold slash_room_remove. cbv zeta. destruct (_ || _) eqn:Hg; [job|].
  apply orb_false_iff in Hg as [_ Hl%bool_decide_eq_false]. apply job_bind; [by apply job_remove_room|intros r]. job.
Qed.
Lemma job_command room text a : job (try_handle_slash_command live runtime config db_room_id names_loaded o room text a).
Proof using Ho.
  pose proof job_room_users. pose proof job_slash_whisper. pose proof job_slash_kick. pose proof job_slash_remove.
  pose proof job_slash_blacklist. pose proof job_handle_refresh.
  unfold try_handle_slash_command, slash_invite, slash_mute, slash_unmute, slash_ban, slash_unban, slash_gkick. job.
Qed.
Lemma job_on_chat sid payload queued a : job (on_chat_send live runtime config db_room_id names_loaded o sid payload queued a).
Proof using Ho.
  pose proof job_command. pose proof job_message. pose proof job_handle_refresh. unfold on_chat_send, chat_job. job.
Qed.
Lemma job_on_whisper payload queued published : job (on_whisper live config o payload queued published).
Proof using Ho. pose proof job_dispatch_whisper. unfold on_whisper. job. Qed.
Lemma job_request sid queued rq : (∀ payload ip owner a, rq ≠ RqLogin payload ip owner a) → login = None →
  job (handle runtime config sha256_hex legacy_hash db_room_id names_loaded live o sid queued rq).
Proof using Ho.
  pose proof job_room_users. pose proof job_handle_refresh.
  intros Hl ?. destruct rq; [by destruct (Hl payload ip owner a)|..]; cbn [handle].
  all: eauto using job_on_join, job_on_leave, job_on_close, job_on_chat, job_on_whisper.
  all: unfold on_rooms_request, on_room_users_request, on_refresh_request, on_ping, deliver_remote_whisper, admin_disconnect_users,
    admin_broadcast_notice, broadcast_notice_to_all_sessions, notify_everyone, admin_apply_user_moderation, lua_send_notice, lua_broadcast_room,
    lua_kick_user, lua_mute_user, lua_ban_user, apply_user_moderation_without_hook, moderation_job, broadcast_room; job.
Qed.

(** *** A login that is not interrupted *)
Abbreviation runs := (Runs live login runtime config sha256_hex legacy_hash db_room_id).
Definition unclaimed (s : ChatServiceState) (name : string) : Prop := locked live (default ∅ (by_user s !! name)) = [].
Lemma free_unclaimed s name : name_free s name = true → unclaimed s name.
Proof.
  unfold name_free, unclaimed. intros ->%bool_decide_eq_true. apply elem_of_nil_inv. intros m Hm. apply elem_locked in Hm. set_solver.
Qed.
Lemma unique_unclaimed s desired names s' out name : unclaimed s (default EmptyString (names !! 4%nat)) →
  ensure_unique_or_error live o desired names s = (s', (out, Some name)) → unclaimed s' name ∧ user s' = user s.
Proof.
  intros Hn. unfold ensure_unique_or_error. destruct (_ && _).
  - destruct (by_user s !! desired) as [X|] eqn:HX.
    + destruct (locked live X) eqn:Hl; [|done]. intros [= <- <- <-]. split; [|done]. unfold unclaimed. cbn.
      rewrite lookup_insert_eq. cbn. apply elem_of_nil_inv. intros m Hm. apply elem_locked in Hm as [Hm Hal].
      assert (m ∈ locked live X) as Hx by (apply elem_locked; set_solver). rewrite Hl in Hx. set_solver.
    + intros [= <- <- <-]. split; [|done]. apply free_unclaimed. unfold name_free. rewrite HX. by apply bool_decide_eq_true.
  - intros [= <- <- <-]. split; [|done]. unfold temp_name. destruct (head _) as [n|] eqn:Hh; [|done].
    apply free_unclaimed. apply head_Some_elem_of in Hh. by apply list_elem_of_filter in Hh as [? _].
Qed.
Lemma unique_keeps_user s desired names s' res : ensure_unique_or_error live o desired names s = (s', res) → user s' = user s.
Proof. unfold ensure_unique_or_error. repeat case_match; by intros [= <- _]. Qed.
Lemma ban_check_keeps name ip hwid now s : user (login_ban_check name ip hwid now s).1 = user s ∧
  by_user (login_ban_check name ip hwid now s).1 = by_user s.
Proof. unfold login_ban_check, check_penalty, check_expiry. by repeat case_match; simplify_eq. Qed.
Lemma runs_held {A} (m : Chat A) s st (Q : A → ChatServiceState → Prop) : is_section st = true → possible st = true → held st = Some o →
  match st with SpLogin _ _ => False | SpClose _ _ => login = None | _ => True end → (m s).1.1 = run_section runtime config sha256_hex legacy_hash db_room_id live st s →
  (∀ x, (m s).2 = Some x → Q x (m s).1.1) → runs m s Q.
Proof using Ho. intros ? ? ? ? Hm HQ. apply (runs_step _ _ _ _ _ _ _ _ _ st); [apply plain_ok; by eapply plain_held|done|by rewrite <- Hm]. Qed.
Lemma runs_check s (b : bool) out (k : unit → Chat unit) Q : (b = true → runs (k tt) s Q) →
  runs ((if b then mret tt else return_ out) ≫= k) s Q.
Proof.
  intros Hk. eapply (runs_bind _ _ _ _ _ _ _ _ _ _ _ (λ _ s', b = true ∧ s' = s)); [by apply runs_keep; destruct b|].
  intros [] s' [Hb ->]. auto.
Qed.
Lemma runs_refuse s (b : bool) out (k : unit → Chat unit) Q : (b = false → runs (k tt) s Q) →
  runs ((if b then return_ out else mret tt) ≫= k) s Q.
Proof.
  intros Hk. eapply (runs_bind _ _ _ _ _ _ _ _ _ _ _ (λ _ s', b = false ∧ s' = s)); [by apply runs_keep; destruct b|].
  intros [] s' [Hb ->]. auto.
Qed.
Lemma uuid_keeps fresh s : user (get_or_create_session_uuid live o fresh s).1 = user s ∧
  by_user (get_or_create_session_uuid live o fresh s).1 = by_user s.
Proof. unfold get_or_create_session_uuid. by repeat case_match. Qed.
Lemma job_store_uuid uid : job (modify (store_user_uuid live o uid)).
Proof using Ho. apply (job_modify _ _ _ _ _ _ _ _ (SpStoreUuid o uid)); [by eapply plain_held|by intros; cbn [run_section]]. Qed.
Lemma job_store_lease (lease : option ContinuityLease) : job (modify (λ s, match lease with Some l => store_lease live o l s | None => s end)).
Proof using Ho.
  destruct lease as [l|]; [|intros s; by apply runs_keep].
  apply (job_modify _ _ _ _ _ _ _ _ (SpStoreLease o l)); [by eapply plain_held|by intros; cbn [run_section]].
Qed.
Lemma runs_login s (ready : Prop) closed sid user_arg token ip owner a : login = Some (ready, closed) →
  (ready → o ∉ closed ∧ user s !! ptr live o = None ∧ unclaimed s (default EmptyString (an_names a !! 4%nat))) →
  runs (login_job live runtime config sha256_hex db_room_id o sid user_arg token ip owner a) s (λ _ _, True).
Proof using Ho.
  intros Hlog Hr. set (Ready := λ s', user s' = user s ∧ by_user s' = by_user s).
  unfold login_job. eapply (runs_bind _ _ _ _ _ _ _ _ _ _ _ (λ _, Ready)).
  { apply (runs_held _ _ (SpUuid o (an_uuid a))); [done..| |]; unfold section; cbn [run_section];
      destruct (uuid_keeps (an_uuid a) s); by destruct (get_or_create_session_uuid _ _ _ _). }
  intros sid_str s1 H1. eapply (runs_bind _ _ _ _ _ _ _ _ _ _ _ (λ _, Ready)).
  { by apply (runs_held _ _ (SpRegister o sid)). }
  intros [] s2 H2. cbv zeta. apply runs_refuse. intros _.
  eapply (runs_bind _ _ _ _ _ _ _ _ _ _ _ (λ name s', user s' = user s ∧ (ready → unclaimed s' name))).
  { apply (runs_held _ _ (SpUnique o (match an_resume a with Some l => cl_effective_user l | None => user_arg end) (an_names a))); [done..| |].
    - unfold guarded. cbn [run_section]. by destruct (ensure_unique_or_error _ _ _ _ _) as [? [? ?]].
    - unfold guarded. destruct (ensure_unique_or_error _ _ _ _ _) as [s3 [out r]] eqn:He. intros name [= ->]. cbn.
      destruct H2 as [Hu2 Hb2]. split; [by rewrite (unique_keeps_user _ _ _ _ _ He), Hu2|]. intros (_ & _ & Hn)%Hr.
      unfold unclaimed in Hn. rewrite <- Hb2 in Hn. by destruct (unique_unclaimed _ _ _ _ _ _ Hn He). }
  intros name s3 H3. apply runs_check. intros Hne. destruct (maybe_handle_hook _ _ _) as [notices denied].
  eapply (runs_bind _ _ _ _ _ _ _ _ _ _ _ (λ _ s', s' = s3)); [by apply runs_keep|]. intros [] ? ->.
  apply runs_refuse. intros _. eapply (runs_bind _ _ _ _ _ _ _ _ _ _ _ (λ _ s', user s' = user s ∧ (ready → unclaimed s' name))).
  { match goal with |- context [login_ban_check name ip ?h ?t] => pose (hwid := h); pose (now := t);
      destruct (ban_check_keeps name ip h t s3) as [Hu3 Hb3] end.
    apply (runs_held _ _ (SpBanCheck o name ip hwid now)); [done..| |]; unfold section; cbn [run_section]; subst hwid now.
    - by destruct (login_ban_check _ _ _ _ _).
    - intros deny _. destruct (login_ban_check _ _ _ _ _) as [s4 ?]. cbn in *. unfold unclaimed in *. rewrite Hb3. by rewrite Hu3. }
  intros deny s4 [Hu4 Hn4]. apply runs_refuse. intros _. eapply (runs_bind _ _ _ _ _ _ _ _ _ _ _ (λ _ _, True)).
  { match goal with |- context [login_commit live o ?l] => pose (lg := l) end.
    eapply (runs_step _ _ _ _ _ _ _ _ _ (SpLogin o lg)); [|by cbn [run_section]|done].
    split_and!; [done|done|by intros ? [= <-]|]. cbn [in_time]. exists ready, closed. split; [done|]. intros Hrd. rewrite Hu4.
    destruct (Hr Hrd) as (? & ? & _). split_and!; [done..|]. by apply Hn4. }
  intros [] s5 _. match goal with |- runs ?m _ _ => enough (job m) as Hj by apply Hj end.
  pose proof job_store_uuid. pose proof job_store_lease. job.
Qed.
Lemma runs_on_login s (ready : Prop) closed sid payload queued ip owner a : login = Some (ready, closed) →
  (ready → o ∉ closed ∧ user s !! ptr live o = None ∧ unclaimed s (default EmptyString (an_names a !! 4%nat))) →
  runs (on_login live runtime config sha256_hex db_room_id o sid payload queued ip owner a) s (λ _ _, True).
Proof using Ho.
  intros. unfold on_login. repeat case_match; eauto using runs_login; by apply runs_keep.
Qed.
End Requests.

(** ** Handlers as runs of the machine *)
Section Refine.
Context `{WO : WeakOrder} `{MI : !MapIteration string}.
Context (runtime : ChatServiceRuntimeState) (config : ChatConfig).
Context (sha256_hex legacy_hash : string → string) (db_room_id : string → option string) (names_loaded : bool).
Abbreviation run := (world_run runtime config sha256_hex legacy_hash db_room_id).
Abbreviation timely_steps := (timely_run runtime config sha256_hex legacy_hash db_room_id).

Lemma exec_step_ok w st : is_section st = true → possible st = true → (∀ o, held st = Some o → is_Some (w_live w !! o)) →
  world_exec runtime config sha256_hex legacy_hash db_room_id w st = Some (after_section runtime config sha256_hex legacy_hash db_room_id w st).
Proof.
  intros Hs Hp Hh. assert (Ha : admitted w st = true).
  { unfold admitted. rewrite Hp. cbn [andb]. destruct (held st) as [o|]; [|done]. by apply bool_decide_eq_true, Hh. }
  enough (Hx : world_exec runtime config sha256_hex legacy_hash db_room_id w st =
    if admitted w st then Some (after_section runtime config sha256_hex legacy_hash db_room_id w st) else None) by (by rewrite Hx, Ha).
  destruct st; [done|done|reflexivity..].
Qed.
Lemma path_run live login s steps s' : Path live login runtime config sha256_hex legacy_hash db_room_id s steps s' →
  ∀ w, w_live w = live → w_chat w = s → (∀ ready closed, login = Some (ready, closed) → closed = w_closed w) →
  ∃ w', run w steps = Some w' ∧ w_chat w' = s' ∧ w_live w' = live
    ∧ ((∀ (ready : Prop) closed, login = Some (ready, closed) → ready) → timely_steps w steps = true).
Proof.
  induction 1 as [s|s st steps s' (Hsec & Hp & Hh & Ht) _ IH]; intros w Hl Hc Hcl; [eauto|]. subst live s.
  destruct (IH (after_section runtime config sha256_hex legacy_hash db_room_id w st)) as (w' & H1 & H2 & H3 & H4); [done|done| |].
  { intros ready closed E. rewrite (Hcl _ _ E). destruct st; try done. cbn in Ht. congruence. }
  exists w'. cbn [timely_run world_run]. rewrite (exec_step_ok _ _ Hsec Hp Hh). split_and!; [done..|]. intros Hready.
  apply andb_true_iff. split; [|by apply H4]. destruct st; try done. cbn in *. destruct Ht as (ready & closed & E & Ht).
  destruct (Ht (Hready _ _ E)) as (Hn & Hu & Hf). rewrite (Hcl _ _ E) in Hn. by rewrite !bool_decide_eq_true_2.
Qed.
(** A request whose login comes in time: the session is open and has not logged in
    before, and the last name drawn for a guest, which is used unchecked, is free. *)
Definition login_ready (w : World) (o : Z) (rq : Request) : bool :=
  match rq with
  | RqLogin _ _ _ a =>
      bool_decide (o ∉ w_closed w) && bool_decide (user (w_chat w) !! ptr (w_live w) o = None)
      && bool_decide (locked (w_live w) (default ∅ (by_user (w_chat w) !! default EmptyString (an_names a !! 4%nat))) = [])
  | _ => true
  end.
(** C9: Every handler, run without interruption for a live session, has the effect
    of a run of the interleaving machine: its locked sections, in their order and
    with its early returns, are steps the machine admits.  The run is timely for
    every request but a login; a login on an open session that has not logged in
    before comes in time, which is to say that the name it commits is free, as long
    as the last of the names drawn for a guest is.  So what holds of all timely
    interleavings holds of those handlers as they are written. *)
Theorem handlers_refine_steps w o sid queued rq (Ho : is_Some (w_live w !! o)) :
  ∃ steps w', run w steps = Some w' ∧ w_live w' = w_live w
    ∧ w_chat w' = (handle runtime config sha256_hex legacy_hash db_room_id names_loaded (w_live w) o sid queued rq (w_chat w)).1.1
    ∧ (login_ready w o rq = true → timely_steps w steps = true).
Proof.
  assert (Hp : ∃ login, (∀ ready closed, login = Some (ready, closed) → closed = w_closed w ∧ ready = (login_ready w o rq = true)) ∧
    Runs (w_live w) login runtime config sha256_hex legacy_hash db_room_id
      (handle runtime config sha256_hex legacy_hash db_room_id names_loaded (w_live w) o sid queued rq) (w_chat w) (λ _ _, True)).
  { destruct rq as [payload ip owner a| | | | | | | | | | | | | | | | | | | |]; [|exists None; split; [done|]; by apply job_request..].
    eexists (Some (_, w_closed w)). split; [by intros ? ? [= <- <-]|]. eapply runs_on_login; [done..|]. cbn.
    rewrite !andb_true_iff, !bool_decide_eq_true. by intros [[? ?] ?]. }
  destruct Hp as (login & Hlog & [[steps Hp] _]). destruct (path_run _ _ _ _ _ Hp w eq_refl eq_refl) as (w' & H1 & H2 & H3 & H4).
  { intros ready closed E. by destruct (Hlog _ _ E). }
  exists steps, w'. split_and!; [done..|]. intros Hr. apply H4. intros ready closed E. by destruct (Hlog _ _ E) as [_ ->].
Qed.
End Refine.
Definition demo_answers : LoginAnswers := {| an_uuid := "s1"; an_default_world := "w"; an_resume := None; an_names := [];
  an_hook := hook_passes; an_now := 0; an_now_ms := 0; an_uid := EmptyString; an_lease := λ _ _ _ _, None |}.
Definition demo_world : World := {| w_chat := chat_state_new; w_live := {[1 := 100]}; w_used := {[1]}; w_closed := ∅ |}.
(** The name "ann" and an empty token. *)
Definition demo_login_request : Request := RqLogin [0; 3; 97; 110; 110; 0; 0] "10.0.0.1" "w" demo_answers.
Lemma handlers_refine_steps_witness : ∃ steps w',
  world_run (runtime_state_default {["root"]}) demo_config id id (λ _, None) demo_world steps = Some w'
  ∧ user (w_chat w') !! 100 = Some "ann" ∧ 100 ∈ authed (w_chat w').
Proof.
  destruct (handlers_refine_steps (runtime_state_default {["root"]}) demo_config id id (λ _, None) true demo_world 1 11 true demo_login_request)
    as (steps & w' & Hr & _ & Hc & _).
  - by exists 100.
  - exists steps, w'. rewrite Hc. split_and!; [done|by vm_compute..].
Defined.

(** ** Routing *)
Inductive Route :=
  | rtPing | rtPong | rtLogin | rtJoin | rtChat | rtWhisper | rtLeave | rtRooms | rtRoomUsers | rtRefresh | rtFpsInput.
#[export] Instance route_eq_dec : EqDecision Route.
Proof. solve_decision. Defined.
Definition register_from (cases : list ParsedOpcode) (table : gmap Z (Dispatch.Entry Route)) (entry : string * Route)
    : gmap Z (Dispatch.Entry Route) :=
  match opcode_constant cases entry.1 with
  | Some msg_id => register_handler msg_id entry.2 (opcode_policy cases msg_id) table
  | None => table
  end.
Definition register_routes (table : gmap Z (Dispatch.Entry Route)) : gmap Z (Dispatch.Entry Route) :=
  foldl (register_from game_opcodes)
    (foldl (register_from core_opcodes) table [("MSG_PING", rtPing); ("MSG_PONG", rtPong)])
    [("MSG_LOGIN_REQ", rtLogin); ("MSG_JOIN_ROOM", rtJoin); ("MSG_CHAT_SEND", rtChat); ("MSG_WHISPER_REQ", rtWhisper);
     ("MSG_LEAVE_ROOM", rtLeave); ("MSG_ROOMS_REQ", rtRooms); ("MSG_ROOM_USERS_REQ", rtRoomUsers); ("MSG_REFRESH_REQ", rtRefresh);
     ("MSG_FPS_INPUT", rtFpsInput)].
Definition routes : gmap Z (Dispatch.Entry Route) := register_routes ∅.
Definition open_routes : list (Z * Route) := [(0x0002, rtPing); (0x0003, rtPong); (0x0010, rtLogin)].
Definition member_routes : list (Z * Route) :=
  [(0x0100, rtChat); (0x0102, rtJoin); (0x0103, rtLeave); (0x0104, rtWhisper); (0x0202, rtRooms); (0x0203, rtRoomUsers);
   (0x0204, rtRefresh); (0x0206, rtFpsInput)].
Definition route_entry (entry : Z * Route) : Z * Dispatch.Entry Route :=
  (entry.1, {| en_handler := entry.2;
    en_policy := {| required_state := if bool_decide (entry ∈ open_routes) then ssAny else ssAuthenticated; processing_place := ppInline;
       op_transport := match entry.2 with rtPing | rtFpsInput => tmBoth | _ => tmTcp end;
       op_delivery := match entry.2 with rtPing => dcReliable | rtFpsInput => dcUnreliableSequenced | _ => dcReliableOrdered end;
       op_channel := match entry.2 with rtFpsInput => 1 | _ => 0 end |} |}).
Lemma routes_table : routes = list_to_map (route_entry <$> open_routes ++ member_routes).
Proof. by vm_compute. Qed.
(** C31: The server's route table, built from the generated opcode tables, lets only
    a login, a ping or a pong reach a handler before the session is authenticated,
    lets only pings and input of the FPS sample arrive over UDP, runs every handler
    in place, and answers every other message with "forbidden" when its id is
    registered and leaves it unhandled when not. *)
Theorem routes_guarded msg_id status transport a :
  match dispatch routes msg_id status transport a with
  | None => msg_id ∉ (open_routes ++ member_routes).*1
  | Some (_, dRun h _) =>
      ((msg_id, h) ∈ open_routes ∨ (msg_id, h) ∈ member_routes ∧ status ≠ ssAny)
      ∧ (transport = tkUdp → h = rtPing ∨ h = rtFpsInput)
  | Some (_, dReply code _) =>
      code = FORBIDDEN ∧ ∃ h, (msg_id, h) ∈ open_routes ++ member_routes ∧
        (status = ssAny ∧ (msg_id, h) ∈ member_routes ∨ transport = tkUdp ∧ h ≠ rtPing ∧ h ≠ rtFpsInput)
  | Some _ => False
  end.
Proof.
  assert (Hl : ∀ entry, routes !! msg_id = Some entry → ∃ h, (msg_id, h) ∈ open_routes ++ member_routes ∧ entry = (route_entry (msg_id, h)).2).
  { intros entry. rewrite routes_table. intros H%elem_of_list_to_map_2. apply list_elem_of_fmap in H as ([id h] & [= -> ->] & Hin). eauto. }
  unfold dispatch. destruct (routes !! msg_id) as [entry|] eqn:He.
  - destruct (Hl _ eq_refl) as (h & Hin & ->). clear Hl He. pose proof Hin as Hin'.
    repeat (apply elem_of_cons in Hin' as [[= -> ->]|Hin']; [destruct status, transport; cbn; set_solver|]). set_solver.
  - intros Hin. rewrite routes_table in He. apply not_elem_of_list_to_map in He. apply He. by rewrite <- list_fmap_compose.
Qed.
