(* ===== verification/ChatPolicy.v ===== *)
(** * Who may do what in the chat service

    Access rules read off whole runs: who enters and leaves rooms and on whose
    authority, what the commands of ordinary users can change, who receives a
    message, and how many messages a sender gets through. *)
From S2P Require Import Prelude Containers Text Packet ChatState ChatHandlers ChatAdmin ChatFrames ChatWorld ChatRaces.
From stdpp Require Import list gmap strings sorting.
Open Scope Z_scope.
Open Scope record_scope.

(** ** Entering and leaving rooms *)
Section Moves.
Context `{WO : WeakOrder} `{MI : !MapIteration string}.
Context (live : gmap Z Z) (runtime : ChatServiceRuntimeState).

(** The hash an entry is checked against: the one Redis has, else the cached one. *)
Definition room_password (s : ChatServiceState) (redis_password : option string) (room : string) : string :=
  match redis_password with
  | Some pw => pw
  | None => default EmptyString (room_passwords s !! room)
  end.
(** What the join rule allows: the lobby, a room nobody has, administrators, the
    owner, invited users, and whoever knows the password. *)
Definition entry_allowed (sha256_hex legacy_hash : string → string) (s : ChatServiceState) (o : Z) (room password : string)
    (redis_password : option string) : Prop :=
  let sender := actor_name live s o in
  let hash := room_password s redis_password room in
  room = "lobby"
  ∨ rooms s !! room = None ∧ room_owners s !! room = None ∧ room_passwords s !! room = None ∧ redis_password = None
  ∨ sender ∈ admin_users runtime
  ∨ room_owners s !! room = Some sender
  ∨ (∃ invited, room_invites s !! room = Some invited ∧ sender ∈ invited)
  ∨ password ≠ EmptyString ∧ hash ≠ EmptyString
    ∧ (if String.prefix "sha256:" hash then sha256_hex password ≠ EmptyString ∧ hash = "sha256:" +:+ sha256_hex password
       else hash = legacy_hash password).

Lemma place_cur o room sender consume assign s :
  cur_room (place_session_in_room live o room sender consume assign s) = <[ptr live o := room]> (cur_room s).
Proof. apply (placed live s). Qed.
Lemma login_cur o l s : cur_room (login_commit live o l s) = <[ptr live o := or_default (lg_room l) "lobby"]> (cur_room s).
Proof.
  unfold login_commit. rewrite place_cur.
  assert (H : cur_room (match user s !! ptr live o with Some old => remove_from_name o old s | None => s end) = cur_room s).
  { case_match; [|done]. unfold remove_from_name. by case_match. }
  revert H. generalize (match user s !! ptr live o with Some old => remove_from_name o old s | None => s end). intros t Ht.
  destruct (non_empty (lg_ip l)), (non_empty (lg_hwid l)), (non_empty (lg_user_uuid l)), (non_empty (lg_logical l)); cbn; by rewrite Ht.
Qed.
Lemma close_cur o sid s : ∀ a, a ≠ ptr live o → cur_room (close_section live o sid s).1 !! a = cur_room s !! a.
Proof.
  intros a Hne. assert (H : ∀ name, cur_room (forget_session live o sid name s) = cur_room s).
  { intros name. unfold forget_session, remove_from_name. cbn. by repeat case_match. }
  unfold close_section. cbv zeta. specialize (H (actor_name live s o)). revert H.
  generalize (forget_session live o sid (actor_name live s o) s). intros t Ht. case_match; [|by rewrite <- Ht].
  destruct (room_exists t _); [|cbn; rewrite lookup_delete_ne by done; by rewrite Ht].
  match goal with |- context [remove_session_from_room live o ?r ?n t] =>
    pose proof (remove_framed live cur_room o r n t); destruct (remove_session_from_room live o r n t) end.
  cbn in *. rewrite lookup_delete_ne by done. congruence.
Qed.
Lemma leave_cur o room hook s : cur_room (leave_section live o room hook s).1 = cur_room s
  ∨ cur_room (leave_section live o room hook s).1 = <[ptr live o := "lobby"]> (cur_room s).
Proof.
  unfold leave_section. case_bool_decide; [by left|]. destruct (cur_room s !! _) as [cur|]; [|by left]. destruct (_ && _); [by left|].
  destruct (room_exists s cur); [|right; cbn [fst]; by rewrite place_cur]. destruct (maybe_handle_hook _ _ _) as [n [|]]; [by left|].
  pose proof (remove_framed live cur_room o cur (actor_name live s o) s) as Hr.
  destruct (remove_session_from_room _ _ _ _ _) as [s' targets]. cbn [fst] in *. right. by rewrite place_cur, Hr.
Qed.
Lemma entry_rule sha legacy s o room password redis_password :
  let s1 := match redis_password with Some pw => s <| room_passwords ::= <[room := pw]> |> | None => s end in
  let expected := or_default (default EmptyString redis_password) (default EmptyString (room_passwords s1 !! room)) in
  bool_decide (room ≠ "lobby")
    && (room_exists s1 room || bool_decide (is_Some (room_owners s1 !! room)) || room_is_locked s1 room || non_empty expected)
    && negb (bool_decide (actor_name live s o ∈ admin_users runtime))
    && negb (bool_decide (room ≠ "lobby") && bool_decide (room_owners s !! room = Some (actor_name live s o)))
    && negb (bool_decide (room ≠ "lobby") && is_invited s room (actor_name live s o))
    && negb (non_empty expected && non_empty password && verify_room_password sha legacy password expected) = false →
  entry_allowed sha legacy s o room password redis_password.
Proof.
  intros s1 expected. assert (He : expected = room_password s redis_password room).
  { subst expected s1. unfold or_default, room_password. destruct redis_password as [pw|]; cbn; [|done].
    rewrite lookup_insert_eq. case_bool_decide; by subst. }
  unfold entry_allowed. cbv zeta. rewrite <- He. clearbody expected.
  destruct (decide (room = "lobby")) as [Hl|Hl]; [by left|]. rewrite (bool_decide_eq_true_2 _ Hl). cbn [andb]. intros Hg. right.
  rewrite !andb_false_iff, !negb_false_iff, !orb_false_iff in Hg. destruct Hg as [[[[[[[Hx Hw] Hk] He']|Ha]|Ho]|Hi]|Hp].
  - left. apply bool_decide_eq_false in Hx, Hw, Hk. subst s1. destruct redis_password as [pw|]; cbn in *.
    + destruct Hk. rewrite lookup_insert_eq. eauto.
    + split_and!; [..|done]; by apply eq_None_not_Some.
  - right. left. by apply bool_decide_eq_true in Ha.
  - right. right. left. by apply bool_decide_eq_true in Ho.
  - right. right. right. left. unfold is_invited in Hi. destruct (room_invites s !! room); [|done]. apply bool_decide_eq_true in Hi. eauto.
  - right. right. right. right. rewrite !andb_true_iff in Hp. destruct Hp as [[H1%bool_decide_eq_true H2%bool_decide_eq_true] Hv].
    split_and!; [done..|]. unfold verify_room_password in Hv. unfold non_empty in Hv. rewrite (bool_decide_eq_true_2 _ H1) in Hv.
    cbn [negb] in Hv. unfold is_modern_room_password_hash, kRoomPasswordHashPrefix, hash_room_password in Hv.
    destruct (String.prefix "sha256:" expected); apply bool_decide_eq_true in Hv; [|done].
    unfold non_empty in Hv. case_bool_decide; by subst.
Qed.
Lemma join_cur sha legacy o room password redis_password hook s :
  let s' := (join_section live runtime sha legacy o room password redis_password hook s).1 in
  cur_room s' = cur_room s ∨
  cur_room s' = <[ptr live o := room]> (cur_room s) ∧ ptr live o ∈ authed s ∧ entry_allowed sha legacy s o room password redis_password.
Proof.
  unfold join_section. case_bool_decide as Ha; [by left|]. destruct (maybe_handle_hook _ _ _) as [n [|]]; [by left|]. cbv zeta.
  pose proof (entry_rule sha legacy s o room password redis_password) as He. cbv zeta in He. revert He.
  set (s1 := match redis_password with Some _ => _ | None => s end).
  assert (cur_room s1 = cur_room s) as Hs1 by (subst s1; by case_match). clearbody s1.
  destruct (_ && negb (_ && verify_room_password _ _ _ _)); [by left|]. intros He. specialize (He eq_refl).
  destruct (join_password _ _ _ _ _) as [h|]; [|by left].
  match goal with |- context [collect_room_targets live room ?n ?t] =>
    pose proof (targets_framed live cur_room room n t) as Ht; destruct (collect_room_targets live room n t) as [s2 targets] end.
  cbn [fst] in *. right. split; [|done]. rewrite Ht, place_cur. f_equal. rewrite <- Hs1.
  destruct h; repeat case_match; by rewrite ?(remove_framed live cur_room).
Qed.
Context (closed : gset Z).
Lemma kick_cur o name room s a : ChatInvariant live closed s →
  let s' := (kick_section live runtime o name room s).1 in
  cur_room s' !! a = cur_room s !! a ∨
  actor_can_manage_room live runtime s o room = true ∧ user s !! a = Some name ∧ cur_room s !! a = Some room ∧ cur_room s' !! a = Some "lobby".
Proof.
  intros I. unfold kick_section. destruct (actor_can_manage_room _ _ _ _ _); [|by left].
  pose proof (user_sessions_inv _ _ s name I) as Hs. unfold user_sessions in *. destruct (by_user s !! name) as [X|] eqn:HX; [|by left].
  cbn [fst] in Hs. rewrite Hs.
  assert (Hl : ∀ c, c ∈ locked live X → user s !! ptr live c = Some name).
  { intros c [Hc _]%elem_locked. assert (holds_name s name c) as (b & Hb & Hu)%(ci_name _ _ _ I) by (by exists X). by rewrite (ptr_live _ _ _ Hb). }
  enough (H : ∀ l st, (∀ c, c ∈ l → user s !! ptr live c = Some name) →
    cur_room (foldl (kick_one live name room) st l).1 !! a = cur_room st.1 !! a ∨
    user s !! a = Some name ∧ cur_room st.1 !! a = Some room ∧ cur_room (foldl (kick_one live name room) st l).1 !! a = Some "lobby").
  { destruct (H (locked live X) (s, []) Hl) as [H1|H1]; destruct (foldl _ _ _) as [s' k]; cbn in *; [by left|by right]. }
  clear Hs Hl HX. induction l as [|c l IH]; intros st Hu; [by left|]. cbn [foldl].
  assert (H1 : cur_room (kick_one live name room st c).1 !! a = cur_room st.1 !! a ∨
    user s !! a = Some name ∧ cur_room st.1 !! a = Some room ∧ cur_room (kick_one live name room st c).1 !! a = Some "lobby").
  { destruct st as [t k]. unfold kick_one. case_bool_decide as Hc; [|by left]. cbn [fst]. rewrite place_cur, (remove_framed live cur_room).
    destruct (decide (a = ptr live c)) as [->|]; [|left; by rewrite lookup_insert_ne].
    right. rewrite lookup_insert_eq. split_and!; [apply Hu; by left|done|done]. }
  destruct (IH (kick_one live name room st c)) as [H2|H2]; [intros; apply Hu; by right| |]; naive_solver congruence.
Qed.
Lemma remove_room_cur o room s a : ChatInvariant live closed s →
  let s' := (remove_room_section live runtime o room s).1 in
  cur_room s' !! a = cur_room s !! a ∨
  actor_can_manage_room live runtime s o room = true ∧ cur_room s !! a = Some room ∧ cur_room s' !! a = Some "lobby".
Proof.
  intros I. unfold remove_room_section. destruct (actor_can_manage_room _ _ _ _ _); [|by left].
  destruct (rooms s !! room) as [X|] eqn:HX; [|by left].
  destruct (place_all live (locked live X) s) as (_ & _ & _ & _ & _ & _ & H7); [by intros c [_ Hc]%elem_locked|]. cbv zeta in *. cbn [fst].
  cbn. rewrite H7. case_bool_decide as Hb; [|by left]. right. split_and!; [done| |done].
  apply list_elem_of_fmap in Hb as (m & -> & [Hm _]%elem_locked).
  assert (members_of s room m) as (b & Hb & Hcb)%(ci_member _ _ _ I) by (by exists X). by rewrite (ptr_live _ _ _ Hb).
Qed.
End Moves.
Section Guarded.
Context `{WO : WeakOrder} `{MI : !MapIteration string}.
Context (runtime : ChatServiceRuntimeState) (config : ChatConfig).
Context (sha256_hex legacy_hash : string → string) (db_room_id : string → option string).

(** The session has a name, of an administrator or of the room's owner. *)
Definition manages (live : gmap Z Z) (s : ChatServiceState) (o : Z) (room : string) : Prop :=
  ∃ name, user s !! ptr live o = Some name ∧ name ≠ "guest" ∧ (name ∈ admin_users runtime ∨ room_owners s !! room = Some name).
Lemma manages_spec live s o room : actor_can_manage_room live runtime s o room = true → manages live s o room.
Proof.
  unfold actor_can_manage_room, actor_name, manages, find_room_owner. destruct (user s !! ptr live o) as [name|]; cbn; [|done].
  case_bool_decide; [done|]. case_bool_decide; [eauto 10|]. intros ?%bool_decide_eq_true. eauto 10.
Qed.
(** On whose authority a section moves the session at [a]. *)
Definition move_authorized (live : gmap Z Z) (s s' : ChatServiceState) (a : Z) (st : Step) : Prop :=
  match st with
  | SpLogin o l => ptr live o = a ∧ cur_room s' !! a = Some (or_default (lg_room l) "lobby")
  | SpClose o _ => ptr live o = a
  | SpLeave o _ _ => ptr live o = a ∧ cur_room s' !! a = Some "lobby"
  | SpJoin o room password redis_password _ =>
      ptr live o = a ∧ a ∈ authed s ∧ cur_room s' !! a = Some room
      ∧ entry_allowed live runtime sha256_hex legacy_hash s o room password redis_password
  | SpKick o name room =>
      manages live s o room ∧ user s !! a = Some name ∧ cur_room s !! a = Some room
      ∧ cur_room s' !! a = Some "lobby"
  | SpRemoveRoom o room =>
      manages live s o room ∧ cur_room s !! a = Some room ∧ cur_room s' !! a = Some "lobby"
  | _ => False
  end.
Lemma section_moves live closed s st a : ChatInvariant live closed s →
  let s' := run_section runtime config sha256_hex legacy_hash db_room_id live st s in
  cur_room s' !! a ≠ cur_room s !! a → move_authorized live s s' a st.
Proof.
  intros I. destruct st; cbn [run_section move_authorized]; autorewrite with frames; try done.
  all: try (unfold get_or_create_session_uuid, ensure_room_id_ci, add_blacklist_entry, remove_blacklist_entry, find_session_by_id;
    repeat case_match; simplify_eq; by auto).
  - rewrite login_cur. intros Hne. destruct (decide (ptr live o = a)) as [<-|]; [by rewrite lookup_insert_eq|].
    by rewrite lookup_insert_ne in Hne.
  - destruct (join_cur live runtime sha256_hex legacy_hash o room password redis_password hook s) as [H|(H & Ha & He)]; cbv zeta in H; rewrite H; [done|].
    destruct (decide (ptr live o = a)) as [<-|]; [by rewrite lookup_insert_eq|by rewrite lookup_insert_ne].
  - destruct (leave_cur live o room hook s) as [H|H]; rewrite H; [done|].
    destruct (decide (ptr live o = a)) as [<-|]; [by rewrite lookup_insert_eq|by rewrite lookup_insert_ne].
  - intros Hne. apply dec_stable. intros Ho. apply Hne. by apply close_cur.
  - intros Hne. destruct (kick_cur live runtime closed o name room s a I) as [|[Hm ?]]; [done|]. apply manages_spec in Hm. done.
  - intros Hne. destruct (remove_room_cur live runtime closed o room s a I) as [|[Hm ?]]; [done|]. apply manages_spec in Hm. done.
Qed.
(** C6: In every timely run, whatever the handlers do concurrently, the current
    room of a live session changes only on authority: by its own login, leave or
    close; by its own join, when it is authenticated and the room is the lobby, is
    new, or lets it in as administrator, owner, invited user or by a password that
    hashes to the stored one; or to the lobby, when the owner of its room or an
    administrator kicks its user or removes the room. *)
Theorem room_moves_guarded steps w st w' o a
    (Ht : timely_run runtime config sha256_hex legacy_hash db_room_id world_new steps = true)
    (Hr : world_run runtime config sha256_hex legacy_hash db_room_id world_new steps = Some w)
    (Hx : world_exec runtime config sha256_hex legacy_hash db_room_id w st = Some w')
    (Ha : w_live w !! o = Some a) (Hm : cur_room (w_chat w') !! a ≠ cur_room (w_chat w) !! a) :
  move_authorized (w_live w) (w_chat w) (w_chat w') a st.
Proof.
  pose proof (world_run_inv _ _ _ _ _ _ _ _ new_inv Ht Hr) as (I & _).
  destruct (exec_section _ _ _ _ _ _ _ _ Hx) as [(o' & a' & ->)|[(o' & ->)|[_ ->]]].
  - unfold world_exec in Hx. case_match; [|done]. by injection Hx as <-.
  - unfold world_exec in Hx. case_match; [|done]. by injection Hx as <-.
  - by eapply section_moves.
Qed.
End Guarded.
(** Bob joins Ann's room on her invitation. *)
Lemma room_moves_guarded_witness : ∃ w w',
  demo_run (take 6 meeting) = Some w ∧
  cur_room (w_chat w) !! 200 = Some "lobby" ∧ cur_room (w_chat w') !! 200 = Some "den" ∧
  move_authorized (runtime_state_default {["root"]}) id id (w_live w) (w_chat w) (w_chat w') 200 (SpJoin 2 "den" EmptyString None hook_passes).
Proof.
  pose (step := SpJoin 2 "den" EmptyString None hook_passes).
  pose (exec := world_exec (runtime_state_default {["root"]}) demo_config id id (λ _, None)).
  destruct (demo_facts (take 6 meeting) (λ w, w_live w !! 2 = Some 200 ∧ cur_room (w_chat w) !! 200 = Some "lobby"
    ∧ (w' ← exec w step; cur_room (w_chat w') !! 200) = Some "den")) as (w & H & Hl & H1 & H2); [by vm_compute|].
  destruct (exec w step) as [w'|] eqn:Hx; [|done]. exists w, w'. split_and!; [done..|].
  apply (room_moves_guarded (runtime_state_default {["root"]}) demo_config id id (λ _, None) (take 6 meeting) w _ w' 2 200);
    [by vm_compute|done|done|done|cbn in H2; by rewrite H1, H2].
Defined.

(** ** Spam control *)
Section Spam.
Context `{WO : WeakOrder} (live : gmap Z Z) (runtime : ChatServiceRuntimeState) (o : Z).
Abbreviation window := (seconds (spam_window_sec runtime)).

(** The sends of one session at the given times, and the times of those that pass. *)
Fixpoint sends (times : list Z) (s : ChatServiceState) : ChatServiceState * list Z :=
  match times with
  | [] => (s, [])
  | now :: times =>
      let '(s, r) := evaluate_chat_send_moderation live runtime o now s in
      let '(s, passed) := sends times s in
      (s, if passes r then now :: passed else passed)
  end.
Definition within (x t : Z) : Prop := x ≤ t < x + window.
#[local] Instance within_dec x t : Decision (within x t).
Proof. apply _. Defined.
Definition burst (x : Z) (times : list Z) : nat := length (filter (within x) times).

(** A penalty on the sender that lasts beyond [t]. *)
Definition penalized (sender : string) (s : ChatServiceState) (t : Z) : Prop :=
  ∃ p, (muted_users s !! sender = Some p ∨ banned_users s !! sender = Some p) ∧ t ≤ expires_at p.
(** The messages that passed are the remembered events, after messages that are
    out of every window now or are followed by a penalty. *)
Record SpamInv (sender : string) (s : ChatServiceState) (passed : list Z) (last : Z) : Prop := {
  si_user : user s !! ptr live o = Some sender;
  si_past : ∀ t, t ∈ passed → t ≤ last;
  si_old : ∃ old, passed = old ++ default [] (spam_events s !! sender) ∧ ∀ t, t ∈ old → t + window ≤ last ∨ penalized sender s (t + window);
  si_burst : ∀ x, Z.of_nat (burst x passed) ≤ spam_message_threshold runtime;
}.
Lemma drop_before_spec cutoff l : ∃ dropped, l = dropped ++ drop_before cutoff l ∧ ∀ t, t ∈ dropped → t < cutoff.
Proof.
  induction l as [|t l (d & Hl & Hd)]; simpl; [exists []; split; [done|set_solver]|]. destruct (t <? cutoff) eqn:E.
  - exists (t :: d). simpl. rewrite <- Hl. split; [done|]. intros u [->|?]%elem_of_cons; [lia|auto].
  - exists []. split; [done|set_solver].
Qed.
Lemma check_penalty_spec table name now fallback : let '(table', r) := check_penalty table name now fallback in
  (∀ p, table !! name = Some p → expires_at p ≤ now ∨ table' !! name = Some p ∧ is_Some r) ∧ (r = None → table' !! name = None).
Proof.
  unfold check_penalty. destruct (table !! name) as [p|] eqn:Hp; [|done]. destruct (expires_at p <=? now) eqn:He.
  - split; [intros q [= <-]; left; lia|]. intros _. apply lookup_delete_eq.
  - split; [|done]. intros q [= <-]. eauto.
Qed.
Lemma burst_app x l l' : burst x (l ++ l') = (burst x l + burst x l')%nat.
Proof. unfold burst. by rewrite filter_app, length_app. Qed.
Lemma burst_none x l : (∀ t, t ∈ l → ¬ within x t) → burst x l = 0%nat.
Proof.
  intros H. unfold burst. destruct (filter (within x) l) as [|t rest] eqn:E; [done|].
  assert (t ∈ filter (within x) l) as [? ?]%list_elem_of_filter by (rewrite E; left). by destruct (H t).
Qed.
Lemma burst_le x l : (burst x l ≤ length l)%nat.
Proof. apply length_filter. Qed.
(** One more message: what is in a window with it is among the remembered events. *)
Lemma burst_snoc old events kept now : (∀ t, t ∈ old → t + window ≤ now) →
  (∃ dropped, events = dropped ++ kept ∧ ∀ t, t ∈ dropped → t < now - window) →
  Z.of_nat (length (kept ++ [now])) ≤ spam_message_threshold runtime →
  (∀ x, Z.of_nat (burst x (old ++ events)) ≤ spam_message_threshold runtime) →
  ∀ x, Z.of_nat (burst x ((old ++ events) ++ [now])) ≤ spam_message_threshold runtime.
Proof.
  intros Hold (dropped & -> & Hd) Hlen Hb x. destruct (decide (within x now)) as [Hw|Hw].
  - rewrite !burst_app, (burst_none x old), (burst_none x dropped).
    + pose proof (burst_le x kept). pose proof (burst_le x [now]). rewrite length_app in Hlen. lia.
    + intros t Ht. specialize (Hd t Ht). unfold within in *. lia.
    + intros t Ht. specialize (Hold t Ht). unfold within in *. lia.
  - rewrite burst_app, (burst_none x [now]); [specialize (Hb x); lia|]. intros t ->%list_elem_of_singleton. done.
Qed.
Lemma drop_sorted cutoff l : StronglySorted Z.le l → ∀ t, t ∈ drop_before cutoff l → cutoff ≤ t.
Proof.
  induction 1 as [|u l Hs IH Hu]; simpl; [set_solver|]. destruct (u <? cutoff) eqn:E; [done|].
  intros t [->|Ht]%elem_of_cons; [lia|]. rewrite Forall_forall in Hu. specialize (Hu t Ht). lia.
Qed.
Lemma filter_all (P : Z → Prop) `{∀ t, Decision (P t)} l : Forall P l → filter P l = l.
Proof. induction 1 as [|t l Ht _ IH]; [done|]. by rewrite filter_cons_True, IH. Qed.
Context (Hmute : spam_window_sec runtime ≤ spam_mute_sec runtime) (Hban : spam_window_sec runtime ≤ spam_ban_sec runtime).
Context (sender : string) (Hsender : sender ≠ "guest").
Lemma window_le n : spam_window_sec runtime ≤ n → window ≤ seconds n.
Proof. unfold seconds. lia. Qed.
Lemma escalated s s' passed last now : SpamInv sender s passed last → last ≤ now → user s' = user s → spam_events s' !! sender = Some [] →
  (∃ p, (muted_users s' !! sender = Some p ∨ banned_users s' !! sender = Some p) ∧ now + window ≤ expires_at p) →
  SpamInv sender s' passed now.
Proof.
  intros [Hu Hp _ Hb] Hle Hu' He (p & Ht & Hx). constructor; [by rewrite Hu'|intros t Ht'%Hp; lia| |done].
  exists passed. rewrite He. cbn. rewrite app_nil_r. split; [done|]. intros t Ht'%Hp. right. exists p. split; [done|lia].
Qed.
Lemma ban_seen_tables name expires s : let s' := ban_last_seen name expires s in
  user s' = user s ∧ spam_events s' = spam_events s ∧ muted_users s' = muted_users s ∧ banned_users s' = banned_users s.
Proof. unfold ban_last_seen. by repeat case_match. Qed.
Lemma sessions_tables name s : let s' := (user_sessions live name s).1 in
  user s' = user s ∧ spam_events s' = spam_events s ∧ muted_users s' = muted_users s ∧ banned_users s' = banned_users s.
Proof. unfold user_sessions. by case_match. Qed.
Lemma spam_step s passed last now : SpamInv sender s passed last → last ≤ now →
  let '(s', r) := evaluate_chat_send_moderation live runtime o now s in
  SpamInv sender s' (if passes r then passed ++ [now] else passed) now.
Proof using Hmute Hban Hsender.
  intros I Hle. pose proof I as [Hu Hp (old & Hpass & Hold) Hb]. unfold evaluate_chat_send_moderation.
  assert (actor_name live s o = sender) as -> by (unfold actor_name; by rewrite Hu). rewrite bool_decide_eq_false_2 by done.
  pose proof (check_penalty_spec (muted_users s) sender now "temporarily muted") as Hm.
  destruct (check_penalty (muted_users s) sender now _) as [muted mr].
  pose proof (check_penalty_spec (banned_users s) sender now "temporarily banned") as Hn. cbn [banned_users set].
  change (banned_users (s <| muted_users := muted |>)) with (banned_users s).
  destruct (check_penalty (banned_users s) sender now _) as [banned br].
  set (s1 := s <| muted_users := muted |> <| banned_users := banned |>).
  assert (Hold1 : ∀ t, t ∈ old → t + window ≤ now ∨ penalized sender s1 (t + window) ∧ (is_Some mr ∨ is_Some br)).
  { intros t [H|(p & [Hq|Hq] & Ht)]%Hold; [left; lia|..].
    - destruct (proj1 Hm p Hq) as [|[? ?]]; [left; lia|right]. split; [exists p|]; naive_solver.
    - destruct (proj1 Hn p Hq) as [|[? ?]]; [left; lia|right]. split; [exists p|]; naive_solver. }
  destruct (bool_decide (is_Some mr) || bool_decide (is_Some br)) eqn:Hpen.
  { match goal with |- context [passes ?r] => assert (passes r = false) as -> end.
    { unfold passes. cbn. rewrite bool_decide_eq_true_2 by done. by destruct (bool_decide (is_Some mr)), (bool_decide (is_Some br)). }
    constructor; [done|intros t Ht%Hp; lia| |done]. exists old. split; [done|]. naive_solver. }
  apply orb_false_iff in Hpen as [Hmr%bool_decide_eq_false Hbr%bool_decide_eq_false].
  assert (Hold2 : ∀ t, t ∈ old → t + window ≤ now) by naive_solver.
  change (spam_events s1) with (spam_events s). change (spam_violations s1) with (spam_violations s).
  set (events := default [] (spam_events s !! sender)) in *. destruct (drop_before_spec (now - window) events) as (dropped & Hev & Hdr).
  destruct (_ <=? spam_message_threshold runtime) eqn:Hthr.
  { match goal with |- context [passes ?r] => assert (passes r = true) as -> by (unfold passes; cbn; by rewrite bool_decide_eq_true_2) end.
    constructor; [done| | |].
    - intros t [Ht%Hp| ->%list_elem_of_singleton]%elem_of_app; lia.
    - cbn. rewrite lookup_insert_eq. cbn. exists (old ++ dropped). split; [rewrite Hpass, Hev at 1; by rewrite !(assoc_L (++))|].
      intros t [Ht%Hold2|Ht%Hdr]%elem_of_app; left; lia.
    - rewrite Hpass in Hb |- *. eapply burst_snoc; [done|by exists dropped|lia|done]. }
  destruct (spam_ban_violation_threshold runtime <=? _).
  - match goal with |- context [ban_last_seen ?n ?e ?t] => set (s2 := ban_last_seen n e t);
      pose proof (ban_seen_tables n e t) as (B1 & B2 & B3 & B4) end. fold s2 in B1, B2, B3, B4.
    pose proof (sessions_tables sender s2) as (S1 & S2 & S3 & S4). destruct (user_sessions live sender s2) as [s3 l]. cbn [fst] in *.
    match goal with |- context [passes ?r] => assert (passes r = false) as -> by (unfold passes; cbn; by rewrite !andb_false_r) end.
    eapply (escalated s); [done|done|by rewrite S1, B1|rewrite S2, B2; apply lookup_insert_eq|].
    eexists. rewrite S4, B4. split; [right; apply lookup_insert_eq|]. cbn. pose proof (window_le _ Hban). lia.
  - match goal with |- context [passes ?r] => assert (passes r = false) as -> by (unfold passes; cbn; by rewrite !andb_false_r) end.
    eapply (escalated s); [done|done|done|apply lookup_insert_eq|].
    eexists. split; [left; apply lookup_insert_eq|]. cbn. pose proof (window_le _ Hmute). lia.
Qed.
Lemma spam_run times : ∀ s passed last, SpamInv sender s passed last → StronglySorted Z.le (last :: times) →
  ∀ x, Z.of_nat (burst x (passed ++ (sends times s).2)) ≤ spam_message_threshold runtime.
Proof using Hmute Hban Hsender.
  induction times as [|now times IH]; intros s passed last I Hs x; simpl; [rewrite app_nil_r; apply I|].
  apply StronglySorted_inv in Hs as [Hs Hle]. rewrite Forall_cons in Hle. pose proof (spam_step s passed last now I (proj1 Hle)) as Hst.
  destruct (evaluate_chat_send_moderation live runtime o now s) as [s' r].
  specialize (IH s' _ now Hst Hs x). destruct (sends times s') as [s'' more]. cbn in *.
  destruct (passes r); [by rewrite <- (assoc_L (++)) in IH|done].
Qed.
(** No penalty, and the remembered events are the end of what was sent. *)
Definition unpunished (s : ChatServiceState) (sent : list Z) : Prop :=
  user s !! ptr live o = Some sender ∧ muted_users s !! sender = None ∧ banned_users s !! sender = None
  ∧ default [] (spam_events s !! sender) `suffix_of` sent.
Lemma free_step s sent now : unpunished s sent → StronglySorted Z.le (sent ++ [now]) →
  Z.of_nat (length (filter (λ t, now - window ≤ t ≤ now) (sent ++ [now]))) ≤ spam_message_threshold runtime → 0 ≤ window →
  let '(s', r) := evaluate_chat_send_moderation live runtime o now s in passes r = true ∧ unpunished s' (sent ++ [now]).
Proof using Hsender.
  clear Hmute Hban.
  intros (Hu & Hm & Hn & Hsuf) Hs Hlen Hw. pose proof Hs as Hsent. unfold evaluate_chat_send_moderation.
  assert (actor_name live s o = sender) as -> by (unfold actor_name; by rewrite Hu). rewrite bool_decide_eq_false_2 by done.
  unfold check_penalty. rewrite Hm. cbn. rewrite Hn. cbn. set (events := default [] (spam_events s !! sender)) in *.
  destruct (drop_before_spec (now - window) events) as (dropped & Hev & _).
  assert (Hk : drop_before (now - window) events ++ [now] `suffix_of` sent ++ [now]).
  { destruct Hsuf as [pre ->]. exists (pre ++ dropped). rewrite Hev at 1. by rewrite !(assoc_L (++)). }
  assert (Z.of_nat (length (drop_before (now - window) events ++ [now])) ≤ spam_message_threshold runtime) as Hle.
  { etrans; [|exact Hlen]. apply inj_le. destruct Hk as [pre Hk]. rewrite Hk, filter_app.
    rewrite (filter_all _ (drop_before _ _ ++ [now])); [rewrite !length_app; lia|]. apply Forall_forall.
    rewrite Hk in Hs. apply StronglySorted_app_1_r in Hs. intros t [Ht| ->%list_elem_of_singleton]%elem_of_app; [|lia].
    split; [|by eapply (StronglySorted_app_1_elem_of _ _ [now]); [exact Hs|exact Ht|left]].
    eapply drop_sorted; [|exact Ht]. destruct Hsuf as [pre' ->]. rewrite <- (assoc_L (++)) in Hsent.
    by apply StronglySorted_app_1_r, StronglySorted_app_1_l in Hsent. }
  apply Z.leb_le in Hle. rewrite Hle. split; [unfold passes; cbn; by rewrite bool_decide_eq_true_2|].
  split_and!; [done|by cbn|by cbn|]. cbn. by rewrite lookup_insert_eq.
Qed.
Lemma free_run rest : ∀ s sent, unpunished s sent → StronglySorted Z.le (sent ++ rest) → 0 ≤ window →
  (∀ x, Z.of_nat (length (filter (λ t, x ≤ t ≤ x + window) (sent ++ rest))) ≤ spam_message_threshold runtime) → (sends rest s).2 = rest.
Proof using Hsender.
  clear Hmute Hban.
  induction rest as [|now rest IH]; intros s sent U Hs Hw Hb; simpl; [done|]. rewrite cons_middle, (assoc_L (++)) in Hs, Hb.
  pose proof (free_step s sent now U (StronglySorted_app_1_l _ _ _ Hs)) as Hst.
  destruct (evaluate_chat_send_moderation live runtime o now s) as [s' r]. destruct Hst as [-> U'].
  { etrans; [|exact (Hb (now - window))]. apply inj_le. rewrite (filter_app _ (sent ++ [now])), length_app.
    rewrite (list_filter_iff _ (λ t, now - window ≤ t ≤ now - window + window)); [lia|]. intros t. lia. }
  { done. }
  specialize (IH s' _ U' Hs Hw Hb). destruct (sends rest s'). cbn in *. by rewrite IH.
Qed.
End Spam.

(** C15: The spam control is a rate limit for one session.  Let the window be no
    longer than the mute and the ban, and the sender have no earlier spam events.
    Of the messages the session sends at nondecreasing times, however often the
    penalties strike and run out, at most the threshold get through in any span of
    the window's length; and a sender who never exceeds the threshold in a window,
    and starts without a penalty, gets every message through.  With a shorter mute
    the limit does not hold: [short_mute_breaks_rate]. *)
Theorem spam_rate_limited `{WO : WeakOrder} (live : gmap Z Z) (runtime : ChatServiceRuntimeState) (o : Z) (sender : string)
    (s : ChatServiceState) (times : list Z)
    (Hu : user s !! ptr live o = Some sender) (Hg : sender ≠ "guest") (He : spam_events s !! sender = None)
    (Hs : StronglySorted Z.le times)
    (Hw : 0 ≤ spam_window_sec runtime) (Hthr : 0 ≤ spam_message_threshold runtime)
    (Hmute : spam_window_sec runtime ≤ spam_mute_sec runtime) (Hban : spam_window_sec runtime ≤ spam_ban_sec runtime) :
  (∀ x, Z.of_nat (burst runtime x (sends live runtime o times s).2) ≤ spam_message_threshold runtime) ∧
  (muted_users s !! sender = None → banned_users s !! sender = None →
   (∀ x, Z.of_nat (length (filter (λ t, x ≤ t ≤ x + seconds (spam_window_sec runtime)) times)) ≤ spam_message_threshold runtime) →
   (sends live runtime o times s).2 = times).
Proof.
  split.
  - intros x. destruct times as [|now times]; [done|].
    assert (I : SpamInv live runtime o sender s [] now).
    { constructor; [done|set_solver| |done]. exists []. rewrite He. split; [done|set_solver]. }
    pose proof (spam_run live runtime o Hmute Hban sender Hg (now :: times) s [] now I) as Hr. rewrite app_nil_l in Hr. apply Hr.
    apply SSorted_cons; [done|]. apply Forall_cons. split; [lia|]. by apply StronglySorted_inv in Hs as [_ ?].
  - intros Hm Hn Hb. apply (free_run live runtime o sender Hg times s []); [|done|unfold seconds; lia|done].
    split_and!; [done..|]. rewrite He. by exists [].
Qed.
(** Seven messages in a row, the last of which mutes, and one after the mute. *)
Lemma spam_rate_limited_witness :
  let s := chat_state_new <| user := {[100 := "ann"]} |> in
  let times := replicate 7 0 ++ [seconds 30] in
  (sends {[1 := 100]} (runtime_state_default ∅) 1 times s).2 = replicate 6 0 ++ [seconds 30] ∧
  Z.of_nat (burst (runtime_state_default ∅) 0 (sends {[1 := 100]} (runtime_state_default ∅) 1 times s).2) ≤ 6.
Proof.
  intros s times. split; [by vm_compute|]. apply (spam_rate_limited {[1 := 100]} (runtime_state_default ∅) 1 "ann" s times); try done.
  repeat constructor; done.
Defined.
