(* ===== verification/ChatDelivery.v ===== *)
(** * Delivery of room messages

    What a sent message reaches: exactly the sessions in the sender's room whose
    users have not blocked the sender, once each, the sender's own copy marked. *)
From S2P Require Import Prelude Containers Text Packet ChatState ChatHandlers ChatFrames ChatWorld ChatRaces ChatPolicy.
From stdpp Require Import list gmap strings.
Open Scope Z_scope.
Open Scope record_scope.

(** A message of a user, as opposed to a notice. *)
Definition room_message (out : Out) : Prop :=
  match out with OSend _ (mChat _ sender _ _ _) => sender ≠ "(system)" | _ => False end.
#[export] Instance room_message_dec out : Decision (room_message out).
Proof. destruct out as [? []| | | | |]; apply _. Defined.

Section Delivery.
Context `{WO : WeakOrder} `{MI : !MapIteration string}.
Context (live : gmap Z Z) (closed : gset Z) (runtime : ChatServiceRuntimeState) (config : ChatConfig).
Context (db_room_id : string → option string) (names_loaded : bool).

(** The session [t] is in [room] and its user has not blocked [sender]. *)
Definition hears (s : ChatServiceState) (room sender : string) (t : Z) : Prop :=
  ∃ b name, live !! t = Some b ∧ cur_room s !! b = Some room ∧ user s !! b = Some name ∧ blocks s name sender = false.

Lemma moderate_sender o now s : mr_sender (evaluate_chat_send_moderation live runtime o now s).2 = actor_name live s o.
Proof.
  unfold evaluate_chat_send_moderation. case_bool_decide; [done|]. destruct (check_penalty _ _ _ _).
  destruct (check_penalty (banned_users _) _ _ _). destruct (_ || _); [done|]. case_match; [done|]. case_match; [|done].
  by destruct (user_sessions _ _ _).
Qed.
Lemma hears_ext s s' room sender t : cur_room s' = cur_room s → user s' = user s → user_blacklists s' = user_blacklists s →
  hears s' room sender t ↔ hears s room sender t.
Proof. intros Hc Hu Hb. unfold hears, blocks. by rewrite Hc, Hu, Hb. Qed.

Lemma chat_targets s room sender : ChatInvariant live closed s →
  let '(s', targets) := collect_chat_broadcast_targets live room sender s in
  s' = s ∧ NoDup targets ∧ ∀ t, t ∈ targets ↔ hears s room sender t.
Proof.
  intros I. unfold collect_chat_broadcast_targets. destruct (rooms s !! room) as [X|] eqn:HX.
  - cbn. rewrite prune_all by eauto using member_alive. rewrite set_rooms_same by done. split_and!; [done| |].
    + apply NoDup_filter, NoDup_filter. rewrite (in_order_perm X). apply NoDup_elements.
    + intros t. rewrite list_elem_of_filter, elem_locked. split.
      * intros (Hr & Ht & b & Hb). assert (members_of s room t) as (b' & Hb' & Hc)%(ci_member _ _ _ I) by (by exists X).
        exists b'. unfold receives in Hr. rewrite (ptr_live _ _ _ Hb') in Hr. destruct (user s !! b') as [n|]; [|done].
        exists n. split_and!; [done..|]. by apply negb_true_iff.
      * intros (b & n & Hb & Hc & Hu & Hbl). unfold receives. rewrite (ptr_live _ _ _ Hb), Hu, Hbl. split; [done|].
        split; [|by exists b]. assert (members_of s room t) as (Y & HY & Ht) by (apply (ci_member _ _ _ I); eauto). congruence.
  - split_and!; [done|constructor|]. intros t. split; [set_solver|]. intros (b & n & Hb & Hc & _).
    assert (members_of s room t) as (Y & HY & Ht) by (apply (ci_member _ _ _ I); eauto). congruence.
Qed.

Definition copy (o sid : Z) (room sender text : string) (t : Z) : Out :=
  OSend t (mChat room sender text sid (if t =? o then FLAG_SELF else 0)).
Lemma filter_room_none out : Forall (λ x, ¬ room_message x) out → filter room_message out = [].
Proof. induction 1 as [|x l Hx _ IH]; [done|]. by rewrite filter_cons_False. Qed.
Lemma filter_copies o sid room sender text (ts : list Z) : sender ≠ "(system)" →
  filter room_message (copy o sid room sender text <$> ts) = copy o sid room sender text <$> ts.
Proof. intros Hs. induction ts as [|t ts IH]; [done|]. cbn [fmap list_fmap]. by rewrite filter_cons_True, IH. Qed.
(** *** Reading a handler's outputs *)
Lemma bind_section {A B} (f : ChatServiceState → ChatServiceState * A) (k : A → Chat B) s : (section f ≫= k) s = k (f s).2 (f s).1.
Proof. unfold mbind, chat_bind, section. destruct (f s) as [s1 x]. cbn. by destruct (k x s1) as [[? ?] ?]. Qed.
Lemma bind_gets {A B} (f : ChatServiceState → A) (k : A → Chat B) s : (gets f ≫= k) s = k (f s) s.
Proof. unfold mbind, chat_bind, gets. by destruct (k (f s) s) as [[? ?] ?]. Qed.
Lemma out_tell {B} out (k : unit → Chat B) s : ((tell out ≫= k) s).1.2 = out ++ (k tt s).1.2.
Proof. unfold mbind, chat_bind, tell. by destruct (k tt s) as [[? ?] ?]. Qed.
Lemma when_tell b out : when b (tell out) = tell (if b then out else []).
Proof. by destruct b. Qed.
(** The broadcast is the copies for the targets, or the sender's own. *)
Lemma dispatch_out o sid room sender text message_id s : sender ≠ "(system)" →
  filter room_message (dispatch_room_message live config db_room_id o sid room sender text message_id s).1.2 =
    copy o sid room sender text <$> match (collect_chat_broadcast_targets live room sender s).2 with [] => [o] | ts => ts end.
Proof.
  intros Hs. unfold dispatch_room_message. rewrite !bind_section, !bind_gets, !when_tell, !out_tell.
  destruct (collect_chat_broadcast_targets live room sender s) as [s1 targets]. cbn [fst snd].
  assert (send_local_chat_broadcast o targets room sender text sid = copy o sid room sender text <$> match targets with [] => [o] | _ => targets end) as ->.
  { unfold send_local_chat_broadcast, copy. destruct targets as [|t targets]; [|done]. cbn. by rewrite Z.eqb_refl. }
  rewrite !filter_app, filter_copies by done.
  match goal with |- filter _ ?a ++ _ ++ filter _ ?b ++ filter _ ?c ++ filter _ ?d = _ =>
    rewrite (filter_room_none a), (filter_room_none b), (filter_room_none c), (filter_room_none d) end.
  - rewrite !app_nil_r. by destruct targets.
  - destruct message_id as [id|]; [|constructor]. rewrite when_tell. cbn. case_match; repeat constructor; auto.
  - case_match; repeat constructor; auto.
  - unfold touch_user_presence. repeat case_match; repeat constructor; auto.
  - case_match; repeat constructor; auto.
Qed.

(** A plain message that passes the guard and the moderation goes to the room. *)
Lemma chat_job_out o a sid room text ans s current :
  live !! o = Some a → a ∈ authed s → cur_room s !! a = Some current → room = EmptyString ∨ room = current →
  String.prefix "/" text = false → ca_hook_stops ans = false →
  passes (evaluate_chat_send_moderation live runtime o (ca_now ans) s).2 = true → actor_name live s o ≠ "(system)" →
  filter room_message (chat_job live runtime config db_room_id names_loaded o sid room text ans s).1.2 =
  filter room_message (dispatch_room_message live config db_room_id o sid current (actor_name live s o) (ca_hook_text ans text)
    (ca_message_id ans) (evaluate_chat_send_moderation live runtime o (ca_now ans) s).1).1.2.
Proof.
  intros Ho Ha Hc Hr Ht Hk Hp Hs. unfold chat_job. rewrite bool_decide_eq_false_2 by (by intros ->).
  assert (Hg : chat_guard live o room s = (s, ([], Some current))).
  { unfold chat_guard. rewrite (ptr_live _ _ _ Ho), bool_decide_eq_false_2 by (intros Hn; by apply Hn). rewrite Hc.
    destruct Hr as [->| ->]; [done|]. by rewrite (bool_decide_eq_false_2 (current ≠ current)), andb_false_r by (intros Hn; by apply Hn). }
  unfold guarded, mbind at 1, chat_bind at 1. rewrite Hg. unfold try_handle_slash_command. rewrite Ht. cbn [negb].
  unfold mbind at 1, chat_bind at 1. cbn [mret chat_ret]. unfold mret at 1, chat_ret at 1.
  rewrite bind_section. rewrite Hp, Hk. pose proof (moderate_sender o (ca_now ans) s) as Hms. rewrite Hms.
  match goal with |- context [(tell ?n ≫= ?k) ?s1] => pose proof (out_tell n k s1) as Ho'; destruct ((tell n ≫= k) s1) as [[s2 out] r] end.
  cbn [fst snd app] in *. rewrite Ho', filter_app. rewrite filter_room_none; [done|].
  apply Forall_fmap, Forall_forall. intros n _. unfold compose. cbn. by intros Hn.
Qed.
End Delivery.

(** C7: Exact delivery.  In every state a timely run reaches, take a live,
    authenticated session that sends a text not starting with a slash to its own
    current room, under a name other than "(system)", such that the message passes
    the moderation and no hook stops it.  The message is delivered to exactly the
    live sessions that are in the room and whose users have not blocked the
    sender: one copy each, the text as the hooks left it, the sender's own copy
    marked as its own and no other.  When nobody hears it the sender gets its copy
    back.  No other user message is sent. *)
Theorem chat_delivered_exactly `{WO : WeakOrder} `{MI : !MapIteration string} runtime config sha256_hex legacy_hash db_room_id names_loaded
    steps w o a sid room text ans current
    (Ht : timely_run runtime config sha256_hex legacy_hash db_room_id world_new steps = true)
    (Hr : world_run runtime config sha256_hex legacy_hash db_room_id world_new steps = Some w)
    (Ho : w_live w !! o = Some a) (Ha : a ∈ authed (w_chat w)) (Hc : cur_room (w_chat w) !! a = Some current)
    (Hroom : room = EmptyString ∨ room = current) (Htext : String.prefix "/" text = false) (Hhook : ca_hook_stops ans = false)
    (Hp : passes (evaluate_chat_send_moderation (w_live w) runtime o (ca_now ans) (w_chat w)).2 = true)
    (Hs : actor_name (w_live w) (w_chat w) o ≠ "(system)") :
  let sender := actor_name (w_live w) (w_chat w) o in
  ∃ ts, NoDup ts
    ∧ filter room_message (chat_job (w_live w) runtime config db_room_id names_loaded o sid room text ans (w_chat w)).1.2
        = copy o sid current sender (ca_hook_text ans text) <$> ts
    ∧ ∀ t, t ∈ ts ↔ hears (w_live w) (w_chat w) current sender t
                    ∨ t = o ∧ ∀ t', ¬ hears (w_live w) (w_chat w) current sender t'.
Proof.
  cbv zeta. pose proof (world_run_inv _ _ _ _ _ _ _ _ new_inv Ht Hr) as (I & _).
  rewrite (chat_job_out _ _ _ _ _ _ _ _ _ _ _ _ current Ho Ha Hc Hroom Htext Hhook Hp Hs), dispatch_out by done.
  pose proof (moderate_inv (w_live w) (w_closed w) runtime o (ca_now ans) _ I) as I'.
  pose proof (chat_targets _ _ _ current (actor_name (w_live w) (w_chat w) o) I') as Htg.
  destruct (collect_chat_broadcast_targets _ _ _ _) as [s' ts]. destruct Htg as (_ & Hnd & Hts). cbn [snd].
  assert (Hh : ∀ t, t ∈ ts ↔ hears (w_live w) (w_chat w) current (actor_name (w_live w) (w_chat w) o) t).
  { intros t. rewrite Hts. apply hears_ext; apply moderate_lenient; apply _. }
  exists (match ts with [] => [o] | _ => ts end). split_and!; [destruct ts; [apply NoDup_singleton|done]|by destruct ts|].
  intros t. destruct ts as [|t1 ts].
  - rewrite list_elem_of_singleton. split; [intros ->; right; split; [done|]; intros t' Ht'%Hh; set_solver|].
    intros [Ht'%Hh|[? _]]; [set_solver|done].
  - rewrite Hh. split; [by left|]. intros [?|[_ Hn]]; [done|]. destruct (Hn t1). apply Hh. by left.
Qed.
Definition demo_send : ChatAnswers := {| ca_now := 0; ca_published := false; ca_redis_names := None; ca_hook_notices := [];
  ca_hook_stops := false; ca_hook_text := id; ca_message_id := None; ca_last_id := 0 |}.
(** Bob hears Ann in her room; Ann hears herself. *)
Lemma chat_delivered_exactly_witness : ∃ w ts,
  demo_run (take 7 meeting) = Some w ∧
  filter room_message (chat_job (w_live w) (runtime_state_default {["root"]}) demo_config (λ _, None) true 1 11 EmptyString "hi" demo_send (w_chat w)).1.2
    = copy 1 11 "den" "ann" "hi" <$> ts
  ∧ hears (w_live w) (w_chat w) "den" "ann" 2 ∧ 2 ∈ ts.
Proof.
  destruct (demo_facts (take 7 meeting) (λ w, w_live w !! 1 = Some 100 ∧ w_live w !! 2 = Some 200 ∧ cur_room (w_chat w) !! 100 = Some "den"
    ∧ cur_room (w_chat w) !! 200 = Some "den" ∧ user (w_chat w) !! 100 = Some "ann" ∧ user (w_chat w) !! 200 = Some "bob"
    ∧ user_blacklists (w_chat w) = ∅ ∧ 100 ∈ authed (w_chat w)
    ∧ passes (evaluate_chat_send_moderation (w_live w) (runtime_state_default {["root"]}) 1 0 (w_chat w)).2 = true))
    as (w & H & H1 & H2 & Hc1 & Hc2 & Hu1 & Hu2 & Hb & Ha & Hp); [by vm_compute|].
  assert (Hn : actor_name (w_live w) (w_chat w) 1 = "ann") by (unfold actor_name; by rewrite (ptr_live _ _ _ H1), Hu1).
  destruct (chat_delivered_exactly (runtime_state_default {["root"]}) demo_config id id (λ _, None) true (take 7 meeting) w 1 100 11
    EmptyString "hi" demo_send "den") as (ts & _ & Hf & Hts); [by vm_compute|done|done|done|done|by left|done|done|done|by rewrite Hn|].
  rewrite Hn in *. exists w, ts. assert (hears (w_live w) (w_chat w) "den" "ann" 2) as Hh.
  { exists 200, "bob". unfold blocks. by rewrite Hb, lookup_empty. }
  split_and!; [done|done|done|]. apply Hts. by left.
Defined.
