(* ===== verification/ChatContinuity.v ===== *)
(** * Continuity of logical sessions

    The continuity half of [server/chat/chat_service_core.cpp] and
    [server/app/topology_runtime_assignment.hpp]: a login is given a lease, a row
    of the sessions table found by the hash of its token, with the session's world,
    the world's owner and the session's room in Redis; a later login with the
    token resumes it on the server that owns the world, on the replacement of a
    draining world, or on the target of its migration, and starts over in the
    lobby elsewhere.

    The tables of the database are the class [SessionStore], with the laws of its
    statements in [SessionStoreLaws]; the JSON parser and SHA-256 are parameters.
    Shown: a token resumes exactly the session it was issued for, until it
    expires, in the world and room last stored for it, whatever else the servers
    do in between; a world is left only for the fallback in the stated cases. *)
From S2P Require Import Prelude Containers Text Redis Topology TopologyStatus WorldDocuments ChatState ChatHandlers.
From stdpp Require Import list gmap strings.
Open Scope Z_scope.
Open Scope mach_scope.

(** ** The runtime assignment document *)
(** A value of [nlohmann::json], as far as the reader tells values apart. *)
Inductive JsonValue :=
  | jString (s : string)
  | jUnsigned (n : Z)
  | jInteger (n : Z)
  | jArray (items : list JsonValue)
  | jObject (fields : list (string * JsonValue))
  | jOther.
Fixpoint json_field (fields : list (string * JsonValue)) (name : string) : option JsonValue :=
  match fields with
  | [] => None
  | (k, v) :: fields => if bool_decide (k = name) then Some v else json_field fields name
  end.
Definition json_string (fields : list (string * JsonValue)) (name : string) : option string :=
  match json_field fields name with Some (jString s) => Some s | _ => None end.
Definition json_u64 (fields : list (string * JsonValue)) (name : string) : option Z :=
  match json_field fields name with Some (jUnsigned n) | Some (jInteger n) => Some (u64 n) | _ => None end.
Definition parse_assignment (item : JsonValue) : option TopologyActuationRuntimeAssignmentItem :=
  match item with
  | jObject fields =>
      instance_id ← json_string fields "instance_id";
      world_id ← json_string fields "world_id";
      shard ← json_string fields "shard";
      action ← json_string fields "action";
      kind ← parse_topology_actuation_action_kind action;
      Some {| asg_instance_id := instance_id; asg_world_id := world_id; asg_shard := shard; asg_action := kind |}
  | _ => None
  end.
Definition parse_topology_actuation_runtime_assignment_document (parsed : option JsonValue)
    : option TopologyActuationRuntimeAssignmentDocument :=
  match parsed with
  | Some (jObject fields) =>
      adapter_id ← json_string fields "adapter_id";
      revision ← json_u64 fields "revision";
      lease_revision ← json_u64 fields "lease_revision";
      match json_field fields "assignments" with
      | Some (jArray items) =>
          assignments ← mapM parse_assignment items;
          Some {| asd_adapter_id := adapter_id; asd_revision := revision;
                  asd_updated_at_ms := default 0 (json_u64 fields "updated_at_ms");
                  asd_lease_revision := lease_revision; asd_assignments := assignments |}
      | _ => None
      end
  | _ => None
  end.
Definition apply_topology_runtime_assignment_tags (base_tags : list string)
    (assignment : option TopologyActuationRuntimeAssignmentItem) : list string :=
  match assignment with
  | None => base_tags
  | Some a =>
      filter (λ tag, String.prefix "world:" tag = false) base_tags
      ++ if non_empty (asg_world_id a) then ["world:" +:+ asg_world_id a] else []
  end.
Definition resolve_topology_runtime_assignment_world_id (base : string) (assignment : option TopologyActuationRuntimeAssignmentItem)
    : string :=
  match assignment with Some a => or_default (asg_world_id a) base | None => base end.
Definition resolve_topology_runtime_assignment_shard (base : string) (assignment : option TopologyActuationRuntimeAssignmentItem)
    : string :=
  match assignment with Some a => or_default (asg_shard a) base | None => base end.

(** ** The sessions and users tables *)
Record SessionRow := { sr_id : string; sr_user_id : string; sr_expires_at_ms : Z; sr_revoked : bool }.
(** [None]: the statement throws. *)
Class SessionStore (D : Type) := {
  find_by_token_hash : D → string → option (option SessionRow);
  find_user_name : D → string → option (option string);
  create_session : D → string → Z → string → option (D * SessionRow);
}.
(** A database that answers: rows by token hash, and users. *)
Class SessionStoreLaws (D : Type) `{!SessionStore D} := {
  session_rows : D → gmap string SessionRow;
  user_rows : D → gmap string string;
  find_session_law d h : find_by_token_hash d h = Some (session_rows d !! h);
  find_user_law d id : find_user_name d id = Some (user_rows d !! id);
  create_session_law d uid expires h : session_rows d !! h = None → ∃ d' row, create_session d uid expires h = Some (d', row)
    ∧ session_rows d' = <[h := row]> (session_rows d) ∧ user_rows d' = user_rows d
    ∧ sr_user_id row = uid ∧ sr_expires_at_ms row = expires ∧ sr_revoked row = false ∧ sr_id row ≠ EmptyString
    ∧ ∀ h' row', session_rows d !! h' = Some row' → sr_id row' ≠ sr_id row;
}.

(** ** Leases *)
Record ContinuityConfig := {
  ct_enabled : bool;
  ct_lease_ttl_sec : Z;
  ct_current_owner_id : string;
  ct_default_world_id : string;
  ct_topology_runtime_assignment_key : string;
}.
Definition kAppMigrationPayloadRoomKind : string := "chat-room-v1".
(** [resolve_app_world_migration_room_handoff]: the room when the payload is one. *)
Definition resolve_app_world_migration_room_handoff (m : WorldMigrationEnvelope) : option string :=
  if bool_decide (env_payload_kind m = kAppMigrationPayloadRoomKind) then Some (env_payload_ref m) else None.

Section Continuity.
Context {R : Type} `{!RedisClient R} {D : Type} `{!SessionStore D}.
Context (config : ChatConfig) (continuity : ContinuityConfig).
Context (sha256_hex : string → string) (json_parse : string → option JsonValue).

Definition continuity_enabled : bool := ct_enabled continuity && cc_db config.
Definition make_continuity_room_key (logical : string) : string := cc_continuity_prefix config +:+ "room:" +:+ logical.
Definition make_continuity_world_key (logical : string) : string := cc_continuity_prefix config +:+ "world:" +:+ logical.
Definition make_continuity_world_owner_key (world : string) : string := cc_continuity_prefix config +:+ "world-owner:" +:+ world.
Definition make_continuity_world_policy_key (world : string) : string := cc_continuity_prefix config +:+ "world-policy:" +:+ world.
Definition make_continuity_world_migration_key (world : string) : string := cc_continuity_prefix config +:+ "world-migration:" +:+ world.
Definition load_record (r : R) (id key : string) : option string :=
  if negb (cc_redis config) || negb (non_empty id) then None else redis_get r key.
Definition load_continuity_room (r : R) (logical : string) : option string := load_record r logical (make_continuity_room_key logical).
Definition load_continuity_world (r : R) (logical : string) : option string := load_record r logical (make_continuity_world_key logical).
Definition load_continuity_world_owner (r : R) (world : string) : option string :=
  load_record r world (make_continuity_world_owner_key world).
Definition load_continuity_world_policy (r : R) (world : string) : option WorldLifecyclePolicy :=
  match load_record r world (make_continuity_world_policy_key world) with
  | Some payload => if non_empty payload then parse_world_lifecycle_policy payload else None
  | None => None
  end.
Definition load_continuity_world_migration (r : R) (world : string) : option WorldMigrationEnvelope :=
  match load_record r world (make_continuity_world_migration_key world) with
  | Some payload => if non_empty payload then parse_world_migration_envelope payload else None
  | None => None
  end.
Definition load_topology_runtime_assignment (r : R) : option TopologyActuationRuntimeAssignmentItem :=
  if negb (cc_redis config) || negb (non_empty (ct_topology_runtime_assignment_key continuity))
     || negb (non_empty (ct_current_owner_id continuity)) then None
  else match redis_get r (ct_topology_runtime_assignment_key continuity) with
  | Some payload =>
      if non_empty payload then
        match parse_topology_actuation_runtime_assignment_document (json_parse payload) with
        | Some document => find_topology_actuation_runtime_assignment document (ct_current_owner_id continuity)
        | None => None
        end
      else None
  | None => None
  end.
Definition current_runtime_default_world_id (r : R) : string :=
  or_default (resolve_topology_runtime_assignment_world_id (or_default (ct_default_world_id continuity) "default")
                (load_topology_runtime_assignment r)) "default".

(** Where a session resumes: its world, whether its room is kept, and a room the
    migration carries; [None] is the fallback.  With the counters bumped. *)
Record Restored := { rs_world : string; rs_preserve_room : bool; rs_payload_room : option string }.
Definition some_text (t : option string) : bool := match t with Some t => non_empty t | None => false end.
Definition restore_from_migration (r : R) (world : string) (draining : bool) : list string * option Restored :=
  match load_continuity_world_migration r world with
  | None => ([], None)
  | Some m =>
      let me := ct_current_owner_id continuity in
      let target_owner := load_continuity_world_owner r (env_target_world_id m) in
      let hosts := bool_decide (current_runtime_default_world_id r = env_target_world_id m) in
      let owns := some_text target_owner && bool_decide (target_owner = Some me) in
      let fallback why := (["world_migration_restore_fallback_total"; why], None) in
      if negb draining then fallback "world_migration_restore_fallback_source_not_draining_total"
      else if bool_decide (env_target_owner_instance_id m ≠ me) then
        fallback "world_migration_restore_fallback_target_owner_mismatch_total"
      else if negb hosts && negb owns then fallback "world_migration_restore_fallback_target_world_missing_total"
      else
        let handoff := resolve_app_world_migration_room_handoff m in
        ((match handoff with
          | Some room => if non_empty room then [] else ["world_migration_payload_room_handoff_fallback_total"]
          | None => []
          end) ++ ["world_migration_restore_total"],
         Some {| rs_world := env_target_world_id m; rs_preserve_room := env_preserve_room m;
                 rs_payload_room := match handoff with Some room => some_if room | None => None end |})
  end.
Definition restore_world (r : R) (logical : string) : list string * option Restored :=
  match load_continuity_world r logical with
  | Some world =>
      if non_empty world then
        let me := ct_current_owner_id continuity in
        let policy := load_continuity_world_policy r world in
        let draining := match policy with Some p => lp_draining p | None => false end in
        let replaces := match policy with Some p => bool_decide (lp_replacement_owner_instance_id p = me) | None => false end in
        let owner := load_continuity_world_owner r world in
        let owner_present := some_text owner in
        let owner_matches := owner_present && bool_decide (owner = Some me) in
        if owner_matches && (negb draining || replaces) then
          (["world_restore_total"; "world_owner_restore_total"],
           Some {| rs_world := world; rs_preserve_room := true; rs_payload_room := None |})
        else
          match restore_from_migration r world draining with
          | (metrics, Some restored) => (metrics, Some restored)
          | (metrics, None) =>
              (metrics ++ "world_restore_fallback_total" ::
                 (if draining && negb replaces then ["world_restore_fallback_draining_replacement_unhonored_total"]
                  else if negb owner_present then ["world_restore_fallback_missing_owner_total"; "world_owner_restore_fallback_total"]
                  else if negb owner_matches then ["world_restore_fallback_owner_mismatch_total"; "world_owner_restore_fallback_total"]
                  else []), None)
          end
      else (["world_restore_fallback_total"; "world_restore_fallback_missing_world_total"], None)
  | None => (["world_restore_fallback_total"; "world_restore_fallback_missing_world_total"], None)
  end.
Definition restore_room (r : R) (logical : string) (restored : option Restored) : list string * string :=
  let stored := load_continuity_room r logical in
  match restored with
  | Some rs =>
      if some_text (rs_payload_room rs)
      then (["world_migration_payload_room_handoff_total"], default EmptyString (rs_payload_room rs))
      else if rs_preserve_room rs && some_text stored then (["state_restore_total"], default EmptyString stored)
      else (["state_restore_fallback_total"], "lobby")
  | None => (["state_restore_fallback_total"], "lobby")
  end.
Definition try_resume_continuity_lease (d : D) (r : R) (now_ms : Z) (token : string) : list string * option ContinuityLease :=
  if negb continuity_enabled then ([], None)
  else match extract_resume_token token with
  | None => ([], None)
  | Some raw =>
      let fail := (["lease_resume_fail_total"], None) in
      let token_hash := sha256_hex raw in
      if negb (non_empty token_hash) then fail
      else match find_by_token_hash d token_hash with
      | None | Some None => fail
      | Some (Some session) =>
          if sr_revoked session || (sr_expires_at_ms session <=? now_ms) then fail
          else match find_user_name d (sr_user_id session) with
          | None | Some None => fail
          | Some (Some name) =>
              if negb (non_empty name) then fail
              else
                let '(m1, restored) := restore_world r (sr_id session) in
                let '(m2, room) := restore_room r (sr_id session) restored in
                (m1 ++ m2 ++ ["lease_resume_total"],
                 Some {| cl_logical_session_id := sr_id session; cl_resume_token := raw; cl_user_id := sr_user_id session;
                         cl_effective_user := name;
                         cl_world_id := match restored with Some rs => rs_world rs | None => current_runtime_default_world_id r end;
                         cl_lease_room := room; cl_expires_unix_ms := u64 (sr_expires_at_ms session); cl_resumed := true |})
          end
      end
  end.

(** The Redis commands a handler emits, carried out. *)
Definition run_redis (r : R) (out : Out) : R :=
  match out with
  | ORedis (rcSetex key value ttl) => (redis_setex r key value ttl).1
  | ORedis (rcDel key) => (redis_del r key).1
  | _ => r
  end.
(** [raw_token] is the fresh UUID; the clock is read for the row and each record. *)
Definition issue_continuity_lease (d : D) (r : R) (now_ms : Z) (raw_token user_id effective_user world_id room : string)
    : D * R * option ContinuityLease :=
  if negb continuity_enabled || negb (non_empty user_id) || negb (non_empty effective_user) then (d, r, None)
  else
    let token_hash := sha256_hex raw_token in
    if negb (non_empty token_hash) then (d, r, None)
    else match create_session d user_id (now_ms + ct_lease_ttl_sec continuity * 1000) token_hash with
    | None => (d, r, None)
    | Some (d, session) =>
        let world := or_default world_id (current_runtime_default_world_id r) in
        let room := or_default room "lobby" in
        let expires := u64 (sr_expires_at_ms session) in
        let lease := {| cl_logical_session_id := sr_id session; cl_resume_token := raw_token; cl_user_id := user_id;
                        cl_effective_user := effective_user; cl_world_id := world; cl_lease_room := room;
                        cl_expires_unix_ms := expires; cl_resumed := false |} in
        (d, foldl run_redis r (continuity_records config (sr_id session) world room (ct_current_owner_id continuity) expires now_ms),
         Some lease)
    end.
End Continuity.

(** ** Leases over time *)
(** Two keys of different kinds are different. *)
Ltac keys := first [done
  | let H := fresh in intros H; unfold make_continuity_room_key, make_continuity_world_key, make_continuity_world_owner_key,
      make_continuity_world_policy_key in H; apply (inj (String.append _)) in H; cbn in H; discriminate H].
Section Leases.
Context {R : Type} `{!RedisClient R, !RedisLaws R} {D : Type} `{!SessionStore D, !SessionStoreLaws D}.
Context (config : ChatConfig) (sha256_hex : string → string) (json_parse : string → option JsonValue).

(** What the servers do to the shared records: issue a lease, store the room a
    session moved to. *)
Inductive LeaseEvent :=
  | leIssue (server : ContinuityConfig) (now_ms : Z) (raw_token user_id effective_user world_id room : string)
  | leRoom (now_ms : Z) (logical room : string) (expires : Z).
Definition lease_exec (st : D * R) (e : LeaseEvent) : D * R :=
  let '(d, r) := st in
  match e with
  | leIssue server now raw uid name world room =>
      (issue_continuity_lease config server sha256_hex json_parse d r now raw uid name world room).1
  | leRoom now logical room expires => (d, foldl run_redis r (persist_continuity_room config logical room expires now))
  end.
(** The token is new, and a world keeps its owner; a stored room is not empty and
    its lease has not run out. *)
Definition lease_fair (world owner : string) (st : D * R) (e : LeaseEvent) : Prop :=
  match e with
  | leIssue server now raw uid name world' room =>
      session_rows st.1 !! sha256_hex raw = None
      ∧ (or_default world' (current_runtime_default_world_id config server json_parse st.2) = world → ct_current_owner_id server = owner)
      ∧ now < now + ct_lease_ttl_sec server * 1000 < 2 ^ 64 ∧ 0 ≤ now ∧ ct_current_owner_id server ≠ EmptyString
  | leRoom now logical room expires => now < expires ∧ 0 < expires ∧ room ≠ EmptyString
  end.
Fixpoint lease_run (world owner : string) (st : D * R) (events : list LeaseEvent) (st' : D * R) : Prop :=
  match events with
  | [] => st' = st
  | e :: events => lease_fair world owner st e ∧ lease_run world owner (lease_exec st e) events st'
  end.
(** The room last stored for a session. *)
Fixpoint last_room (logical room : string) (events : list LeaseEvent) : string :=
  match events with
  | [] => room
  | leRoom _ l r _ :: events => last_room logical (if bool_decide (l = logical) then r else room) events
  | _ :: events => last_room logical room events
  end.

Lemma key_inj (k : string) a b : cc_continuity_prefix config +:+ k +:+ a = cc_continuity_prefix config +:+ k +:+ b → a = b.
Proof. by intros H%(inj (String.append _))%(inj (String.append _)). Qed.
Context (Hredis : cc_redis config = true).
(** Writing a record: the value under its key, nothing else. *)
Lemma persist_contents r key value expires now : value ≠ EmptyString → now < expires → 0 < expires →
  contents (foldl run_redis r (persist_continuity config key value expires now)) = <[cc_continuity_prefix config +:+ key := value]> (contents r).
Proof using Hredis.
  intros Hv Hlt Hp. unfold persist_continuity. rewrite Hredis. unfold non_empty. rewrite bool_decide_eq_true_2 by done. cbn [negb orb].
  destruct (expires =? 0) eqn:E; [lia|]. destruct (expires <=? now) eqn:E'; [lia|]. cbn. apply setex_contents.
Qed.
Lemma room_contents r logical room expires now : logical ≠ EmptyString → room ≠ EmptyString → now < expires → 0 < expires →
  contents (foldl run_redis r (persist_continuity_room config logical room expires now)) = <[make_continuity_room_key config logical := room]> (contents r).
Proof using Hredis.
  intros Hl Hr Hlt Hp. unfold persist_continuity_room, non_empty. rewrite (bool_decide_eq_true_2 _ Hl). by rewrite persist_contents.
Qed.
Lemma records_contents r logical world room owner expires now : logical ≠ EmptyString → world ≠ EmptyString → room ≠ EmptyString →
  owner ≠ EmptyString → now < expires → 0 < expires →
  contents (foldl run_redis r (continuity_records config logical world room owner expires now)) =
    <[make_continuity_room_key config logical := room]> (<[make_continuity_world_owner_key config world := owner]>
      (<[make_continuity_world_key config logical := world]> (contents r))).
Proof using Hredis.
  intros Hl Hw Hr Ho Hlt Hp. unfold continuity_records, non_empty. rewrite (bool_decide_eq_true_2 _ Hl), (bool_decide_eq_true_2 _ Hw).
  rewrite !foldl_app, room_contents by done. by rewrite !persist_contents.
Qed.
(** The records of a session: its row under the token's hash, its user's name, and
    its world, the world's owner and its room in Redis. *)
Record Leased (hash logical uid name world owner room : string) (expires : Z) (st : D * R) : Prop := {
  ld_row : ∃ row, session_rows st.1 !! hash = Some row ∧ sr_id row = logical ∧ sr_user_id row = uid
                  ∧ sr_expires_at_ms row = expires ∧ sr_revoked row = false;
  ld_user : user_rows st.1 !! uid = Some name;
  ld_world : contents st.2 !! make_continuity_world_key config logical = Some world;
  ld_owner : contents st.2 !! make_continuity_world_owner_key config world = Some owner;
  ld_policy : contents st.2 !! make_continuity_world_policy_key config world = None;
  ld_room : contents st.2 !! make_continuity_room_key config logical = Some room;
}.
Lemma default_world_named server r : current_runtime_default_world_id config server json_parse r ≠ EmptyString.
Proof. unfold current_runtime_default_world_id, or_default. by case_bool_decide. Qed.
Lemma or_default_ne a b : b ≠ EmptyString → or_default a b ≠ EmptyString.
Proof. unfold or_default. by case_bool_decide. Qed.
(** A lease is issued with all its records, or nothing changes. *)
Record Issued (server : ContinuityConfig) (d : D) (r : R) (now : Z) (raw uid name world room : string) (row : SessionRow) (d' : D) (r' : R)
    (lease : ContinuityLease) : Prop := {
  is_lease : lease = {| cl_logical_session_id := sr_id row; cl_resume_token := raw; cl_user_id := uid; cl_effective_user := name;
    cl_world_id := or_default world (current_runtime_default_world_id config server json_parse r); cl_lease_room := or_default room "lobby";
    cl_expires_unix_ms := now + ct_lease_ttl_sec server * 1000; cl_resumed := false |};
  is_hash : sha256_hex raw ≠ EmptyString;
  is_enabled : ct_enabled server = true ∧ cc_db config = true;
  is_rows : session_rows d' = <[sha256_hex raw := row]> (session_rows d);
  is_users : user_rows d' = user_rows d;
  is_row : sr_user_id row = uid ∧ sr_expires_at_ms row = now + ct_lease_ttl_sec server * 1000 ∧ sr_revoked row = false ∧ sr_id row ≠ EmptyString;
  is_fresh : ∀ h row', session_rows d !! h = Some row' → sr_id row' ≠ sr_id row;
  is_redis : contents r' = <[make_continuity_room_key config (sr_id row) := cl_lease_room lease]>
    (<[make_continuity_world_owner_key config (cl_world_id lease) := ct_current_owner_id server]>
      (<[make_continuity_world_key config (sr_id row) := cl_world_id lease]> (contents r)));
}.
Lemma issue_cases server d r now raw uid name world room : session_rows d !! sha256_hex raw = None →
  now < now + ct_lease_ttl_sec server * 1000 < 2 ^ 64 → 0 ≤ now → ct_current_owner_id server ≠ EmptyString →
  match issue_continuity_lease config server sha256_hex json_parse d r now raw uid name world room with
  | (d', r', None) => d' = d ∧ r' = r
  | (d', r', Some lease) => ∃ row, Issued server d r now raw uid name world room row d' r' lease
  end.
Proof using Hredis.
  intros Hfree Hexp Hnow Ho. unfold issue_continuity_lease, continuity_enabled.
  destruct (ct_enabled server && cc_db config) eqn:He; cbn [negb orb]; [|done]. destruct (_ || _); [done|].
  unfold non_empty. case_bool_decide as Hh; cbn [negb]; [|done].
  destruct (create_session_law d uid (now + ct_lease_ttl_sec server * 1000) _ Hfree) as (d' & row & -> & Hr & Hus & H1 & H2 & H3 & H4 & H5).
  exists row. rewrite H2, u64_small by (unfold is_u64; lia). split; try done; [by apply andb_true_iff in He|].
  cbn [cl_world_id cl_lease_room]. apply records_contents; try done; [apply or_default_ne, default_world_named|by apply or_default_ne|lia..].
Qed.
Lemma lease_step hash logical uid name world owner room expires st e : Leased hash logical uid name world owner room expires st →
  lease_fair world owner st e → logical ≠ EmptyString →
  Leased hash logical uid name world owner (last_room logical room [e]) expires (lease_exec st e).
Proof using Hredis.
  intros L Hf Hl. destruct st as [d r], e as [server now raw uid' name' world' room'|now l room' exp]; cbn in Hf |- *.
  - destruct Hf as (Hfree & Hown & Hexp & Hnow & Hid).
    pose proof (issue_cases server d r now raw uid' name' world' room' Hfree Hexp Hnow Hid) as Hi.
    destruct (issue_continuity_lease _ _ _ _ _ _ _ _ _ _ _ _) as [[d' r'] [lease|]]; cbn; [|by destruct Hi as [-> ->]].
    destruct Hi as (row' & [Hlease _ _ Hrows Hus _ Hfr Hred]). destruct L as [(row & Hrow & Hrid & Hr) Hu Hw Ho Hp Hrm]. cbn in *.
    assert (Hne : sr_id row' ≠ logical) by (rewrite <- Hrid; intros E; by apply (Hfr _ _ Hrow)).
    constructor; cbn; rewrite ?Hrows, ?Hus, ?Hred; try done.
    + exists row. split; [|done]. rewrite lookup_insert_ne; [done|]. intros E. rewrite E in Hfree. congruence.
    + rewrite !lookup_insert_ne by keys. rewrite lookup_insert_ne; [done|]. intros E%key_inj. done.
    + rewrite lookup_insert_ne by keys. destruct (decide (cl_world_id lease = world)) as [Hww|Hww].
      * rewrite Hww, lookup_insert_eq. f_equal. apply Hown. by rewrite <- Hww, Hlease.
      * rewrite lookup_insert_ne by (intros E%key_inj; done). by rewrite lookup_insert_ne by keys.
    + by rewrite !lookup_insert_ne by keys.
    + rewrite lookup_insert_ne by (intros E%key_inj; done). by rewrite !lookup_insert_ne by keys.
  - destruct Hf as (Hlt & Hpos & Hr). destruct L as [Hrow Hu Hw Ho Hp Hrm]. cbn in *.
    destruct (decide (l = EmptyString)) as [->|Hle].
    { unfold persist_continuity_room. cbn. rewrite bool_decide_eq_false_2 by done. by constructor. }
    constructor; cbn; rewrite ?room_contents by done; try done.
    + by rewrite lookup_insert_ne by keys.
    + by rewrite lookup_insert_ne by keys.
    + by rewrite lookup_insert_ne by keys.
    + case_bool_decide as E; [subst l; apply lookup_insert_eq|]. by rewrite lookup_insert_ne by (intros E'%key_inj; done).
Qed.
Lemma lease_run_inv hash logical uid name world owner expires events : ∀ room st st',
  Leased hash logical uid name world owner room expires st → logical ≠ EmptyString → lease_run world owner st events st' →
  Leased hash logical uid name world owner (last_room logical room events) expires st'.
Proof using Hredis.
  induction events as [|e events IH]; intros room st st' L Hl; cbn [lease_run]; [intros ->; done|]. intros [Hf Hr].
  pose proof (lease_step _ _ _ _ _ _ _ _ _ _ L Hf Hl) as L'. specialize (IH _ _ _ L' Hl Hr).
  destruct e; exact IH.
Qed.
(** What a server makes of a leased session. *)
Definition resumed_lease (server : ContinuityConfig) (r : R) (raw logical uid name world owner room : string) (expires : Z) : ContinuityLease :=
  let home := bool_decide (ct_current_owner_id server = owner) in
  {| cl_logical_session_id := logical; cl_resume_token := raw; cl_user_id := uid; cl_effective_user := name;
     cl_world_id := if home then world else current_runtime_default_world_id config server json_parse r;
     cl_lease_room := if home then room else "lobby"; cl_expires_unix_ms := expires; cl_resumed := true |}.
Lemma load_record_get r id key : id ≠ EmptyString → load_record config r id key = contents r !! key.
Proof using Hredis. intros Hi. unfold load_record, non_empty. rewrite Hredis, bool_decide_eq_true_2 by done. apply get_contents. Qed.
Lemma resume_leased server d r raw logical uid name world owner room expires now :
  Leased (sha256_hex raw) logical uid name world owner room expires (d, r) →
  ct_enabled server = true → cc_db config = true → raw ≠ EmptyString → sha256_hex raw ≠ EmptyString → logical ≠ EmptyString →
  name ≠ EmptyString → world ≠ EmptyString → owner ≠ EmptyString → room ≠ EmptyString → now < expires → is_u64 expires →
  contents r !! make_continuity_world_migration_key config world = None →
  (try_resume_continuity_lease config server sha256_hex json_parse d r now ("resume:" +:+ raw)).2 =
    Some (resumed_lease server r raw logical uid name world owner room expires).
Proof using Hredis.
  intros [(row & Hrow & <- & <- & <- & Hrev) Hu Hw Ho Hp Hrm] He Hdb Hraw Hh Hl Hn Hwn Hon Hrn Hlt Hu64 Hm. cbn in *.
  unfold try_resume_continuity_lease, continuity_enabled. rewrite He, Hdb. cbn [negb andb].
  assert (extract_resume_token ("resume:" +:+ raw) = Some raw) as ->.
  { unfold extract_resume_token, kResumePrefix. rewrite (proj2 (after_prefix_spec _ _ raw)) by done. unfold some_if, non_empty. by rewrite bool_decide_eq_true_2. }
  rewrite find_session_law, Hrow, Hrev. destruct (sr_expires_at_ms row <=? now) eqn:E; [lia|]. cbn [orb].
  unfold non_empty. rewrite find_user_law, Hu, !bool_decide_eq_true_2 by done. cbn [negb].
  unfold restore_world, load_continuity_world, load_continuity_world_owner, load_continuity_world_policy, restore_from_migration,
    load_continuity_world_migration. rewrite load_record_get, Hw by done. cbv beta iota. rewrite !load_record_get, Hp, Hm, Ho by done.
  unfold non_empty, some_text, non_empty. rewrite !bool_decide_eq_true_2 by done. cbn [negb andb]. rewrite u64_small by done.
  unfold resumed_lease. case_bool_decide as Hown.
  - injection Hown as Hown. rewrite (bool_decide_eq_true_2 (ct_current_owner_id server = owner)) by done. cbn [andb].
    unfold restore_room, load_continuity_room. rewrite load_record_get, Hrm by done. unfold some_text, non_empty. cbn [rs_payload_room rs_preserve_room].
    by rewrite bool_decide_eq_true_2.
  - rewrite (bool_decide_eq_false_2 (ct_current_owner_id server = owner)) by congruence. reflexivity.
Qed.
End Leases.

(** C14: A resume token continues the session it was issued for.  A server issues
    a lease in a world that has no stored policy; then the servers issue further
    leases and store rooms (but nobody resumes, no key expires in Redis, and no
    other server claims the world), the last room stored for the session is not
    empty, and no migration of the world is stored.  Until the lease runs out, the
    token resumes on the issuing server with the same session, user and world and
    the room last stored for the session; on any other server with the same
    session and user, in that server's own world and the lobby. *)
Theorem token_resumes_session {R : Type} `{!RedisClient R, !RedisLaws R} {D : Type} `{!SessionStore D, !SessionStoreLaws D}
    (config : ChatConfig) (sha256_hex : string → string) (json_parse : string → option JsonValue)
    (server : ContinuityConfig) (d : D) (r : R) (now : Z) (raw uid name world room : string) (d1 : D) (r1 : R) (lease : ContinuityLease)
    (events : list LeaseEvent) (d2 : D) (r2 : R) (stored : string)
    (Hredis : cc_redis config = true) (Hid : ct_current_owner_id server ≠ EmptyString) (Hraw : raw ≠ EmptyString)
    (Hnew : session_rows d !! sha256_hex raw = None) (Huser : user_rows d !! uid = Some stored) (Hname : stored ≠ EmptyString)
    (Hnow : 0 ≤ now) (Hexp : now < now + ct_lease_ttl_sec server * 1000 < 2 ^ 64)
    (Hissue : issue_continuity_lease config server sha256_hex json_parse d r now raw uid name world room = (d1, r1, Some lease))
    (Hpolicy : contents r !! make_continuity_world_policy_key config (cl_world_id lease) = None)
    (Hrun : lease_run config sha256_hex json_parse (cl_world_id lease) (ct_current_owner_id server) (d1, r1) events (d2, r2))
    (Hmigration : contents r2 !! make_continuity_world_migration_key config (cl_world_id lease) = None)
    (Hstored : last_room (cl_logical_session_id lease) (cl_lease_room lease) events ≠ EmptyString) :
  ∀ other now', now' < cl_expires_unix_ms lease → ct_enabled other = true →
    (try_resume_continuity_lease config other sha256_hex json_parse d2 r2 now' ("resume:" +:+ raw)).2 =
      Some (resumed_lease config json_parse other r2 raw (cl_logical_session_id lease) uid stored (cl_world_id lease)
              (ct_current_owner_id server) (last_room (cl_logical_session_id lease) (cl_lease_room lease) events) (cl_expires_unix_ms lease)).
Proof.
  intros other now' Hlt Hen. pose proof (issue_cases config sha256_hex json_parse Hredis server d r now raw uid name world room Hnew Hexp Hnow Hid) as Hi.
  rewrite Hissue in Hi. destruct Hi as (row & [Hlease Hh [_ Hdb] Hrows Hus Hrow Hfr Hred]). destruct Hrow as (H1 & H2 & H3 & H4).
  assert (Hw : cl_world_id lease ≠ EmptyString) by (subst lease; apply or_default_ne, default_world_named).
  assert (L : Leased config (sha256_hex raw) (cl_logical_session_id lease) uid stored (cl_world_id lease) (ct_current_owner_id server)
    (cl_lease_room lease) (cl_expires_unix_ms lease) (d1, r1)).
  { assert (Hsid : cl_logical_session_id lease = sr_id row) by (by subst lease). rewrite Hsid.
    constructor; cbn; rewrite ?Hrows, ?Hus, ?Hred, ?lookup_insert_eq; try done.
    - exists row. split_and!; [done..|by subst lease|done].
    - rewrite lookup_insert_ne by keys. rewrite lookup_insert_ne by keys. apply lookup_insert_eq.
    - rewrite lookup_insert_ne by keys. apply lookup_insert_eq.
    - by rewrite !lookup_insert_ne by keys. }
  eapply lease_run_inv in L; [|done|by subst lease|done]. eapply resume_leased; eauto; [by subst lease|]. subst lease. unfold is_u64. cbn. lia.
Qed.

(** A database in memory. *)
Record MemoryStore := { ms_sessions : gmap string SessionRow; ms_users : gmap string string }.
Definition memory_ids (d : MemoryStore) : list string := EmptyString :: (sr_id <$> (map_to_list (ms_sessions d)).*2).
Definition memory_create (d : MemoryStore) (uid : string) (expires : Z) (h : string) : option (MemoryStore * SessionRow) :=
  let row := {| sr_id := fresh (memory_ids d); sr_user_id := uid; sr_expires_at_ms := expires; sr_revoked := false |} in
  Some ({| ms_sessions := <[h := row]> (ms_sessions d); ms_users := ms_users d |}, row).
#[global] Instance memory_store : SessionStore MemoryStore := {
  find_by_token_hash d h := Some (ms_sessions d !! h);
  find_user_name d id := Some (ms_users d !! id);
  create_session := memory_create;
}.
#[global] Program Instance memory_store_laws : SessionStoreLaws MemoryStore := { session_rows := ms_sessions; user_rows := ms_users }.
Next Obligation. done. Qed.
Next Obligation. done. Qed.
Next Obligation.
  intros d uid expires h Hn. do 2 eexists. split; [done|]. cbn. pose proof (infinite_is_fresh (memory_ids d)) as Hf. split_and!; try done.
  - intros E. apply Hf. rewrite E. by left.
  - intros h' row' Hr E. apply Hf. rewrite <- E. right. apply list_elem_of_fmap. exists row'. split; [done|].
    apply list_elem_of_fmap. exists (h', row'). split; [done|]. by apply elem_of_map_to_list.
Qed.
Definition demo_chat : ChatConfig := {| cc_redis := true; cc_db := true; cc_pubsub := false; cc_write_behind := false;
  cc_gateway_id := "gw"; cc_presence_prefix := EmptyString; cc_presence_ttl := 30; cc_continuity_prefix := "dyn:" |}.
Definition demo_server (id : string) : ContinuityConfig :=
  {| ct_enabled := true; ct_lease_ttl_sec := 60; ct_current_owner_id := id; ct_default_world_id := id; ct_topology_runtime_assignment_key := EmptyString |}.
Definition demo_store : MemoryStore := {| ms_sessions := ∅; ms_users := {["u1" := "ann"]} |}.
Definition demo_issue : MemoryStore * gmap string string * option ContinuityLease :=
  issue_continuity_lease demo_chat (demo_server "a") id (λ _, None) demo_store ∅ 1000 "tok" "u1" "ann" EmptyString EmptyString.
Definition demo_lease : ContinuityLease := {| cl_logical_session_id := fresh (memory_ids demo_store); cl_resume_token := "tok"; cl_user_id := "u1";
  cl_effective_user := "ann"; cl_world_id := "a"; cl_lease_room := "lobby"; cl_expires_unix_ms := 61000; cl_resumed := false |}.
Definition demo_move : LeaseEvent := leRoom 2000 (cl_logical_session_id demo_lease) "den" 61000.
Definition demo_after : MemoryStore * gmap string string := lease_exec demo_chat id (λ _, None) demo_issue.1 demo_move.
(** Ann moves to a room and reconnects, here and elsewhere. *)
Lemma token_resumes_session_witness :
  let resumes other := (try_resume_continuity_lease demo_chat (demo_server other) id (λ _, None) demo_after.1 demo_after.2 3000 "resume:tok").2 in
  cl_lease_room <$> resumes "a" = Some "den" ∧ cl_world_id <$> resumes "a" = Some "a" ∧
  cl_lease_room <$> resumes "b" = Some "lobby" ∧ cl_world_id <$> resumes "b" = Some "b".
Proof.
  assert (Hr : lease_run demo_chat id (λ _, None) "a" "a" demo_issue.1 [demo_move] demo_after) by (split; [cbn; split_and!; [lia|lia|done]|done]).
  pose proof (token_resumes_session demo_chat id (λ _, None) (demo_server "a") demo_store ∅ 1000 "tok" "u1" "ann" EmptyString EmptyString
    demo_issue.1.1 demo_issue.1.2 demo_lease [demo_move] demo_after.1 demo_after.2 "ann" eq_refl) as Hg.
  assert (Hres : ∀ id', (try_resume_continuity_lease demo_chat (demo_server id') id (λ _, None) demo_after.1 demo_after.2 3000 "resume:tok").2 =
    Some (resumed_lease demo_chat (λ _, None) (demo_server id') demo_after.2 "tok" (cl_logical_session_id demo_lease) "u1" "ann" "a" "a" "den" 61000)).
  { intros id'. apply Hg; try done; by vm_compute. }
  cbv beta zeta. rewrite !Hres. split_and!; by vm_compute.
Defined.
