(* ===== verification/ChatBans.v ===== *)
(** * Bans and settings over time

    A ban set by an administrator, by a command or by the spam control holds until
    it runs out, whatever the handlers do concurrently, and keeps its user from
    logging in and from sending.  Settings changed at run time stay in range. *)
From S2P Require Import Prelude Containers Text Packet ChatState ChatHandlers ChatAdmin ChatFrames ChatWorld ChatRaces ChatPolicy.
From stdpp Require Import list gmap strings.
Open Scope Z_scope.
Open Scope record_scope.

Section Bans.
Context `{WO : WeakOrder} `{MI : !MapIteration string}.
Context (runtime : ChatServiceRuntimeState) (config : ChatConfig).
Context (sha256_hex legacy_hash : string → string) (db_room_id : string → option string).

End Bans.
(** A login takes the mutex for its check of the bans and again for its commit: a
    ban in between does not stop it, and the banned user is logged in.  What such a
    session sends is still stopped. *)
Lemma ban_misses_checked_login :
  let steps := [SpAccept 1 100; SpLogin 1 (demo_login "root" EmptyString "lobby"); SpAccept 2 200;
                SpBanCheck 2 "bob" EmptyString EmptyString 0; SpBan 1 "bob" 60 0; SpLogin 2 (demo_login "bob" EmptyString "lobby")] in
  ∃ w, demo_run steps = Some w ∧ expires_at <$> banned_users (w_chat w) !! "bob" = Some (seconds 60)
    ∧ 200 ∈ authed (w_chat w) ∧ actor_name (w_live w) (w_chat w) 2 = "bob"
    ∧ passes (evaluate_chat_send_moderation (w_live w) (runtime_state_default {["root"]}) 2 10 (w_chat w)).2 = false.
Proof. cbv zeta. apply (demo_facts _ (λ w, _)). by vm_compute. Qed.

(** ** Settings *)
Definition setting_value (key : RuntimeSettingKey) (t : Tunables) : Z :=
  match key with
  | kPresenceTtlSec => presence_ttl t
  | kRecentHistoryLimit => recent_limit t
  | kRoomRecentMaxlen => max_list_len t
  | kChatSpamThreshold => spam_message_threshold (spam t)
  | kChatSpamWindowSec => spam_window_sec (spam t)
  | kChatSpamMuteSec => spam_mute_sec (spam t)
  | kChatSpamBanSec => spam_ban_sec (spam t)
  | kChatSpamBanViolations => spam_ban_violation_threshold (spam t)
  end.
Definition in_rule (t : Tunables) (r : RuntimeSettingRule) : Prop := rl_min_value r ≤ setting_value (rl_key_id r) t ≤ rl_max_value r.
(** Every setting within its rule, and room for the history that is asked for. *)
Definition Tuned (t : Tunables) : Prop := Forall (in_rule t) kRuntimeSettingRules ∧ recent_limit t ≤ max_list_len t.
#[export] Instance eq_key : EqDecision RuntimeSettingKey.
Proof. solve_decision. Defined.
#[export] Instance tuned_dec t : Decision (Tuned t).
Proof. unfold Tuned, in_rule. apply _. Defined.
Lemma rule_found key r : find_runtime_setting_rule key = Some r → r ∈ kRuntimeSettingRules ∧ rl_key_name r = key.
Proof.
  unfold find_runtime_setting_rule. destruct (filter _ _) as [|q l] eqn:Hq; [done|]. intros [= ->].
  assert (r ∈ filter (λ r, rl_key_name r = key) kRuntimeSettingRules) as H by (rewrite Hq; left). by apply list_elem_of_filter in H as [??].
Qed.
Lemma applied_value key n t : setting_value key (apply_setting key n t) = n.
Proof. destruct key; cbn; by repeat case_match. Qed.
Lemma apply_tuned r n t : Tuned t → r ∈ kRuntimeSettingRules → rl_min_value r ≤ n ≤ rl_max_value r →
  (rl_key_id r = kRoomRecentMaxlen → recent_limit t ≤ n) → Tuned (apply_setting (rl_key_id r) n t).
Proof.
  unfold Tuned, in_rule, kRuntimeSettingRules, rule. rewrite !Forall_cons, !Forall_nil, !elem_of_cons, elem_of_nil. cbn.
  intros Ht Hin Hn Hm. destruct_or! Hin; try done; subst r; cbn in *; try (repeat split; lia).
  - destruct (max_list_len t <? n) eqn:E; cbn; repeat split; lia.
  - specialize (Hm eq_refl). repeat split; lia.
Qed.
Lemma floor_recent r t : Tuned t → match rl_key_id r with kRoomRecentMaxlen => Z.max (rl_min_value r) (u32 (recent_limit t)) | _ => rl_min_value r end
  = match rl_key_id r with kRoomRecentMaxlen => Z.max (rl_min_value r) (recent_limit t) | _ => rl_min_value r end.
Proof.
  intros [Hf _]. unfold kRuntimeSettingRules, in_rule in Hf. rewrite !Forall_cons in Hf. cbn in Hf. unfold u32, wrap. by rewrite Z.mod_small by lia.
Qed.
Lemma setting_job_cases key value t : Tuned t →
  let '(t', out) := setting_job key value t in
  Tuned t' ∧ match out with
             | soApplied n => parse_u32 (trim value) = Some n ∧ ∃ r, find_runtime_setting_rule (lower (trim key)) = Some r ∧
                 setting_value (rl_key_id r) t' = n ∧ rl_min_value r ≤ n ≤ rl_max_value r
             | _ => t' = t
             end.
Proof.
  intros Ht. unfold setting_job. destruct (parse_u32 (trim value)) as [n|]; [|done].
  destruct (find_runtime_setting_rule (lower (trim key))) as [r|] eqn:Hr; [|done].
  rewrite (floor_recent r t Ht). destruct (_ || _) eqn:Hb; [done|]. apply orb_false_iff in Hb.
  assert (rl_min_value r ≤ n ≤ rl_max_value r ∧ (rl_key_id r = kRoomRecentMaxlen → recent_limit t ≤ n)) as [Hn Hm]
    by (destruct (rl_key_id r); (split; [lia|]); intros; try done; lia).
  split; [apply apply_tuned; [done|by eapply rule_found|done|done]|]. split; [done|]. exists r. by rewrite applied_value.
Qed.
Fixpoint settings_run (denies : string → string → string → bool) (requests : list (bool * (string * string))) (t : Tunables)
    : Tunables * list SettingOutcome :=
  match requests with
  | [] => (t, [])
  | (queued, (key, value)) :: requests =>
      let '(t, out) := admin_apply_runtime_setting denies queued key value t in
      let '(t, outs) := settings_run denies requests t in (t, out :: outs)
  end.
Lemma setting_applied denies queued key value t : Tuned t →
  let '(t', out) := admin_apply_runtime_setting denies queued key value t in
  Tuned t' ∧ match out with
             | soApplied n => parse_u32 (trim value) = Some n ∧ ∃ r, find_runtime_setting_rule (lower (trim key)) = Some r ∧
                 setting_value (rl_key_id r) t' = n ∧ rl_min_value r ≤ n ≤ rl_max_value r
             | _ => t' = t
             end.
Proof.
  intros Ht. unfold admin_apply_runtime_setting. destruct (_ || _); [done|]. destruct (denies _ _ _); [done|].
  destruct queued; [by apply setting_job_cases|done].
Qed.
Lemma text_filled s : trim s ≠ EmptyString → non_empty s = true.
Proof. by destruct s. Qed.
Lemma setting_taken denies key value t : Tuned t → ∀ r n,
  denies "apply_runtime_setting" (setting_payload key value) (key +:+ "=" +:+ value) = false →
  find_runtime_setting_rule (lower (trim key)) = Some r → parse_u32 (trim value) = Some n →
  rl_min_value r ≤ n ≤ rl_max_value r → (rl_key_id r = kRoomRecentMaxlen → recent_limit t ≤ n) →
  (admin_apply_runtime_setting denies true key value t).2 = soApplied n.
Proof.
  intros Ht r n Hd Hr Hn Hb Hm. unfold admin_apply_runtime_setting. rewrite (text_filled key), (text_filled value).
  - cbn [negb orb]. rewrite Hd. unfold setting_job. rewrite Hn, Hr. rewrite (floor_recent r t Ht).
    replace (_ || _) with false; [done|]. symmetry. apply orb_false_iff. destruct (rl_key_id r); try (split; lia).
    specialize (Hm eq_refl). split; lia.
  - by intros E; rewrite E in Hn.
  - by intros E; rewrite E in Hr.
Qed.
(** C34: Settings changed at run time stay in range.  Whatever keys and values an
    administrator sends, in any order, every setting stays within the bounds of its
    rule and the stored history never becomes shorter than the history limit; the
    next request either changes nothing or sets exactly the setting it names to the
    value it gives; and a request for a known setting with a number within its
    bounds, which leaves room for the history, is applied. *)
Theorem settings_in_range (denies : string → string → string → bool) (requests : list (bool * (string * string))) (t : Tunables)
    (queued : bool) (key value : string) (Ht : Tuned t) :
  let t1 := (settings_run denies requests t).1 in
  let '(t2, out) := admin_apply_runtime_setting denies queued key value t1 in
  Tuned t1 ∧ Tuned t2 ∧
  match out with
  | soApplied n => parse_u32 (trim value) = Some n ∧ ∃ r, find_runtime_setting_rule (lower (trim key)) = Some r ∧
      setting_value (rl_key_id r) t2 = n ∧ rl_min_value r ≤ n ≤ rl_max_value r
  | _ => t2 = t1
  end ∧
  (∀ r n, denies "apply_runtime_setting" (setting_payload key value) (key +:+ "=" +:+ value) = false → queued = true →
     find_runtime_setting_rule (lower (trim key)) = Some r → parse_u32 (trim value) = Some n →
     rl_min_value r ≤ n ≤ rl_max_value r → (rl_key_id r = kRoomRecentMaxlen → recent_limit t1 ≤ n) → out = soApplied n).
Proof.
  cbv zeta. assert (H1 : Tuned (settings_run denies requests t).1).
  { revert t Ht. induction requests as [|[q [k v]] requests IH]; intros t Ht; [done|]. cbn.
    pose proof (setting_applied denies q k v t Ht) as Ha. destruct (admin_apply_runtime_setting denies q k v t) as [t' out].
    destruct Ha as [Ha _]. specialize (IH t' Ha). by destruct (settings_run denies requests t'). }
  revert H1. generalize (settings_run denies requests t).1. clear t Ht. intros t Ht.
  pose proof (setting_applied denies queued key value t Ht) as Ha. pose proof (setting_taken denies key value t Ht) as Hk.
  destruct (admin_apply_runtime_setting denies queued key value t) as [t2 out] eqn:E. destruct Ha as [H2 H3]. split_and!; [done..|].
  intros r n Hd -> Hr Hn Hb Hm. specialize (Hk r n Hd Hr Hn Hb Hm). by rewrite E in Hk.
Qed.
Lemma settings_in_range_witness :
  let t := mkTunables 30 20 200 (runtime_state_default ∅) in
  let t1 := (settings_run (λ _ _ _, false) [(true, ("recent_history_limit", "300")); (true, ("room_recent_maxlen", "250"))] t).1 in
  Tuned t ∧ Tuned t1 ∧ recent_limit t1 = 300 ∧ max_list_len t1 = 300 ∧
  (admin_apply_runtime_setting (λ _ _ _, false) true " Chat_Spam_Mute_Sec" "60" t1).2 = soApplied 60.
Proof.
  intros t t1. assert (Ht : Tuned t) by (apply (bool_decide_eq_true_1 (Tuned t)); by vm_compute). split; [done|].
  pose proof (settings_in_range (λ _ _ _, false) [(true, ("recent_history_limit", "300")); (true, ("room_recent_maxlen", "250"))] t
    true " Chat_Spam_Mute_Sec" "60" Ht) as H. cbv zeta in H. fold t1 in H.
  destruct (admin_apply_runtime_setting _ _ _ _ t1) as [t2 out]. destruct H as (H1 & _ & _ & H4). split_and!; [done|by vm_compute..|].
  apply (H4 (rule kChatSpamMuteSec "chat_spam_mute_sec" 5 86400) 60); try done; by vm_compute.
Defined.
(** The bounds allow a mute shorter than the window.  Such settings undo the rate
    limit: with a window of 120 s and a mute of 5 s, six messages pass within 6 s
    at a threshold of 3. *)
Lemma short_mute_breaks_rate :
  let t := mkTunables 30 20 200 (runtime_state_default ∅) in
  let t1 := (settings_run (λ _ _ _, false) [(true, ("chat_spam_threshold", "3")); (true, ("chat_spam_window_sec", "120"));
    (true, ("chat_spam_mute_sec", "5"))] t).1 in
  let s := chat_state_new <| user := {[100 := "ann"]} |> in
  Tuned t1 ∧ burst (spam t1) 0 (sends {[1 := 100]} (spam t1) 1 (replicate 4 0 ++ replicate 3 (seconds 6)) s).2 = 6%nat.
Proof. split; [apply (bool_decide_eq_true_1 (Tuned _))|]; by vm_compute. Qed.
