(* ===== verification/WriteBehind.v ===== *)
(** * The write-behind worker and the replayer of its dead letters

    [tools/wb_worker/main.cpp] and [tools/wb_dlq_replayer/main.cpp].  Both are
    loops over commands to Redis Streams and to the database; between two commands
    other processes run, so an operation is a program over commands ([Prog]).  The
    client of Redis catches its exceptions and answers [false].  Counters and log
    lines are left out.

    [WriteBehindRuns] runs any number of workers and replayers together. *)
From S2P Require Import Prelude Text Resilience GatewayConfig.
From stdpp Require Import list gmap strings.
Open Scope Z_scope.
Open Scope record_scope.

(** ** Entries and rows *)
Abbreviation Fields := (list (string * string)).
Record StreamEntry := mkEntry { se_id : string; se_fields : Fields }.
Record StreamAutoClaimResult := { next_start_id : string; claimed_entries : list StreamEntry; deleted_ids : list string }.
(** A row of [session_events]; the time stamp in milliseconds, a missing identifier is a null. *)
Record EventRow := {
  ev_type : string;
  ev_ts_ms : Z;
  ev_user_id : string;
  ev_session_id : string;
  ev_room_id : string;
  ev_payload : gmap string string;
}.
#[export] Instance eq_entry : EqDecision StreamEntry.
Proof. solve_decision. Defined.
#[export] Instance eq_row : EqDecision EventRow.
Proof. solve_decision. Defined.

(** [std::stoll] and [std::stoi]: leading blanks, a sign, digits, the type's range. *)
Definition stoz (lo hi : Z) (raw : string) : option Z :=
  let value (sign : Z) (s : string) := let d := digit_prefix s in
    if bool_decide (d = EmptyString) then None
    else let n := sign * digits_value d 0 in if (lo <=? n) && (n <=? hi) then Some n else None in
  match ltrim raw with
  | String c rest => if code c =? 45 then value (-1) rest else if code c =? 43 then value 1 rest else value 1 (String c rest)
  | EmptyString => None
  end.
Definition stoll : string → option Z := stoz (- 2 ^ 63) (2 ^ 63 - 1).
Definition stoi : string → option Z := stoz (- 2 ^ 31) (2 ^ 31 - 1).
(** [std::to_string] of an [int]. *)
Definition to_string (n : Z) : string := if n <? 0 then String (of_code 45) (print_u64 (- n)) else print_u64 n.

(** [IsUuid] *)
Definition is_hex (c : char) : bool :=
  ((48 <=? code c) && (code c <=? 57)) || ((97 <=? code c) && (code c <=? 102)) || ((65 <=? code c) && (code c <=? 70)).
Fixpoint uuid_from (i : nat) (s : string) : bool :=
  match s with
  | EmptyString => true
  | String c s => (if bool_decide (i ∈ [8; 13; 18; 23]%nat) then code c =? 45 else is_hex c) && uuid_from (S i) s
  end.
Definition IsUuid (s : string) : bool := bool_decide (String.length s = 36%nat) && uuid_from 0 s.
Definition EstimateEntryBytes (e : StreamEntry) : Z :=
  foldl (λ est f, est + (Z.of_nat (String.length f.1) + Z.of_nat (String.length f.2) + 4)) (Z.of_nat (String.length (se_id e))) (se_fields e).

(** The last field of a name, as an assignment per field leaves it. *)
Definition last_field (fields : Fields) (name : string) : option string :=
  foldl (λ acc f, if bool_decide (f.1 = name) then Some f.2 else acc) None fields.
(** The first, as [emplace] leaves it. *)
Fixpoint first_field (fields : Fields) (name : string) : option string :=
  match fields with
  | [] => None
  | (k, v) :: fields => if bool_decide (k = name) then Some v else first_field fields name
  end.
Definition normalize_uuid (opt : option string) : string :=
  match opt with Some s => if IsUuid s then s else EmptyString | None => EmptyString end.
(** The row [ProcessEntry] inserts. *)
Definition worker_row (e : StreamEntry) : EventRow :=
  let field := last_field (se_fields e) in
  {| ev_type := default "unknown" (field "type");
     ev_ts_ms := default 0 (stoll (default "0" (field "ts_ms")));
     ev_user_id := normalize_uuid (field "user_id");
     ev_session_id := normalize_uuid (field "session_id");
     ev_room_id := normalize_uuid (field "room_id");
     ev_payload := foldl (λ j f, <[f.1 := f.2]> j) ∅ (se_fields e) |}.
(** [ToMap] *)
Definition ToMap (fields : Fields) : gmap string string :=
  foldl (λ m f, match m !! f.1 with Some _ => m | None => <[f.1 := f.2]> m end) ∅ fields.
Definition meta : list string := ["orig_event_id"; "error"; "retry_count"].
(** The row [TryInsertToDb] inserts. *)
Definition replayer_row (mp : gmap string string) : EventRow :=
  {| ev_type := default "unknown" (mp !! "type");
     ev_ts_ms := default 0 (stoll (default "0" (mp !! "ts_ms")));
     ev_user_id := default EmptyString (mp !! "user_id");
     ev_session_id := default EmptyString (mp !! "session_id");
     ev_room_id := default EmptyString (mp !! "room_id");
     ev_payload := filter (λ kv, kv.1 ∉ meta) mp |}.
(** [insert ... on conflict (event_id) do nothing] *)
Definition insert_event (rows : gmap string EventRow) (r : string * EventRow) : gmap string EventRow :=
  match rows !! r.1 with Some _ => rows | None => <[r.1 := r.2]> rows end.

(** ** Programs over commands *)
(** [CConnect] answers whether the new connection is open, nothing on an exception;
    [CPrepare] answers [dbOk] also when the statement is already prepared. *)
Inductive DbAnswer := dbOk | dbError (what : string) | dbBroken.
Inductive Cmd : Set → Type :=
  | CAdd (key : string) (fields : Fields) : Cmd bool
  | CAck (key group id : string) : Cmd bool
  | CRead (key group consumer : string) (count : Z) : Cmd (option (list StreamEntry))
  | CClaim (key group consumer : string) (min_idle : Z) (start : string) (count : Z) : Cmd (option StreamAutoClaimResult)
  | CPending (key group : string) : Cmd (option Z)
  | CConnect : Cmd (option bool)
  | CIsOpen : Cmd bool
  | CPrepare : Cmd DbAnswer
  | CBegin : Cmd DbAnswer
  | CExec (id : string) (row : EventRow) : Cmd DbAnswer
  | CCommit (rows : list (string * EventRow)) : Cmd DbAnswer
  | CNow : Cmd Z
  | CSleep (ms : Z) : Cmd unit
  | CSleepJitter (upper_ms : Z) : Cmd unit.
Inductive Prog (A : Type) : Type :=
  | Ret (x : A)
  | Do {X : Set} (c : Cmd X) (k : X → Prog A).
Arguments Ret {A} _.
Arguments Do {A X} _ _.
#[export] Instance prog_ret : MRet Prog := λ A, Ret.
#[export] Instance prog_bind : MBind Prog := λ A B f, fix go p :=
  match p with Ret x => f x | Do c k => Do c (λ x, go (k x)) end.
Definition call {X : Set} (c : Cmd X) : Prog X := Do c Ret.

(** ** The worker *)
Record WorkerConfig := {
  db_uri : string;
  redis_uri : string;
  stream_key : string;
  wb_group : string;
  wb_consumer : string;
  dlq_stream : string;
  batch_max_events : Z;
  batch_max_bytes : Z;
  batch_delay_ms : Z;
  dlq_on_error : bool;
  ack_on_error : bool;
  reclaim_enabled : bool;
  reclaim_interval_ms : Z;
  reclaim_min_idle_ms : Z;
  reclaim_count : Z;
  metrics_port : Z;
  db_reconnect_base_ms : Z;
  db_reconnect_max_ms : Z;
  retry_max : Z;
  retry_backoff_ms : Z;
}.
Definition env_text (env : Env) (key fallback : string) : string := default fallback (env !! key).
Definition env_number (env : Env) (key : string) (fallback lo hi : Z) : Z :=
  match env !! key with
  | Some v => let n := strtoull v in if (lo <=? n) && (n <=? hi) then n else fallback
  | None => fallback
  end.
Definition env_switch (env : Env) (key : string) : bool := match env !! key with Some v => bool_decide (v ≠ "0") | None => true end.
(** [WorkerConfig::Load] *)
Definition load_worker_config (env : Env) : WorkerConfig :=
  let base := env_number env "WB_DB_RECONNECT_BASE_MS" 500 100 60000 in
  {| db_uri := env_text env "DB_URI" EmptyString; redis_uri := env_text env "REDIS_URI" EmptyString;
     stream_key := env_text env "REDIS_STREAM_KEY" "session_events"; wb_group := env_text env "WB_GROUP" "wb_group";
     wb_consumer := env_text env "WB_CONSUMER" "wb_consumer"; dlq_stream := env_text env "WB_DLQ_STREAM" "session_events_dlq";
     batch_max_events := env_number env "WB_BATCH_MAX_EVENTS" 100 1 10000;
     batch_max_bytes := env_number env "WB_BATCH_MAX_BYTES" (512 * 1024) (16 * 1024) (16 * 1024 * 1024);
     batch_delay_ms := env_number env "WB_BATCH_DELAY_MS" 500 50 10000;
     dlq_on_error := env_switch env "WB_DLQ_ON_ERROR"; ack_on_error := env_switch env "WB_ACK_ON_ERROR";
     reclaim_enabled := env_switch env "WB_RECLAIM_ENABLED";
     reclaim_interval_ms := env_number env "WB_RECLAIM_INTERVAL_MS" 1000 100 60000;
     reclaim_min_idle_ms := env_number env "WB_RECLAIM_MIN_IDLE_MS" 5000 0 600000;
     reclaim_count := env_number env "WB_RECLAIM_COUNT" 200 1 10000;
     metrics_port := env_number env "METRICS_PORT" 0 1 65535;
     db_reconnect_base_ms := base;
     db_reconnect_max_ms := Z.max base (env_number env "WB_DB_RECONNECT_MAX_MS" 30000 1000 300000);
     retry_max := env_number env "WB_RETRY_MAX" 5 0 100; retry_backoff_ms := env_number env "WB_RETRY_BACKOFF_MS" 250 10 10000 |}.
Record Worker := mkWorker {
  wk_db : bool;
  wk_prepared : bool;
  wk_buf : list StreamEntry;
  wk_buf_bytes : Z;
  wk_last_flush : Z;
  wk_last_pending_log : Z;
  wk_last_reclaim : Z;
  wk_initial_reclaim_done : bool;
  wk_reclaim_next_id : string;
  wk_db_reconnect_attempt : Z;
}.
#[export] Instance eta_worker : Eta Worker := λ w, mkWorker (wk_db w) (wk_prepared w) (wk_buf w) (wk_buf_bytes w) (wk_last_flush w)
  (wk_last_pending_log w) (wk_last_reclaim w) (wk_initial_reclaim_done w) (wk_reclaim_next_id w) (wk_db_reconnect_attempt w).

Section Worker.
Context (cfg : WorkerConfig).

Definition worker_new : Worker := mkWorker false false [] 0 0 0 0 false "0-0" 0.
Definition EnsureDbPrepared (wk : Worker) : Prog (Worker * bool) :=
  if negb (wk_db wk) then Ret (wk, false)
  else
    open ← call CIsOpen;
    if negb open then Ret (wk, false)
    else if wk_prepared wk then Ret (wk, true)
    else
      answer ← call CPrepare;
      Ret (match answer with dbOk => (wk <| wk_prepared := true |>, true) | _ => (wk <| wk_prepared := false |>, false) end).
Definition EnsureDbConnection (wk : Worker) : Prog (Worker * bool) :=
  open ← (if wk_db wk then call CIsOpen else Ret false);
  if (open : bool) then EnsureDbPrepared wk
  else
    let wk := wk <| wk_prepared := false |> in
    answer ← call CConnect;
    match answer with
    | Some true => EnsureDbPrepared (wk <| wk_db := true |>)
    | Some false => Ret (wk <| wk_db := true |>, false)
    | None => Ret (wk, false)
    end.
Definition Ack (id : string) : Prog bool := call (CAck (stream_key cfg) (wb_group cfg) id).
Definition dlq_fields (e : StreamEntry) (error : string) : Fields := ("orig_event_id", se_id e) :: se_fields e ++ [("error", error)].
Definition SendToDlq (e : StreamEntry) (error : string) : Prog bool := _ ← call (CAdd (dlq_stream cfg) (dlq_fields e error)); Ret true.
(** The handler of an entry that could not be inserted. *)
Definition entry_failed (e : StreamEntry) (error : string) : Prog unit :=
  acked ← (if dlq_on_error cfg && bool_decide (dlq_stream cfg ≠ EmptyString)
           then sent ← SendToDlq e error; if (sent : bool) then _ ← Ack (se_id e); Ret true else Ret false
           else Ret false);
  if negb acked && ack_on_error cfg then _ ← Ack (se_id e); Ret tt else Ret tt.
(** The entries of a batch in one transaction; [None] when the connection breaks. *)
Fixpoint insert_entries (buf : list StreamEntry) (done : list (string * EventRow)) : Prog (option (list (string * EventRow))) :=
  match buf with
  | [] => Ret (Some done)
  | e :: buf =>
      answer ← call (CExec (se_id e) (worker_row e));
      match answer with
      | dbOk => insert_entries buf (done ++ [(se_id e, worker_row e)])
      | dbError what => _ ← entry_failed e what; insert_entries buf done
      | dbBroken => Ret None
      end
  end.
Fixpoint ack_all (ids : list string) : Prog unit :=
  match ids with [] => Ret tt | id :: ids => _ ← Ack id; ack_all ids end.
Inductive AttemptResult := arCommitted | arFailed | arBroken.
Definition flush_attempt (wk : Worker) (buf : list StreamEntry) : Prog (Worker * AttemptResult) :=
  open ← (if wk_db wk then call CIsOpen else Ret false);
  if negb open then Ret (wk, arFailed)
  else
    '(wk, prepared) ← EnsureDbPrepared wk;
    if negb prepared then Ret (wk, arFailed)
    else
      begin ← call CBegin;
      match begin with
      | dbError _ => Ret (wk, arFailed)
      | dbBroken => Ret (wk, arBroken)
      | dbOk =>
          inserted ← insert_entries buf [];
          match inserted with
          | None => Ret (wk, arBroken)
          | Some rows =>
              answer ← call (CCommit rows);
              match answer with
              | dbOk => _ ← ack_all rows.*1; Ret (wk, arCommitted)
              | dbError _ => Ret (wk, arFailed)
              | dbBroken => Ret (wk, arBroken)
              end
          end
      end.
Definition retry_delay (attempt : Z) : Z :=
  retry_backoff_upper_bound_ms {| bo_mode := kLinear; base_delay_ms := Z.max 1 (retry_backoff_ms cfg); max_delay_ms := 30000 |} attempt.
Fixpoint flush_attempts (n : nat) (attempt : Z) (wk : Worker) (buf : list StreamEntry) : Prog Worker :=
  match n with
  | O => Ret wk
  | S n =>
      _ ← (if 0 <? attempt then call (CSleep (retry_delay attempt)) else Ret tt);
      '(wk, result) ← flush_attempt wk buf;
      match result with
      | arCommitted => Ret wk
      | arFailed => flush_attempts n (attempt + 1) wk buf
      | arBroken => flush_attempts n (attempt + 1) (wk <| wk_db := false |> <| wk_prepared := false |>) buf
      end
  end.
Definition Flush (wk : Worker) : Prog Worker :=
  match wk_buf wk with
  | [] => Ret wk
  | buf => wk ← flush_attempts (Z.to_nat (retry_max cfg + 1)) 0 wk buf; Ret (wk <| wk_buf := [] |>)
  end.
(** Entries into the buffer, flushed at the limits. *)
Fixpoint buffer_entries (wk : Worker) (entries : list StreamEntry) : Prog Worker :=
  match entries with
  | [] => Ret wk
  | e :: entries =>
      let wk := wk <| wk_buf_bytes ::= λ n, u64 (n + EstimateEntryBytes e) |> <| wk_buf ::= λ buf, buf ++ [e] |> in
      if (batch_max_events cfg <=? Z.of_nat (length (wk_buf wk))) || (batch_max_bytes cfg <=? wk_buf_bytes wk) then
        wk ← Flush wk;
        now ← call CNow;
        buffer_entries (wk <| wk_buf_bytes := 0 |> <| wk_last_flush := now |>) entries
      else buffer_entries wk entries
  end.
Definition ReclaimPending (min_idle_ms : Z) (wk : Worker) : Prog Worker :=
  answer ← call (CClaim (stream_key cfg) (wb_group cfg) (wb_consumer cfg) min_idle_ms (wk_reclaim_next_id wk) (reclaim_count cfg));
  match answer with
  | None => Ret wk
  | Some claimed =>
      let wk := if bool_decide (next_start_id claimed = EmptyString) then wk else wk <| wk_reclaim_next_id := next_start_id claimed |> in
      _ ← ack_all (deleted_ids claimed);
      buffer_entries wk (claimed_entries claimed)
  end.
Definition elapsed_ms (now since : Z) : Z := Z.quot (now - since) 1000000.
Definition reclaim_step (wk : Worker) : Prog Worker :=
  now ← call CNow;
  if reclaim_enabled cfg && (reclaim_interval_ms cfg <=? elapsed_ms now (wk_last_reclaim wk)) then
    let min_idle := if wk_initial_reclaim_done wk then reclaim_min_idle_ms cfg else 0 in
    wk ← ReclaimPending min_idle (wk <| wk_initial_reclaim_done := true |>);
    Ret (wk <| wk_last_reclaim := now |>)
  else Ret wk.
Definition reconnect_policy : RetryBackoffPolicy :=
  {| bo_mode := kExponentialFullJitter; base_delay_ms := Z.max 1 (db_reconnect_base_ms cfg);
     max_delay_ms := Z.max (Z.max 1 (db_reconnect_base_ms cfg)) (db_reconnect_max_ms cfg) |}.
(** Reading, buffering and the flush by time. *)
Definition read_step (wk : Worker) : Prog Worker :=
  answer ← call (CRead (stream_key cfg) (wb_group cfg) (wb_consumer cfg) (batch_max_events cfg));
  match answer with
  | None => _ ← call (CSleep 100); Ret wk
  | Some entries =>
      wk ← buffer_entries wk entries;
      now ← call CNow;
      wk ← (if bool_decide (wk_buf wk ≠ []) && (batch_delay_ms cfg <=? elapsed_ms now (wk_last_flush wk))
            then wk ← Flush wk; Ret (wk <| wk_buf_bytes := 0 |> <| wk_last_flush := now |>) else Ret wk);
      if 1000 <=? elapsed_ms now (wk_last_pending_log wk)
      then _ ← call (CPending (stream_key cfg) (wb_group cfg)); Ret (wk <| wk_last_pending_log := now |>)
      else Ret wk
  end.
(** One round of the main loop. *)
Definition worker_round (wk : Worker) : Prog Worker :=
  '(wk, connected) ← EnsureDbConnection wk;
  if negb connected then
    _ ← call (CSleepJitter (retry_backoff_upper_bound_ms reconnect_policy (wk_db_reconnect_attempt wk)));
    Ret (wk <| wk_db_reconnect_attempt ::= λ n, if n <? 2 ^ 32 - 1 then n + 1 else n |>)
  else wk ← reclaim_step (wk <| wk_db_reconnect_attempt := 0 |>); read_step wk.
(** [Run] connects once, then [Loop] reads the clock for each of its timers. *)
Definition worker_start : Prog Worker :=
  '(wk, _) ← EnsureDbConnection worker_new;
  flush ← call CNow; pending ← call CNow; reclaim ← call CNow;
  Ret (wk <| wk_last_flush := flush |> <| wk_last_pending_log := pending |> <| wk_last_reclaim := reclaim - reclaim_interval_ms cfg * 1000000 |>).
End Worker.

(** ** The replayer *)
Record ReplayerConfig := {
  rp_db_uri : string;
  rp_redis_uri : string;
  rp_dlq_stream : string;
  dead_stream : string;
  rp_group : string;
  rp_consumer : string;
  rp_retry_max : Z;
  rp_retry_backoff_ms : Z;
  batch_size : Z;
}.
Definition load_replayer_config (env : Env) : ReplayerConfig :=
  {| rp_db_uri := env_text env "DB_URI" EmptyString; rp_redis_uri := env_text env "REDIS_URI" EmptyString;
     rp_dlq_stream := env_text env "WB_DLQ_STREAM" "session_events_dlq"; dead_stream := env_text env "WB_DEAD_STREAM" "session_events_dead";
     rp_group := env_text env "WB_GROUP_DLQ" "wb_dlq_group"; rp_consumer := env_text env "WB_CONSUMER" "wb_dlq_consumer";
     rp_retry_max := env_number env "WB_RETRY_MAX" 5 1 999; rp_retry_backoff_ms := env_number env "WB_RETRY_BACKOFF_MS" 250 50 60000;
     batch_size := env_number env "WB_DLQ_BATCH" 50 1 1000 |}.

Section Replayer.
Context (cfg : ReplayerConfig).

Definition rp_ack (id : string) : Prog bool := call (CAck (rp_dlq_stream cfg) (rp_group cfg) id).
Definition without_retry (e : StreamEntry) : Fields := filter (λ kv, kv.1 ≠ "retry_count") (se_fields e).
Definition MoveToDeadStream (e : StreamEntry) (orig_id error : string) : Prog bool :=
  call (CAdd (dead_stream cfg) (("orig_event_id", orig_id) :: without_retry e ++ [("error", error)])).
Fixpoint backoff (retries : nat) (delay : Z) : Z :=
  match retries with O => delay | S n => backoff n (if delay <? 10000 then Z.min (delay * 2) 10000 else delay) end.
Definition retry_fields (e : StreamEntry) (orig_id : string) (retry_count : Z) (error : string) : Fields :=
  ("orig_event_id", orig_id) :: without_retry e ++ [("retry_count", to_string (retry_count + 1)); ("error", error)].
Definition RetryLater (e : StreamEntry) (orig_id : string) (retry_count : Z) (error : string) : Prog unit :=
  _ ← call (CSleep (backoff (Z.to_nat retry_count) (rp_retry_backoff_ms cfg)));
  added ← call (CAdd (rp_dlq_stream cfg) (retry_fields e orig_id retry_count error));
  if (added : bool) then _ ← rp_ack (se_id e); Ret tt else Ret tt.
Definition HandleFailure (e : StreamEntry) (orig_id : string) (retry_count : Z) (error : string) : Prog unit :=
  if rp_retry_max cfg <=? retry_count + 1 then
    moved ← MoveToDeadStream e orig_id error;
    if (moved : bool) then _ ← rp_ack (se_id e); Ret tt else Ret tt
  else RetryLater e orig_id retry_count error.
Definition orig_event_id (e : StreamEntry) : string := default (se_id e) (ToMap (se_fields e) !! "orig_event_id").
Definition retry_count_of (e : StreamEntry) : Z := default 0 (ToMap (se_fields e) !! "retry_count" ≫= stoi).
(** The transaction of [TryInsertToDb]; [connected] is whether there is a connection object. *)
Definition TryInsertToDb (connected : bool) (event_id : string) (mp : gmap string string) : Prog DbAnswer :=
  open ← (if connected then call CIsOpen else Ret false);
  if negb open then Ret (dbError "DB connection not open")
  else
    begin ← call CBegin;
    match begin with
    | dbOk =>
        answer ← call (CExec event_id (replayer_row mp));
        match answer with dbOk => call (CCommit [(event_id, replayer_row mp)]) | _ => Ret answer end
    | _ => Ret begin
    end.
(** [ProcessEntry]: whether the connection object is kept. *)
Definition rp_ProcessEntry (connected : bool) (e : StreamEntry) : Prog bool :=
  answer ← TryInsertToDb connected (orig_event_id e) (ToMap (se_fields e));
  match answer with
  | dbOk => _ ← rp_ack (se_id e); Ret connected
  | dbBroken => Ret false
  | dbError what => _ ← HandleFailure e (orig_event_id e) (retry_count_of e) what; Ret connected
  end.
Fixpoint process_entries (connected : bool) (entries : list StreamEntry) : Prog bool :=
  match entries with [] => Ret connected | e :: entries => connected ← rp_ProcessEntry connected e; process_entries connected entries end.
(** One round of the loop: the connection and whether the loop goes on. *)
Definition replayer_read (run_once connected : bool) : Prog (bool * bool) :=
  answer ← call (CRead (rp_dlq_stream cfg) (rp_group cfg) (rp_consumer cfg) (batch_size cfg));
  match answer with
  | None => if run_once then Ret (connected, false) else _ ← call (CSleep 100); Ret (connected, true)
  | Some entries =>
      if run_once && bool_decide (entries = []) then Ret (connected, false)
      else
        connected ← process_entries connected entries;
        Ret (connected, negb (run_once && (Z.of_nat (length entries) <? batch_size cfg)))
  end.
Definition replayer_round (run_once connected : bool) : Prog (bool * bool) :=
  open ← (if connected then call CIsOpen else Ret false);
  if (open : bool) then replayer_read run_once connected
  else
    answer ← call CConnect;
    match answer with
    | Some true => replayer_read run_once true
    | Some false => _ ← call (CSleep 1000); Ret (true, true)
    | None => _ ← call (CSleep 1000); Ret (connected, true)
    end.
End Replayer.
