(* ===== verification/WriteBehindRuns.v ===== *)
(** * Runs of the write-behind pipeline

    Any number of workers and replayers run their programs command by command,
    together with the servers that add events and trim the stream; a process may
    stop at any command and start again.  Redis Streams and the event table are
    interfaces with the behaviour the tools rely on: a command that reports failure
    may still have taken effect, a commit that reports an error may have been made.

    Shown: an acknowledged event is in the table, or in the dead-letter stream
    where it waits for the replayer, or in the dead stream, unless the stream was
    trimmed or writing its dead letter failed; and a row says what its event said. *)
From S2P Require Import Prelude Text Resilience GatewayConfig WriteBehind.
From stdpp Require Import list gmap strings pretty.
Open Scope Z_scope.
Open Scope record_scope.

(** ** Services *)
Class Streams (R : Type) := {
  xadd : R → string → Fields → R * bool;
  xack : R → string → string → string → R * bool;
  xreadgroup : R → string → string → string → Z → R * option (list StreamEntry);
  xautoclaim : R → string → string → string → Z → string → Z → R * option StreamAutoClaimResult;
  xpending : R → string → string → option Z;
}.
(** What was ever added to a stream, in order, what was trimmed from it, and what a
    group acknowledged. *)
Class StreamLaws (R : Type) `{!Streams R} := {
  added : R → string → list StreamEntry;
  trimmed : R → string → gset string;
  acked : R → string → string → gset string;
  added_ids r k : NoDup (se_id <$> added r k);
  acked_added r k g id : id ∈ acked r k g → id ∈ se_id <$> added r k;
  xadd_others r k f : let r' := (xadd r k f).1 in
    (∀ k', k' ≠ k → added r' k' = added r k') ∧ (∀ k', trimmed r' k' = trimmed r k') ∧ (∀ k' g, acked r' k' g = acked r k' g);
  xadd_adds r k f : let '(r', ok) := xadd r k f in
    (∃ id, added r' k = added r k ++ [mkEntry id f]) ∨ ok = false ∧ added r' k = added r k;
  xack_others r k g id : let r' := (xack r k g id).1 in
    (∀ k', added r' k' = added r k') ∧ (∀ k', trimmed r' k' = trimmed r k') ∧
    (∀ k' g', (k', g') ≠ (k, g) → acked r' k' g' = acked r k' g');
  xack_acks r k g id : let '(r', ok) := xack r k g id in
    acked r k g ⊆ acked r' k g ⊆ {[id]} ∪ acked r k g;
  xreadgroup_reads r k g c n : let '(r', out) := xreadgroup r k g c n in
    (∀ k', added r' k' = added r k' ∧ trimmed r' k' = trimmed r k' ∧ ∀ g', acked r' k' g' = acked r k' g') ∧
    ∀ l, out = Some l → l ⊆ added r k;
  xautoclaim_claims r k g c idle start n : let '(r', out) := xautoclaim r k g c idle start n in
    (∀ k', added r' k' = added r k' ∧ trimmed r' k' = trimmed r k' ∧ ∀ g', acked r' k' g' = acked r k' g') ∧
    ∀ res, out = Some res → claimed_entries res ⊆ added r k ∧ ∀ id, id ∈ deleted_ids res → id ∈ trimmed r k;
}.
Class EventTable (D : Type) := {
  db_connect : D → D * option bool;
  db_is_open : D → D * bool;
  db_prepare : D → D * DbAnswer;
  db_begin : D → D * DbAnswer;
  db_exec : D → string → EventRow → D * DbAnswer;
  db_commit : D → list (string * EventRow) → D * DbAnswer;
}.
Class EventTableLaws (D : Type) `{!EventTable D} := {
  event_rows : D → gmap string EventRow;
  connect_rows d : event_rows (db_connect d).1 = event_rows d;
  is_open_rows d : event_rows (db_is_open d).1 = event_rows d;
  prepare_rows d : event_rows (db_prepare d).1 = event_rows d;
  begin_rows d : event_rows (db_begin d).1 = event_rows d;
  exec_rows d id row : event_rows (db_exec d id row).1 = event_rows d;
  commit_rows d new : let '(d', answer) := db_commit d new in
    event_rows d' = foldl insert_event (event_rows d) new ∨ answer ≠ dbOk ∧ event_rows d' = event_rows d;
}.

(** ** Fields *)
Lemma first_field_app l l' k : first_field (l ++ l') k = match first_field l k with Some v => Some v | None => first_field l' k end.
Proof. induction l as [|[k' v] l IH]; cbn; [done|]. by case_bool_decide. Qed.
Lemma first_field_in l k v : first_field l k = Some v → k ∈ l.*1.
Proof. induction l as [|[k' v'] l IH]; cbn; [done|]. case_bool_decide; subst; [intros; left|intros; right; auto]. Qed.
Lemma first_field_none l k : k ∉ l.*1 → first_field l k = None.
Proof. intros Hk. destruct (first_field l k) eqn:E; [|done]. by apply first_field_in in E. Qed.
Lemma first_field_filter (P : string * string → Prop) `{∀ kv, Decision (P kv)} l k : (∀ v, P (k, v)) → first_field (filter P l) k = first_field l k.
Proof.
  intros Hp. induction l as [|[k' v] l IH]; [done|]. rewrite filter_cons. cbn [first_field]. destruct (decide (P (k', v))) as [Hk'|Hk']; cbn [first_field].
  - by rewrite IH.
  - rewrite bool_decide_eq_false_2; [done|]. intros ->. by destruct Hk'.
Qed.
Lemma to_map_first l k : ToMap l !! k = first_field l k.
Proof.
  unfold ToMap. assert (H : ∀ m : gmap string string, foldl (λ (m : gmap string string) (f : string * string), match m !! f.1 with Some _ => m | None => <[f.1 := f.2]> m end) m l !! k =
    match m !! k with Some v => Some v | None => first_field l k end).
  { induction l as [|[k' v] l IH]; intros m; cbn; [by destruct (m !! k)|]. rewrite IH. case_bool_decide as E.
    - subst k'. destruct (m !! k) eqn:Hm; [by rewrite Hm|]. by rewrite lookup_insert_eq.
    - destruct (m !! k'); [done|]. by rewrite lookup_insert_ne. }
  rewrite H. by rewrite lookup_empty.
Qed.
Lemma last_field_nodup l k : NoDup l.*1 → last_field l k = first_field l k.
Proof.
  unfold last_field. assert (H : ∀ acc, NoDup l.*1 → foldl (λ (acc : option string) (f : string * string), if bool_decide (f.1 = k) then Some f.2 else acc) acc l =
    match first_field l k with Some v => Some v | None => acc end).
  { induction l as [|[k' v] l IH]; intros acc; [done|]. cbn. rewrite NoDup_cons. intros [Hk Hn]. rewrite IH by done.
    case_bool_decide; subst; [|done]. by rewrite (first_field_none l k). }
  intros Hn. rewrite H by done. by destruct (first_field l k).
Qed.
Lemma payload_lookup l k : NoDup l.*1 → foldl (λ (j : gmap string string) (f : string * string), <[f.1 := f.2]> j) ∅ l !! k = first_field l k.
Proof.
  assert (H : ∀ j : gmap string string, NoDup l.*1 → foldl (λ (j : gmap string string) (f : string * string), <[f.1 := f.2]> j) j l !! k = match first_field l k with Some v => Some v | None => j !! k end).
  { induction l as [|[k' v] l IH]; intros j; [done|]. cbn. rewrite NoDup_cons. intros [Hk Hn]. rewrite IH by done.
    case_bool_decide; subst; [rewrite (first_field_none l k) by done; by rewrite lookup_insert_eq|].
    destruct (first_field l k); [done|]. by rewrite lookup_insert_ne. }
  intros Hn. rewrite H by done. rewrite lookup_empty. by destruct (first_field l k).
Qed.
(** A row that says what the event said, when the event has no field twice and none
    of the replayer's own. *)
Definition clean (e : StreamEntry) : Prop := NoDup (se_fields e).*1 ∧ ∀ k, k ∈ meta → k ∉ (se_fields e).*1.
Definition describes (row : EventRow) (e : StreamEntry) : Prop := clean e →
  (∀ k, ev_payload row !! k = first_field (se_fields e) k) ∧
  ev_type row = default "unknown" (first_field (se_fields e) "type") ∧
  ev_ts_ms row = default 0 (stoll (default "0" (first_field (se_fields e) "ts_ms"))).
Lemma worker_row_describes e : describes (worker_row e) e.
Proof. intros [Hn _]. unfold worker_row. cbn. rewrite !last_field_nodup by done. split_and!; [|done..]. intros k. by apply payload_lookup. Qed.
(** Fields of a dead letter of the event. *)
Definition letter_of (f : Fields) (e : StreamEntry) : Prop :=
  first_field f "orig_event_id" = Some (se_id e) ∧ (clean e → ∀ k, k ∉ meta → first_field f k = first_field (se_fields e) k).
Lemma letter_described f e : letter_of f e → describes (replayer_row (ToMap f)) e.
Proof.
  intros [_ Hf] Hc. specialize (Hf Hc). destruct Hc as [_ Hc]. unfold replayer_row. cbn. rewrite !to_map_first.
  rewrite !Hf by (unfold meta; set_solver). split_and!; [|done..]. intros k. destruct (decide (k ∈ meta)) as [Hk|Hk].
  - rewrite (first_field_none _ k) by (by apply Hc). apply map_lookup_filter_None. right. intros v _. cbn. by intros [].
  - rewrite <- (Hf k Hk), <- to_map_first. destruct (ToMap f !! k) as [v|] eqn:E.
    + by apply map_lookup_filter_Some.
    + apply map_lookup_filter_None. by left.
Qed.
Lemma dlq_letter e error : letter_of (dlq_fields e error) e.
Proof.
  unfold letter_of, dlq_fields. cbn. split; [done|]. intros _ k Hk. unfold meta in Hk. rewrite bool_decide_eq_false_2 by set_solver.
  rewrite first_field_app. cbn. rewrite bool_decide_eq_false_2 by set_solver. by destruct (first_field (se_fields e) k).
Qed.
Lemma relettered d e l : letter_of (se_fields d) e → (∀ kv, kv ∈ l → kv.1 ∈ meta) →
  letter_of (("orig_event_id", orig_event_id d) :: without_retry d ++ l) e.
Proof.
  intros [Ho Hf] Hl. unfold letter_of, orig_event_id. rewrite to_map_first, Ho. cbn. split; [done|]. intros Hc k Hk.
  rewrite bool_decide_eq_false_2 by (unfold meta in Hk; set_solver). rewrite first_field_app.
  assert (Hw : first_field (without_retry d) k = first_field (se_fields d) k).
  { apply first_field_filter. intros v. cbn. unfold meta in Hk. set_solver. }
  rewrite Hw, (Hf Hc k Hk).
  destruct (first_field (se_fields e) k); [done|]. apply first_field_none. intros Hin. apply list_elem_of_fmap in Hin as (kv & -> & Hin). by apply Hk, Hl.
Qed.

(** ** The system *)
Section Pipeline.
Context {R : Type} `{!Streams R} {D : Type} `{!EventTable D}.
(** [sys_refused]: entries whose [XADD] reported failure; [sys_failed]: events whose
    insert was refused. *)
Record Sys := mkSys { sys_redis : R; sys_db : D; sys_refused : list (string * Fields); sys_failed : list string; sys_clock : Z }.
Definition perform {X : Set} (w : Sys) (c : Cmd X) : Sys * X :=
  let on_redis {Y : Set} (a : R * Y) : Sys * Y := (mkSys a.1 (sys_db w) (sys_refused w) (sys_failed w) (sys_clock w), a.2) in
  let on_db {Y : Set} (a : D * Y) : Sys * Y := (mkSys (sys_redis w) a.1 (sys_refused w) (sys_failed w) (sys_clock w), a.2) in
  match c in Cmd X return Sys * X with
  | CAdd key fields =>
      let '(r, ok) := xadd (sys_redis w) key fields in
      (mkSys r (sys_db w) (if ok then sys_refused w else sys_refused w ++ [(key, fields)]) (sys_failed w) (sys_clock w), ok)
  | CAck key group id => on_redis (xack (sys_redis w) key group id)
  | CRead key group consumer count => on_redis (xreadgroup (sys_redis w) key group consumer count)
  | CClaim key group consumer min_idle start count => on_redis (xautoclaim (sys_redis w) key group consumer min_idle start count)
  | CPending key group => (w, xpending (sys_redis w) key group)
  | CConnect => on_db (db_connect (sys_db w))
  | CIsOpen => on_db (db_is_open (sys_db w))
  | CPrepare => on_db (db_prepare (sys_db w))
  | CBegin => on_db (db_begin (sys_db w))
  | CExec id row =>
      let '(d, answer) := db_exec (sys_db w) id row in
      (mkSys (sys_redis w) d (sys_refused w) (match answer with dbError _ => sys_failed w ++ [id] | _ => sys_failed w end) (sys_clock w), answer)
  | CCommit rows => on_db (db_commit (sys_db w) rows)
  | CNow => (w, sys_clock w)
  | CSleep _ => (w, tt)
  | CSleepJitter _ => (w, tt)
  end.
Inductive Process :=
  | WorkerProcess (cfg : WorkerConfig) (p : Prog Worker)
  | ReplayerProcess (cfg : ReplayerConfig) (run_once : bool) (p : Prog (bool * bool))
  | Ended.
(** The next command; a finished round is followed by the next one. *)
Definition process_step (w : Sys) (p : Process) : Sys * Process :=
  match p with
  | WorkerProcess cfg (Ret wk) => (w, WorkerProcess cfg (worker_round cfg wk))
  | WorkerProcess cfg (Do c k) => let '(w, x) := perform w c in (w, WorkerProcess cfg (k x))
  | ReplayerProcess cfg once (Ret (connected, true)) => (w, ReplayerProcess cfg once (replayer_round cfg once connected))
  | ReplayerProcess cfg once (Ret (_, false)) => (w, Ended)
  | ReplayerProcess cfg once (Do c k) => let '(w, x) := perform w c in (w, ReplayerProcess cfg once (k x))
  | Ended => (w, Ended)
  end.
Definition restart (p : Process) : Process :=
  match p with
  | WorkerProcess cfg _ => WorkerProcess cfg (worker_start cfg)
  | ReplayerProcess cfg once _ => ReplayerProcess cfg once (Ret (false, true))
  | Ended => Ended
  end.
Inductive Event :=
  | evStep (i : nat)
  | evRestart (i : nat)
  | evStartWorker (cfg : WorkerConfig)
  | evStartReplayer (cfg : ReplayerConfig) (run_once : bool)
  | evClock (now : Z)
  | evServers (r : R).
Definition sys_exec (st : Sys * list Process) (e : Event) : Sys * list Process :=
  let '(w, ps) := st in
  match e with
  | evStep i => match ps !! i with Some p => let '(w, p) := process_step w p in (w, <[i := p]> ps) | None => st end
  | evRestart i => (w, alter restart i ps)
  | evStartWorker cfg => (w, ps ++ [WorkerProcess cfg (worker_start cfg)])
  | evStartReplayer cfg once => (w, ps ++ [ReplayerProcess cfg once (Ret (false, true))])
  | evClock now => (mkSys (sys_redis w) (sys_db w) (sys_refused w) (sys_failed w) now, ps)
  | evServers r => (mkSys r (sys_db w) (sys_refused w) (sys_failed w) (sys_clock w), ps)
  end.

Context `{!StreamLaws R} `{!EventTableLaws D}.
Context (main group dlq dgroup dead : string) (drops : bool).
Context (Hdlq : main ≠ dlq) (Hdead : main ≠ dead) (Hdd : dlq ≠ dead) (Hnamed : dlq ≠ EmptyString).

(** The tools are set up for the same streams.  [drops] says whether workers may be
    told to acknowledge events whose insert fails without writing a dead letter
    ([WB_DLQ_ON_ERROR=0] with [WB_ACK_ON_ERROR=1]). *)
Definition worker_ok (cfg : WorkerConfig) : Prop :=
  stream_key cfg = main ∧ wb_group cfg = group ∧ dlq_stream cfg = dlq ∧ (dlq_on_error cfg = true ∨ ack_on_error cfg = false ∨ drops = true).
Definition replayer_ok (cfg : ReplayerConfig) : Prop := rp_dlq_stream cfg = dlq ∧ dead_stream cfg = dead ∧ rp_group cfg = dgroup.
(** The servers add to and trim the event stream only. *)
Definition servers_act (r r' : R) : Prop :=
  added r main `prefix_of` added r' main ∧ trimmed r main ⊆ trimmed r' main ∧ acked r' main group = acked r main group ∧
  added r' dlq = added r dlq ∧ acked r' dlq dgroup = acked r dlq dgroup ∧ added r' dead = added r dead.
Definition event_ok (st : Sys * list Process) (e : Event) : Prop :=
  match e with
  | evStartWorker cfg => worker_ok cfg
  | evStartReplayer cfg _ => replayer_ok cfg
  | evServers r => servers_act (sys_redis st.1) r
  | _ => True
  end.
Fixpoint sys_run (st : Sys * list Process) (events : list Event) (st' : Sys * list Process) : Prop :=
  match events with
  | [] => st' = st
  | e :: events => event_ok st e ∧ sys_run (sys_exec st e) events st'
  end.
Definition rows_of (w : Sys) : gmap string EventRow := event_rows (sys_db w).
Definition entries (w : Sys) (key : string) : list StreamEntry := added (sys_redis w) key.
Definition holds_letter (l : list StreamEntry) (id : string) : Prop := ∃ d, d ∈ l ∧ orig_event_id d = id.
Definition refused_letter (w : Sys) (id : string) : Prop :=
  ∃ f, (dlq, f) ∈ sys_refused w ∧ first_field f "orig_event_id" = Some id.
(** ** What only grows *)
Record grows (w w' : Sys) : Prop := {
  gr_main : entries w main `prefix_of` entries w' main;
  gr_dlq : entries w dlq `prefix_of` entries w' dlq;
  gr_dead : entries w dead `prefix_of` entries w' dead;
  gr_rows : rows_of w ⊆ rows_of w';
  gr_trimmed : trimmed (sys_redis w) main ⊆ trimmed (sys_redis w') main;
  gr_refused : sys_refused w ⊆ sys_refused w';
  gr_failed : sys_failed w ⊆ sys_failed w';
}.
#[local] Instance grows_preorder : PreOrder grows.
Proof. split; [intros w; by constructor|]. intros x y z [] []. constructor; by etrans. Qed.
Lemma prefix_elem {A} (l l' : list A) x : l `prefix_of` l' → x ∈ l → x ∈ l'.
Proof. intros [k ->] Hx. apply elem_of_app. by left. Qed.
Definition justified (w : Sys) (id : string) : Prop :=
  is_Some (rows_of w !! id) ∨ id ∈ trimmed (sys_redis w) main ∨ holds_letter (entries w dlq) id ∨ refused_letter w id ∨
  (drops = true ∧ id ∈ sys_failed w).
(** Another record of the event replaces the dead letter at position [i]. *)
Definition superseded (w : Sys) (i : nat) (id : string) : Prop :=
  is_Some (rows_of w !! id) ∨ holds_letter (entries w dead) id ∨
  ∃ j d, (i < j)%nat ∧ entries w dlq !! j = Some d ∧ orig_event_id d = id.
Definition letter (w : Sys) (f : Fields) : Prop := ∃ e, e ∈ entries w main ∧ letter_of f e.
Definition row_ok (w : Sys) (r : string * EventRow) : Prop := ∃ e, e ∈ entries w main ∧ se_id e = r.1 ∧ describes r.2 e.
Lemma justified_grows w w' id : grows w w' → justified w id → justified w' id.
Proof.
  intros [] [[row Hr]|[Ht|[(d & Hd & Ho)|[(f & Hf & Ho)|[Hdr Hf]]]]].
  - left. exists row. by eapply lookup_weaken.
  - right. left. set_solver.
  - right. right. left. exists d. split; [by eapply prefix_elem|done].
  - do 3 right. left. exists f. split; [set_solver|done].
  - do 4 right. split; [done|set_solver].
Qed.
Lemma superseded_grows w w' i id : grows w w' → superseded w i id → superseded w' i id.
Proof.
  intros [] [[row Hr]|[(d & Hd & Ho)|(j & d & Hj & Hd & Ho)]].
  - left. exists row. by eapply lookup_weaken.
  - right. left. exists d. split; [by eapply prefix_elem|done].
  - right. right. exists j, d. split_and!; [done| |done]. by eapply prefix_lookup_Some.
Qed.
Lemma letter_grows w w' f : grows w w' → letter w f → letter w' f.
Proof. intros [] (e & He & Hl). exists e. split; [by eapply prefix_elem|done]. Qed.
Lemma row_grows w w' r : grows w w' → row_ok w r → row_ok w' r.
Proof. intros [] (e & He & Hl). exists e. split; [by eapply prefix_elem|done]. Qed.

(** ** The invariant and what keeps it *)
Record PInv (w : Sys) : Prop := {
  pi_acked e : e ∈ entries w main → se_id e ∈ acked (sys_redis w) main group → justified w (se_id e);
  pi_replayed i d : entries w dlq !! i = Some d → se_id d ∈ acked (sys_redis w) dlq dgroup → superseded w i (orig_event_id d);
  pi_letters d : d ∈ entries w dlq → letter w (se_fields d);
  pi_rows id row : rows_of w !! id = Some row → row_ok w (id, row);
}.
Definition permitted {X : Set} (w : Sys) (c : Cmd X) : Prop :=
  match c with
  | CAdd key f => key ≠ main ∧ (key = dlq → letter w f)
  | CAck key g id =>
      (key = main → g = group → ∀ e, e ∈ entries w main → se_id e = id → justified w id) ∧
      (key = dlq → g = dgroup → ∀ i d, entries w dlq !! i = Some d → se_id d = id → superseded w i (orig_event_id d))
  | CCommit rows => Forall (row_ok w) rows
  | _ => True
  end.
Lemma insert_events_grow rows new : rows ⊆ foldl insert_event rows new.
Proof.
  revert rows. induction new as [|[id row] new IH]; intros rows; [done|]. cbn. etrans; [|apply IH]. unfold insert_event. cbn.
  destruct (rows !! id) eqn:E; [done|]. by apply insert_subseteq.
Qed.
Lemma insert_events_in rows new id row : foldl insert_event rows new !! id = Some row → rows !! id = Some row ∨ (id, row) ∈ new.
Proof.
  revert rows. induction new as [|[id' row'] new IH]; intros rows; [by left|]. cbn. intros [Hr|Hr]%IH; [|right; by right].
  unfold insert_event in Hr. cbn in Hr. destruct (rows !! id') eqn:E; [by left|]. apply lookup_insert_Some in Hr as [[-> ->]|[_ ?]]; [right; left|by left].
Qed.
Lemma insert_events_has rows new id : id ∈ new.*1 → is_Some (foldl insert_event rows new !! id).
Proof.
  revert rows. induction new as [|[id' row'] new IH]; intros rows; cbn; [by rewrite elem_of_nil|]. rewrite elem_of_cons. intros [->|Hin]; [|by apply IH].
  assert (is_Some (insert_event rows (id', row') !! id')) as [r Hr].
  { unfold insert_event. cbn. destruct (rows !! id') eqn:E; [eauto|]. rewrite lookup_insert_eq. eauto. }
  exists r. by eapply lookup_weaken, insert_events_grow.
Qed.
Lemma old_position (l l' : list StreamEntry) i d : l `prefix_of` l' → NoDup (se_id <$> l') → l' !! i = Some d → se_id d ∈ se_id <$> l →
  l !! i = Some d.
Proof.
  intros [k ->] Hn Hd Hin. apply list_elem_of_fmap in Hin as (d' & Hid & [j Hj]%list_elem_of_lookup).
  assert (i = j) as ->.
  { eapply (NoDup_lookup _ i j (se_id d)); [exact Hn|by rewrite list_lookup_fmap, Hd|]. rewrite list_lookup_fmap, lookup_app, Hj. cbn. by rewrite Hid. }
  rewrite lookup_app, Hj in Hd. by rewrite Hj.
Qed.
Lemma inv_step w w' : PInv w → grows w w' →
  (∀ id, id ∈ acked (sys_redis w') main group → id ∈ acked (sys_redis w) main group ∨ ∀ e, e ∈ entries w' main → se_id e = id → justified w' id) →
  (∀ i d, entries w' dlq !! i = Some d → se_id d ∈ acked (sys_redis w') dlq dgroup →
     se_id d ∈ acked (sys_redis w) dlq dgroup ∨ superseded w' i (orig_event_id d)) →
  (∀ d, d ∈ entries w' dlq → d ∈ entries w dlq ∨ letter w' (se_fields d)) →
  (∀ id row, rows_of w' !! id = Some row → rows_of w !! id = Some row ∨ row_ok w' (id, row)) → PInv w'.
Proof.
  intros I G Ha Hr Hl Ho. constructor.
  - intros e He Hin. destruct (Ha _ Hin) as [Hold|Hj]; [|by eapply Hj]. eapply justified_grows; [done|]. apply (pi_acked _ I); [|done].
    apply list_elem_of_lookup in He as [i He]. apply list_elem_of_lookup. exists i.
    eapply old_position; [apply (gr_main _ _ G)|apply added_ids|done|by eapply acked_added].
  - intros i d Hd Hin. destruct (Hr _ _ Hd Hin) as [Hold|?]; [|done]. eapply superseded_grows; [done|]. apply (pi_replayed _ I); [|done].
    eapply old_position; [apply (gr_dlq _ _ G)|apply added_ids|done|by eapply acked_added].
  - intros d [Hd|?]%Hl; [|done]. eapply letter_grows; [done|]. by apply (pi_letters _ I).
  - intros id row [Hd|?]%Ho; [|done]. eapply row_grows; [done|]. by apply (pi_rows _ I).
Qed.
(** Nothing of interest changed. *)
Definition quiet (w w' : Sys) : Prop :=
  (∀ k, entries w' k = entries w k) ∧ (∀ k, trimmed (sys_redis w') k = trimmed (sys_redis w) k) ∧
  (∀ k g, acked (sys_redis w') k g = acked (sys_redis w) k g) ∧ rows_of w' = rows_of w ∧ sys_refused w' = sys_refused w ∧
  sys_failed w ⊆ sys_failed w'.
Lemma quiet_grows w w' : quiet w w' → grows w w'.
Proof. intros (He & Ht & _ & Hr & Hf & Hx). constructor; rewrite ?He, ?Ht, ?Hr, ?Hf; done. Qed.
Lemma quiet_inv w w' : quiet w w' → PInv w → PInv w'.
Proof.
  intros Hq I. apply (inv_step w); [done|by apply quiet_grows|..]; destruct Hq as (He & Ht & Ha & Hr & Hf).
  - intros id. rewrite Ha. by left.
  - intros i d _. rewrite Ha. by left.
  - intros d. rewrite He. by left.
  - intros id row. rewrite Hr. by left.
Qed.
(** Commands other than adding, acknowledging and committing. *)
Definition writes {X : Set} (c : Cmd X) : bool := match c with CAdd _ _ | CAck _ _ _ | CCommit _ => true | _ => false end.
Lemma perform_quiet {X : Set} w (c : Cmd X) : writes c = false → quiet w (perform w c).1.
Proof.
  destruct c; cbn; intros Hw; try done; unfold quiet, entries, rows_of; cbn.
  - pose proof (xreadgroup_reads (sys_redis w) key group0 consumer count) as H. destruct (xreadgroup _ _ _ _ _) as [r' out]. cbn. naive_solver.
  - pose proof (xautoclaim_claims (sys_redis w) key group0 consumer min_idle start count) as H. destruct (xautoclaim _ _ _ _ _ _ _) as [r' out]. cbn. naive_solver.
  - by rewrite connect_rows.
  - by rewrite is_open_rows.
  - by rewrite prepare_rows.
  - by rewrite begin_rows.
  - pose proof (exec_rows (sys_db w) id row) as H. destruct (db_exec _ _ _) as [d []]; cbn in *; rewrite ?H; (split_and!; [done..|set_solver]).
Qed.
Lemma add_grows w key f : grows w (perform w (CAdd key f)).1.
Proof.
  cbn. pose proof (xadd_others (sys_redis w) key f) as (Ho & Ht & _). pose proof (xadd_adds (sys_redis w) key f) as Ha.
  destruct (xadd _ _ _) as [r' ok]. cbn in *.
  assert (Hp : ∀ k, added (sys_redis w) k `prefix_of` added r' k).
  { intros k. destruct (decide (k = key)) as [->|Hne]; [|by rewrite Ho]. destruct Ha as [[id ->]|[_ ->]]; [|done]. by apply prefix_app_r. }
  constructor; unfold entries, rows_of; cbn; rewrite ?Ht; try done. destruct ok; [done|]. set_solver.
Qed.
Lemma ack_grows w key g id : grows w (perform w (CAck key g id)).1.
Proof.
  cbn. pose proof (xack_others (sys_redis w) key g id) as (Ho & Ht & _). cbv zeta in Ho. constructor; unfold entries, rows_of; cbn; rewrite ?Ho, ?Ht; done.
Qed.
Lemma commit_grows w new : grows w (perform w (CCommit new)).1.
Proof.
  cbn. pose proof (commit_rows (sys_db w) new) as H. destruct (db_commit (sys_db w) new) as [d' a]. cbn.
  constructor; unfold entries, rows_of; cbn; try done. destruct H as [->|[_ ->]]; [|done]. apply insert_events_grow.
Qed.
Lemma perform_grows {X : Set} w (c : Cmd X) : grows w (perform w c).1.
Proof.
  destruct (writes c) eqn:E; [|by apply quiet_grows, perform_quiet].
  destruct c; try done; [apply add_grows|apply ack_grows|apply commit_grows].
Qed.
Lemma add_inv w key f : PInv w → permitted w (CAdd key f) → PInv (perform w (CAdd key f)).1.
Proof.
  intros I [Hk Hl]. pose proof (add_grows w key f) as G. apply (inv_step w _ I G); cbn in *.
  all: pose proof (xadd_others (sys_redis w) key f) as (Ho & Ht & Ha); pose proof (xadd_adds (sys_redis w) key f) as Hd.
  all: destruct (xadd _ _ _) as [r' ok]; unfold entries, rows_of in *; cbn in *.
  - intros id. rewrite Ha. by left.
  - intros i d _. rewrite Ha. by left.
  - intros d Hin. destruct (decide (dlq = key)) as [<-|Hne]; [|rewrite Ho in Hin by done; by left].
    destruct Hd as [[id E]|[_ E]]; rewrite E in Hin; [|by left]. apply elem_of_app in Hin as [?|Hin]; [by left|]. apply list_elem_of_singleton in Hin as ->.
    right. eapply letter_grows; [exact G|]. by apply Hl.
  - intros id row. by left.
Qed.
Lemma ack_inv w key g id : PInv w → permitted w (CAck key g id) → PInv (perform w (CAck key g id)).1.
Proof.
  intros I [Hm Hd]. pose proof (ack_grows w key g id) as G. apply (inv_step w _ I G); cbn in *.
  all: pose proof (xack_others (sys_redis w) key g id) as (Ho & Ht & Ha); pose proof (xack_acks (sys_redis w) key g id) as Hs.
  all: destruct (xack _ _ _ _) as [r' ok]; unfold entries, rows_of in *; cbn in *.
  - intros i Hin. destruct (decide ((main, group) = (key, g))) as [[= <- <-]|Hne]; [|rewrite Ha in Hin by done; by left].
    destruct Hs as [_ Hs]. apply Hs, elem_of_union in Hin as [->%elem_of_singleton|?]; [|by left]. right. intros e He Hid. rewrite Ho in He.
    eapply justified_grows; [exact G|]. by eapply Hm.
  - intros i d Hl Hin. destruct (decide ((dlq, dgroup) = (key, g))) as [[= <- <-]|Hne]; [|rewrite Ha in Hin by done; by left].
    destruct Hs as [_ Hs]. apply Hs, elem_of_union in Hin as [Heq%elem_of_singleton|?]; [|by left]. right. rewrite Ho in Hl.
    eapply superseded_grows; [exact G|]. by eapply Hd.
  - intros d Hin. rewrite Ho in Hin. by left.
  - intros i row. by left.
Qed.
Lemma commit_inv w new : PInv w → permitted w (CCommit new) → PInv (perform w (CCommit new)).1.
Proof.
  intros I Hp. pose proof (commit_grows w new) as G. apply (inv_step w _ I G); cbn in *.
  1-3: by left.
  intros id row Hr. pose proof (commit_rows (sys_db w) new) as Hc. unfold rows_of in *. cbn in Hr. destruct (db_commit (sys_db w) new) as [d' a].
  cbn in Hr. destruct Hc as [Hc|[_ Hc]]; rewrite Hc in Hr; [|by left]. apply insert_events_in in Hr as [?|Hin]; [by left|].
  right. eapply row_grows; [exact G|]. rewrite Forall_forall in Hp. by apply Hp.
Qed.
Lemma perform_inv {X : Set} w (c : Cmd X) : PInv w → permitted w c → PInv (perform w c).1.
Proof.
  intros I Hp. destruct (writes c) eqn:E; [|by eapply quiet_inv; [apply perform_quiet|]].
  destruct c; try done; [by apply add_inv|by apply ack_inv|by apply commit_inv].
Qed.

(** ** Programs that keep it, whatever runs between their commands *)
Fixpoint safe {A} (p : Prog A) (Q : A → Sys → Prop) (w : Sys) : Prop :=
  match p with
  | Ret x => Q x w
  | Do c k => ∀ w1, grows w w1 → PInv w1 → permitted w1 c ∧ safe (k (perform w1 c).2) Q (perform w1 c).1
  end.
Definition stable {A} (Q : A → Sys → Prop) : Prop := ∀ x w w', grows w w' → Q x w → Q x w'.
Lemma safe_grows {A} (p : Prog A) Q w w' : stable Q → grows w w' → safe p Q w → safe p Q w'.
Proof. intros Hq G. destruct p as [x|X c k]; cbn; [by apply Hq|]. intros Hs w1 G1. apply Hs. by etrans. Qed.
Lemma safe_bind {A B} (p : Prog A) (f : A → Prog B) Q w : safe p (λ x, safe (f x) Q) w → safe (p ≫= f) Q w.
Proof.
  revert w. induction p as [x|X c k IH]; intros w; [done|]. cbn. intros Hs w1 G I. destruct (Hs w1 G I) as [Hp Hk]. split; [done|]. by apply IH.
Qed.
Lemma safe_weaken {A} (p : Prog A) (Q Q' : A → Sys → Prop) w : (∀ x w', grows w w' → Q x w' → Q' x w') → safe p Q w → safe p Q' w.
Proof.
  revert w. induction p as [x|X c k IH]; intros w Hq; cbn; [by apply Hq|]. intros Hs w1 G I. destruct (Hs w1 G I) as [Hp Hk]. split; [done|].
  apply IH; [|done]. intros x w' G'. apply Hq. etrans; [exact G|]. etrans; [apply (perform_grows w1 c)|done].
Qed.
Lemma safe_do {A} {X : Set} (c : Cmd X) (k : X → Prog A) Q w :
  (∀ w1, grows w w1 → PInv w1 → permitted w1 c ∧ safe (k (perform w1 c).2) Q (perform w1 c).1) → safe (call c ≫= k) Q w.
Proof. done. Qed.
(** A command that writes nothing: go on in any later state. *)
Lemma safe_ask {A} {X : Set} (c : Cmd X) (k : X → Prog A) Q w : writes c = false → (∀ x w', grows w w' → safe (k x) Q w') → safe (call c ≫= k) Q w.
Proof.
  intros Hc Hk w1 G I. split; [by destruct c|]. apply Hk. etrans; [exact G|]. apply (perform_grows w1 c).
Qed.
(** *** The worker *)
Definition all_in (l : list StreamEntry) (w : Sys) : Prop := l ⊆ entries w main.
Lemma all_in_grows l w w' : grows w w' → all_in l w → all_in l w'.
Proof. intros G Hl e He. eapply prefix_elem; [apply (gr_main _ _ G)|]. by apply Hl. Qed.
Lemma rows_grow w w' id : grows w w' → is_Some (rows_of w !! id) → is_Some (rows_of w' !! id).
Proof. intros G [row Hr]. exists row. eapply lookup_weaken; [done|apply (gr_rows _ _ G)]. Qed.
Lemma prepared_safe wk w Q : (∀ b p w', grows w w' → Q (wk <| wk_prepared := p |>, b) w') → safe (EnsureDbPrepared wk) Q w.
Proof.
  intros Hq. assert (Hw : ∀ b w', grows w w' → Q (wk, b) w').
  { intros b w' G. specialize (Hq b (wk_prepared wk) w' G). by destruct wk. }
  unfold EnsureDbPrepared. destruct (negb (wk_db wk)); [by apply Hw|]. apply safe_ask; [done|]. intros open w1 G1.
  destruct (negb open); [by apply Hw|]. destruct (wk_prepared wk); [by apply Hw|]. apply safe_ask; [done|]. intros a w2 G2.
  assert (grows w w2) by (by etrans). destruct a; by apply Hq.
Qed.
Lemma connection_safe wk w Q : (∀ b d p w', grows w w' → Q (wk <| wk_db := d |> <| wk_prepared := p |>, b) w') →
  safe (EnsureDbConnection wk) Q w.
Proof.
  intros Hq. assert (Hopen : ∀ (k : bool → Prog (Worker * bool)) w', (∀ b w'', grows w' w'' → safe (k b) Q w'') →
    safe ((if wk_db wk then call CIsOpen else Ret false) ≫= k) Q w').
  { intros k w' Hk. destruct (wk_db wk); [by apply safe_ask|]. by apply Hk. }
  unfold EnsureDbConnection. apply Hopen. intros [] w1 G1.
  - apply prepared_safe. intros b p w2 G2. specialize (Hq b (wk_db wk) p w2 ltac:(by etrans)). by destruct wk.
  - apply safe_ask; [done|]. intros [[]|] w2 G2.
    + apply prepared_safe. intros b p w3 G3. specialize (Hq b true p w3 ltac:(etrans; [|exact G3]; by etrans)). by destruct wk.
    + specialize (Hq false true false w2 ltac:(by etrans)). by destruct wk.
    + specialize (Hq false (wk_db wk) false w2 ltac:(by etrans)). by destruct wk.
Qed.
Lemma add_justifies w f id : first_field f "orig_event_id" = Some id → justified (perform w (CAdd dlq f)).1 id.
Proof.
  intros Hf. cbn. pose proof (xadd_adds (sys_redis w) dlq f) as Ha. destruct (xadd _ _ _) as [r' ok]. unfold justified, refused_letter, entries. cbn.
  destruct Ha as [[i Ha]|[-> _]].
  - right. right. left. exists (mkEntry i f). rewrite Ha. split; [set_solver|]. unfold orig_event_id. rewrite to_map_first. cbn. by rewrite Hf.
  - do 3 right. left. exists f. split; [set_solver|done].
Qed.

Section WorkerSafe.
Context (cfg : WorkerConfig) (Hcfg : worker_ok cfg).

Lemma ack_safe id w Q : justified w id → (∀ b w', grows w w' → Q b w') → safe (Ack cfg id) Q w.
Proof.
  intros Hj Hq w1 G I. destruct Hcfg as (Hk & Hg & _). split.
  - cbn. rewrite Hk. split; [|intros; congruence]. intros _ _ e _ _. by eapply justified_grows.
  - apply Hq. etrans; [exact G|]. apply perform_grows.
Qed.
Lemma ack_all_safe ids w Q : (∀ id, id ∈ ids → justified w id) → (∀ x w', grows w w' → Q x w') → safe (ack_all cfg ids) Q w.
Proof.
  revert w Q. induction ids as [|id ids IH]; intros w Q Hj Hq; [by apply Hq|]. cbn [ack_all]. apply safe_bind, ack_safe; [apply Hj; left|].
  intros b w' G. apply IH.
  - intros i Hi. eapply justified_grows; [done|]. apply Hj. by right.
  - intros x w'' G'. apply Hq. by etrans.
Qed.
Lemma failed_safe e error w Q : e ∈ entries w main → se_id e ∈ sys_failed w → (∀ x w', grows w w' → Q x w') → safe (entry_failed cfg e error) Q w.
Proof.
  intros He Hf Hq. destruct Hcfg as (_ & _ & Hd & Hon). unfold entry_failed. rewrite Hd, (bool_decide_eq_true_2 (dlq ≠ _)) by done.
  destruct (dlq_on_error cfg) eqn:Edlq; cbn [andb].
  - apply safe_bind. unfold SendToDlq. rewrite Hd. apply safe_bind, safe_do. intros w1 G1 I1. split.
    + split; [congruence|]. intros _. exists e. split; [|apply dlq_letter]. eapply prefix_elem; [apply (gr_main _ _ G1)|done].
    + set (w2 := (perform w1 _).1). assert (Hj : justified w2 (se_id e)) by by apply add_justifies.
      assert (G2 : grows w w2) by (etrans; [exact G1|apply perform_grows]). clearbody w2.
      apply safe_bind. apply ack_safe; [done|]. intros b w3 G3. apply Hq. by etrans.
  - destruct (ack_on_error cfg); [|by apply Hq]. destruct Hon as [?|[?|Hdr]]; [done..|].
    change (safe (Ack cfg (se_id e) ≫= λ _, Ret tt) Q w). apply safe_bind, ack_safe; [|by intros b w1 G1; apply Hq].
    by do 4 right.
Qed.
Lemma exec_safe {A} id row (k : DbAnswer → Prog A) w Q :
  (∀ a w', grows w w' → (∀ what, a = dbError what → id ∈ sys_failed w') → safe (k a) Q w') → safe (call (CExec id row) ≫= k) Q w.
Proof.
  intros Hk. apply safe_do. intros w1 G I. split; [done|]. apply Hk; [etrans; [exact G|apply (perform_grows w1 (CExec id row))]|].
  intros what. cbn. destruct (db_exec _ _ _) as [d a]. cbn. intros ->. set_solver.
Qed.
Lemma entries_safe buf acc w Q : all_in buf w → Forall (row_ok w) acc →
  (∀ r w', grows w w' → (∀ rows, r = Some rows → Forall (row_ok w') rows) → Q r w') → safe (insert_entries cfg buf acc) Q w.
Proof.
  revert acc w. induction buf as [|e buf IH]; intros acc w Hb Hd Hq; [apply Hq; [done|]; by intros ? [= <-]|].
  cbn [insert_entries]. apply exec_safe. intros a w1 G1 Hf. apply (all_in_grows _ _ _ G1) in Hb.
  assert (Hd1 : Forall (row_ok w1) acc) by (eapply Forall_impl; [exact Hd|]; intros r; by apply row_grows).
  assert (Hq1 : ∀ r w', grows w1 w' → (∀ rows, r = Some rows → Forall (row_ok w') rows) → Q r w') by (intros r w' G; apply Hq; by etrans).
  assert (He : e ∈ entries w1 main) by (apply Hb; left). assert (Hbuf : all_in buf w1) by (intros x Hx; apply Hb; by right).
  destruct a as [|what|].
  - apply IH; [done| |done]. apply Forall_app. split; [done|]. apply Forall_singleton. exists e. split_and!; [done..|apply worker_row_describes].
  - apply safe_bind, failed_safe; [done|by eapply Hf|]. intros [] w2 G2. apply IH.
    + by eapply all_in_grows.
    + eapply Forall_impl; [exact Hd1|]; intros r; by apply row_grows.
    + intros r w' G. apply Hq1. by etrans.
  - apply Hq1; [done|]. by intros ? [=].
Qed.
Lemma attempt_safe wk buf w Q : all_in buf w → (∀ p r w', grows w w' → Q (wk <| wk_prepared := p |>, r) w') → safe (flush_attempt cfg wk buf) Q w.
Proof.
  intros Hb Hq. assert (Hw : ∀ r w', grows w w' → Q (wk, r) w').
  { intros r w' G. specialize (Hq (wk_prepared wk) r w' G). by destruct wk. }
  unfold flush_attempt. destruct (wk_db wk); [|by apply Hw]. apply safe_ask; [done|]. intros open w1 G1. destruct (negb open); [by apply Hw|].
  apply safe_bind, prepared_safe. intros b p w2 G2. assert (G02 : grows w w2) by (by etrans). destruct (negb b); [by apply Hq|].
  apply safe_ask; [done|]. intros a w3 G3. assert (G03 : grows w w3) by (by etrans). destruct a; [|by apply Hq|by apply Hq].
  apply safe_bind, entries_safe; [by eapply all_in_grows|done|]. intros r w4 G4 Hr. assert (G04 : grows w w4) by (by etrans).
  destruct r as [rows|]; [|by apply Hq]. specialize (Hr rows eq_refl). apply safe_do. intros w5 G5 I5. split.
  { cbn. eapply Forall_impl; [exact Hr|]; intros r; by apply row_grows. }
  pose proof (perform_grows w5 (CCommit rows)) as G6. assert (G06 : grows w (perform w5 (CCommit rows)).1) by (etrans; [exact G04|]; by etrans).
  cbn in *. pose proof (commit_rows (sys_db w5) rows) as Hc. destruct (db_commit (sys_db w5) rows) as [d' a]. cbn in *.
  destruct a; [|by apply Hq|by apply Hq]. apply safe_bind, ack_all_safe; [|intros x w' G; apply Hq; by etrans].
  intros id Hid. left. unfold rows_of. cbn. destruct Hc as [->|[? _]]; [|done]. by apply insert_events_has.
Qed.
Lemma attempts_safe n attempt wk buf w Q : all_in buf w → (∀ wk' w', grows w w' → wk_buf wk' = wk_buf wk → Q wk' w') →
  safe (flush_attempts cfg n attempt wk buf) Q w.
Proof.
  revert attempt wk w. induction n as [|n IH]; intros attempt wk w Hb Hq; [by apply Hq|]. cbn [flush_attempts].
  assert (Hgo : ∀ w1, grows w w1 → safe (flush_attempt cfg wk buf ≫= λ '(wk, result),
    match result with
    | arCommitted => Ret wk
    | arFailed => flush_attempts cfg n (attempt + 1) wk buf
    | arBroken => flush_attempts cfg n (attempt + 1) (wk <| wk_db := false |> <| wk_prepared := false |>) buf
    end) Q w1).
  { intros w1 G1. apply safe_bind, attempt_safe; [by eapply all_in_grows|]. intros p r w2 G2. assert (G02 : grows w w2) by (by etrans).
    destruct r; [by apply Hq|apply IH..]; try (by eapply all_in_grows); intros wk' w' G Hw; (apply Hq; [by etrans|done]). }
  destruct (0 <? attempt); [apply safe_ask; [done|]; by intros [] w1 G1; apply Hgo|]. by apply Hgo.
Qed.
Lemma flush_safe wk w Q : all_in (wk_buf wk) w → (∀ wk' w', grows w w' → wk_buf wk' = [] → Q wk' w') → safe (Flush cfg wk) Q w.
Proof.
  intros Hb Hq. unfold Flush. destruct (wk_buf wk) eqn:E; [by apply Hq|]. apply safe_bind, attempts_safe; [done|]. intros wk' w' G _. by apply Hq.
Qed.
Lemma buffer_safe wk l w Q : all_in (wk_buf wk) w → all_in l w → (∀ wk' w', grows w w' → all_in (wk_buf wk') w' → Q wk' w') →
  safe (buffer_entries cfg wk l) Q w.
Proof.
  revert wk w. induction l as [|e l IH]; intros wk w Hb Hl Hq; [by apply Hq|]. cbn [buffer_entries].
  assert (Hb' : all_in (wk_buf wk ++ [e]) w) by (intros x [?|Hx%list_elem_of_singleton]%elem_of_app; [by apply Hb|subst x; apply Hl; left]).
  assert (Hl' : all_in l w) by (intros x Hx; apply Hl; by right).
  destruct (_ || _); [|by apply IH]. apply safe_bind, flush_safe; [done|]. intros wk1 w1 G1 He. apply safe_ask; [done|]. intros now w2 G2.
  assert (G02 : grows w w2) by (by etrans). apply IH.
  - cbn. rewrite He. by intros x Hx%elem_of_nil.
  - by eapply all_in_grows.
  - intros wk' w' G. apply Hq. by etrans.
Qed.
Lemma reclaim_safe idle wk w Q : all_in (wk_buf wk) w → (∀ wk' w', grows w w' → all_in (wk_buf wk') w' → Q wk' w') →
  safe (ReclaimPending cfg idle wk) Q w.
Proof.
  intros Hb Hq. pose proof Hcfg as (Hk & _). unfold ReclaimPending. rewrite Hk. apply safe_do. intros w1 G1 I1. split; [done|].
  match goal with |- context [perform w1 ?c] => pose proof (perform_quiet w1 c eq_refl) as Hquiet; pose proof (quiet_grows _ _ Hquiet) as G2 end.
  cbn in Hquiet, G2. cbn [perform].
  pose proof (xautoclaim_claims (sys_redis w1) main (wb_group cfg) (wb_consumer cfg) idle (wk_reclaim_next_id wk) (reclaim_count cfg)) as Hc.
  destruct (xautoclaim _ _ _ _ _ _ _) as [r' [res|]]; cbn in *; [|apply Hq; [by etrans|]; apply (all_in_grows _ w); [by etrans|done]].
  destruct Hc as [Hsame Hc]. destruct (Hc res eq_refl) as [He Hd]. set (w2 := mkSys r' _ _ _ _) in *. assert (G02 : grows w w2) by (by etrans).
  apply safe_bind, ack_all_safe.
  - intros id Hid. right. left. unfold w2. cbn. destruct (Hsame main) as (_ & -> & _). by apply Hd.
  - intros [] w3 G3. assert (G03 : grows w w3) by (by etrans). apply buffer_safe.
    + case_bool_decide; by eapply all_in_grows.
    + eapply all_in_grows; [exact G3|]. intros e Hin. unfold entries, w2. cbn. destruct (Hsame main) as (-> & _). by apply He.
    + intros wk' w' G. apply Hq. by etrans.
Qed.
Lemma read_safe wk w : all_in (wk_buf wk) w → safe (read_step cfg wk) (λ wk w, all_in (wk_buf wk) w) w.
Proof.
  intros Hb. pose proof Hcfg as (Hk & _). unfold read_step. rewrite Hk. apply safe_do. intros w1 G1 I1. split; [done|].
  match goal with |- context [perform w1 ?c] => pose proof (quiet_grows _ _ (perform_quiet w1 c eq_refl)) as G2 end.
  cbn in G2. cbn [perform]. pose proof (xreadgroup_reads (sys_redis w1) main (wb_group cfg) (wb_consumer cfg) (batch_max_events cfg)) as Hr.
  destruct (xreadgroup _ _ _ _ _) as [r' [l|]]; cbn [fst snd] in *.
  2: { apply safe_ask; [done|]. intros [] w2 G. eapply all_in_grows; [|done]. by repeat (etrans; [done|]). }
  destruct Hr as [Hsame Hl]. specialize (Hl l eq_refl). set (w2 := mkSys r' _ _ _ _) in *. assert (G02 : grows w w2) by (by etrans).
  apply safe_bind, buffer_safe; [by eapply all_in_grows| |].
  { intros e Hin. unfold entries, w2. cbn. destruct (Hsame main) as (-> & _). by apply Hl. }
  clear Hb. intros wk3 w3 G3 Hb. apply safe_ask; [done|]. intros now w4 G4. apply (all_in_grows _ _ _ G4) in Hb.
  assert (Hlast : ∀ wk w, all_in (wk_buf wk) w → safe (if 1000 <=? elapsed_ms now (wk_last_pending_log wk)
    then _ ← call (CPending main (wb_group cfg)); Ret (wk <| wk_last_pending_log := now |>) else Ret wk) (λ wk w, all_in (wk_buf wk) w) w).
  { intros wk' w' Hw. destruct (_ <=? _); [|done]. apply safe_ask; [done|]. intros _ w'' G. by eapply all_in_grows. }
  apply safe_bind. destruct (_ && _); [|by apply Hlast]. apply safe_bind, flush_safe; [done|]. intros wk5 w5 G5 He. apply Hlast. cbn. rewrite He.
  by intros x Hx%elem_of_nil.
Qed.
Lemma round_safe wk w : all_in (wk_buf wk) w → safe (worker_round cfg wk) (λ wk w, all_in (wk_buf wk) w) w.
Proof.
  intros Hb. unfold worker_round. apply safe_bind, connection_safe. intros b d p w1 G1. apply (all_in_grows _ _ _ G1) in Hb. destruct (negb b).
  { apply safe_ask; [done|]. intros _ w2 G2. by eapply all_in_grows. }
  apply safe_bind. unfold reclaim_step. apply safe_ask; [done|]. intros now w2 G2. apply (all_in_grows _ _ _ G2) in Hb.
  destruct (_ && _); [|by apply read_safe]. apply safe_bind, reclaim_safe; [done|]. intros wk' w' G Hb'. by apply read_safe.
Qed.
Lemma start_safe w : safe (worker_start cfg) (λ wk w, all_in (wk_buf wk) w) w.
Proof.
  unfold worker_start. apply safe_bind, connection_safe. intros b d p w1 G1. do 3 (apply safe_ask; [done|]; intros ???). by intros e He%elem_of_nil.
Qed.
End WorkerSafe.

(** *** The replayer *)
Section ReplayerSafe.
Context (cfg : ReplayerConfig) (Hrp : replayer_ok cfg).

Lemma replay_ack_safe d w Q : (∀ i, entries w dlq !! i = Some d → superseded w i (orig_event_id d)) → d ∈ entries w dlq →
  (∀ b w', grows w w' → Q b w') → safe (rp_ack cfg (se_id d)) Q w.
Proof.
  intros Hs Hd Hq w1 G I. destruct Hrp as (Hk & _ & Hg). split.
  - cbn. rewrite Hk. split; [intros; congruence|]. intros _ _ i d' Hd' Hid.
    assert (Hold : entries w dlq !! i = Some d').
    { eapply old_position; [apply (gr_dlq _ _ G)|apply added_ids|done|]. rewrite Hid. by apply list_elem_of_fmap_2. }
    assert (d' = d) as ->.
    { apply list_elem_of_lookup in Hd as [j Hj]. assert (i = j) as ->; [|congruence]. eapply (NoDup_lookup _ i j (se_id d)); [apply (added_ids (sys_redis w) dlq)|..];
        fold (entries w dlq); rewrite list_lookup_fmap; [by rewrite Hold; cbn; rewrite Hid|by rewrite Hj]. }
    eapply superseded_grows; [exact G|]. by apply Hs.
  - apply Hq. etrans; [exact G|]. apply perform_grows.
Qed.
Lemma dead_adds w f : let '(w', ok) := perform w (CAdd dead f) in
  ok = true → first_field f "orig_event_id" = None ∨ ∃ id, first_field f "orig_event_id" = Some id ∧ holds_letter (entries w' dead) id.
Proof.
  cbn. pose proof (xadd_adds (sys_redis w) dead f) as Ha. destruct (xadd _ _ _) as [r' ok]. intros ->. destruct Ha as [[i Ha]|[? _]]; [|done].
  destruct (first_field f "orig_event_id") as [id|] eqn:Hf; [right|by left]. exists id. split; [done|]. exists (mkEntry i f). unfold entries. cbn. rewrite Ha.
  split; [set_solver|]. unfold orig_event_id. rewrite to_map_first. cbn. by rewrite Hf.
Qed.
Lemma retried_adds w f : let '(w', ok) := perform w (CAdd dlq f) in
  ok = true → ∃ id, entries w' dlq = entries w dlq ++ [mkEntry id f].
Proof.
  cbn. pose proof (xadd_adds (sys_redis w) dlq f) as Ha. destruct (xadd _ _ _) as [r' ok]. intros ->. by destruct Ha as [Ha|[? _]].
Qed.
Lemma failure_safe d n error w Q : d ∈ entries w dlq → letter w (se_fields d) → (∀ x w', grows w w' → Q x w') →
  safe (HandleFailure cfg d (orig_event_id d) n error) Q w.
Proof.
  intros Hd (e & He & Hl) Hq. pose proof Hrp as (Hk & Hdk & _). unfold HandleFailure. destruct (_ <=? _).
  - unfold MoveToDeadStream. rewrite Hdk. apply safe_do. intros w1 G1 I1. split; [cbn; split; congruence|].
    match goal with |- context [perform w1 (CAdd dead ?f)] => pose proof (dead_adds w1 f) as Ha; pose proof (add_grows w1 dead f) as G2; destruct (perform w1 (CAdd dead f)) as [w2 ok] end.
    cbn [fst snd] in *. assert (G02 : grows w w2) by (by etrans). destruct ok; [|by apply Hq]. destruct (Ha eq_refl) as [?|(id & Hid & Hh)]; [done|].
    injection Hid as <-. apply safe_bind, replay_ack_safe; [intros i _; right; by left| |intros b w' G; apply Hq; by etrans].
    eapply prefix_elem; [apply (gr_dlq _ _ G02)|done].
  - unfold RetryLater. rewrite Hk. apply safe_ask; [done|]. intros [] w0 G0. apply safe_do. intros w1 G1 I1.
    assert (G01 : grows w w1) by (by etrans). assert (He1 : e ∈ entries w1 main) by (eapply prefix_elem; [apply (gr_main _ _ G01)|done]).
    split; [cbn; split; [congruence|]; intros _; exists e; split; [done|]; apply relettered; [done|]; unfold meta; set_solver|].
    match goal with |- context [perform w1 (CAdd dlq ?f)] => pose proof (retried_adds w1 f) as Ha; pose proof (add_grows w1 dlq f) as G2; destruct (perform w1 (CAdd dlq f)) as [w2 ok] end.
    cbn [fst snd] in *. assert (G02 : grows w w2) by (by etrans). destruct ok; [|by apply Hq]. destruct (Ha eq_refl) as [id Hid].
    assert (Hd1 : d ∈ entries w1 dlq) by (eapply prefix_elem; [apply (gr_dlq _ _ G01)|done]).
    apply safe_bind, replay_ack_safe; [|eapply prefix_elem; [apply (gr_dlq _ _ G2)|done]|intros b w' G; apply Hq; by etrans].
    intros i Hi. right. right. exists (length (entries w1 dlq)), (mkEntry id (retry_fields d (orig_event_id d) n error)). split_and!.
    + assert (entries w1 dlq !! i = Some d) as Hi1; [|by apply lookup_lt_Some in Hi1].
      eapply old_position; [apply (gr_dlq _ _ G2)|apply added_ids|done|by apply list_elem_of_fmap_2].
    + rewrite Hid. by apply list_lookup_middle.
    + unfold orig_event_id at 1. by rewrite to_map_first.
Qed.
Lemma insert_safe connected d w Q : d ∈ entries w dlq → letter w (se_fields d) →
  (∀ a w', grows w w' → (a = dbOk → is_Some (rows_of w' !! orig_event_id d)) → Q a w') →
  safe (TryInsertToDb connected (orig_event_id d) (ToMap (se_fields d))) Q w.
Proof.
  intros Hd (e & He & Hl) Hq. unfold TryInsertToDb. destruct connected; [|by apply Hq]. apply safe_ask; [done|]. intros open w1 G1.
  destruct (negb open); [by apply Hq|]. apply safe_ask; [done|]. intros a w2 G2. assert (G02 : grows w w2) by (by etrans). destruct a; try by apply Hq.
  apply safe_ask; [done|]. intros a w3 G3. assert (G03 : grows w w3) by (by etrans). destruct a; try by apply Hq. intros w4 G4 I4.
  assert (G04 : grows w w4) by (by etrans). split.
  - cbn. apply Forall_singleton. exists e. split_and!; [eapply prefix_elem; [apply (gr_main _ _ G04)|done]| |by apply letter_described].
    cbn. unfold orig_event_id. rewrite to_map_first. by destruct Hl as [-> _].
  - apply Hq; [etrans; [exact G04|apply perform_grows]|]. cbn. pose proof (commit_rows (sys_db w4) [(orig_event_id d, replayer_row (ToMap (se_fields d)))]) as Hc.
    destruct (db_commit _ _) as [d' a]. cbn. intros ->. unfold rows_of. cbn. destruct Hc as [->|[? _]]; [|done]. apply insert_events_has. left.
Qed.
Lemma replay_entry_safe connected d w Q : d ∈ entries w dlq → letter w (se_fields d) → (∀ b w', grows w w' → Q b w') →
  safe (rp_ProcessEntry cfg connected d) Q w.
Proof.
  intros Hd Hl Hq. unfold rp_ProcessEntry. apply safe_bind, insert_safe; [done..|]. intros a w1 G1 Ha.
  assert (Hd1 : d ∈ entries w1 dlq) by (eapply prefix_elem; [apply (gr_dlq _ _ G1)|done]). destruct a as [|what|]; [| |by apply Hq].
  - apply safe_bind, replay_ack_safe; [intros i _; left; by apply Ha|done|]. intros b w2 G2. apply Hq. by etrans.
  - apply safe_bind, failure_safe; [done|by eapply letter_grows|]. intros x w2 G2. apply Hq. by etrans.
Qed.
Lemma replay_entries_safe connected l w Q : l ⊆ entries w dlq → (∀ d, d ∈ entries w dlq → letter w (se_fields d)) →
  (∀ b w', grows w w' → Q b w') → safe (process_entries cfg connected l) Q w.
Proof.
  intros Hl Hw. assert (Hls : ∀ d, d ∈ l → d ∈ entries w dlq ∧ letter w (se_fields d)) by (intros d Hd; split; auto). clear Hl Hw.
  revert connected w Hls. induction l as [|d l IH]; intros connected w Hl Hq; [by apply Hq|]. cbn [process_entries].
  destruct (Hl d) as [Hd Hlet]; [left|]. apply safe_bind, replay_entry_safe; [done..|]. intros b w1 G1. apply IH.
  - intros d' Hd'. destruct (Hl d') as [? ?]; [by right|]. split; [by eapply prefix_elem; [apply (gr_dlq _ _ G1)|]|by eapply letter_grows].
  - intros b' w' G. apply Hq. by etrans.
Qed.
Lemma replayer_read_safe once connected w : safe (replayer_read cfg once connected) (λ _ _, True) w.
Proof.
  pose proof Hrp as (Hk & _). unfold replayer_read. rewrite Hk. apply safe_do. intros w1 G1 I1. split; [done|].
  match goal with |- context [perform w1 ?c] => pose proof (quiet_inv _ _ (perform_quiet w1 c eq_refl) I1) as I2 end. cbn in I2. cbn [perform].
  pose proof (xreadgroup_reads (sys_redis w1) dlq (rp_group cfg) (rp_consumer cfg) (batch_size cfg)) as Hr.
  destruct (xreadgroup _ _ _ _ _) as [r' [l|]]; cbn [fst snd] in *; [|destruct once; [done|by apply safe_ask]]. destruct (_ && _); [done|].
  destruct Hr as [Hsame Hl]. apply safe_bind, replay_entries_safe; [|apply (pi_letters _ I2)|done].
  intros d Hd. unfold entries. cbn. destruct (Hsame dlq) as (-> & _). by apply (Hl l eq_refl).
Qed.
Lemma replayer_round_safe once connected w : safe (replayer_round cfg once connected) (λ _ _, True) w.
Proof.
  unfold replayer_round. assert (Hcon : ∀ w', safe (answer ← call CConnect;
    match answer with
    | Some true => replayer_read cfg once true
    | Some false => _ ← call (CSleep 1000); Ret (true, true)
    | None => _ ← call (CSleep 1000); Ret (connected, true)
    end) (λ _ _, True) w').
  { intros w'. apply safe_ask; [done|]. intros [[]|] w1 G1; [apply replayer_read_safe|by apply safe_ask..]. }
  destruct connected; [|apply Hcon]. apply safe_ask; [done|]. intros [] w1 G1; [apply replayer_read_safe|apply Hcon].
Qed.
End ReplayerSafe.

(** *** The system *)
Definition process_safe (w : Sys) (p : Process) : Prop :=
  match p with
  | WorkerProcess cfg p => worker_ok cfg ∧ safe p (λ wk w, all_in (wk_buf wk) w) w
  | ReplayerProcess cfg _ p => replayer_ok cfg ∧ safe p (λ _ _, True) w
  | Ended => True
  end.
Lemma process_safe_grows w w' p : grows w w' → process_safe w p → process_safe w' p.
Proof.
  intros G. destruct p as [cfg p|cfg once p|]; cbn; [| |done]; intros [Hok Hs]; (split; [done|]); (eapply safe_grows; [|done..]).
  - intros wk x y Gx. by apply all_in_grows.
  - by intros ????.
Qed.
Definition SInv (st : Sys * list Process) : Prop := PInv st.1 ∧ Forall (process_safe st.1) st.2.
Lemma step_safe w p : PInv w → process_safe w p → let '(w', p') := process_step w p in PInv w' ∧ grows w w' ∧ process_safe w' p'.
Proof.
  intros I Hp. destruct p as [cfg [wk|X c k]|cfg once [[connected []]|X c k]|]; cbn [process_step process_safe] in *.
  - destruct Hp as [Hok Hs]. split_and!; [done..|]. by apply round_safe.
  - destruct Hp as [Hok Hs]. destruct (Hs w) as [Hperm Hk]; [done..|]. pose proof (perform_inv w c I Hperm) as I'. pose proof (perform_grows w c) as G.
    by destruct (perform w c).
  - destruct Hp as [Hok Hs]. split_and!; [done..|]. by apply replayer_round_safe.
  - done.
  - destruct Hp as [Hok Hs]. destruct (Hs w) as [Hperm Hk]; [done..|]. pose proof (perform_inv w c I Hperm) as I'. pose proof (perform_grows w c) as G.
    by destruct (perform w c).
  - done.
Qed.
Lemma servers_inv w r : servers_act (sys_redis w) r → PInv w →
  let w' := mkSys r (sys_db w) (sys_refused w) (sys_failed w) (sys_clock w) in PInv w' ∧ grows w w'.
Proof.
  intros (Hm & Ht & Ha & Hd & Hda & Hde) I w'. assert (G : grows w w') by (constructor; unfold entries, rows_of; cbn; rewrite ?Hd, ?Hde; done).
  split; [|done]. apply (inv_step w _ I G); unfold entries, rows_of; cbn; rewrite ?Ha, ?Hd, ?Hda; by left.
Qed.
Lemma sys_exec_inv st e : event_ok st e → SInv st → SInv (sys_exec st e).
Proof.
  destruct st as [w ps]. intros Hok [I Hps]. cbn [fst snd] in *. destruct e as [i|i|cfg|cfg once|now|r]; cbn in Hok |- *.
  - destruct (ps !! i) as [p|] eqn:Hp; [|done]. rewrite Forall_lookup in Hps. pose proof (step_safe w p I (Hps i p Hp)) as Hs.
    destruct (process_step w p) as [w' p']. destruct Hs as (I' & G & Hs). split; [done|]. cbn. apply Forall_lookup. intros j q Hj.
    destruct (decide (i = j)) as [<-|Hne]; [rewrite list_lookup_insert_eq in Hj by (by eapply lookup_lt_Some); by injection Hj as <-|].
    rewrite list_lookup_insert_ne in Hj by done. eapply process_safe_grows; [exact G|]. by eapply Hps.
  - split; [done|]. cbn. apply Forall_alter; [done|]. intros p Hp Hs. destruct p; cbn in *; [|naive_solver|done].
    destruct Hs as [Hc _]. split; [done|]. by apply start_safe.
  - split; [done|]. cbn. apply Forall_app. split; [done|]. apply Forall_singleton. split; [done|]. by apply start_safe.
  - split; [done|]. cbn. apply Forall_app. split; [done|]. by apply Forall_singleton.
  - set (w' := mkSys _ _ _ _ now). assert (Hq : quiet w w') by done. split; [by eapply quiet_inv|]. cbn.
    eapply Forall_impl; [exact Hps|]. intros p. by apply process_safe_grows, quiet_grows.
  - destruct (servers_inv w r Hok I) as [I' G]. split; [done|]. cbn. eapply Forall_impl; [exact Hps|]. intros p. by apply process_safe_grows.
Qed.
Lemma sys_run_inv st events st' : sys_run st events st' → SInv st → SInv st'.
Proof.
  revert st. induction events as [|e events IH]; intros st; cbn; [by intros ->|]. intros [Hok Hr] HI. eapply IH; [done|]. by apply sys_exec_inv.
Qed.
(** The newest letter of an event is not acknowledged, unless the event is elsewhere. *)
Lemma letter_waits w id : PInv w → holds_letter (entries w dlq) id →
  (∃ d, d ∈ entries w dlq ∧ orig_event_id d = id ∧ se_id d ∉ acked (sys_redis w) dlq dgroup) ∨
  is_Some (rows_of w !! id) ∨ holds_letter (entries w dead) id.
Proof.
  intros I (d & [i Hi]%list_elem_of_lookup & Ho). remember (length (entries w dlq) - i)%nat as n eqn:En. revert i d Hi Ho En.
  induction (lt_wf n) as [n _ IH]. intros i d Hi Ho En. destruct (decide (se_id d ∈ acked (sys_redis w) dlq dgroup)) as [Ha|Ha].
  - destruct (pi_replayed _ I i d Hi Ha) as [Hr|[Hr|(j & d' & Hj & Hd' & Ho')]]; rewrite Ho in *; [by eauto..|].
    apply lookup_lt_Some in Hd' as Hlt. apply (IH (length (entries w dlq) - j)%nat ltac:(lia) j d'); auto.
  - left. exists d. split_and!; [by apply list_elem_of_lookup; eauto|done..].
Qed.
Lemma run_app st es es' : sys_run st es (foldl sys_exec st es) → (∀ st, sys_run st es' (foldl sys_exec st es')) →
  sys_run st (es ++ es') (foldl sys_exec st (es ++ es')).
Proof.
  intros Hr Hr'. rewrite foldl_app. specialize (Hr' (foldl sys_exec st es)). revert Hr Hr'. generalize (foldl sys_exec st es). intros st1.
  generalize (foldl sys_exec st1 es'). intros st2. revert st. induction es as [|e es IH]; intros st; cbn; [by intros ->|].
  intros [Hok Hr] Hr'. split; [done|]. by apply IH.
Qed.
Lemma run_steps st es : Forall (λ e, match e with evStep _ | evClock _ => True | _ => False end) es → sys_run st es (foldl sys_exec st es).
Proof. revert st. induction es as [|e es IH]; intros st; [done|]. rewrite Forall_cons. intros [He Hes]. cbn. split; [by destruct e|by apply IH]. Qed.
End Pipeline.

(** C10: No event is lost on its way to the database.  Start any number of workers
    and replayers on a fresh pipeline, let their commands, failures and restarts
    interleave in any way, with servers adding events and trimming the stream: an
    event of the stream is not yet acknowledged, or it is in the table, or a dead
    letter of it waits for the replayer, or it is in the dead stream, unless the
    stream was trimmed, writing its dead letter failed, or a worker may be told to
    drop events ([drops]) and the insert of this one was refused.  And every row
    belongs to an event of the stream and, if the event has no field twice and none
    of the replayer's names, says what the event said. *)
Theorem write_behind_no_loss {R : Type} `{!Streams R} {D : Type} `{!EventTable D} `{!StreamLaws R} `{!EventTableLaws D}
    (main group dlq dgroup dead : string) (drops : bool) (w : Sys) (events : list (Event (R:=R))) (w' : Sys) (ps : list Process)
    (Hdlq : main ≠ dlq) (Hdead : main ≠ dead) (Hdd : dlq ≠ dead) (Hnamed : dlq ≠ EmptyString)
    (Hacked : acked (sys_redis w) main group = ∅) (Hletters : entries w dlq = []) (Hrows : rows_of w = ∅)
    (Hrun : sys_run main group dlq dgroup dead drops (w, []) events (w', ps)) :
  (∀ e, e ∈ entries w' main →
     se_id e ∉ acked (sys_redis w') main group ∨ is_Some (rows_of w' !! se_id e) ∨
     (∃ d, d ∈ entries w' dlq ∧ orig_event_id d = se_id e ∧ se_id d ∉ acked (sys_redis w') dlq dgroup) ∨
     holds_letter (entries w' dead) (se_id e) ∨ se_id e ∈ trimmed (sys_redis w') main ∨ refused_letter dlq w' (se_id e) ∨
     (drops = true ∧ se_id e ∈ sys_failed w')) ∧
  (∀ id row, rows_of w' !! id = Some row → ∃ e, e ∈ entries w' main ∧ se_id e = id ∧ describes row e).
Proof.
  assert (I0 : SInv main group dlq dgroup dead drops (w, [])).
  { split; [|done]. constructor; cbn; rewrite ?Hacked, ?Hletters, ?Hrows; try done; set_solver. }
  apply sys_run_inv in Hrun as [I _]; [|done..]. cbn in I. split; [|apply (pi_rows _ _ _ _ _ _ _ I)].
  intros e He. destruct (decide (se_id e ∈ acked (sys_redis w') main group)) as [Ha|Ha]; [|by left]. right.
  destruct (pi_acked _ _ _ _ _ _ _ I e He Ha) as [Hr|[Ht|[Hl|[Hr|Hr]]]]; [by left|naive_solver| |naive_solver..].
  destruct (letter_waits _ _ _ _ _ _ _ _ I Hl) as [?|[?|?]]; naive_solver.
Qed.

(** ** Services in memory, with scripted failures *)
Record MemoryStreams := { mst_log : gmap string (list (Fields * gset string)); mst_read : gmap (string * string) nat; mst_refuse : bool }.
Definition mem_log (r : MemoryStreams) (k : string) : list (Fields * gset string) := default [] (mst_log r !! k).
Definition mem_id (i : nat) : string := pretty (N.of_nat i).
Definition mem_added (r : MemoryStreams) (k : string) : list StreamEntry := imap (λ i p, mkEntry (mem_id i) p.1) (mem_log r k).
Definition mem_acked (r : MemoryStreams) (k g : string) : gset string :=
  list_to_set (fst <$> filter (λ q, g ∈ q.2) (imap (λ i p, (mem_id i, p.2)) (mem_log r k))).
Definition mem_set (r : MemoryStreams) (k : string) (l : list (Fields * gset string)) : MemoryStreams :=
  {| mst_log := <[k := l]> (mst_log r); mst_read := mst_read r; mst_refuse := mst_refuse r |}.
Definition mem_xadd (r : MemoryStreams) (k : string) (f : Fields) : MemoryStreams * bool :=
  if mst_refuse r then (r, false) else (mem_set r k (mem_log r k ++ [(f, ∅)]), true).
Definition mem_xack (r : MemoryStreams) (k g id : string) : MemoryStreams * bool :=
  (mem_set r k (imap (λ i p, if bool_decide (mem_id i = id) then (p.1, {[g]} ∪ p.2) else p) (mem_log r k)), true).
Definition mem_read (r : MemoryStreams) (k g : string) (n : Z) : MemoryStreams * option (list StreamEntry) :=
  let from := default O (mst_read r !! (k, g)) in
  let out := take (Z.to_nat n) (drop from (mem_added r k)) in
  ({| mst_log := mst_log r; mst_read := <[(k, g) := (from + length out)%nat]> (mst_read r); mst_refuse := mst_refuse r |}, Some out).
#[export] Instance memory_streams : Streams MemoryStreams := {
  xadd := mem_xadd;
  xack := mem_xack;
  xreadgroup r k g _ n := mem_read r k g n;
  xautoclaim r _ _ _ _ _ _ := (r, Some {| next_start_id := "0-0"; claimed_entries := []; deleted_ids := [] |});
  xpending _ _ _ := Some 0;
}.
#[local] Instance mem_id_inj : Inj (=) (=) mem_id.
Proof. intros i j H%(inj pretty). lia. Qed.
Lemma mem_added_ids r k : NoDup (se_id <$> mem_added r k).
Proof.
  apply NoDup_alt. intros i j id. unfold mem_added. rewrite !list_lookup_fmap, !list_lookup_imap.
  destruct (mem_log r k !! i); [|done]. destruct (mem_log r k !! j); [|done]. cbn. intros [= <-] [= H]. by apply (inj mem_id) in H.
Qed.
Lemma elem_mem_acked r k g id : id ∈ mem_acked r k g ↔ ∃ i p, mem_log r k !! i = Some p ∧ id = mem_id i ∧ g ∈ p.2.
Proof.
  unfold mem_acked. rewrite elem_of_list_to_set, list_elem_of_fmap. split.
  - intros ([id' G] & -> & [Hg [i Hi]%list_elem_of_lookup]%list_elem_of_filter). rewrite list_lookup_imap in Hi.
    destruct (mem_log r k !! i) as [p|] eqn:Hp; [|done]. injection Hi as <- <-. eauto.
  - intros (i & p & Hp & -> & Hg). exists (mem_id i, p.2). split; [done|]. apply list_elem_of_filter. split; [done|].
    apply list_elem_of_lookup. exists i. by rewrite list_lookup_imap, Hp.
Qed.
Lemma mem_set_log r k l k' : mem_log (mem_set r k l) k' = if bool_decide (k = k') then l else mem_log r k'.
Proof. unfold mem_log, mem_set. cbn. case_bool_decide; subst; [by rewrite lookup_insert_eq|by rewrite lookup_insert_ne]. Qed.
#[export] Program Instance memory_stream_laws : StreamLaws MemoryStreams := {
  added := mem_added;
  trimmed _ _ := ∅;
  acked := mem_acked;
}.
Next Obligation. apply mem_added_ids. Qed.
Next Obligation.
  intros r k g id (i & p & Hp & -> & _)%elem_mem_acked. apply list_elem_of_lookup. exists i. unfold mem_added. by rewrite list_lookup_fmap, list_lookup_imap, Hp.
Qed.
Next Obligation.
  intros r k f. cbn. unfold mem_xadd. destruct (mst_refuse r); [done|]. cbn. split_and!; [|done|].
  - intros k' Hk. unfold mem_added. by rewrite mem_set_log, bool_decide_eq_false_2.
  - intros k' g. apply set_eq. intros id. rewrite !elem_mem_acked, mem_set_log. case_bool_decide; [subst k'|done]. split.
    + intros (i & p & Hp & -> & Hg). apply lookup_app_Some in Hp as [?|[_ Hp]]; [by eauto|].
      apply list_lookup_singleton_Some in Hp as [_ <-]. set_solver.
    + intros (i & p & Hp & -> & Hg). exists i, p. split; [by apply lookup_app_l_Some|done].
Qed.
Next Obligation.
  intros r k f. cbn. unfold mem_xadd. destruct (mst_refuse r); [by right|]. left. exists (mem_id (length (mem_log r k))).
  unfold mem_added. rewrite mem_set_log, bool_decide_eq_true_2 by done. rewrite imap_app. cbn. by rewrite Nat.add_0_r.
Qed.
Next Obligation.
  intros r k g id. cbn. split_and!; [|done|].
  - intros k'. unfold mem_added. rewrite mem_set_log. case_bool_decide; [subst k'|done]. apply list_eq. intros i. rewrite !list_lookup_imap.
    destruct (mem_log r k !! i); cbn; [|done]. by case_bool_decide.
  - intros k' g' Hne. apply set_eq. intros id'. rewrite !elem_mem_acked, mem_set_log. case_bool_decide; [subst k'|done].
    setoid_rewrite list_lookup_imap. split; intros (i & p & Hp & -> & Hg).
    + destruct (mem_log r k !! i) as [q|] eqn:Hq; [|done]. cbn in Hp. exists i, q. split_and!; [done..|].
      case_bool_decide; injection Hp as <-; [|done]. cbn in Hg. set_solver.
    + exists i. rewrite Hp. cbn. eexists. split_and!; [done..|]. case_bool_decide; [|done]. cbn. set_solver.
Qed.
Next Obligation.
  intros r k g id. cbn. split; intros id'; rewrite ?elem_of_union, !elem_mem_acked, mem_set_log, bool_decide_eq_true_2 by done; setoid_rewrite list_lookup_imap.
  - intros (i & p & Hp & -> & Hg). exists i. rewrite Hp. cbn. eexists. split_and!; [done..|]. case_bool_decide; [|done]. cbn. set_solver.
  - intros (i & p & Hp & -> & Hg). destruct (mem_log r k !! i) as [q|] eqn:Hq; [|done]. cbn in Hp.
    case_bool_decide as E; [left; set_solver|]. injection Hp as <-. right. by exists i, q.
Qed.
Next Obligation.
  intros r k g c n. cbn. split; [done|]. intros l [= <-] e He. by apply subseteq_take, subseteq_drop in He.
Qed.
Next Obligation. intros. cbn. split; [done|]. intros res [= <-]. cbn. split; set_solver. Qed.
(** A table whose inserts answer by a script, then succeed. *)
Record MemoryTable := { mt_rows : gmap string EventRow; mt_script : list DbAnswer }.
Definition mem_exec (d : MemoryTable) : MemoryTable * DbAnswer :=
  match mt_script d with
  | a :: script => ({| mt_rows := mt_rows d; mt_script := script |}, a)
  | [] => (d, dbOk)
  end.
Definition mem_commit (d : MemoryTable) (new : list (string * EventRow)) : MemoryTable * DbAnswer :=
  ({| mt_rows := foldl insert_event (mt_rows d) new; mt_script := mt_script d |}, dbOk).
#[export] Instance memory_table : EventTable MemoryTable := {
  db_connect d := (d, Some true);
  db_is_open d := (d, true);
  db_prepare d := (d, dbOk);
  db_begin d := (d, dbOk);
  db_exec d _ _ := mem_exec d;
  db_commit := mem_commit;
}.
#[export] Program Instance memory_table_laws : EventTableLaws MemoryTable := { event_rows := mt_rows }.
Next Obligation. done. Qed.
Next Obligation. done. Qed.
Next Obligation. done. Qed.
Next Obligation. done. Qed.
Next Obligation. intros d id row. cbn. unfold mem_exec. by destruct (mt_script d). Qed.
Next Obligation. intros d new. cbn. by left. Qed.

(** ** A run *)
Definition demo_worker : WorkerConfig := load_worker_config {["WB_BATCH_MAX_EVENTS" := "2"; "WB_ACK_ON_ERROR" := "0"]}.
Definition demo_replayer : ReplayerConfig := load_replayer_config ∅.
Definition demo_sys (refuse : bool) (script : list DbAnswer) : Sys :=
  mkSys {| mst_log := ∅; mst_read := ∅; mst_refuse := refuse |} {| mt_rows := ∅; mt_script := script |} [] [] 0.
Definition demo_event (type ts : string) : Fields := [("type", type); ("ts_ms", ts)].
Definition demo_streams (refuse : bool) : MemoryStreams :=
  {| mst_log := {["session_events" := [(demo_event "login" "5", ∅); (demo_event "logout" "9", ∅)]]}; mst_read := ∅; mst_refuse := refuse |}.
(** Two events; the second insert fails, its letter is replayed. *)
Definition demo_events (refuse : bool) : list Event :=
  [evServers (demo_streams refuse); evStartWorker demo_worker] ++ replicate 30 (evStep 0)
  ++ [evStartReplayer demo_replayer false] ++ replicate 20 (evStep 1).
Definition demo_end (refuse : bool) (script : list DbAnswer) : Sys * list Process := foldl sys_exec (demo_sys refuse script, []) (demo_events refuse).
Definition demo_pipeline (st : Sys * list Process) (es : list Event) (st' : Sys * list Process) : Prop :=
  sys_run "session_events" "wb_group" "session_events_dlq" "wb_dlq_group" "session_events_dead" false st es st'.
Lemma demo_runs refuse script : demo_pipeline (demo_sys refuse script, []) (demo_events refuse) (demo_end refuse script).
Proof.
  unfold demo_end, demo_events, demo_pipeline. apply run_app; [|intros st1; apply run_app; [|intros st2; apply run_app; [|intros st3]]].
  - split; [|split; [|done]]; [|by vm_compute; auto]. unfold servers_act. cbn. split_and!; try done. apply prefix_nil.
  - apply run_steps. by apply Forall_replicate.
  - split; [by vm_compute|done].
  - apply run_steps. by apply Forall_replicate.
Qed.
Lemma write_behind_no_loss_witness :
  let w := (demo_end false [dbOk; dbError "bad"]).1 in
  acked (sys_redis w) "session_events" "wb_group" = {["0"; "1"]} ∧ mem_added (sys_redis w) "session_events_dlq" ≠ [] ∧
  (∃ row, rows_of w !! "1" = Some row ∧ ev_type row = "logout" ∧ ev_ts_ms row = 9 ∧ ∃ e, e ∈ entries w "session_events" ∧ se_id e = "1" ∧ describes row e).
Proof.
  intros w. split_and!; [apply (bool_decide_eq_true_1 (_ = _)); by vm_compute|by vm_compute|].
  assert (Hrow : match rows_of w !! "1" with Some row => bool_decide (ev_type row = "logout" ∧ ev_ts_ms row = 9) | None => false end = true) by by vm_compute.
  destruct (rows_of w !! "1") as [row|] eqn:E; [|done]. apply bool_decide_eq_true in Hrow as [Ht Hs]. exists row. split_and!; [done..|].
  pose proof (demo_runs false [dbOk; dbError "bad"]) as Hr. unfold w in *. destruct (demo_end false [dbOk; dbError "bad"]) as [w' ps].
  refine (proj2 (write_behind_no_loss "session_events" "wb_group" "session_events_dlq" "wb_dlq_group" "session_events_dead" false
    (demo_sys false [dbOk; dbError "bad"]) (demo_events false) w' ps _ _ _ _ _ _ _ Hr) "1" row E); done.
Defined.
(** A worker told not to acknowledge on errors acknowledges an event whose insert
    failed and whose dead letter could not be written: nothing of it is left. *)
Lemma refused_letter_loses_event :
  let w := (demo_end true [dbOk; dbError "bad"]).1 in
  "1" ∈ acked (sys_redis w) "session_events" "wb_group" ∧ rows_of w !! "1" = None ∧
  entries w "session_events_dlq" = [] ∧ entries w "session_events_dead" = [].
Proof. split_and!; [apply (bool_decide_eq_true_1 (_ ∈ _))|..]; by vm_compute. Qed.
(** A letter whose insert meets a broken connection is not acknowledged, and never
    read again: the replayer asks for new entries only. *)
Lemma broken_replay_strands_letter :
  let w := (foldl sys_exec (demo_end false [dbOk; dbError "bad"; dbBroken]) (replicate 200 (evStep 1))).1 in
  rows_of w !! "1" = None ∧ "0" ∉ acked (sys_redis w) "session_events_dlq" "wb_dlq_group" ∧
  se_id <$> entries w "session_events_dlq" = ["0"].
Proof. split_and!; [|apply (bool_decide_eq_true_1 (_ ∉ _))|]; by vm_compute. Qed.
(** After a broken connection the remaining attempts of a flush only wait. *)
Fixpoint sleeps_only {A} (p : Prog A) : Prop :=
  match p with Ret _ => True | Do c k => match c with CSleep _ => True | _ => False end ∧ ∀ x, sleeps_only (k x) end.
Lemma broken_flush_waits cfg n attempt wk buf : wk_db wk = false → sleeps_only (flush_attempts cfg n attempt wk buf).
Proof.
  revert attempt. induction n as [|n IH]; intros attempt Hdb; [done|]. cbn [flush_attempts]. unfold flush_attempt. rewrite Hdb.
  destruct (0 <? attempt); cbn; [split; [done|]; intros _; by apply IH|by apply IH].
Qed.
