(* ===== verification/AdminCommands.v ===== *)
(** * Signed administrator commands

    The path of a command from the admin application to the chat servers:
    [tools/admin_app/main.cpp] turns a request into fields and signs them
    ([core/security/admin_command_auth.cpp]), Redis fans the message out, and
    [server/app/admin_fanout_subscription.cpp] parses and verifies it and calls the
    chat service.  The HMAC of OpenSSL and the generated nonce are inputs. *)
From S2P Require Import Prelude Text InstanceRegistry ChatState ChatHandlers ChatAdmin.
From stdpp Require Import list gmap strings sorting.
Open Scope Z_scope.
Open Scope record_scope.

(** ** Fields as text *)
Abbreviation FieldMap := (gmap string string).
Definition comma_sign : char := of_code 44.
Definition entry_line (kv : string * string) : string := kv.1 +:+ String equals_sign kv.2.
Definition key_le (a b : string * string) : Prop := name_le a.1 b.1.
#[export] Instance key_le_dec a b : Decision (key_le a b).
Proof. unfold key_le; apply _. Defined.
Definition sorted_entries (fields : FieldMap) : list (string * string) := merge_sort key_le (map_to_list fields).
Definition kv_text (l : list (string * string)) : string := join_with newline (entry_line <$> l).
Definition to_kv_payload (fields : FieldMap) : string := kv_text (sorted_entries fields).
Definition canonical_signing_data (fields : FieldMap) : string := kv_text (sorted_entries (delete "signature" fields)).

(** ** Signing and verifying *)
Definition hex_digit (n : Z) : char := of_code (if n <? 10 then 48 + n else 87 + n).
Fixpoint hex_text (digest : list Z) : string :=
  match digest with
  | [] => EmptyString
  | b :: digest => String (hex_digit (Z.land (Z.shiftr b 4) 15)) (String (hex_digit (Z.land b 15)) (hex_text digest))
  end.
Inductive VerifyResult :=
  kOk | kMissingField | kInvalidIssuedAt | kExpired | kFuture | kSignatureMismatch | kReplay | kSecretNotConfigured.
#[export] Instance eq_verify : EqDecision VerifyResult.
Proof. solve_decision. Defined.
Record VerifyOptions := { ttl_ms : Z; future_skew_ms : Z }.
Record Verifier := { secret_ : string; options_ : VerifyOptions; seen_nonces_ : gmap string Z }.
Fixpoint parse_u64_from (text : string) (value : Z) : option Z :=
  match text with
  | EmptyString => Some value
  | String c text =>
      if is_digit c then
        let digit := code c - 48 in
        if (2 ^ 64 - 1 - digit) / 10 <? value then None else parse_u64_from text (value * 10 + digit)
      else None
  end.
Definition parse_u64 (text : string) : option Z := if bool_decide (text = EmptyString) then None else parse_u64_from text 0.

Section Auth.
(** HMAC-SHA256 of the data under the key; nothing when OpenSSL fails. *)
Context (hmac_sha256 : string → string → option (list Z)).

Definition sign_fields (fields : FieldMap) (secret : string) : string :=
  if bool_decide (secret = EmptyString) then EmptyString
  else
    let signing_data := canonical_signing_data fields in
    if bool_decide (signing_data = EmptyString) then EmptyString
    else match hmac_sha256 secret signing_data with Some digest => hex_text digest | None => EmptyString end.
(** [nonce] is the generated one. *)
Definition append_signature_fields (fields : FieldMap) (secret : string) (issued_at_ms : Z) (nonce : string) : option FieldMap :=
  if bool_decide (secret = EmptyString) then None
  else
    let fields := delete "signature" (<["nonce" := nonce]> (<["issued_at" := print_u64 issued_at_ms]> fields)) in
    let signature := sign_fields fields secret in
    if bool_decide (signature = EmptyString) then None else Some (<["signature" := signature]> fields).
(** The checks before the lock: the verdict, or the nonce and time to record. *)
Definition check_command (v : Verifier) (fields : FieldMap) (now : Z) : VerifyResult + string * Z :=
  if bool_decide (secret_ v = EmptyString) then inl kSecretNotConfigured
  else match fields !! "issued_at", fields !! "nonce", fields !! "signature" with
  | Some issued_at, Some nonce, Some signature =>
      if bool_decide (issued_at = EmptyString) || bool_decide (nonce = EmptyString) || bool_decide (signature = EmptyString)
      then inl kMissingField
      else match parse_u64 issued_at with
      | None => inl kInvalidIssuedAt
      | Some issued_at_ms =>
          if u64 (now + future_skew_ms (options_ v)) <? issued_at_ms then inl kFuture
          else if u64 (issued_at_ms + ttl_ms (options_ v)) <? now then inl kExpired
          else
            let expected := sign_fields fields (secret_ v) in
            if bool_decide (expected = EmptyString) || negb (bool_decide (expected = signature)) then inl kSignatureMismatch
            else inr (nonce, issued_at_ms)
      end
  | _, _, _ => inl kMissingField
  end.
(** The section under the mutex. *)
Definition record_nonce (v : Verifier) (nonce : string) (issued_at_ms now : Z) : Verifier * VerifyResult :=
  let seen := filter (λ p, ¬ (u64 (p.2 + ttl_ms (options_ v)) < now)) (seen_nonces_ v) in
  match seen !! nonce with
  | Some _ => ({| secret_ := secret_ v; options_ := options_ v; seen_nonces_ := seen |}, kReplay)
  | None => ({| secret_ := secret_ v; options_ := options_ v; seen_nonces_ := <[nonce := issued_at_ms]> seen |}, kOk)
  end.
Definition verify (v : Verifier) (fields : FieldMap) (now : Z) : Verifier * VerifyResult :=
  match check_command v fields now with inl r => (v, r) | inr (nonce, issued) => record_nonce v nonce issued now end.

(** ** The admin application *)
Fixpoint sanitize_chars (s : string) : string :=
  match s with
  | EmptyString => EmptyString
  | String c s => String (if (code c =? 10) || (code c =? 13) then of_code 32 else c) (sanitize_chars s)
  end.
Definition sanitize_single_line (s : string) : string := trim (sanitize_chars s).
Definition split_csv_trimmed (raw : string) : list string := filter (λ t, t ≠ EmptyString) (trim <$> split_on comma_sign raw).
Definition join_csv (values : list string) : string := join_with comma_sign values.
Definition hex_value (c : char) : option Z :=
  let n := code c in
  if (48 <=? n) && (n <=? 57) then Some (n - 48)
  else if (97 <=? n) && (n <=? 102) then Some (n - 87)
  else if (65 <=? n) && (n <=? 70) then Some (n - 55) else None.
Fixpoint url_decode (raw : string) : string :=
  match raw with
  | EmptyString => EmptyString
  | String c rest =>
      if code c =? 43 then String (of_code 32) (url_decode rest)
      else match rest with
      | String h (String l rest') =>
          match (if code c =? 37 then hex_value h else None), hex_value l with
          | Some hi, Some lo => String (of_code (hi * 16 + lo)) (url_decode rest')
          | _, _ => String c (url_decode rest)
          end
      | _ => String c (url_decode rest)
      end
  end.
Definition query_pair (pair : string) : string * string :=
  match cut equals_sign pair with Some (k, v) => (url_decode k, url_decode v) | None => (url_decode pair, EmptyString) end.
(** The first value of a name stays. *)
Definition parse_query_string (query : string) : FieldMap :=
  foldl (λ out pair, if bool_decide (pair = EmptyString) then out else
    let '(k, v) := query_pair pair in match out !! k with Some _ => out | None => <[k := v]> out end) ∅ (split_on (of_code 38) query).
Record SelectorParseResult := mkSelectorParse { sp_selector : InstanceSelector; sp_specified : bool; sp_all_specified : bool; sp_ok : bool }.
Definition truthy (value : string) : option bool :=
  let normalized := lower (trim value) in
  if bool_decide (normalized ∈ [EmptyString; "1"; "true"; "yes"; "on"]) then Some true
  else if bool_decide (normalized ∈ ["0"; "false"; "no"; "off"]) then Some false else None.
Definition csv_field (params : FieldMap) (key : string) : list string := match params !! key with Some v => split_csv_trimmed v | None => [] end.
Definition selector_keys : list string := ["server_ids"; "roles"; "game_modes"; "regions"; "shards"; "tags"].
(** [parse_instance_selector_query], on the decoded parameters. *)
Definition parse_selector (params : FieldMap) : SelectorParseResult :=
  let all := match params !! "all" with Some v => Some (truthy v) | None => None end in
  let given := bool_decide (Exists (λ k, is_Some (params !! k)) selector_keys) in
  match all with
  | Some None => mkSelectorParse empty_selector true true false
  | _ =>
      mkSelectorParse
        {| sel_all := match all with Some (Some b) => b | _ => false end;
           sel_server_ids := csv_field params "server_ids"; sel_roles := csv_field params "roles"; sel_game_modes := csv_field params "game_modes";
           sel_regions := csv_field params "regions"; sel_shards := csv_field params "shards"; sel_tags := csv_field params "tags" |}
        (bool_decide (is_Some all) || given) (bool_decide (is_Some all)) true
  end.
Definition append_csv_field (key : string) (values : list string) (fields : FieldMap) : FieldMap :=
  match values with [] => fields | _ => <[key := join_csv values]> fields end.
Definition append_selector_command_fields (fields : FieldMap) (sp : SelectorParseResult) : FieldMap :=
  if negb (sp_specified sp) then fields
  else
    let s := sp_selector sp in
    let fields := if sp_all_specified sp then <["all" := if sel_all s then "1" else "0"]> fields else fields in
    append_csv_field "tags" (sel_tags s) (append_csv_field "shards" (sel_shards s) (append_csv_field "regions" (sel_regions s)
      (append_csv_field "game_modes" (sel_game_modes s) (append_csv_field "roles" (sel_roles s)
        (append_csv_field "server_ids" (sel_server_ids s) fields))))).
(** What a handler depends on: whether Redis is up and takes the message, the
    signing secret, clock and nonce, the authenticated actor and the request. *)
Record AdminEnv := {
  ae_redis : bool;
  ae_published : bool;
  ae_prefix : string;
  ae_secret : string;
  ae_now : Z;
  ae_nonce : string;
  ae_actor : string;
  ae_request_id : Z;
}.
Inductive AdminReply := reError (status error_code error_message : string) | reAccepted (channel : string).
(** What was published, and the answer. *)
Definition AdminResult : Type := option (string * string) * AdminReply.
Definition bad_request (message : string) : AdminResult := (None, reError "400 Bad Request" "BAD_REQUEST" message).
Definition unavailable (message : string) : AdminReply := reError "503 Service Unavailable" "UPSTREAM_UNAVAILABLE" message.
Definition build_signed_admin_message (env : AdminEnv) (fields : FieldMap) : option string :=
  match append_signature_fields fields (ae_secret env) (ae_now env) (ae_nonce env) with
  | Some fields => Some ("gw=admin_app" +:+ String newline (to_kv_payload fields))
  | None => None
  end.
Definition send_command (env : AdminEnv) (channel : string) (fields : FieldMap) (failed : string) : AdminResult :=
  match build_signed_admin_message env fields with
  | None => (None, reError "503 Service Unavailable" "MISCONFIGURED" "admin command signing is not configured")
  | Some message => (Some (channel, message), if ae_published env then reAccepted channel else unavailable failed)
  end.
Definition requested_targets (params : FieldMap) : list string :=
  match params !! "client_id" with Some v => filter (λ t, t ≠ EmptyString) [trim v] | None => [] end ++ csv_field params "client_ids".
Definition kMaxDisconnectTargets : nat := 200.
Definition kMaxAnnouncementTextBytes : nat := 512.
Definition acceptable_target (t : string) : bool :=
  bool_decide (t ≠ EmptyString) && negb (has_char (of_code 47) t) && bool_decide (String.length t ≤ 128)%nat.
Definition dedup_targets (targets : list string) : list string :=
  foldl (λ acc t, let t := trim t in if acceptable_target t && bool_decide (t ∉ acc) then acc ++ [t] else acc) [] targets.
Definition resize (n : nat) (s : string) : string := String.substring 0 n s.
Definition common_fields (env : AdminEnv) (op : string) : FieldMap :=
  <["op" := op]> (<["actor" := sanitize_single_line (ae_actor env)]> {["request_id" := "admin-" +:+ print_u64 (ae_request_id env)]}).
(** The part the handlers share: Redis, the selector, then the command's own fields. *)
Definition with_selector (env : AdminEnv) (query failed channel : string) (fields : FieldMap → string + FieldMap) : AdminResult :=
  if negb (ae_redis env) then (None, unavailable "redis command channel unavailable")
  else
    let params := parse_query_string query in
    let sp := parse_selector params in
    if negb (sp_ok sp) then bad_request "all must be a boolean value"
    else match fields params with
    | inl message => bad_request message
    | inr fields => send_command env (ae_prefix env +:+ channel) (append_selector_command_fields fields sp) failed
    end.
Definition valid_targets (params : FieldMap) : string + list string :=
  let targets := requested_targets params in
  if bool_decide (targets = []) then inl "client_id or client_ids is required"
  else
    let deduped := dedup_targets targets in
    if bool_decide (deduped = []) then inl "no valid client ids provided"
    else if bool_decide (kMaxDisconnectTargets < length deduped)%nat then inl "too many client ids" else inr deduped.
Definition disconnect_reason (params : FieldMap) : string :=
  resize 200 (match params !! "reason" with
              | Some v => or_default (sanitize_single_line v) "Disconnected by administrator"
              | None => "Disconnected by administrator"
              end).
Definition handle_disconnect_users (env : AdminEnv) (query : string) : AdminResult :=
  with_selector env query "failed to publish disconnect command" "fanout:admin:disconnect" (λ params,
    match valid_targets params with
    | inl message => inl message
    | inr deduped =>
        inr (<["client_ids" := join_csv deduped]> (<["reason" := sanitize_single_line (disconnect_reason params)]> (common_fields env "disconnect")))
    end).
Definition announcement_priority (params : FieldMap) : string :=
  match params !! "priority" with
  | Some v => let normalized := lower (trim v) in if bool_decide (normalized ∈ ["info"; "warn"; "critical"]) then normalized else "info"
  | None => "info"
  end.
Definition handle_announcement (env : AdminEnv) (query : string) : AdminResult :=
  with_selector env query "failed to publish announcement command" "fanout:admin:announce" (λ params,
    match params !! "text" with
    | None => inl "text is required"
    | Some v =>
        let text := sanitize_single_line v in
        if bool_decide (text = EmptyString) then inl "text is required"
        else if bool_decide (kMaxAnnouncementTextBytes < String.length text)%nat then inl "text is too long"
        else inr (<["text" := text]> (<["priority" := announcement_priority params]> (common_fields env "announce")))
    end).
Definition handle_runtime_setting (env : AdminEnv) (query : string) : AdminResult :=
  with_selector env query "failed to publish settings command" "fanout:admin:settings" (λ params,
    match params !! "key", params !! "value" with
    | Some k, Some v =>
        let key := lower (trim k) in
        let value := trim v in
        if bool_decide (key = EmptyString) || bool_decide (value = EmptyString) then inl "key and value are required"
        else match parse_u32 value with
        | None => inl "value must be an unsigned integer"
        | Some n =>
            match find_runtime_setting_rule key with
            | None => inl "unsupported setting key"
            | Some r =>
                if (n <? rl_min_value r) || (rl_max_value r <? n) then inl (rl_key_name r +:+ " must be " +:+ print_u64 (rl_min_value r) +:+ ".." +:+ print_u64 (rl_max_value r))
                else inr (<["value" := print_u64 n]> (<["key" := sanitize_single_line key]> (common_fields env "settings")))
            end
        end
    | _, _ => inl "key and value are required"
    end).
Definition moderation_reason (params : FieldMap) : string :=
  match params !! "reason" with Some v => resize 200 (sanitize_single_line v) | None => EmptyString end.
Definition moderation_duration (params : FieldMap) : option Z :=
  match params !! "duration_sec" with Some v => if bool_decide (v = EmptyString) then Some 0 else parse_u32 (trim v) | None => Some 0 end.
Definition handle_user_moderation (env : AdminEnv) (op query : string) : AdminResult :=
  with_selector env query "failed to publish moderation command" "fanout:admin:moderation" (λ params,
    match valid_targets params with
    | inl message => inl message
    | inr deduped =>
        match moderation_duration params with
        | None => inl "duration_sec must be an unsigned integer"
        | Some duration =>
            inr (<["client_ids" := join_csv deduped]> (<["reason" := moderation_reason params]>
              (<["duration_sec" := print_u64 duration]> (common_fields env (sanitize_single_line op)))))
        end
    end).

(** ** The chat server *)
(** The call on the chat service, with its arguments. *)
Inductive AdminCommand :=
  | acDisconnect (users : list string) (reason : string)
  | acAnnounce (text : string)
  | acSetting (key value : string)
  | acModeration (op : string) (users : list string) (duration_sec : Z) (reason : string).
Definition parse_kv_lines (payload : string) : FieldMap :=
  foldl (λ out line, match key_value line with
                     | Some (k, v) => if bool_decide (k = EmptyString) then out else <[k := v]> out
                     | None => out
                     end) ∅ (lines payload).
Definition parse_admin_selector_fields (fields : FieldMap) : SelectorParseResult := parse_selector fields.
Definition verify_admin_fields (v : Verifier) (local : InstanceRecord) (fields : FieldMap) (now : Z) : Verifier * bool :=
  let '(v, result) := verify v fields now in
  if negb (bool_decide (result = kOk)) then (v, false)
  else
    let sp := parse_admin_selector_fields fields in
    (v, negb (sp_specified sp) || sp_ok sp && matches_selector local (sp_selector sp)).
Inductive ExactFanoutChannel := kWhisper | kAdminDisconnect | kAdminAnnounce | kAdminSettings | kAdminModeration.
Definition filled (fields : FieldMap) (key : string) : option string :=
  match fields !! key with Some v => if bool_decide (v = EmptyString) then None else Some v | None => None end.
Definition dispatch_admin (kind : ExactFanoutChannel) (fields : FieldMap) : option AdminCommand :=
  match kind with
  | kWhisper => None
  | kAdminDisconnect =>
      match filled fields "client_ids" with
      | Some ids => match split_csv_trimmed ids with
                    | [] => None
                    | users => Some (acDisconnect users (default "Disconnected by administrator" (filled fields "reason")))
                    end
      | None => None
      end
  | kAdminAnnounce => acAnnounce <$> filled fields "text"
  | kAdminSettings => match filled fields "key", filled fields "value" with Some k, Some v => Some (acSetting k v) | _, _ => None end
  | kAdminModeration =>
      match filled fields "op", filled fields "client_ids" with
      | Some op, Some ids =>
          match split_csv_trimmed ids with
          | [] => None
          | users =>
              let duration := match filled fields "duration_sec" with Some d => from_option u32 0 (stoul d) | None => 0 end in
              Some (acModeration op users duration (default EmptyString (fields !! "reason")))
          end
      | _, _ => None
      end
  end.
Inductive FanoutAction :=
  | faNone | faRefresh (room : string) | faRoom (room payload : string) | faWhisper (payload : string) | faAdmin (command : AdminCommand).
Definition exact_suffixes : list (string * ExactFanoutChannel) :=
  [("fanout:whisper", kWhisper); ("fanout:admin:disconnect", kAdminDisconnect); ("fanout:admin:announce", kAdminAnnounce);
   ("fanout:admin:settings", kAdminSettings); ("fanout:admin:moderation", kAdminModeration)].
Definition exact_channels (prefix : string) : list (string * ExactFanoutChannel) := (λ e, (prefix +:+ e.1, e.2)) <$> exact_suffixes.
Definition match_exact_channel (prefix channel : string) : option ExactFanoutChannel :=
  snd <$> head (filter (λ e, channel = e.1) (exact_channels prefix)).
Definition on_exact_message (prefix : string) (local : InstanceRecord) (v : Verifier) (now : Z) (channel : string) (payload : option string)
    : Verifier * FanoutAction :=
  match match_exact_channel prefix channel, payload with
  | Some kWhisper, Some payload => (v, faWhisper payload)
  | Some kind, Some payload =>
      let fields := parse_kv_lines payload in
      let '(v, accepted) := verify_admin_fields v local fields now in
      (v, if accepted then from_option faAdmin faNone (dispatch_admin kind fields) else faNone)
  | _, _ => (v, faNone)
  end.
Definition on_fanout_message (prefix gateway_id : string) (local : InstanceRecord) (v : Verifier) (now : Z) (channel message : string)
    : Verifier * FanoutAction :=
  match after_prefix "gw=" message with
  | None => (v, faNone)
  | Some rest =>
      let '(from, payload) := match cut newline rest with Some (from, payload) => (from, Some payload) | None => (rest, None) end in
      if bool_decide (from = gateway_id) then (v, faNone)
      else match after_prefix (prefix +:+ "fanout:refresh:") channel with
      | Some room => (v, faRefresh room)
      | None =>
          match after_prefix (prefix +:+ "fanout:room:") channel, payload with
          | Some room, Some payload => (v, faRoom room payload)
          | Some _, None => (v, faNone)
          | None, _ => on_exact_message prefix local v now channel payload
          end
      end
  end.
End Auth.

(** ** Text round trips *)
Lemma lines_split s : lines s = split_on newline s.
Proof. induction s as [|c s IH]; [done|]. cbn. rewrite IH. by case_bool_decide. Qed.
Definition key_ok (k : string) : Prop := k ≠ EmptyString ∧ plain k ∧ has_char equals_sign k = false.
Definition field_ok (kv : string * string) : Prop := key_ok kv.1 ∧ plain kv.2.
Lemma entry_no_newline kv : field_ok kv → has_char newline (entry_line kv) = false.
Proof.
  destruct kv as [k v]. intros [(_ & [Hk _] & _) [Hv _]]. unfold entry_line. cbn [fst snd] in *. rewrite has_char_app, Hk. cbn [has_char orb]. by rewrite Hv.
Qed.
Lemma parse_kv_text l : Forall field_ok l → NoDup l.*1 → parse_kv_lines (kv_text l) = list_to_map l.
Proof.
  intros Hl Hn. unfold parse_kv_lines, kv_text. destruct (decide (l = [])) as [->|Hne]; [done|].
  rewrite lines_split, split_join_with; [|by destruct l|apply Forall_fmap; eapply Forall_impl; [exact Hl|]; apply entry_no_newline].
  assert (H : ∀ out : FieldMap, foldl (λ out line, match key_value line with Some (k, v) => if bool_decide (k = EmptyString) then out else <[k := v]> out | None => out end)
    out (entry_line <$> l) = foldl (λ out kv, <[kv.1 := kv.2]> out) out l).
  { clear Hn Hne. induction Hl as [|[k v] l [(Hk0 & [_ Hk] & He) [_ Hv]] _ IH]; intros out; [done|]. cbn [fmap list_fmap foldl].
    change (entry_line (k, v)) with (k +:+ String equals_sign v). cbn [fst snd] in *. rewrite key_value_line by done.
    rewrite bool_decide_eq_false_2 by done. apply IH. }
  rewrite H. clear H Hl Hne. apply map_eq. intros k.
  assert (H : ∀ out : FieldMap, foldl (λ out kv, <[kv.1 := kv.2]> out) out l !! k = match (list_to_map l : FieldMap) !! k with Some v => Some v | None => out !! k end).
  { induction l as [|[k' v] l IH]; intros out; [done|]. cbn in *. apply NoDup_cons in Hn as [Hk Hn]. rewrite IH by done.
    destruct (decide (k' = k)) as [->|Hne]; [|by rewrite !lookup_insert_ne by done].
    rewrite lookup_insert_eq, (not_elem_of_list_to_map_1 l k) by done. by rewrite lookup_insert_eq. }
  rewrite H. by destruct (list_to_map l !! k).
Qed.
Definition plain_fields (fields : FieldMap) : Prop := map_Forall (λ k v, key_ok k ∧ plain v) fields.
Lemma sorted_perm fields : sorted_entries fields ≡ₚ map_to_list fields.
Proof. apply merge_sort_Permutation. Qed.
Lemma parse_payload fields : plain_fields fields → parse_kv_lines (to_kv_payload fields) = fields.
Proof.
  intros Hf. unfold to_kv_payload. rewrite parse_kv_text.
  - rewrite <- (list_to_map_to_list fields) at 2. apply list_to_map_proper; [|apply sorted_perm]. rewrite sorted_perm. apply NoDup_fst_map_to_list.
  - rewrite sorted_perm. eapply Forall_impl; [apply map_Forall_to_list; exact Hf|]. by intros [k v].
  - rewrite sorted_perm. apply NoDup_fst_map_to_list.
Qed.
(** What is signed determines the fields. *)
Lemma signing_data_injective f g : plain_fields f → plain_fields g → canonical_signing_data f = canonical_signing_data g →
  delete "signature" f = delete "signature" g.
Proof.
  intros Hf Hg E. unfold canonical_signing_data in E. change (to_kv_payload (delete "signature" f) = to_kv_payload (delete "signature" g)) in E.
  rewrite <- (parse_payload (delete "signature" f)), <- (parse_payload (delete "signature" g)), E; [done|by apply map_Forall_delete..].
Qed.
Lemma signing_data_nonempty fields : delete "signature" fields ≠ ∅ → canonical_signing_data fields ≠ EmptyString.
Proof.
  intros Hne. unfold canonical_signing_data, kv_text. destruct (sorted_entries _) as [|kv l] eqn:E.
  - exfalso. pose proof (sorted_perm (delete "signature" fields)) as Hp. rewrite E in Hp. apply Permutation_nil_l in Hp. symmetry in Hp. by apply map_to_list_empty_iff in Hp.
  - cbn. destruct kv as [k v]. destruct l; cbn; by destruct k.
Qed.
Lemma parse_digits s : ∀ v, all_chars is_digit s = true → 0 ≤ v → digits_value s v < 2 ^ 64 → parse_u64_from s v = Some (digits_value s v).
Proof.
  induction s as [|c s IH]; intros v Hs Hv Hlt; [done|]. cbn in *. apply andb_true_iff in Hs as [Hc Hs]. rewrite Hc in *.
  pose proof (is_digit_code c Hc). assert (Hge : v * 10 + (code c - 48) ≤ digits_value s (v * 10 + (code c - 48))).
  { clear -Hs Hv H. assert (0 ≤ v * 10 + (code c - 48)) as H0 by lia. revert H0. generalize (v * 10 + (code c - 48)). clear -Hs.
    induction s as [|c' s IH]; intros n Hn; cbn; [lia|]. cbn in Hs. apply andb_true_iff in Hs as [Hc Hs]. rewrite Hc. pose proof (is_digit_code c' Hc).
    specialize (IH Hs (n * 10 + (code c' - 48)) ltac:(lia)). lia. }
  destruct (_ <? v) eqn:E; [|apply IH; [done|lia|done]]. exfalso. apply Z.ltb_lt in E.
  pose proof (Z.mul_succ_div_gt (2 ^ 64 - 1 - (code c - 48)) 10 ltac:(lia)). lia.
Qed.
Lemma parse_print_u64 n : is_u64 n → parse_u64 (print_u64 n) = Some n.
Proof.
  intros Hn. unfold parse_u64. rewrite bool_decide_eq_false_2 by apply print_u64_nonempty. pose proof (digits_value_print_u64 n Hn) as Hv.
  rewrite parse_digits; [by rewrite Hv|apply print_digits_all; [unfold in_u in Hn; lia|done]|lia|rewrite Hv; apply Hn].
Qed.
Lemma hex_digit_plain n : 0 ≤ n < 16 → is_space (hex_digit n) = false.
Proof.
  intros Hn. unfold hex_digit, is_space. destruct (n <? 10) eqn:E; rewrite code_of_code by lia; lia.
Qed.
Lemma nibble n : 0 ≤ Z.land n 15 < 16.
Proof. change 15 with (Z.ones 4). rewrite Z.land_ones by lia. apply Z.mod_pos_bound. lia. Qed.
Lemma hex_text_plain l : plain (hex_text l).
Proof.
  apply plain_no_space. induction l as [|b l IH]; [done|]. cbn. by rewrite !hex_digit_plain by apply nibble.
Qed.
(** ** Once only *)
Section Once.
Context (hmac_sha256 : string → string → option (list Z)).

Fixpoint verify_all (v : Verifier) (calls : list (FieldMap * Z)) : Verifier * list VerifyResult :=
  match calls with
  | [] => (v, [])
  | (fields, now) :: calls =>
      let '(v, r) := verify hmac_sha256 v fields now in let '(v, rs) := verify_all v calls in (v, r :: rs)
  end.
Lemma verified_fields v fields now v' : verify hmac_sha256 v fields now = (v', kOk) → ∃ issued nonce text,
  fields !! "issued_at" = Some text ∧ parse_u64 text = Some issued ∧ fields !! "nonce" = Some nonce ∧
  secret_ v ≠ EmptyString ∧ fields !! "signature" = Some (sign_fields hmac_sha256 fields (secret_ v)) ∧ sign_fields hmac_sha256 fields (secret_ v) ≠ EmptyString ∧
  issued ≤ u64 (now + future_skew_ms (options_ v)) ∧ now ≤ u64 (issued + ttl_ms (options_ v)) ∧
  record_nonce v nonce issued now = (v', kOk).
Proof.
  unfold verify, check_command. intros H. case_bool_decide as Hs; [done|].
  destruct (fields !! "issued_at") as [text|]; [|done]. destruct (fields !! "nonce") as [nonce|]; [|done]. destruct (fields !! "signature") as [sig|] eqn:Esig; [|done].
  destruct (_ || _ || _); [done|]. destruct (parse_u64 text) as [issued|] eqn:Ei; [|done]. destruct (_ <? issued) eqn:Ef; [done|]. destruct (_ <? now) eqn:Ee; [done|].
  destruct (bool_decide _ || _) eqn:Eb; [done|]. apply orb_false_iff in Eb as [E1%bool_decide_eq_false E2%negb_false_iff%bool_decide_eq_true].
  exists issued, nonce, text. rewrite <- E2. split_and!; try done; lia.
Qed.
Lemma verify_keeps v fields now : secret_ (verify hmac_sha256 v fields now).1 = secret_ v ∧ options_ (verify hmac_sha256 v fields now).1 = options_ v.
Proof. unfold verify, record_nonce. by repeat case_match; simplify_eq. Qed.
(** The nonce of a used command is remembered until the command has expired. *)
Definition spent (v : Verifier) (nonce : string) (issued clock : Z) : Prop :=
  seen_nonces_ v !! nonce = Some issued ∨ u64 (issued + ttl_ms (options_ v)) < clock.
Lemma spent_after v fields now nonce issued clock : clock ≤ now → spent v nonce issued clock → spent (verify hmac_sha256 v fields now).1 nonce issued now.
Proof.
  unfold spent. destruct (verify_keeps v fields now) as [_ ->]. intros Hle [Hs|Hs]; [|right; lia].
  unfold verify. destruct (check_command _ v fields now) as [r|[n t]]; [by left|]. unfold record_nonce.
  destruct (decide (u64 (issued + ttl_ms (options_ v)) < now)) as [Hlt|Hge]; [by right|]. left.
  set (seen := filter _ (seen_nonces_ v)). assert (Hin : seen !! nonce = Some issued) by (by apply map_lookup_filter_Some).
  destruct (seen !! n) eqn:En; [done|]. cbn. rewrite lookup_insert_ne; [done|]. intros ->. congruence.
Qed.
Lemma spent_refused v fields now nonce issued text clock : fields !! "issued_at" = Some text → parse_u64 text = Some issued →
  fields !! "nonce" = Some nonce → clock ≤ now → spent v nonce issued clock → (verify hmac_sha256 v fields now).2 ≠ kOk.
Proof.
  intros Ht Hi Hn Hle Hs Hok. destruct (verify hmac_sha256 v fields now) as [v' r] eqn:E. cbn in Hok. subst r.
  apply verified_fields in E as (issued' & nonce' & text' & Ht' & Hi' & Hn' & _ & _ & _ & _ & Hexp & Hrec).
  assert (issued' = issued ∧ nonce' = nonce) as [-> ->] by (split; congruence). unfold record_nonce in Hrec.
  destruct Hs as [Hs|Hs]; [|lia]. destruct (filter _ (seen_nonces_ v) !! nonce) eqn:En; [done|].
  apply map_lookup_filter_None in En as [En|En]; [congruence|]. by apply (En issued Hs); cbn; lia.
Qed.
Lemma spent_all v calls nonce issued clock fields text : fields !! "issued_at" = Some text → parse_u64 text = Some issued →
  fields !! "nonce" = Some nonce → StronglySorted Z.le (clock :: calls.*2) → spent v nonce issued clock →
  ∀ j now, calls !! j = Some (fields, now) → (verify_all v calls).2 !! j ≠ Some kOk.
Proof.
  intros Ht Hi Hn. revert v clock. induction calls as [|[f t] calls IH]; intros v clock Hs Hsp j now Hj; [done|]. cbn [verify_all].
  apply StronglySorted_inv in Hs as [Hs Hle]. cbn in Hs, Hle. apply Forall_cons in Hle as [Hle _].
  pose proof (spent_after v f t nonce issued clock Hle Hsp) as Hsp'. pose proof (spent_refused v f t nonce issued text clock) as Hr.
  destruct (verify hmac_sha256 v f t) as [v' r] eqn:E. cbn [fst snd] in *. specialize (IH v' t Hs Hsp'). destruct (verify_all v' calls) as [v'' rs].
  destruct j as [|j]; cbn in *; [|by eapply IH]. injection Hj as -> ->. intros [= ->]. by apply Hr.
Qed.
Lemma verify_spends v fields now v' : verify hmac_sha256 v fields now = (v', kOk) → ∃ issued nonce text,
  fields !! "issued_at" = Some text ∧ parse_u64 text = Some issued ∧ fields !! "nonce" = Some nonce ∧ spent v' nonce issued now.
Proof.
  intros (issued & nonce & text & Ht & Hi & Hn & _ & _ & _ & _ & _ & Hrec)%verified_fields. exists issued, nonce, text. split_and!; try done.
  unfold record_nonce in Hrec. destruct (filter _ (seen_nonces_ v) !! nonce); [done|]. injection Hrec as <-. left. apply lookup_insert_eq.
Qed.
End Once.
(** C13: Administrator commands are authentic, timely and executed once.  Over any
    sequence of messages that a server checks with a clock that does not go back,
    an accepted command carries the signature of its fields under the server's
    secret and lies within the time window, and no command is accepted twice, also
    after its nonce has been forgotten. *)
Theorem admin_commands_once (hmac_sha256 : string → string → option (list Z)) (v : Verifier) (calls : list (FieldMap * Z))
    (Hclock : StronglySorted Z.le calls.*2) :
  (∀ i fields now, calls !! i = Some (fields, now) → (verify_all hmac_sha256 v calls).2 !! i = Some kOk →
     secret_ v ≠ EmptyString ∧ fields !! "signature" = Some (sign_fields hmac_sha256 fields (secret_ v)) ∧
     ∃ text issued, fields !! "issued_at" = Some text ∧ parse_u64 text = Some issued ∧
       issued ≤ u64 (now + future_skew_ms (options_ v)) ∧ now ≤ u64 (issued + ttl_ms (options_ v))) ∧
  (∀ i j fields now now', (i < j)%nat → calls !! i = Some (fields, now) → calls !! j = Some (fields, now') →
     (verify_all hmac_sha256 v calls).2 !! i = Some kOk → (verify_all hmac_sha256 v calls).2 !! j ≠ Some kOk).
Proof.
  revert v Hclock. induction calls as [|[f t] calls IH]; intros v Hs; [done|]. cbn in Hs. pose proof Hs as [Hs' _]%StronglySorted_inv.
  cbn [verify_all]. pose proof (verify_keeps hmac_sha256 v f t) as [Hk1 Hk2]. destruct (verify hmac_sha256 v f t) as [v' r] eqn:E. cbn [fst] in *.
  destruct (IH v' Hs') as [IH1 IH2]. pose proof (spent_all hmac_sha256 v' calls) as Hsp. destruct (verify_all hmac_sha256 v' calls) as [v'' rs].
  cbn [snd] in *. rewrite Hk1, Hk2 in IH1. split.
  - intros [|i] fields now Hi Hr; cbn in Hi, Hr; [|by eapply IH1]. injection Hi as -> ->. injection Hr as ->.
    apply verified_fields in E as (issued & nonce & text & ? & ? & ? & ? & ? & ? & ? & ? & ?). split_and!; eauto 10.
  - intros i [|j] fields now now' Hij Hi Hj Hr; [lia|]. cbn in Hj. destruct i as [|i]; cbn in Hi, Hr; [|by eapply (IH2 i j); [lia|..]].
    injection Hi as -> ->. injection Hr as ->. apply verify_spends in E as (issued & nonce & text & Ht & Hi & Hn & Hspent). by eapply Hsp.
Qed.

(** ** Lists in a field *)
Definition token_ok (c : char) (t : string) : Prop := t ≠ EmptyString ∧ trim t = t ∧ has_char c t = false.
Lemma split_no_char c s : Forall (λ t, has_char c t = false) (split_on c s).
Proof.
  induction s as [|c' s IH]; [by repeat constructor|]. cbn. case_bool_decide as E; [by constructor|].
  destruct (split_on c s) as [|l ls]; [done|]. apply Forall_cons in IH as [Hl Hls]. constructor; [|done]. cbn. rewrite Hl. by rewrite bool_decide_eq_false_2.
Qed.
Lemma split_tokens raw : Forall (token_ok comma_sign) (split_csv_trimmed raw).
Proof.
  unfold split_csv_trimmed. apply Forall_forall. intros t [Hne (u & -> & Hu)%list_elem_of_fmap]%list_elem_of_filter.
  pose proof (split_no_char comma_sign raw) as Hs. rewrite Forall_forall in Hs. split_and!; [done|apply trim_trim|by apply has_char_trim, Hs].
Qed.
Lemma split_join_csv l : Forall (token_ok comma_sign) l → l ≠ [] → split_csv_trimmed (join_csv l) = l.
Proof.
  intros Hl Hne. unfold split_csv_trimmed, join_csv. rewrite split_join_with; [|done|eapply Forall_impl; [exact Hl|]; by intros t (_ & _ & ?)].
  clear Hne. induction Hl as [|t l (Ht & Htr & _) _ IH]; [done|]. cbn. rewrite Htr, decide_True by done. by f_equal.
Qed.
Lemma join_csv_plain l : l ≠ [] → Forall (λ t, t ≠ EmptyString ∧ plain t) l → plain (join_csv l) ∧ join_csv l ≠ EmptyString.
Proof.
  intros Hne Hl. unfold join_csv. assert (Hnl : has_char newline (join_with comma_sign l) = false).
  { apply has_char_join; [done|]. eapply Forall_impl; [exact Hl|]. by intros t (_ & ? & _). }
  assert (Hr : rtrim (join_with comma_sign l) = join_with comma_sign l ∧ join_with comma_sign l ≠ EmptyString).
  { clear Hnl. induction Hl as [|t l (Ht & _ & Htr) Hl IH]; [done|]. destruct l as [|t2 l]; [split; [by apply trimmed_right|done]|].
    destruct IH as [IH IHne]; [done|]. change (join_with comma_sign (t :: t2 :: l)) with (t +:+ String comma_sign (join_with comma_sign (t2 :: l))).
    assert (Hc : rtrim (String comma_sign (join_with comma_sign (t2 :: l))) = String comma_sign (join_with comma_sign (t2 :: l))).
    { cbn [rtrim]. rewrite IH. by rewrite bool_decide_eq_false_2. }
    split; [|by destruct t]. rewrite rtrim_app; rewrite Hc; done. }
  destruct Hr as [Hr Hjne]. split; [|done]. split; [done|]. apply trimmed_both; [|done]. destruct Hl as [|t l (Ht & _ & Htr) Hl]; [done|].
  apply trimmed_left in Htr. destruct l as [|t2 l]; [done|].
  change (join_with comma_sign (t :: t2 :: l)) with (t +:+ String comma_sign (join_with comma_sign (t2 :: l))). by rewrite ltrim_app; rewrite Htr.
Qed.
Lemma sanitize_plain s : plain (sanitize_single_line s).
Proof.
  unfold sanitize_single_line. split; [|apply trim_trim]. apply has_char_trim. induction s as [|c s IH]; [done|]. cbn [sanitize_chars has_char].
  rewrite IH, orb_false_r. apply bool_decide_eq_false_2. destruct ((code c =? 10) || (code c =? 13)) eqn:E; [done|]. intros ->. done.
Qed.
Lemma dedup_ok (P : string → Prop) ts : (∀ t, P t → P (trim t)) → Forall P ts → Forall (λ t, acceptable_target t = true ∧ trim t = t ∧ P t) (dedup_targets ts).
Proof.
  intros HP Hts. unfold dedup_targets. set (Q := λ t, acceptable_target t = true ∧ trim t = t ∧ P t).
  assert (H : ∀ acc, Forall Q acc → Forall Q
    (foldl (λ acc t, let t := trim t in if acceptable_target t && bool_decide (t ∉ acc) then acc ++ [t] else acc) acc ts)); [|by apply H].
  induction Hts as [|t ts Ht Hts IH]; intros acc Hacc; [done|]. cbn [foldl]. apply IH. cbv zeta. destruct (acceptable_target (trim t) && _) eqn:E; [|done].
  apply andb_true_iff in E as [E _]. apply Forall_app. split; [done|]. apply Forall_singleton. split_and!; [done|apply trim_trim|by apply HP].
Qed.
Lemma split_has_char c d s : has_char d s = false → Forall (λ t, has_char d t = false) (split_on c s).
Proof.
  induction s as [|c' s IH]; cbn; intros H; [by repeat constructor|]. apply orb_false_iff in H as [H1 H2]. specialize (IH H2). destruct (bool_decide (c' = c)); [by constructor|].
  destruct (split_on c s) as [|l ls]; [done|]. apply Forall_cons in IH as [Hl Hls]. constructor; [|done]. cbn. by rewrite H1.
Qed.
Lemma split_csv_line raw : has_char newline raw = false → Forall (λ t, has_char newline t = false) (split_csv_trimmed raw).
Proof.
  intros H. unfold split_csv_trimmed. apply Forall_forall. intros t [_ (u & -> & Hu)%list_elem_of_fmap]%list_elem_of_filter.
  pose proof (split_has_char comma_sign newline raw H) as Hs. rewrite Forall_forall in Hs. by apply has_char_trim, Hs.
Qed.

(** ** Selectors *)
Lemma append_csv_same k l f : append_csv_field k l f !! k = match l with [] => f !! k | _ => Some (join_csv l) end.
Proof. destruct l; [done|]. apply lookup_insert_eq. Qed.
Lemma append_csv_other k k' l f : k ≠ k' → append_csv_field k l f !! k' = f !! k'.
Proof. intros Hne. destruct l; [done|]. by apply lookup_insert_ne. Qed.
Definition no_selector (f : FieldMap) : Prop := ∀ k, k ∈ "all" :: selector_keys → f !! k = None.
Lemma parse_selector_ext f g : (∀ k, k ∈ "all" :: selector_keys → f !! k = g !! k) → parse_selector f = parse_selector g.
Proof.
  intros H. unfold parse_selector, csv_field.
  assert (Hg : bool_decide (Exists (λ k, is_Some (f !! k)) selector_keys) = bool_decide (Exists (λ k, is_Some (g !! k)) selector_keys)).
  { apply bool_decide_ext. rewrite !Exists_exists. split; intros (k & Hk & Hs); exists k; (split; [done|]); [rewrite <- H|rewrite H]; try done; by right. }
  rewrite Hg, !H by (unfold selector_keys; set_solver). done.
Qed.
(** The list of a selector under its parameter name. *)
Definition selector_list (s : InstanceSelector) (k : string) : list string :=
  if bool_decide (k = "server_ids") then sel_server_ids s else if bool_decide (k = "roles") then sel_roles s
  else if bool_decide (k = "game_modes") then sel_game_modes s else if bool_decide (k = "regions") then sel_regions s
  else if bool_decide (k = "shards") then sel_shards s else sel_tags s.
Definition names_instances (s : InstanceSelector) : bool := bool_decide (Exists (λ k, selector_list s k ≠ []) selector_keys).
Ltac each_selector H := unfold selector_keys in H; rewrite !elem_of_cons, elem_of_nil in H; destruct_or! H; try done; subst.
Lemma appended_lookup base sp k : no_selector base → sp_specified sp = true → k ∈ selector_keys →
  append_selector_command_fields base sp !! k = match selector_list (sp_selector sp) k with [] => None | l => Some (join_csv l) end.
Proof.
  intros Hbase Hspec Hk. unfold append_selector_command_fields. rewrite Hspec. cbn [negb].
  assert (Hb : (if sp_all_specified sp then <["all" := if sel_all (sp_selector sp) then "1" else "0"]> base else base) !! k = None).
  { destruct (sp_all_specified sp); [rewrite lookup_insert_ne|]; try (apply Hbase; by right). unfold selector_keys in Hk. set_solver. }
  revert Hb. generalize (if sp_all_specified sp then <["all" := if sel_all (sp_selector sp) then "1" else "0"]> base else base). intros f Hb.
  each_selector Hk; rewrite ?append_csv_same, ?append_csv_other by done; rewrite ?append_csv_same, ?append_csv_other by done;
    unfold selector_list; repeat (rewrite bool_decide_eq_false_2 by done); rewrite ?bool_decide_eq_true_2 by done; case_match; try done;
    by rewrite ?append_csv_other, Hb.
Qed.
Lemma appended_other base sp k : k ∉ "all" :: selector_keys → append_selector_command_fields base sp !! k = base !! k.
Proof.
  intros Hk. unfold append_selector_command_fields. destruct (negb _); [done|]. unfold selector_keys in Hk.
  rewrite !append_csv_other by set_solver. case_match; [|done]. apply lookup_insert_ne. set_solver.
Qed.
Lemma appended_all base sp : no_selector base → sp_specified sp = true → append_selector_command_fields base sp !! "all" =
  if sp_all_specified sp then Some (if sel_all (sp_selector sp) then "1" else "0") else None.
Proof.
  intros Hb Hs. unfold append_selector_command_fields. rewrite Hs. cbn [negb]. rewrite !append_csv_other by done. destruct (sp_all_specified sp); [apply lookup_insert_eq|].
  apply Hb. left.
Qed.
Lemma parsed_list params k : sp_ok (parse_selector params) = true → k ∈ selector_keys → selector_list (sp_selector (parse_selector params)) k = csv_field params k.
Proof.
  intros Hok Hk. unfold parse_selector in *. destruct (match params !! "all" with Some v => Some (truthy v) | None => None end) as [[|]|]; try done; cbn [sp_selector]; each_selector Hk; unfold selector_list;
    repeat (rewrite bool_decide_eq_false_2 by done); rewrite ?bool_decide_eq_true_2 by done; done.
Qed.
Lemma selector_eq s t : sel_all s = sel_all t → (∀ k, k ∈ selector_keys → selector_list s k = selector_list t k) → s = t.
Proof.
  intros Ha H. assert (H' : ∀ k, k ∈ selector_keys → selector_list s k = selector_list t k) by done. destruct s, t. cbn in Ha.
  pose proof (H' "server_ids" ltac:(unfold selector_keys; set_solver)). pose proof (H' "roles" ltac:(unfold selector_keys; set_solver)).
  pose proof (H' "game_modes" ltac:(unfold selector_keys; set_solver)). pose proof (H' "regions" ltac:(unfold selector_keys; set_solver)).
  pose proof (H' "shards" ltac:(unfold selector_keys; set_solver)). pose proof (H' "tags" ltac:(unfold selector_keys; set_solver)).
  repeat match goal with h : selector_list _ _ = _ |- _ => vm_compute in h end. congruence.
Qed.
Lemma csv_tokens params k : Forall (token_ok comma_sign) (csv_field params k).
Proof. unfold csv_field. destruct (params !! k); [apply split_tokens|done]. Qed.
(** The servers read the selector that was asked for, when it names anything. *)
Lemma server_selector base params : no_selector base → let sp := parse_selector params in
  sp_ok sp = true → sp_specified sp = true → sp_all_specified sp || names_instances (sp_selector sp) = true →
  let sp' := parse_selector (append_selector_command_fields base sp) in sp_ok sp' = true ∧ sp_specified sp' = true ∧ sp_selector sp' = sp_selector sp.
Proof.
  intros Hbase sp Hok Hspec Hnames sp'. set (F := append_selector_command_fields base sp) in sp'.
  assert (Hall : F !! "all" = if sp_all_specified sp then Some (if sel_all (sp_selector sp) then "1" else "0") else None) by by apply appended_all.
  assert (Hl : ∀ k, k ∈ selector_keys → F !! k = match selector_list (sp_selector sp) k with [] => None | l => Some (join_csv l) end) by (intros; by apply appended_lookup).
  assert (Hcsv : ∀ k, k ∈ selector_keys → csv_field F k = selector_list (sp_selector sp) k).
  { intros k Hk. unfold csv_field at 1. rewrite Hl by done. pose proof (parsed_list params k Hok Hk) as Hp. fold sp in Hp.
    destruct (selector_list (sp_selector sp) k) as [|t l] eqn:E; [done|]. apply split_join_csv; [|done]. rewrite Hp. apply csv_tokens. }
  assert (Hsel : sel_all (sp_selector sp) = true → sp_all_specified sp = true).
  { unfold sp, parse_selector. destruct (params !! "all") as [v|]; [|done]. by destruct (truthy v) as [[]|]. }
  assert (Hok' : sp_ok sp' = true ∧ sel_all (sp_selector sp') = sel_all (sp_selector sp) ∧
    sp_specified sp' = sp_all_specified sp || bool_decide (Exists (λ k, is_Some (F !! k)) selector_keys)).
  { unfold sp', parse_selector. rewrite Hall. destruct (sp_all_specified sp); [destruct (sel_all (sp_selector sp)); done|].
    destruct (sel_all (sp_selector sp)); [by specialize (Hsel eq_refl)|done]. }
  destruct Hok' as (H1 & H2 & H3). split_and!; [done| |].
  - rewrite H3. apply orb_true_iff in Hnames as [->|Hn]; [done|]. apply orb_true_iff. right. apply bool_decide_eq_true in Hn. apply bool_decide_eq_true.
    rewrite Exists_exists in *. destruct Hn as (k & Hk & Hne). exists k. split; [done|]. rewrite Hl by done. by destruct (selector_list (sp_selector sp) k).
  - apply selector_eq; [done|]. intros k Hk. unfold sp' in *. rewrite (parsed_list F k H1 Hk). by apply Hcsv.
Qed.
Lemma unselected base params : no_selector base → sp_specified (parse_selector params) = false →
  sp_specified (parse_selector (append_selector_command_fields base (parse_selector params))) = false.
Proof.
  intros Hb Hs. unfold append_selector_command_fields. rewrite Hs. cbn [negb]. rewrite (parse_selector_ext base ∅); [done|].
  intros k Hk. rewrite lookup_empty. by apply Hb.
Qed.

(** ** From request to command *)
Ltac key := split_and!; [done|split; reflexivity|reflexivity].
Lemma plain_fields_insert k v f : key_ok k → plain v → plain_fields f → plain_fields (<[k := v]> f).
Proof. intros Hk Hv Hf. by apply map_Forall_insert_2. Qed.
Section Path.
Context (hmac_sha256 : string → string → option (list Z)).
(** OpenSSL's HMAC-SHA256 gives a digest for every key and text. *)
Context (Hhmac : ∀ key data, ∃ b digest, hmac_sha256 key data = Some (b :: digest)).

Definition stamped (fields : FieldMap) (issued : Z) (nonce : string) : FieldMap :=
  delete "signature" (<["nonce" := nonce]> (<["issued_at" := print_u64 issued]> fields)).
Lemma stamped_signs fields issued nonce secret : secret ≠ EmptyString → sign_fields hmac_sha256 (stamped fields issued nonce) secret ≠ EmptyString.
Proof.
  intros Hs. unfold sign_fields. rewrite bool_decide_eq_false_2 by done. rewrite bool_decide_eq_false_2.
  - destruct (Hhmac secret (canonical_signing_data (stamped fields issued nonce))) as (b & digest & ->). done.
  - apply signing_data_nonempty. intros E. assert (H : delete "signature" (stamped fields issued nonce) !! "nonce" = Some nonce).
    { unfold stamped. rewrite !lookup_delete_ne by done. apply lookup_insert_eq. }
    by rewrite E in H.
Qed.
Lemma sign_same f g secret : delete "signature" f = delete "signature" g → sign_fields hmac_sha256 f secret = sign_fields hmac_sha256 g secret.
Proof. intros E. unfold sign_fields, canonical_signing_data. by rewrite E. Qed.
Definition signed (fields : FieldMap) (issued : Z) (nonce secret : string) : FieldMap :=
  <["signature" := sign_fields hmac_sha256 (stamped fields issued nonce) secret]> (stamped fields issued nonce).
Lemma append_signed fields secret issued nonce : secret ≠ EmptyString →
  append_signature_fields hmac_sha256 fields secret issued nonce = Some (signed fields issued nonce secret).
Proof.
  intros Hs. unfold append_signature_fields. rewrite bool_decide_eq_false_2 by done. cbv zeta.
  rewrite bool_decide_eq_false_2; [done|]. by apply stamped_signs.
Qed.
Lemma signed_lookup fields issued nonce secret k : k ∉ ["signature"; "nonce"; "issued_at"] → signed fields issued nonce secret !! k = fields !! k.
Proof.
  clear Hhmac. intros Hk. unfold signed, stamped. rewrite lookup_insert_ne by set_solver. rewrite lookup_delete_ne by set_solver.
  by rewrite !lookup_insert_ne by set_solver.
Qed.
Lemma sign_plain f secret : plain (sign_fields hmac_sha256 f secret).
Proof. unfold sign_fields. repeat case_bool_decide; [done..|]. case_match; [apply hex_text_plain|done]. Qed.
Lemma signed_plain fields issued nonce secret : plain_fields fields → plain nonce → 0 ≤ issued → plain_fields (signed fields issued nonce secret).
Proof.
  intros Hf Hn Hi. unfold signed, stamped. apply plain_fields_insert; [key|apply sign_plain|]. apply map_Forall_delete.
  apply plain_fields_insert; [key|done|]. apply plain_fields_insert; [key|by apply plain_print_u64|done].
Qed.
Lemma signed_verifies v fields issued nonce now : secret_ v ≠ EmptyString → nonce ≠ EmptyString → is_u64 issued →
  issued ≤ u64 (now + future_skew_ms (options_ v)) → now ≤ u64 (issued + ttl_ms (options_ v)) → seen_nonces_ v !! nonce = None →
  (verify hmac_sha256 v (signed fields issued nonce (secret_ v)) now).2 = kOk.
Proof.
  intros Hs Hn Hi Hf He Hseen. unfold verify, check_command. rewrite bool_decide_eq_false_2 by done.
  assert (H1 : signed fields issued nonce (secret_ v) !! "issued_at" = Some (print_u64 issued)).
  { unfold signed, stamped. rewrite lookup_insert_ne, lookup_delete_ne, lookup_insert_ne by done. apply lookup_insert_eq. }
  assert (H2 : signed fields issued nonce (secret_ v) !! "nonce" = Some nonce).
  { unfold signed, stamped. rewrite lookup_insert_ne, lookup_delete_ne by done. apply lookup_insert_eq. }
  assert (H3 : sign_fields hmac_sha256 (signed fields issued nonce (secret_ v)) (secret_ v) = sign_fields hmac_sha256 (stamped fields issued nonce) (secret_ v)).
  { apply sign_same. unfold signed. by rewrite delete_insert_eq. }
  rewrite H1, H2. unfold signed at 1. rewrite lookup_insert_eq, H3. pose proof (stamped_signs fields issued nonce (secret_ v) Hs) as H4.
  rewrite (bool_decide_eq_false_2 (print_u64 issued = _)) by apply print_u64_nonempty. rewrite (bool_decide_eq_false_2 (nonce = _)) by done.
  rewrite !(bool_decide_eq_false_2 (sign_fields _ _ _ = _)) by done. cbn [orb]. rewrite parse_print_u64 by done.
  replace (_ <? issued) with false by lia. replace (_ <? now) with false by lia. rewrite bool_decide_eq_true_2 by done. cbn [negb].
  unfold record_nonce. replace (filter _ _ !! nonce) with (@None Z); [done|]. symmetry. apply map_lookup_filter_None. by left.
Qed.
(** Strings after a common prefix. *)
Lemma app_prefix_inj (p a b : string) : p +:+ a = p +:+ b ↔ a = b.
Proof. split; [|by intros ->]. induction p as [|c p IH]; cbn; [done|]. intros [= H]. by apply IH. Qed.
Lemma exact_channel prefix c : match_exact_channel prefix (prefix +:+ c) = snd <$> head (filter (λ e, c = e.1) exact_suffixes).
Proof.
  unfold match_exact_channel, exact_channels. induction exact_suffixes as [|e l IH]; [done|]. rewrite fmap_cons, !filter_cons. cbn [fst].
  destruct (decide (c = e.1)) as [->|Hne]; [by rewrite decide_True|]. rewrite decide_False by (by rewrite app_prefix_inj). apply IH.
Qed.
Lemma after_prefix_none prefix a b : after_prefix a b = None → after_prefix (prefix +:+ a) (prefix +:+ b) = None.
Proof.
  intros H. destruct (after_prefix (prefix +:+ a) (prefix +:+ b)) as [v|] eqn:E; [|done]. apply after_prefix_spec in E.
  rewrite string_app_assoc in E. apply app_prefix_inj in E. by apply after_prefix_spec in E as E'; rewrite H in E'.
Qed.
(** The message of a command as a server receives it. *)
Lemma signed_delivery v local now gateway_id prefix suffix kind fields issued nonce : plain_fields fields → plain nonce → nonce ≠ EmptyString → is_u64 issued →
  secret_ v ≠ EmptyString → issued ≤ u64 (now + future_skew_ms (options_ v)) → now ≤ u64 (issued + ttl_ms (options_ v)) → seen_nonces_ v !! nonce = None →
  gateway_id ≠ "admin_app" → kind ≠ kWhisper → (suffix, kind) ∈ exact_suffixes →
  let sp := parse_selector (signed fields issued nonce (secret_ v)) in
  (on_fanout_message hmac_sha256 prefix gateway_id local v now (prefix +:+ suffix)
     ("gw=admin_app" +:+ String newline (to_kv_payload (signed fields issued nonce (secret_ v))))).2 =
  if negb (sp_specified sp) || sp_ok sp && matches_selector local (sp_selector sp)
  then from_option faAdmin faNone (dispatch_admin kind (signed fields issued nonce (secret_ v))) else faNone.
Proof.
  intros Hf Hn Hne Hi Hs Hfu Hex Hfresh Hgw Hkind Hin sp. set (S := signed fields issued nonce (secret_ v)) in *.
  change (on_fanout_message hmac_sha256 prefix gateway_id local v now (prefix +:+ suffix) ("gw=admin_app" +:+ String newline (to_kv_payload S))) with
    (if bool_decide ("admin_app" = gateway_id) then (v, faNone)
     else match after_prefix (prefix +:+ "fanout:refresh:") (prefix +:+ suffix) with
     | Some room => (v, faRefresh room)
     | None => match after_prefix (prefix +:+ "fanout:room:") (prefix +:+ suffix) with
               | Some room => (v, faRoom room (to_kv_payload S))
               | None => on_exact_message hmac_sha256 prefix local v now (prefix +:+ suffix) (Some (to_kv_payload S))
               end
     end).
  rewrite bool_decide_eq_false_2 by done.
  assert (after_prefix "fanout:refresh:" suffix = None ∧ after_prefix "fanout:room:" suffix = None ∧ match_exact_channel prefix (prefix +:+ suffix) = Some kind) as (H1 & H2 & H3).
  { rewrite exact_channel. unfold exact_suffixes in Hin. rewrite !elem_of_cons, elem_of_nil in Hin. destruct_or! Hin; by simplify_eq. }
  rewrite !after_prefix_none by done. unfold on_exact_message. rewrite H3, parse_payload by (apply signed_plain; [done..|apply Hi]).
  unfold verify_admin_fields. pose proof (signed_verifies v fields issued nonce now Hs Hne Hi Hfu Hex Hfresh) as Hok. fold S in Hok.
  destruct (verify hmac_sha256 v S now) as [v' r]. cbn [snd] in Hok. subst r. cbn [negb bool_decide]. unfold parse_admin_selector_fields. fold sp.
  destruct kind; done.
Qed.
End Path.

(** A request, with the operation that its route names. *)
Inductive AdminRequest := rqDisconnect | rqAnnounce | rqSetting | rqModeration (op : string).
Definition handle_command hmac_sha256 (env : AdminEnv) (rq : AdminRequest) (query : string) : AdminResult :=
  match rq with
  | rqDisconnect => handle_disconnect_users hmac_sha256 env query
  | rqAnnounce => handle_announcement hmac_sha256 env query
  | rqSetting => handle_runtime_setting hmac_sha256 env query
  | rqModeration op => handle_user_moderation hmac_sha256 env op query
  end.
(** What the administrator asks the servers to do. *)
Definition meant (rq : AdminRequest) (params : FieldMap) : option AdminCommand :=
  let users := dedup_targets (requested_targets params) in
  match rq with
  | rqDisconnect => Some (acDisconnect users (or_default (sanitize_single_line (disconnect_reason params)) "Disconnected by administrator"))
  | rqAnnounce => (λ text, acAnnounce (sanitize_single_line text)) <$> params !! "text"
  | rqSetting => match params !! "key", params !! "value" with
                 | Some k, Some v => (λ n, acSetting (lower (trim k)) (print_u64 n)) <$> parse_u32 (trim v)
                 | _, _ => None
                 end
  | rqModeration op => (λ d, acModeration op users d (moderation_reason params)) <$> moderation_duration params
  end.
Definition request_kind (rq : AdminRequest) : string * ExactFanoutChannel :=
  match rq with
  | rqDisconnect => ("fanout:admin:disconnect", kAdminDisconnect) | rqAnnounce => ("fanout:admin:announce", kAdminAnnounce)
  | rqSetting => ("fanout:admin:settings", kAdminSettings) | rqModeration _ => ("fanout:admin:moderation", kAdminModeration)
  end.
(** The parameters a command can carry unharmed: lists without line breaks, one
    client in [client_id], a selector that names something, and a moderation with a
    known operation and a reason that does not end in a blank when it is cut. *)
Record carried (rq : AdminRequest) (params : FieldMap) : Prop := {
  ca_lines : ∀ k v, k ∈ "client_id" :: "client_ids" :: selector_keys → params !! k = Some v → has_char newline v = false;
  ca_client : ∀ v, params !! "client_id" = Some v → has_char comma_sign v = false;
  ca_selector : sp_specified (parse_selector params) = true →
    sp_all_specified (parse_selector params) || names_instances (sp_selector (parse_selector params)) = true;
  ca_moderation : match rq with rqModeration op => sanitize_single_line op = op ∧ op ≠ EmptyString ∧ trim (moderation_reason params) = moderation_reason params | _ => True end;
}.
Lemma with_selector_sent hmac_sha256 env query failed suffix f channel message reply :
  with_selector hmac_sha256 env query failed suffix f = (Some (channel, message), reply) → let params := parse_query_string query in
  ∃ base, f params = inr base ∧ sp_ok (parse_selector params) = true ∧ channel = ae_prefix env +:+ suffix ∧
    build_signed_admin_message hmac_sha256 env (append_selector_command_fields base (parse_selector params)) = Some message.
Proof.
  unfold with_selector, send_command, bad_request. destruct (ae_redis env); [|done]. cbn [negb]. destruct (sp_ok _); [|done]. cbn [negb].
  destruct (f (parse_query_string query)) as [m|base] eqn:Ef; [done|]. destruct (build_signed_admin_message _ _ _) eqn:Eb; [|done]. intros [= <- <- _].
  by exists base.
Qed.
Lemma common_plain env op : plain op → 0 ≤ ae_request_id env → plain_fields (common_fields env op).
Proof.
  intros Hop Hid. unfold common_fields. apply plain_fields_insert; [key|done|]. apply plain_fields_insert; [key|apply sanitize_plain|].
  apply map_Forall_singleton. split; [key|]. apply (plain_print_u64 (ae_request_id env)) in Hid as [H1 H2]. split; [done|].
  pose proof (print_u64_nonempty (ae_request_id env)) as Hne. apply trimmed_both; [done|]. apply trimmed_right in H2.
  rewrite rtrim_app; rewrite H2; done.
Qed.
Lemma carried_csv rq params k : carried rq params → k ∈ "client_ids" :: selector_keys →
  Forall (λ t, token_ok comma_sign t ∧ has_char newline t = false) (csv_field params k).
Proof.
  intros Hc Hk. apply Forall_and. split; [apply csv_tokens|]. unfold csv_field. destruct (params !! k) eqn:E; [|done].
  apply split_csv_line. eapply (ca_lines _ _ Hc k); [set_solver|done].
Qed.
Lemma requested_clean rq params : carried rq params → Forall (λ t, has_char comma_sign t = false ∧ has_char newline t = false) (requested_targets params).
Proof.
  intros Hc. unfold requested_targets. apply Forall_app. split.
  - destruct (params !! "client_id") as [v|] eqn:E; [|done]. apply Forall_forall. intros t [_ ->%list_elem_of_singleton]%list_elem_of_filter.
    split; apply has_char_trim; [by eapply ca_client|]. eapply (ca_lines _ _ Hc); [|done]. set_solver.
  - eapply Forall_impl; [apply (carried_csv rq _ "client_ids"); [done|left]|]. by intros t [(_ & _ & ?) ?].
Qed.
Lemma targets_lists rq params users : carried rq params → valid_targets params = inr users →
  users = dedup_targets (requested_targets params) ∧ plain (join_csv users) ∧ join_csv users ≠ EmptyString ∧ users ≠ [] ∧ split_csv_trimmed (join_csv users) = users.
Proof.
  intros Hc Hv. assert (users = dedup_targets (requested_targets params) ∧ users ≠ []) as [-> Hne].
  { revert Hv. unfold valid_targets. repeat case_bool_decide; [done..|]. by intros [= <-]. }
  pose proof (dedup_ok _ _ (λ t H, conj (has_char_trim _ _ (proj1 H)) (has_char_trim _ _ (proj2 H))) (requested_clean rq params Hc)) as Hd.
  assert (Hacc : ∀ t, acceptable_target t = true → t ≠ EmptyString) by by intros [].
  split; [done|]. apply and_assoc. split; [apply join_csv_plain|split; [|apply split_join_csv]]; try done; (eapply Forall_impl; [exact Hd|]); intros t (Ha & Ht & Hcm & Hnl);
    split_and!; auto; by split.
Qed.
Definition added_keys : list string := "signature" :: "nonce" :: "issued_at" :: "all" :: selector_keys.
Definition agrees (base F : FieldMap) : Prop := ∀ k, k ∉ added_keys → F !! k = base !! k.
Lemma agrees_at base F k v : agrees base F → k ∉ added_keys → base !! k = Some v → F !! k = Some v.
Proof. intros H Hk <-. by apply H. Qed.
Lemma filled_at (base F : FieldMap) k v : agrees base F → k ∉ added_keys → base !! k = Some v → v ≠ EmptyString → filled F k = Some v.
Proof. intros H Hk Hb Hv. unfold filled. rewrite (agrees_at _ _ _ _ H Hk Hb). by rewrite bool_decide_eq_false_2. Qed.
Lemma no_selector_insert k v f : k ∉ added_keys → no_selector f → no_selector (<[k := v]> f).
Proof. intros Hk Hf k' Hk'. rewrite lookup_insert_ne; [by apply Hf|]. intros ->. apply Hk. unfold added_keys. set_solver. Qed.
Lemma no_selector_common env op : no_selector (common_fields env op).
Proof.
  intros k Hk. unfold common_fields. unfold selector_keys in Hk. rewrite !elem_of_cons, elem_of_nil in Hk.
  destruct_or! Hk; try done; subst; rewrite !lookup_insert_ne by done; by apply lookup_singleton_ne.
Qed.
Ltac not_added := apply (bool_decide_eq_true_1 (_ ∉ _)); vm_compute; reflexivity.
Ltac has_field := repeat (rewrite lookup_insert_ne by done); apply lookup_insert_eq.
Ltac bare := repeat lazymatch goal with |- no_selector (<[_ := _]> _) => apply no_selector_insert; [not_added|] end; apply no_selector_common.
(** What a request publishes: fields that can be read back, without a selector of
    their own, from which a server makes the command that was meant. *)
Definition publishes (rq : AdminRequest) (params base : FieldMap) : Prop :=
  plain_fields base ∧ no_selector base ∧ ∃ command, meant rq params = Some command ∧
    ∀ F, agrees base F → dispatch_admin (request_kind rq).2 F = Some command.
Lemma disconnect_publishes env params users : 0 ≤ ae_request_id env → carried rqDisconnect params → valid_targets params = inr users →
  publishes rqDisconnect params (<["client_ids" := join_csv users]> (<["reason" := sanitize_single_line (disconnect_reason params)]> (common_fields env "disconnect"))).
Proof.
  intros Hid Hc (-> & Hp & Hne & Hu & Hs)%(targets_lists _ _ _ Hc). split_and!; [|bare|].
  - apply plain_fields_insert; [key|done|]. apply plain_fields_insert; [key|apply sanitize_plain|]. by apply common_plain.
  - eexists. split; [reflexivity|]. intros F HF. cbn [request_kind snd dispatch_admin].
    rewrite (filled_at _ F "client_ids" _ HF ltac:(not_added) ltac:(has_field) Hne), Hs.
    unfold filled. rewrite (agrees_at _ F "reason" (sanitize_single_line (disconnect_reason params)) HF ltac:(not_added) ltac:(has_field)).
    destruct (dedup_targets (requested_targets params)); [done|]. unfold or_default. by case_bool_decide.
Qed.
Lemma announce_publishes env params text : 0 ≤ ae_request_id env → params !! "text" = Some text → sanitize_single_line text ≠ EmptyString →
  publishes rqAnnounce params (<["text" := sanitize_single_line text]> (<["priority" := announcement_priority params]> (common_fields env "announce"))).
Proof.
  intros Hid Ht Hne. split_and!; [|bare|].
  - apply plain_fields_insert; [key|apply sanitize_plain|]. apply plain_fields_insert; [key| |by apply common_plain].
    unfold announcement_priority. destruct (params !! "priority"); [|done]. cbv zeta. case_bool_decide as E; [|done].
    rewrite !elem_of_cons, elem_of_nil in E. by destruct_or! E; try done; rewrite E.
  - eexists. cbn [meant]. rewrite Ht. split; [reflexivity|]. intros F HF. cbn [request_kind snd dispatch_admin].
    by rewrite (filled_at _ F "text" _ HF ltac:(not_added) ltac:(has_field) Hne).
Qed.
Lemma rule_key_plain key r : find_runtime_setting_rule key = Some r → sanitize_single_line key = key ∧ key ≠ EmptyString.
Proof.
  unfold find_runtime_setting_rule. intros H. assert (Hin : r ∈ filter (λ r, rl_key_name r = key) kRuntimeSettingRules).
  { destruct (filter _ _); [done|]. injection H as ->. left. }
  apply list_elem_of_filter in Hin as [<- Hin]. assert (Hall : Forall (λ r, sanitize_single_line (rl_key_name r) = rl_key_name r ∧ rl_key_name r ≠ EmptyString) kRuntimeSettingRules).
  { apply (bool_decide_eq_true_1 _). by vm_compute. }
  rewrite Forall_forall in Hall. by apply Hall.
Qed.
Lemma digits_nonneg s : ∀ acc, 0 ≤ acc → 0 ≤ digits_value s acc.
Proof.
  induction s as [|c s IH]; intros acc Ha; [done|]. cbn [digits_value]. destruct (is_digit c) eqn:E; [|done]. apply IH.
  apply is_digit_code in E. lia.
Qed.
Lemma stoul_range raw n : stoul raw = Some n → 0 ≤ n.
Proof.
  unfold stoul. destruct raw as [|c rest]; [done|]. intros H. destruct (code c =? 45).
  - apply fmap_Some in H as (m & _ & ->). apply u64_range.
  - destruct (code c =? 43); destruct (bool_decide _); try done; destruct (_ <? _); try done; injection H as <-; by apply digits_nonneg.
Qed.
Lemma parse_u32_range raw n : parse_u32 raw = Some n → is_u32 n.
Proof.
  unfold parse_u32. destruct (stoul raw) as [m|] eqn:E; [|done]. apply stoul_range in E. destruct (bool_decide _); [|done]. cbn [andb].
  destruct (Z.ltb_spec m (2 ^ 32)); [|done]. intros [= <-]. by split.
Qed.
Lemma digit_prefix_all s : all_chars is_digit s = true → digit_prefix s = s.
Proof. induction s as [|c s IH]; [done|]. cbn. intros [-> H]%andb_true_iff. by rewrite IH. Qed.
Lemma stoul_print n : is_u64 n → stoul (print_u64 n) = Some n.
Proof.
  intros Hn. pose proof (print_u64_digits n Hn) as Hd. pose proof (digits_value_print_u64 n Hn) as Hv. pose proof (digit_prefix_all _ Hd) as Hp.
  pose proof (print_u64_nonempty n) as Hne. destruct (print_u64 n) as [|c s]; [done|]. pose proof Hd as Hd'. cbn in Hd'. apply andb_true_iff in Hd' as [Hc _].
  apply is_digit_code in Hc. unfold stoul. replace (code c =? 45) with false by lia. replace (code c =? 43) with false by lia.
  rewrite Hp, Hv. rewrite bool_decide_eq_false_2 by done. destruct Hn. by replace (n <? 2 ^ 64) with true by lia.
Qed.
Lemma setting_publishes env params k v n r : 0 ≤ ae_request_id env → params !! "key" = Some k → params !! "value" = Some v →
  parse_u32 (trim v) = Some n → find_runtime_setting_rule (lower (trim k)) = Some r →
  publishes rqSetting params (<["value" := print_u64 n]> (<["key" := sanitize_single_line (lower (trim k))]> (common_fields env "settings"))).
Proof.
  intros Hid Hk Hv Hn [Hkey Hne]%rule_key_plain. split_and!; [|bare|].
  - apply parse_u32_range in Hn. apply plain_fields_insert; [key|apply plain_print_u64; by destruct Hn|].
    apply plain_fields_insert; [key|apply sanitize_plain|by apply common_plain].
  - eexists. cbn [meant]. rewrite Hk, Hv, Hn. split; [reflexivity|]. intros F HF. cbn [request_kind snd dispatch_admin].
    rewrite (filled_at _ F "key" (sanitize_single_line (lower (trim k))) HF ltac:(not_added) ltac:(has_field)) by congruence.
    rewrite (filled_at _ F "value" (print_u64 n) HF ltac:(not_added) ltac:(has_field)) by apply print_u64_nonempty. by rewrite Hkey.
Qed.
Lemma has_char_resize c n s : has_char c s = false → has_char c (resize n s) = false.
Proof.
  unfold resize. revert n. induction s as [|c' s IH]; intros [|n] H; cbn in *; try done. apply orb_false_iff in H as [-> H]. by apply IH.
Qed.
Lemma moderation_publishes env params op users d : 0 ≤ ae_request_id env → carried (rqModeration op) params → valid_targets params = inr users →
  moderation_duration params = Some d → publishes (rqModeration op) params (<["client_ids" := join_csv users]> (<["reason" := moderation_reason params]>
    (<["duration_sec" := print_u64 d]> (common_fields env (sanitize_single_line op))))).
Proof.
  intros Hid Hc (-> & Hp & Hne & Hu & Hs)%(targets_lists _ _ _ Hc) Hd. destruct (ca_moderation _ _ Hc) as (Hop & Hopne & Htrim).
  assert (Hr : is_u32 d).
  { revert Hd. unfold moderation_duration. destruct (params !! "duration_sec") as [v|]; [|by intros [= <-]].
    case_bool_decide; [by intros [= <-]|]. apply parse_u32_range. }
  split_and!; [|bare|].
  - apply plain_fields_insert; [key|done|]. apply plain_fields_insert; [key| |].
    { split; [|done]. unfold moderation_reason. destruct (params !! "reason"); [|done]. apply has_char_resize, sanitize_plain. }
    apply plain_fields_insert; [key|apply plain_print_u64; by destruct Hr|]. apply common_plain; [apply sanitize_plain|done].
  - eexists. cbn [meant]. rewrite Hd. split; [reflexivity|]. intros F HF. cbn [request_kind snd dispatch_admin].
    rewrite (filled_at _ F "client_ids" _ HF ltac:(not_added) ltac:(has_field) Hne), Hs.
    rewrite (filled_at _ F "op" (sanitize_single_line op) HF ltac:(not_added) ltac:(unfold common_fields; has_field)) by congruence.
    rewrite (filled_at _ F "duration_sec" (print_u64 d) HF ltac:(not_added) ltac:(has_field)) by apply print_u64_nonempty.
    rewrite (agrees_at _ F "reason" (moderation_reason params) HF ltac:(not_added) ltac:(has_field)).
    rewrite stoul_print by by apply u64_of_u32. cbn [from_option default]. rewrite Hop, u32_small by done.
    by destruct (dedup_targets (requested_targets params)).
Qed.
Lemma request_publishes hmac_sha256 env rq query channel message reply : 0 ≤ ae_request_id env → carried rq (parse_query_string query) →
  handle_command hmac_sha256 env rq query = (Some (channel, message), reply) → let params := parse_query_string query in
  ∃ base, publishes rq params base ∧ sp_ok (parse_selector params) = true ∧ channel = ae_prefix env +:+ (request_kind rq).1 ∧
    build_signed_admin_message hmac_sha256 env (append_selector_command_fields base (parse_selector params)) = Some message.
Proof.
  intros Hid Hc H params. destruct rq as [| | |op]; cbn [handle_command] in H; apply with_selector_sent in H as (base & Hb & Hok & Hch & Hm);
    exists base; (split; [|done]); fold params in Hb, Hc; cbv beta zeta in Hb.
  - destruct (valid_targets params) eqn:E; [done|]. injection Hb as <-. by apply disconnect_publishes.
  - destruct (params !! "text") as [t|] eqn:E; [|done]. case_bool_decide; [done|]. case_bool_decide; [done|]. injection Hb as <-. by apply announce_publishes.
  - destruct (params !! "key") as [k|] eqn:Ek; [|done]. destruct (params !! "value") as [v|] eqn:Ev; [|done]. destruct (_ || _); [done|].
    destruct (parse_u32 (trim v)) eqn:En; [|done]. destruct (find_runtime_setting_rule _) eqn:Er; [|done]. destruct (_ || _); [done|]. injection Hb as <-.
    by eapply setting_publishes.
  - destruct (valid_targets params) eqn:E; [done|]. destruct (moderation_duration params) eqn:Ed; [|done]. injection Hb as <-. by apply moderation_publishes.
Qed.
Ltac each_key := apply (bool_decide_eq_true_1 (_ ∈ selector_keys)); by vm_compute.
(** The selector fields can be read back. *)
Lemma appended_plain rq params base : carried rq params → sp_ok (parse_selector params) = true → plain_fields base →
  plain_fields (append_selector_command_fields base (parse_selector params)).
Proof.
  intros Hc Hok Hb. unfold append_selector_command_fields. destruct (negb _); [done|].
  assert (Hadd : ∀ k l f, key_ok k → k ∈ selector_keys → l = csv_field params k → plain_fields f → plain_fields (append_csv_field k l f)).
  { intros k l f Hk Hk' Hl Hf. unfold append_csv_field. destruct l as [|t l]; [done|]. apply plain_fields_insert; [done| |done]. rewrite Hl. apply join_csv_plain; [by rewrite <-Hl|].
    eapply Forall_impl; [apply (carried_csv rq params k Hc); set_solver|]. intros x [(? & ? & _) ?]. done. }
  pose proof (λ k H, parsed_list params k Hok H) as Hl. cbv zeta.
  do 6 (apply Hadd; [key|each_key|first [exact (Hl "tags" ltac:(each_key))|exact (Hl "shards" ltac:(each_key))|exact (Hl "regions" ltac:(each_key))
    |exact (Hl "game_modes" ltac:(each_key))|exact (Hl "roles" ltac:(each_key))|exact (Hl "server_ids" ltac:(each_key))]|]).
  destruct (sp_all_specified _); [|done]. apply plain_fields_insert; [key|by destruct (sel_all _)|done].
Qed.
(** Whether a server is among those that were asked for. *)
Definition addressed (local : InstanceRecord) (params : FieldMap) : bool :=
  negb (sp_specified (parse_selector params)) || matches_selector local (sp_selector (parse_selector params)).
Lemma signed_selector hmac_sha256 base params issued nonce secret : no_selector base → sp_ok (parse_selector params) = true →
  (sp_specified (parse_selector params) = true → sp_all_specified (parse_selector params) || names_instances (sp_selector (parse_selector params)) = true) →
  let sp := parse_selector (signed hmac_sha256 (append_selector_command_fields base (parse_selector params)) issued nonce secret) in
  ∀ local, negb (sp_specified sp) || sp_ok sp && matches_selector local (sp_selector sp) = addressed local params.
Proof.
  intros Hb Hok Hnames sp local. unfold sp, addressed. rewrite (parse_selector_ext _ (append_selector_command_fields base (parse_selector params))).
  - destruct (sp_specified (parse_selector params)) eqn:E; [|by rewrite unselected].
    destruct (server_selector base params Hb Hok E (Hnames eq_refl)) as (-> & -> & ->). done.
  - intros k Hk. apply signed_lookup. unfold selector_keys in Hk. rewrite !elem_of_cons, elem_of_nil in *. intuition congruence.
Qed.
Lemma signed_agrees hmac_sha256 base params issued nonce secret :
  agrees base (signed hmac_sha256 (append_selector_command_fields base (parse_selector params)) issued nonce secret).
Proof. intros k Hk. unfold added_keys in Hk. rewrite signed_lookup by set_solver. apply appended_other. set_solver. Qed.

(** C12: A command that survives the line format reaches exactly the servers it
    was meant for.  When the admin application publishes the command of a request,
    a chat server with the same secret, to which the nonce is new and which
    receives it within the time window, calls the chat service with the users,
    text, setting or sanction of the request if the request's selector covers the
    server, and does nothing otherwise.  The request must be [carried]: no line
    breaks in its lists, no comma in [client_id], a selector that is absent, covers
    all or names something, and for a moderation an operation on one line and a
    reason that does not end in a blank when it is cut.
    The lemmas [empty_selector_reaches_all], [comma_splits_client] and
    [cut_reason_refused] show what happens to the others. *)
Theorem admin_request_executed (hmac_sha256 : string → string → option (list Z)) (env : AdminEnv) (rq : AdminRequest)
    (query channel message gateway_id : string) (reply : AdminReply) (v : Verifier) (local : InstanceRecord) (now : Z)
    (Hhmac : ∀ key data, ∃ b digest, hmac_sha256 key data = Some (b :: digest))
    (Hsent : handle_command hmac_sha256 env rq query = (Some (channel, message), reply))
    (Hcarried : carried rq (parse_query_string query))
    (Hid : 0 ≤ ae_request_id env) (Hclock : is_u64 (ae_now env)) (Hnonce : plain (ae_nonce env) ∧ ae_nonce env ≠ EmptyString)
    (Hsecret : secret_ v = ae_secret env) (Hgateway : gateway_id ≠ "admin_app") (Hfresh : seen_nonces_ v !! ae_nonce env = None)
    (Htime : ae_now env ≤ u64 (now + future_skew_ms (options_ v)) ∧ now ≤ u64 (ae_now env + ttl_ms (options_ v))) :
  ∃ command, meant rq (parse_query_string query) = Some command ∧
    (on_fanout_message hmac_sha256 (ae_prefix env) gateway_id local v now channel message).2 =
      if addressed local (parse_query_string query) then faAdmin command else faNone.
Proof.
  destruct (request_publishes _ _ _ _ _ _ _ Hid Hcarried Hsent) as (base & (Hp & Hb & command & Hm & Hd) & Hok & -> & Hmsg).
  exists command. split; [done|]. unfold build_signed_admin_message in Hmsg.
  destruct (decide (ae_secret env = EmptyString)) as [E|Hs].
  { unfold append_signature_fields in Hmsg. by rewrite bool_decide_eq_true_2 in Hmsg. }
  rewrite append_signed in Hmsg by done. injection Hmsg as <-. rewrite <-Hsecret in *. destruct Hnonce, Htime.
  rewrite (signed_delivery hmac_sha256 Hhmac v local now gateway_id (ae_prefix env) _ (request_kind rq).2); try done.
  - rewrite signed_selector; [|done..|apply Hcarried]. by rewrite (Hd _ (signed_agrees hmac_sha256 _ _ _ _ _)).
  - by apply (appended_plain rq).
  - by destruct rq.
  - unfold exact_suffixes. destruct rq; cbn; rewrite !elem_of_cons; tauto.
Qed.

(** ** Runs *)
(** A keyed checksum in place of OpenSSL's digest. *)
Fixpoint checksum (s : string) (acc : Z) : Z := match s with EmptyString => acc | String c s => checksum s ((acc * 31 + code c) mod 65521) end.
Definition demo_hmac (key data : string) : option (list Z) := let h := checksum data (checksum key 7) in Some [h / 256; h mod 256].
Definition demo_env_at (now : Z) (nonce : string) : AdminEnv :=
  {| ae_redis := true; ae_published := true; ae_prefix := "knights:"; ae_secret := "top"; ae_now := now; ae_nonce := nonce; ae_actor := "root"; ae_request_id := 7 |}.
Definition demo_env (nonce : string) : AdminEnv := demo_env_at 1000000 nonce.
Definition demo_verifier : Verifier := {| secret_ := "top"; options_ := {| ttl_ms := 60000; future_skew_ms := 5000 |}; seen_nonces_ := ∅ |}.
Definition demo_server (id : string) : InstanceRecord := set_instance_id id empty_record.
Definition demo_query : string := "client_id=bob&client_ids=carol,+dave&reason=flooding&duration_sec=90&server_ids=chat-1,chat-2".
Definition sent_message (r : AdminResult) : string := match r.1 with Some (_, m) => m | None => EmptyString end.
Definition demo_receives (id channel message : string) (v : Verifier) (now : Z) : Verifier * FanoutAction :=
  on_fanout_message demo_hmac "knights:" "gw-1" (demo_server id) v now channel message.
Definition demo_mute : string := sent_message (handle_command demo_hmac (demo_env "n1") (rqModeration "mute") demo_query).
Lemma demo_carried : carried (rqModeration "mute") (parse_query_string demo_query).
Proof.
  assert (H : map_Forall (λ _ v, has_char newline v = false) (parse_query_string demo_query)) by (apply (bool_decide_eq_true_1 _); by vm_compute).
  split; [by intros k v _ ?%H| |by intros _; vm_compute|split_and!; by vm_compute]. intros v Hv. vm_compute in Hv. by injection Hv as <-.
Qed.
Lemma admin_request_executed_witness :
  handle_command demo_hmac (demo_env "n1") (rqModeration "mute") demo_query = (Some ("knights:fanout:admin:moderation", demo_mute), reAccepted "knights:fanout:admin:moderation") ∧
  (demo_receives "chat-1" "knights:fanout:admin:moderation" demo_mute demo_verifier 1000300).2 = faAdmin (acModeration "mute" ["bob"; "carol"; "dave"] 90 "flooding") ∧
  (demo_receives "chat-3" "knights:fanout:admin:moderation" demo_mute demo_verifier 1000300).2 = faNone.
Proof.
  assert (H : ∀ id, ∃ command, meant (rqModeration "mute") (parse_query_string demo_query) = Some command ∧
    (demo_receives id "knights:fanout:admin:moderation" demo_mute demo_verifier 1000300).2 =
      if addressed (demo_server id) (parse_query_string demo_query) then faAdmin command else faNone).
  { intros id. refine (admin_request_executed demo_hmac (demo_env "n1") (rqModeration "mute") demo_query "knights:fanout:admin:moderation" demo_mute "gw-1"
      (reAccepted "knights:fanout:admin:moderation") demo_verifier (demo_server id) 1000300 _ _ demo_carried _ _ _ _ _ _ _).
    1: intros key data; by eexists _, _. all: by vm_compute. }
  split; [by vm_compute|]. split; [destruct (H "chat-1") as (c & Hc & ->)|destruct (H "chat-3") as (c & Hc & ->)]; vm_compute in Hc; injection Hc as <-; by vm_compute.
Defined.
Definition demo_fields : FieldMap := parse_kv_lines (default EmptyString (snd <$> cut newline demo_mute)).
Definition other_fields : FieldMap :=
  parse_kv_lines (default EmptyString (snd <$> cut newline (sent_message (handle_command demo_hmac (demo_env_at 1070000 "n2") rqAnnounce "text=hello")))).
Lemma admin_commands_once_witness : let calls := [(demo_fields, 1000300); (demo_fields, 1000400); (other_fields, 1070300); (demo_fields, 1070400)] in
  (verify_all demo_hmac demo_verifier calls).2 = [kOk; kReplay; kOk; kExpired] ∧
  (verify_all demo_hmac demo_verifier calls).2 !! 3%nat ≠ Some kOk.
Proof.
  intros calls. split; [by vm_compute|].
  assert (Hs : StronglySorted Z.le calls.*2).
  { change (StronglySorted Z.le [1000300; 1000400; 1070300; 1070400]). apply Sorted_StronglySorted; [exact Z.le_trans|]. repeat constructor; lia. }
  eapply (proj2 (admin_commands_once demo_hmac demo_verifier calls Hs) 0%nat 3%nat demo_fields); [lia|reflexivity..|by vm_compute].
Defined.
(** The clock of a message is read before the lock is taken: a message that waits
    while a later one purges its nonce is accepted a second time. *)
Lemma late_check_replays : (verify_all demo_hmac demo_verifier [(demo_fields, 1000300); (other_fields, 1070300); (demo_fields, 1000400)]).2 = [kOk; kOk; kOk].
Proof. by vm_compute. Qed.
(** A selector whose lists are all empty addresses no server, and every server executes the command. *)
Lemma empty_selector_reaches_all : let query := "text=hello&server_ids=" in
  addressed (demo_server "chat-1") (parse_query_string query) = false ∧
  (demo_receives "chat-1" "knights:fanout:admin:announce" (sent_message (handle_command demo_hmac (demo_env "n1") rqAnnounce query)) demo_verifier 1000300).2
    = faAdmin (acAnnounce "hello").
Proof. by vm_compute. Qed.
(** A moderation reason that is cut after a blank breaks the signature. *)
Definition long_reason : string := String.concat EmptyString (repeat "spam+" 41).
Lemma cut_reason_refused :
  (handle_command demo_hmac (demo_env "n1") (rqModeration "ban") ("client_id=bob&reason=" +:+ long_reason)).2 = reAccepted "knights:fanout:admin:moderation" ∧
  (demo_receives "chat-1" "knights:fanout:admin:moderation" (sent_message (handle_command demo_hmac (demo_env "n1") (rqModeration "ban") ("client_id=bob&reason=" +:+ long_reason)))
     demo_verifier 1000300).2 = faNone.
Proof. by vm_compute. Qed.
(** The signature does not cover the channel: a signed mute is also a disconnect. *)
Lemma channel_not_signed : (demo_receives "chat-1" "knights:fanout:admin:disconnect" demo_mute demo_verifier 1000300).2 =
  faAdmin (acDisconnect ["bob"; "carol"; "dave"] "flooding").
Proof. by vm_compute. Qed.
(** A client id with a comma, taken from [client_id], becomes two users. *)
Lemma comma_splits_client :
  (demo_receives "chat-1" "knights:fanout:admin:disconnect" (sent_message (handle_command demo_hmac (demo_env "n1") rqDisconnect "client_id=a%2Cb")) demo_verifier 1000300).2 =
  faAdmin (acDisconnect ["a"; "b"] "Disconnected by administrator").
Proof. by vm_compute. Qed.
